(** * The Strada runtime: values, containers, objects, closures, exceptions

    A shallow embedding of the dynamic value and object runtime of
    [runtime/strada_runtime.c] (with the declarations of
    [runtime/strada_runtime.h]), and the properties its specification states
    about it.

    Conventions of the embedding.
    - A pointer is an [option] of an address: [None] is [NULL].  Every kind of
      heap object ([StradaValue], [StradaArray], [StradaHash],
      [StradaClosure], a pointer variable) lives in its own finite map of the
      machine state; [malloc] picks an address that is not in use.
    - [int] is 32 bits wide and wraps around; [unsigned int] is reduced
      modulo [2^32].  Sizes ([size_t]) count objects that are really in
      memory and are kept as the length of the list that models the array.
    - A function that may not return (recursion through the heap, native
      destructors) takes a [fuel] argument and yields a [result]:
      [Done], [OutOfFuel], [Fault] (undefined behaviour: a dangling pointer
      is used), [Exit] (the process is terminated by [exit]) or [Jump] (the
      function is left by [longjmp] to a try frame, in the state given; the
      rest of every function on the way is skipped).
    - What the C library does (number formatting and parsing) is a
      parameter, the record [Libc]. *)

From Stdlib Require Import ZArith PrimFloat Ascii.
From stdpp Require Import gmap strings list pretty.

Open Scope Z_scope.

(** ** Machine integers *)

Definition INT_MAX : Z := 2147483647.
Definition INT_MIN : Z := -2147483648.

(** Two's complement wrap-around of a 32-bit [int]. *)
Definition int32 (x : Z) : Z := (x + 2147483648) mod 4294967296 - 2147483648.

(** Reduction of an [unsigned int]. *)
Definition uint32 (x : Z) : Z := x mod 4294967296.

(** ** C strings *)

Definition NUL : Ascii.ascii := Ascii.zero.

(** The C string a buffer holds: its bytes before the first NUL.  A [Str]
    value built by [strada_new_str_len] may hold binary data with NUL bytes
    inside; [strlen], [strdup], [strcmp], [atoll] see only this prefix. *)
Fixpoint cstr (s : string) : string :=
  match s with
  | EmptyString => EmptyString
  | String c s' => if Ascii.eqb c NUL then EmptyString else String c (cstr s')
  end.

(** [strcmp(a, b) == 0] on the buffers [a] and [b]. *)
Definition strcmp_eq (a b : string) : bool := String.eqb (cstr a) (cstr b).

(** [!s[0]]: the C string at [s] is empty. *)
Definition first_is_nul (s : string) : bool :=
  match s with
  | EmptyString => true
  | String c _ => Ascii.eqb c NUL
  end.

(** [strncpy(dst, src, n); dst[n] = 0]: the C string that the destination
    then holds, the first [n] bytes of the C string at [src] (the copy stops
    at the NUL and pads with NUL bytes). *)
Fixpoint strncpy (n : nat) (s : string) : string :=
  match n, s with
  | O, _ => EmptyString
  | _, EmptyString => EmptyString
  | S n', String c s' =>
      if Ascii.eqb c NUL then EmptyString else String c (strncpy n' s')
  end.

(** ** Data model *)

Definition addr := nat.
Abbreviation ptr := (option addr) (only parsing).

(** A native function pointer ([StradaMethod], [func_ptr]). *)
Definition StradaMethod := nat.

Inductive StradaType :=
  | STRADA_UNDEF | STRADA_INT | STRADA_NUM | STRADA_STR | STRADA_ARRAY
  | STRADA_HASH | STRADA_REF | STRADA_FILEHANDLE | STRADA_REGEX
  | STRADA_SOCKET | STRADA_CSTRUCT | STRADA_CPOINTER | STRADA_CLOSURE.

(** The [type] tag together with the member of the [value] union that the
    tag selects. *)
Inductive StradaPayload :=
  | PUndef
  | PInt (iv : Z)
  | PNum (nv : float)
  | PStr (pv : option string)
  | PArray (av : ptr)
  | PHash (hv : ptr)
  | PRef (rv : ptr)
  | PFileHandle (fh : ptr)
  | PRegex (rx : ptr)
  | PSocket (sockfd : Z)
  | PCStruct (p : ptr) (struct_name : option string)
  | PCPointer (p : ptr)
  | PClosure (cl : ptr).

Definition type_of (p : StradaPayload) : StradaType :=
  match p with
  | PUndef => STRADA_UNDEF
  | PInt _ => STRADA_INT
  | PNum _ => STRADA_NUM
  | PStr _ => STRADA_STR
  | PArray _ => STRADA_ARRAY
  | PHash _ => STRADA_HASH
  | PRef _ => STRADA_REF
  | PFileHandle _ => STRADA_FILEHANDLE
  | PRegex _ => STRADA_REGEX
  | PSocket _ => STRADA_SOCKET
  | PCStruct _ _ => STRADA_CSTRUCT
  | PCPointer _ => STRADA_CPOINTER
  | PClosure _ => STRADA_CLOSURE
  end.

Definition is_ref (p : StradaPayload) : bool :=
  match p with PRef _ => true | _ => false end.

Record StradaValue := mkValue {
  refcount : Z;
  value : StradaPayload;
  blessed_package : option string
}.

(** [size] is the length of [elements]. *)
Record StradaArray := mkArray {
  elements : list ptr;
  capacity : Z;
  a_refcount : Z
}.

Record StradaHashEntry := mkEntry {
  key : string;
  e_value : ptr
}.

(** [buckets] holds one chain per bucket, the head of the chain first;
    [num_buckets] is the length of [buckets]. *)
Record StradaHash := mkHash {
  buckets : list (list StradaHashEntry);
  num_entries : Z;
  h_refcount : Z
}.

Definition num_buckets (h : StradaHash) : Z := Z.of_nat (length (buckets h)).

(** [captures] lists the addresses of the capture cells, each a
    [StradaValue*] variable of its own. *)
Record StradaClosure := mkClosure {
  func_ptr : StradaMethod;
  param_count : Z;
  capture_count : Z;
  captures : option (list ptr)
}.

Record OopMethod := mkMethod {
  m_name : string;
  func : StradaMethod
}.

(** [parent_count] and [method_count] are the lengths of the lists. *)
Record OopPackage := mkPackage {
  name : string;
  parents : list string;
  methods : list OopMethod
}.

Definition OOP_MAX_PACKAGES : Z := 256.
Definition OOP_MAX_METHODS : Z := 256.
Definition OOP_MAX_NAME_LEN : nat := 256.
Definition OOP_MAX_PARENTS : Z := 16.
Definition STRADA_MAX_TRY_DEPTH : Z := 64.

(** What the runtime lets an observer see: the calls of the profiling hook
    at the entry of [strada_free_value], the destructor invocations and the
    corruption reports on [stderr]. *)
Inductive Event :=
  | EvFree (sv : addr)
  | EvDestroy (obj : addr) (destroy : StradaMethod)
  | EvNonRefBlessed (sv : addr)
  | EvCorruptPackage (sv : addr).

Record State := mkState {
  values : gmap addr StradaValue;
  arrays : gmap addr StradaArray;
  hashes : gmap addr StradaHash;
  closures : gmap addr StradaClosure;
  cells : gmap addr ptr;
  strada_default_hash_capacity : Z;
  oop_packages : list OopPackage;
  oop_initialized : bool;
  oop_destroying : bool;
  strada_try_stack : list bool;
  strada_try_depth : Z;
  strada_exception_msg : option string;
  trace : list Event
}.

Inductive result (A : Type) :=
  | Done (a : A)
  | OutOfFuel
  | Fault
  | Exit (code : Z)
  | Jump (frame : Z) (s : State).

Arguments Done {A} a.
Arguments OutOfFuel {A}.
Arguments Fault {A}.
Arguments Exit {A} code.
Arguments Jump {A} frame s.

Definition bind {A B : Type} (r : result A) (f : A -> result B) : result B :=
  match r with
  | Done a => f a
  | OutOfFuel => OutOfFuel
  | Fault => Fault
  | Exit c => Exit c
  | Jump i s => Jump i s
  end.

Notation "x <- r ;; k" := (bind r (fun x => k))
  (at level 100, r at next level, right associativity).

(** The native code behind a method pointer, seen from the runtime: the
    reference-count operations it performs, given its receiver, and the
    exception it may end with ([strada_throw]). *)
Inductive Cmd :=
  | CIncref (sv : ptr)
  | CDecref (sv : ptr)
  | CThrow (msg : option string).

Definition Native := StradaMethod -> addr -> list Cmd.

(** The C library, as far as the conversions use it. *)
Record Libc := mkLibc {
  atoll : string -> Z;
  atof : string -> float;
  fmt_lld : Z -> string;
  fmt_g : float -> string;
  fmt_ptr : string -> ptr -> string;
  fmt_socket : Z -> string;
  fmt_cstruct : string -> ptr -> string;
  double_to_int64 : float -> Z;
  int64_to_double : Z -> float
}.

(** *** Field updates *)

Definition with_values (m : gmap addr StradaValue) (s : State) : State :=
  mkState m (arrays s) (hashes s) (closures s) (cells s)
    (strada_default_hash_capacity s) (oop_packages s) (oop_initialized s)
    (oop_destroying s) (strada_try_stack s) (strada_try_depth s)
    (strada_exception_msg s) (trace s).

Definition with_arrays (m : gmap addr StradaArray) (s : State) : State :=
  mkState (values s) m (hashes s) (closures s) (cells s)
    (strada_default_hash_capacity s) (oop_packages s) (oop_initialized s)
    (oop_destroying s) (strada_try_stack s) (strada_try_depth s)
    (strada_exception_msg s) (trace s).

Definition with_hashes (m : gmap addr StradaHash) (s : State) : State :=
  mkState (values s) (arrays s) m (closures s) (cells s)
    (strada_default_hash_capacity s) (oop_packages s) (oop_initialized s)
    (oop_destroying s) (strada_try_stack s) (strada_try_depth s)
    (strada_exception_msg s) (trace s).

Definition with_closures (m : gmap addr StradaClosure) (s : State) : State :=
  mkState (values s) (arrays s) (hashes s) m (cells s)
    (strada_default_hash_capacity s) (oop_packages s) (oop_initialized s)
    (oop_destroying s) (strada_try_stack s) (strada_try_depth s)
    (strada_exception_msg s) (trace s).

Definition with_cells (m : gmap addr ptr) (s : State) : State :=
  mkState (values s) (arrays s) (hashes s) (closures s) m
    (strada_default_hash_capacity s) (oop_packages s) (oop_initialized s)
    (oop_destroying s) (strada_try_stack s) (strada_try_depth s)
    (strada_exception_msg s) (trace s).

Definition with_packages (l : list OopPackage) (s : State) : State :=
  mkState (values s) (arrays s) (hashes s) (closures s) (cells s)
    (strada_default_hash_capacity s) l (oop_initialized s)
    (oop_destroying s) (strada_try_stack s) (strada_try_depth s)
    (strada_exception_msg s) (trace s).

Definition with_initialized (b : bool) (s : State) : State :=
  mkState (values s) (arrays s) (hashes s) (closures s) (cells s)
    (strada_default_hash_capacity s) (oop_packages s) b
    (oop_destroying s) (strada_try_stack s) (strada_try_depth s)
    (strada_exception_msg s) (trace s).

Definition with_destroying (b : bool) (s : State) : State :=
  mkState (values s) (arrays s) (hashes s) (closures s) (cells s)
    (strada_default_hash_capacity s) (oop_packages s) (oop_initialized s)
    b (strada_try_stack s) (strada_try_depth s)
    (strada_exception_msg s) (trace s).

Definition with_try (stack : list bool) (depth : Z) (s : State) : State :=
  mkState (values s) (arrays s) (hashes s) (closures s) (cells s)
    (strada_default_hash_capacity s) (oop_packages s) (oop_initialized s)
    (oop_destroying s) stack depth (strada_exception_msg s) (trace s).

Definition with_exception_msg (m : option string) (s : State) : State :=
  mkState (values s) (arrays s) (hashes s) (closures s) (cells s)
    (strada_default_hash_capacity s) (oop_packages s) (oop_initialized s)
    (oop_destroying s) (strada_try_stack s) (strada_try_depth s) m (trace s).

Definition log (e : Event) (s : State) : State :=
  mkState (values s) (arrays s) (hashes s) (closures s) (cells s)
    (strada_default_hash_capacity s) (oop_packages s) (oop_initialized s)
    (oop_destroying s) (strada_try_stack s) (strada_try_depth s)
    (strada_exception_msg s) (trace s ++ [e]).

(** The state of a process that has just started: empty heaps, the static
    variables at their initialisers. *)
Definition initial_state : State :=
  mkState ∅ ∅ ∅ ∅ ∅ 16 [] false false (replicate 64 false) 0 None [].

(** [malloc] of a [StradaValue]: an address that holds no value. *)
Definition alloc_value (v : StradaValue) (s : State) : addr * State :=
  let a := fresh (dom (values s)) in
  (a, with_values (<[a := v]> (values s)) s).

(** ** Value creation and reference counting *)

(** [strada_new_undef]. *)
Definition strada_new_undef (s : State) : addr * State :=
  alloc_value (mkValue 1 PUndef None) s.

(** [strada_new_int]. *)
Definition strada_new_int (i : Z) (s : State) : addr * State :=
  alloc_value (mkValue 1 (PInt i) None) s.

(** [strada_new_str]: the value owns a copy ([strdup]) of the C string. *)
Definition strada_new_str (str : option string) (s : State) : addr * State :=
  alloc_value
    (mkValue 1 (PStr (Some (match str with Some x => cstr x | None => EmptyString end))) None) s.

(** [strada_new_str_len]: binary data of known length. *)
Definition strada_new_str_len (str : option string) (s : State) : addr * State :=
  alloc_value
    (mkValue 1 (PStr (Some (match str with Some x => x | None => EmptyString end))) None) s.

Definition set_refcount (a : addr) (rc : Z) (s : State) : State :=
  match values s !! a with
  | Some v => with_values (<[a := mkValue rc (value v) (blessed_package v)]> (values s)) s
  | None => s
  end.

Definition set_blessed (a : addr) (pk : option string) (s : State) : State :=
  match values s !! a with
  | Some v => with_values (<[a := mkValue (refcount v) (value v) pk]> (values s)) s
  | None => s
  end.

(** [strada_incref]: [if (sv) __sync_add_and_fetch(&sv->refcount, 1)]. *)
Definition strada_incref (sv : ptr) (s : State) : result State :=
  match sv with
  | None => Done s
  | Some a =>
      match values s !! a with
      | None => Fault
      | Some v => Done (set_refcount a (int32 (refcount v + 1)) s)
      end
  end.

(** [strada_decref], with the call of [strada_free_value] left open. *)
Definition decref_body (free_value : ptr -> State -> result State)
    (sv : ptr) (s : State) : result State :=
  match sv with
  | None => Done s
  | Some a =>
      match values s !! a with
      | None => Fault
      | Some v =>
          let rc := int32 (refcount v - 1) in
          let s1 := set_refcount a rc s in
          if rc <=? 0 then free_value sv s1 else Done s1
      end
  end.

(** ** Type conversion *)

(** [strada_array_length]. *)
Definition strada_array_length (av : ptr) (s : State) : result Z :=
  match av with
  | None => Done 0
  | Some a =>
      match arrays s !! a with
      | None => Fault
      | Some arr => Done (Z.of_nat (length (elements arr)))
      end
  end.

(** [strada_to_int]. *)
Definition strada_to_int (L : Libc) (sv : ptr) (s : State) : result Z :=
  match sv with
  | None => Done 0
  | Some a =>
      match values s !! a with
      | None => Fault
      | Some v =>
          match value v with
          | PInt iv => Done iv
          | PNum nv => Done (double_to_int64 L nv)
          | PStr pv => Done (match pv with Some x => atoll L (cstr x) | None => 0 end)
          | PArray av => strada_array_length av s
          | _ => Done 0
          end
      end
  end.

(** [strada_to_num]. *)
Definition strada_to_num (L : Libc) (sv : ptr) (s : State) : result float :=
  match sv with
  | None => Done 0%float
  | Some a =>
      match values s !! a with
      | None => Fault
      | Some v =>
          match value v with
          | PInt iv => Done (int64_to_double L iv)
          | PNum nv => Done nv
          | PStr pv => Done (match pv with Some x => atof L (cstr x) | None => 0%float end)
          | PArray av => n <- strada_array_length av s ;; Done (int64_to_double L n)
          | PHash hv => Done (match hv with Some _ => 1%float | None => 0%float end)
          | PRef rv => Done (match rv with Some _ => 1%float | None => 0%float end)
          | _ => Done 0%float
          end
      end
  end.

(** [snprintf(buf, sizeof(buf), ...)] into the 128-byte buffer. *)
Definition snprintf128 (formatted : string) : string := strncpy 127 formatted.

(** [strada_to_str]. *)
Definition strada_to_str (L : Libc) (sv : ptr) (s : State) : result string :=
  match sv with
  | None => Done EmptyString
  | Some a =>
      match values s !! a with
      | None => Fault
      | Some v =>
          match value v with
          | PInt iv => Done (snprintf128 (fmt_lld L iv))
          | PNum nv => Done (snprintf128 (fmt_g L nv))
          | PStr pv => Done (match pv with Some x => cstr x | None => EmptyString end)
          | PArray av => Done (snprintf128 (fmt_ptr L "ARRAY" av))
          | PHash hv => Done (snprintf128 (fmt_ptr L "HASH" hv))
          | PFileHandle fh => Done (snprintf128 (fmt_ptr L "FILEHANDLE" fh))
          | PRegex rx => Done (snprintf128 (fmt_ptr L "REGEX" rx))
          | PSocket fd => Done (snprintf128 (fmt_socket L fd))
          | PCStruct p (Some n) => Done (snprintf128 (fmt_cstruct L n p))
          | PCStruct p None => Done (snprintf128 (fmt_ptr L "CSTRUCT" p))
          | PCPointer p => Done (snprintf128 (fmt_ptr L "CPOINTER" p))
          | _ => Done EmptyString
          end
      end
  end.

(** [pv && pv[0] != '\0' && strcmp(pv, "0") != 0]. *)
Definition str_truth (pv : option string) : bool :=
  match pv with
  | None => false
  | Some x =>
      match x with
      | EmptyString => false
      | String c _ => negb (Ascii.eqb c NUL) && negb (strcmp_eq x "0")
      end
  end.

(** [strada_to_bool]; the recursion follows the chain of references. *)
Fixpoint strada_to_bool (fuel : nat) (sv : ptr) (s : State) : result bool :=
  match fuel with
  | O => OutOfFuel
  | S fuel' =>
      match sv with
      | None => Done false
      | Some a =>
          match values s !! a with
          | None => Fault
          | Some v =>
              match value v with
              | PUndef => Done false
              | PInt iv => Done (negb (iv =? 0))
              | PNum nv => Done (negb (PrimFloat.eqb nv 0%float))
              | PStr pv => Done (str_truth pv)
              | PArray av =>
                  match av with
                  | None => Done false
                  | Some _ => n <- strada_array_length av s ;; Done (0 <? n)
                  end
              | PHash hv =>
                  match hv with
                  | None => Done false
                  | Some h =>
                      match hashes s !! h with
                      | None => Fault
                      | Some tbl => Done (0 <? num_entries tbl)
                      end
                  end
              | PRef rv =>
                  match rv with
                  | Some _ => strada_to_bool fuel' rv s
                  | None => Done false
                  end
              | _ => Done true
              end
          end
      end
  end.

(** ** The package registry and method lookup *)

(** [strada_oop_init]. *)
Definition strada_oop_init (s : State) : State :=
  if oop_initialized s then s
  else with_initialized true (with_packages [] s).

(** [oop_find_package]: the first registered package whose name compares
    equal ([strcmp]). *)
Fixpoint oop_find_package (pkgs : list OopPackage) (n : string) : option OopPackage :=
  match pkgs with
  | [] => None
  | p :: rest => if strcmp_eq (name p) n then Some p else oop_find_package rest n
  end.

(** [oop_get_or_create_package]: the registry afterwards. *)
Definition oop_get_or_create_package (n : string) (s : State) : result State :=
  match oop_find_package (oop_packages s) n with
  | Some _ => Done s
  | None =>
      if OOP_MAX_PACKAGES <=? Z.of_nat (length (oop_packages s)) then Exit 1
      else Done (with_packages
                   (oop_packages s ++ [mkPackage (strncpy (OOP_MAX_NAME_LEN - 1) n) [] []]) s)
  end.

(** The slot that [oop_get_or_create_package] returns: that of the first
    package of this name, or else the next free one. *)
Fixpoint package_index (pkgs : list OopPackage) (n : string) : option nat :=
  match pkgs with
  | [] => None
  | p :: rest =>
      if strcmp_eq (name p) n then Some O
      else match package_index rest n with Some i => Some (S i) | None => None end
  end.

Definition returned_slot (n : string) (s : State) : nat :=
  match package_index (oop_packages s) n with
  | Some i => i
  | None => length (oop_packages s)
  end.

(** The loop over [pkg->methods]. *)
Fixpoint find_method (ms : list OopMethod) (method : string) : option StradaMethod :=
  match ms with
  | [] => None
  | m :: rest => if strcmp_eq (m_name m) method then Some (func m) else find_method rest method
  end.

(** The package is appended to the [visited] array when fewer than 64
    entries are in use ([if (count < 64) visited[count++] = package]). *)
Definition mark_visited (visited : list string) (package : string) : list string :=
  if Z.of_nat (length visited) <? 64 then visited ++ [package] else visited.

(** The loop over [pkg->parents] of [oop_lookup_method_in], with the
    recursive call left open. *)
Fixpoint lookup_parents
    (rec : string -> list string -> result (option StradaMethod * list string))
    (ps : list string) (visited : list string)
    : result (option StradaMethod * list string) :=
  match ps with
  | [] => Done (None, visited)
  | p :: rest =>
      r <- rec p visited ;;
      match fst r with
      | Some f => Done (Some f, snd r)
      | None => lookup_parents rec rest (snd r)
      end
  end.

(** [oop_lookup_method_in]: the method found, and the visited array as the
    call leaves it. *)
Fixpoint oop_lookup_method_in (fuel : nat) (pkgs : list OopPackage)
    (package : string) (method : string) (visited : list string)
    : result (option StradaMethod * list string) :=
  match fuel with
  | O => OutOfFuel
  | S fuel' =>
      if first_is_nul package then Done (None, visited)
      else if existsb (fun x => strcmp_eq x package) visited then Done (None, visited)
      else
        let visited1 := mark_visited visited package in
        match oop_find_package pkgs package with
        | None => Done (None, visited1)
        | Some pkg =>
            match find_method (methods pkg) method with
            | Some f => Done (Some f, visited1)
            | None =>
                lookup_parents
                  (fun p vis => oop_lookup_method_in fuel' pkgs p method vis)
                  (parents pkg) visited1
            end
        end
  end.

(** [oop_lookup_method]. *)
Definition oop_lookup_method (fuel : nat) (s : State)
    (package method : option string) : result (option StradaMethod) :=
  match package, method with
  | Some p, Some m =>
      if oop_initialized s then
        r <- oop_lookup_method_in fuel (oop_packages s) p m [] ;; Done (fst r)
      else Done None
  | _, _ => Done None
  end.

(** The outcome of a call that ends in a native method: the method that
    runs, on which receiver. *)
Inductive Dispatch :=
  | Invoke (f : StradaMethod) (obj : addr).

(** The loop over the parents in [strada_super_call]. *)
Fixpoint super_search (fuel : nat) (s : State) (ps : list string) (method : string)
    : result (option StradaMethod) :=
  match ps with
  | [] => Done None
  | p :: rest =>
      r <- oop_lookup_method fuel s (Some p) (Some method) ;;
      match r with
      | Some f => Done (Some f)
      | None => super_search fuel s rest method
      end
  end.

(** [strada_super_call], up to the call of the method it found. *)
Definition strada_super_call (fuel : nat) (obj : ptr) (from_package method : option string)
    (s : State) : result (Dispatch * State) :=
  match obj, method, from_package with
  | Some a, Some m, Some from =>
      match values s !! a with
      | None => Fault
      | Some v =>
          match blessed_package v with
          | None => Exit 1
          | Some _ =>
              let s1 := strada_oop_init s in
              match oop_find_package (oop_packages s1) from with
              | None => Exit 1
              | Some pkg =>
                  r <- super_search fuel s1 (parents pkg) m ;;
                  match r with
                  | None => Exit 1
                  | Some f => Done (Invoke f a, s1)
                  end
              end
          end
      end
  | _, _, _ => Exit 1
  end.

(** [strada_method_call], up to the call of the method it found. *)
Definition strada_method_call (fuel : nat) (obj : ptr) (method : option string)
    (s : State) : result (Dispatch * State) :=
  match obj, method with
  | Some a, Some m =>
      match values s !! a with
      | None => Fault
      | Some v =>
          match blessed_package v with
          | None => Exit 1
          | Some pk =>
              let s1 := strada_oop_init s in
              r <- oop_lookup_method fuel s1 (Some pk) (Some m) ;;
              match r with
              | None => Exit 1
              | Some f => Done (Invoke f a, s1)
              end
          end
      end
  | _, _ => Exit 1
  end.

(** [strada_inherit]; the child is the package in the slot that
    [oop_get_or_create_package] has returned. *)
Definition strada_inherit (child parent : option string) (s : State) : result State :=
  match child, parent with
  | Some c, Some p =>
      let s0 := strada_oop_init s in
      s1 <- oop_get_or_create_package c s0 ;;
      match oop_packages s1 !! returned_slot c s0 with
      | None => Fault
      | Some pkg =>
          if existsb (fun q => strcmp_eq q p) (parents pkg) then Done s1
          else if OOP_MAX_PARENTS <=? Z.of_nat (length (parents pkg)) then Exit 1
          else
            let pkg' := mkPackage (name pkg)
                          (parents pkg ++ [strncpy (OOP_MAX_NAME_LEN - 1) p]) (methods pkg) in
            oop_get_or_create_package p
              (with_packages (<[returned_slot c s0 := pkg']> (oop_packages s1)) s1)
      end
  | _, _ => Done s
  end.

(** [strada_bless]: the tag is a copy ([strdup]) of the C string. *)
Definition strada_bless (ref : ptr) (package : option string) (s : State)
    : result (ptr * State) :=
  match ref, package with
  | Some a, Some pk =>
      match values s !! a with
      | None => Fault
      | Some _ =>
          s1 <- oop_get_or_create_package pk (strada_oop_init s) ;;
          Done (ref, set_blessed a (Some (cstr pk)) s1)
      end
  | _, _ => Done (ref, s)
  end.

(** [strada_blessed]: the tag as a fresh [Str], or a fresh [Undef]. *)
Definition strada_blessed (ref : ptr) (s : State) : result (addr * State) :=
  match ref with
  | None => Done (strada_new_undef s)
  | Some a =>
      match values s !! a with
      | None => Fault
      | Some v =>
          match blessed_package v with
          | None => Done (strada_new_undef s)
          | Some pk => Done (strada_new_str (Some pk) s)
          end
      end
  end.

Definition printable (c : Ascii.ascii) : bool :=
  let n := Z.of_nat (Ascii.nat_of_ascii c) in (32 <=? n) && (n <=? 126).

(** The scanning loop of [strada_validate_blessed_package],
    [while (len < 256 && pkg[len] != 0)]: the length reached (at most
    [limit]), or [None] when a byte before the NUL is not printable. *)
Fixpoint scan_package (limit : nat) (s : string) : option nat :=
  match limit with
  | O => Some O
  | S limit' =>
      match s with
      | EmptyString => Some O
      | String c s' =>
          if Ascii.eqb c NUL then Some O
          else if printable c then
            match scan_package limit' s' with
            | Some len => Some (S len)
            | None => None
            end
          else None
      end
  end.

(** [strada_validate_blessed_package], for a pointer into the heap (the
    checks on the address range pass). *)
Definition strada_validate_blessed_package (pkg : option string) : bool :=
  match pkg with
  | None => false
  | Some s =>
      match s with
      | EmptyString => false
      | String c _ =>
          if printable c then
            match scan_package 256 s with
            | None => false
            | Some len => negb ((len =? 0)%nat || (256 <=? len)%nat)
            end
          else false
      end
  end.

(** ** Exceptions *)

(** Where control goes when a function does not return. *)
Inductive Control :=
  | Longjmp (frame : Z)
  | ExitProcess (code : Z).

(** [STRADA_TRY_PUSH()]: the index of the frame whose [jmp_buf] is handed
    out, or [NULL]. *)
Definition STRADA_TRY_PUSH (s : State) : option Z * State :=
  if strada_try_depth s <? STRADA_MAX_TRY_DEPTH then
    (Some (strada_try_depth s),
     with_try (<[Z.to_nat (strada_try_depth s) := true]> (strada_try_stack s))
       (strada_try_depth s + 1) s)
  else (None, s).

(** [STRADA_TRY_POP()]. *)
Definition STRADA_TRY_POP (s : State) : bool * State :=
  if 0 <? strada_try_depth s then
    (true,
     with_try (<[Z.to_nat (strada_try_depth s - 1) := false]> (strada_try_stack s))
       (strada_try_depth s - 1) s)
  else (false, s).

Definition frame_active (s : State) (i : Z) : bool :=
  (0 <=? i) && default false (strada_try_stack s !! Z.to_nat i).

(** [strada_in_try_block]. *)
Definition strada_in_try_block (s : State) : bool :=
  (0 <? strada_try_depth s) && frame_active s (strada_try_depth s - 1).

(** [strada_throw]. *)
Definition strada_throw (msg : option string) (s : State) : Control * State :=
  let s1 := with_exception_msg
              (Some (match msg with Some m => cstr m | None => "Unknown error"%string end)) s in
  if strada_in_try_block s1 then (Longjmp (strada_try_depth s1 - 1), s1)
  else (ExitProcess 1, s1).

(** [strada_throw_value]. *)
Definition strada_throw_value (L : Libc) (sv : ptr) (s : State) : result (Control * State) :=
  msg <- strada_to_str L sv s ;;
  let s1 := with_exception_msg (Some msg) s in
  if strada_in_try_block s1 then Done (Longjmp (strada_try_depth s1 - 1), s1)
  else Done (ExitProcess 1, s1).

(** [strada_get_exception]. *)
Definition strada_get_exception (s : State) : addr * State :=
  match strada_exception_msg s with
  | Some m => strada_new_str (Some m) s
  | None => strada_new_str (Some EmptyString) s
  end.

(** [strada_clear_exception]. *)
Definition strada_clear_exception (s : State) : State :=
  with_exception_msg None s.

(** ** Destruction *)

Section Runtime.

Context (native : Native).

(** A native method body, run against the runtime. *)
Fixpoint run_native (decref : ptr -> State -> result State)
    (cmds : list Cmd) (s : State) : result State :=
  match cmds with
  | [] => Done s
  | CIncref p :: rest => s1 <- strada_incref p s ;; run_native decref rest s1
  | CDecref p :: rest => s1 <- decref p s ;; run_native decref rest s1
  | CThrow msg :: _ =>
      match strada_throw msg s with
      | (Longjmp frame, s1) => Jump frame s1
      | (ExitProcess code, _) => Exit code
      end
  end.

(** [strada_call_destroy]; [destroy(obj, NULL)] runs the native body.  When
    the body is left by [longjmp] or [exit], [oop_destroying = 0] is not
    reached. *)
Definition call_destroy_body (fuel : nat) (decref : ptr -> State -> result State)
    (obj : ptr) (s : State) : result State :=
  match obj with
  | None => Done s
  | Some a =>
      match values s !! a with
      | None => Fault
      | Some v =>
          match blessed_package v with
          | None => Done s
          | Some pk =>
              if oop_destroying s then Done s
              else if negb (oop_initialized s) then Done s
              else if negb (strada_validate_blessed_package (Some pk)) then Done s
              else
                r <- oop_lookup_method fuel s (Some pk) (Some "DESTROY"%string) ;;
                match r with
                | None => Done s
                | Some destroy =>
                    let s1 := log (EvDestroy a destroy) (with_destroying true s) in
                    s2 <- run_native decref (native destroy a) s1 ;;
                    Done (with_destroying false s2)
                end
          end
      end
  end.

(** [strada_decref] on each pointer of a list, in order. *)
Fixpoint decref_all (decref : ptr -> State -> result State)
    (l : list ptr) (s : State) : result State :=
  match l with
  | [] => Done s
  | p :: rest => s1 <- decref p s ;; decref_all decref rest s1
  end.

(** [strada_free_array]. *)
Definition free_array_body (decref : ptr -> State -> result State)
    (av : ptr) (s : State) : result State :=
  match av with
  | None => Done s
  | Some a =>
      match arrays s !! a with
      | None => Fault
      | Some arr =>
          let rc := int32 (a_refcount arr - 1) in
          let s1 := with_arrays (<[a := mkArray (elements arr) (capacity arr) rc]> (arrays s)) s in
          if 0 <? rc then Done s1
          else
            s2 <- decref_all decref (elements arr) s1 ;;
            Done (with_arrays (delete a (arrays s2)) s2)
      end
  end.

(** [strada_free_hash]: the entries are released bucket by bucket. *)
Definition free_hash_body (decref : ptr -> State -> result State)
    (hv : ptr) (s : State) : result State :=
  match hv with
  | None => Done s
  | Some a =>
      match hashes s !! a with
      | None => Fault
      | Some h =>
          let rc := int32 (h_refcount h - 1) in
          let s1 := with_hashes (<[a := mkHash (buckets h) (num_entries h) rc]> (hashes s)) s in
          if 0 <? rc then Done s1
          else
            s2 <- decref_all decref (map e_value (concat (buckets h))) s1 ;;
            Done (with_hashes (delete a (hashes s2)) s2)
      end
  end.

(** The loop over the capture cells in the [STRADA_CLOSURE] case of
    [strada_free_value]. *)
Fixpoint free_captures (decref : ptr -> State -> result State)
    (n : nat) (cs : list ptr) (s : State) : result State :=
  match n with
  | O => Done s
  | S n' =>
      match cs with
      | [] => Fault
      | None :: rest => free_captures decref n' rest s
      | Some c :: rest =>
          match cells s !! c with
          | None => Fault
          | Some held =>
              s1 <- match held with Some _ => decref held s | None => Done s end ;;
              free_captures decref n' rest (with_cells (delete c (cells s1)) s1)
          end
      end
  end.

Definition free_closure_body (decref : ptr -> State -> result State)
    (cl : ptr) (s : State) : result State :=
  match cl with
  | None => Done s
  | Some c =>
      match closures s !! c with
      | None => Fault
      | Some clo =>
          s1 <- match captures clo with
                | Some cs => free_captures decref (Z.to_nat (capture_count clo)) cs s
                | None => Done s
                end ;;
          Done (with_closures (delete c (closures s1)) s1)
      end
  end.

(** The [switch (sv->type)] of [strada_free_value]: what the value owns is
    released. *)
Definition release_payload (decref : ptr -> State -> result State)
    (p : StradaPayload) (s : State) : result State :=
  match p with
  | PArray av => free_array_body decref av s
  | PHash hv => free_hash_body decref hv s
  | PRef rv =>
      match rv with
      | Some _ => decref rv s
      | None => Done s
      end
  | PClosure cl => free_closure_body decref cl s
  | _ => Done s
  end.

(** [strada_free_value]. *)
Fixpoint strada_free_value (fuel : nat) (sv : ptr) (s : State) : result State :=
  match fuel with
  | O => OutOfFuel
  | S fuel' =>
      let decref := decref_body (strada_free_value fuel') in
      match sv with
      | None => Done s
      | Some a =>
          match values s !! a with
          | None => Fault
          | Some v =>
              let s0 := log (EvFree a) s in
              s1 <- match blessed_package v with
                    | None => Done s0
                    | Some pk =>
                        if negb (is_ref (value v)) then
                          Done (set_blessed a None (log (EvNonRefBlessed a) s0))
                        else if negb (strada_validate_blessed_package (Some pk)) then
                          Done (set_blessed a None (log (EvCorruptPackage a) s0))
                        else
                          s' <- call_destroy_body fuel' decref sv s0 ;;
                          match values s' !! a with
                          | None => Fault
                          | Some _ => Done (set_blessed a None s')
                          end
                    end ;;
              match values s1 !! a with
              | None => Fault
              | Some v1 =>
                  s2 <- release_payload decref (value v1) s1 ;;
                  match values s2 !! a with
                  | None => Fault
                  | Some _ => Done (with_values (delete a (values s2)) s2)
                  end
              end
          end
      end
  end.

(** [strada_decref]. *)
Definition strada_decref (fuel : nat) : ptr -> State -> result State :=
  decref_body (strada_free_value fuel).

(** [strada_call_destroy]. *)
Definition strada_call_destroy (fuel : nat) : ptr -> State -> result State :=
  call_destroy_body fuel (strada_decref fuel).

(** A sequence of reference-count operations on one value. *)
Inductive RcOp := OpIncref | OpDecref.

Fixpoint run_ops (fuel : nat) (sv : ptr) (ops : list RcOp) (s : State) : result State :=
  match ops with
  | [] => Done s
  | OpIncref :: rest => s1 <- strada_incref sv s ;; run_ops fuel sv rest s1
  | OpDecref :: rest => s1 <- strada_decref fuel sv s ;; run_ops fuel sv rest s1
  end.

(** ** Hash tables *)

Definition char_value (c : Ascii.ascii) : Z :=
  let n := Z.of_nat (Ascii.nat_of_ascii c) in
  if n <? 128 then n else n - 256.

(** The loop of [strada_hash_string]: [hash = ((hash << 5) + hash) + c] in
    [unsigned int] arithmetic, [c] being a (signed) [char] widened to [int]. *)
Fixpoint hash_loop (hash : Z) (str : string) : Z :=
  match str with
  | EmptyString => hash
  | String c rest =>
      if Ascii.eqb c NUL then hash
      else hash_loop (uint32 (uint32 (uint32 (Z.shiftl hash 5) + hash) + char_value c)) rest
  end.

(** [strada_hash_string]. *)
Definition strada_hash_string (str : string) : Z := hash_loop 5381 str.

(** [hash % num_buckets], as an index into the bucket array. *)
Definition bucket_of (n : Z) (k : string) : nat := Z.to_nat (strada_hash_string k mod n).

(** The walk along a chain that compares the keys with [strcmp]. *)
Fixpoint chain_find (chain : list StradaHashEntry) (k : string) : option StradaHashEntry :=
  match chain with
  | [] => None
  | e :: rest => if strcmp_eq (key e) k then Some e else chain_find rest k
  end.

(** [entry->value = sv] on the entry that the walk stops at. *)
Fixpoint chain_replace (chain : list StradaHashEntry) (k : string) (sv : ptr)
    : list StradaHashEntry :=
  match chain with
  | [] => []
  | e :: rest =>
      if strcmp_eq (key e) k then mkEntry (key e) sv :: rest
      else e :: chain_replace rest k sv
  end.


(** One step of the rehash loop: the entry becomes the head of its new chain. *)
Definition rehash_entry (n : Z) (bs : list (list StradaHashEntry)) (e : StradaHashEntry)
    : list (list StradaHashEntry) :=
  alter (cons e) (bucket_of n (key e)) bs.

(** [strada_hash_resize]: twice the buckets, every entry rehashed, bucket by
    bucket and along each chain. *)
Definition strada_hash_resize (h : StradaHash) : StradaHash :=
  let new_num_buckets := num_buckets h * 2 in
  mkHash
    (fold_left (rehash_entry new_num_buckets) (concat (buckets h))
       (replicate (Z.to_nat new_num_buckets) []))
    (num_entries h) (h_refcount h).

(** [strada_hash_new]. *)
Definition strada_hash_new (s : State) : addr * State :=
  let a := fresh (dom (hashes s)) in
  (a, with_hashes
        (<[a := mkHash (replicate (Z.to_nat (strada_default_hash_capacity s)) []) 0 1]>
           (hashes s)) s).

(** [strada_set_hash_default_capacity]. *)
Definition strada_set_hash_default_capacity (c : Z) (s : State) : State :=
  if 0 <? c then
    mkState (values s) (arrays s) (hashes s) (closures s) (cells s)
      c (oop_packages s) (oop_initialized s)
      (oop_destroying s) (strada_try_stack s) (strada_try_depth s)
      (strada_exception_msg s) (trace s)
  else s.

Definition chain_at (h : StradaHash) (k : string) : list StradaHashEntry :=
  default [] (buckets h !! bucket_of (num_buckets h) k).

Definition put_chain (h : StradaHash) (k : string) (chain : list StradaHashEntry)
    (entries : Z) : StradaHash :=
  mkHash (<[bucket_of (num_buckets h) k := chain]> (buckets h)) entries (h_refcount h).

(** [strada_hash_set].  The entry found by the walk stays where it is while
    the old value is released, as long as the table itself is alive; a new
    entry holds a copy ([strdup]) of the key. *)
Definition strada_hash_set (fuel : nat) (hv : ptr) (k : option string) (sv : ptr)
    (s : State) : result State :=
  match hv, k with
  | Some a, Some k =>
      match hashes s !! a with
      | None => Fault
      | Some h =>
          if num_buckets h =? 0 then Fault
          else
            match chain_find (chain_at h k) k with
            | Some old =>
                s1 <- strada_decref fuel (e_value old) s ;;
                match hashes s1 !! a with
                | None => Fault
                | Some h1 =>
                    strada_incref sv
                      (with_hashes
                         (<[a := put_chain h1 k (chain_replace (chain_at h1 k) k sv)
                                   (num_entries h1)]> (hashes s1)) s1)
                end
            | None =>
                s1 <- strada_incref sv s ;;
                let h1 := put_chain h k (mkEntry (cstr k) sv :: chain_at h k)
                            (num_entries h + 1) in
                let h2 := if num_buckets h1 * 3 <? num_entries h1 * 4
                          then strada_hash_resize h1 else h1 in
                Done (with_hashes (<[a := h2]> (hashes s1)) s1)
            end
      end
  | _, _ => Done s
  end.

(** [strada_hash_get]. *)
Definition strada_hash_get (hv : ptr) (k : option string) (s : State)
    : result (ptr * State) :=
  match hv, k with
  | Some a, Some k =>
      match hashes s !! a with
      | None => Fault
      | Some h =>
          if num_buckets h =? 0 then Fault
          else
            match chain_find (chain_at h k) k with
            | Some e => Done (e_value e, s)
            | None => let r := strada_new_undef s in Done (Some (fst r), snd r)
            end
      end
  | _, _ => let r := strada_new_undef s in Done (Some (fst r), snd r)
  end.

(** [strada_hash_exists]. *)
Definition strada_hash_exists (hv : ptr) (k : option string) (s : State) : result bool :=
  match hv, k with
  | Some a, Some k =>
      match hashes s !! a with
      | None => Fault
      | Some h =>
          if num_buckets h =? 0 then Fault
          else
            match chain_find (chain_at h k) k with
            | Some _ => Done true
            | None => Done false
            end
      end
  | _, _ => Done false
  end.


End Runtime.

(** ** Arrays *)

(** [strada_array_get]; a negative index counts from the end. *)
Definition strada_array_get (av : ptr) (idx : Z) (s : State) : result (ptr * State) :=
  match av with
  | None => let r := strada_new_undef s in Done (Some (fst r), snd r)
  | Some a =>
      match arrays s !! a with
      | None => Fault
      | Some arr =>
          let size := Z.of_nat (length (elements arr)) in
          let idx1 := if idx <? 0 then size + idx else idx in
          if (idx1 <? 0) || (size <=? idx1) then
            let r := strada_new_undef s in Done (Some (fst r), snd r)
          else Done (default None (elements arr !! Z.to_nat idx1), s)
      end
  end.

(** [strada_array_pop]. *)
Definition strada_array_pop (av : ptr) (s : State) : result (ptr * State) :=
  match av with
  | None => let r := strada_new_undef s in Done (Some (fst r), snd r)
  | Some a =>
      match arrays s !! a with
      | None => Fault
      | Some arr =>
          match length (elements arr) with
          | O => let r := strada_new_undef s in Done (Some (fst r), snd r)
          | S n =>
              Done (default None (elements arr !! n),
                    with_arrays
                      (<[a := mkArray (take n (elements arr)) (capacity arr) (a_refcount arr)]>
                         (arrays s)) s)
          end
      end
  end.

(** [strada_array_shift]. *)
Definition strada_array_shift (av : ptr) (s : State) : result (ptr * State) :=
  match av with
  | None => let r := strada_new_undef s in Done (Some (fst r), snd r)
  | Some a =>
      match arrays s !! a with
      | None => Fault
      | Some arr =>
          match elements arr with
          | [] => let r := strada_new_undef s in Done (Some (fst r), snd r)
          | first :: rest =>
              Done (first,
                    with_arrays
                      (<[a := mkArray rest (capacity arr) (a_refcount arr)]> (arrays s)) s)
          end
      end
  end.

(** ** Closures *)

(** The loop of [strada_closure_new] over the first [n] entries of
    [cap_array]: a new cell per capture, holding the pointer that the
    captured variable holds now, the value it points to retained. *)
Fixpoint copy_captures (n : nat) (cap_array : list ptr) (s : State)
    : result (list ptr * State) :=
  match n with
  | O => Done ([], s)
  | S n' =>
      match cap_array with
      | [] => Fault
      | None :: _ => Fault
      | Some x :: rest =>
          match cells s !! x with
          | None => Fault
          | Some held =>
              let c := fresh (dom (cells s)) in
              let s1 := with_cells (<[c := held]> (cells s)) s in
              s2 <- match held with
                    | Some _ => strada_incref held s1
                    | None => Done s1
                    end ;;
              r <- copy_captures n' rest s2 ;;
              Done (Some c :: fst r, snd r)
          end
      end
  end.

(** [strada_closure_new]. *)
Definition strada_closure_new (f : StradaMethod) (params captures_n : Z)
    (cap_array : option (list ptr)) (s : State) : result (addr * State) :=
  r <- match cap_array with
       | Some arr =>
           if 0 <? captures_n then
             r <- copy_captures (Z.to_nat captures_n) arr s ;; Done (Some (fst r), snd r)
           else Done (None, s)
       | None => Done (None, s)
       end ;;
  let s1 := snd r in
  let c := fresh (dom (closures s1)) in
  let s2 := with_closures (<[c := mkClosure f params captures_n (fst r)]> (closures s1)) s1 in
  Done (alloc_value (mkValue 1 (PClosure (Some c)) None) s2).

(** [strada_closure_get_captures]. *)
Definition strada_closure_get_captures (closure : ptr) (s : State)
    : result (option (list ptr)) :=
  match closure with
  | None => Done None
  | Some a =>
      match values s !! a with
      | None => Fault
      | Some v =>
          match value v with
          | PClosure (Some c) =>
              match closures s !! c with
              | Some clo => Done (captures clo)
              | None => Fault
              end
          | PClosure None => Fault
          | _ => Done None
          end
      end
  end.

(** What [strada_closure_call] does with its arguments: it calls a plain
    function, or a closure body with the capture cells, or it returns a
    fresh [Undef]. *)
Inductive ClosureCall :=
  | CallPlain (f : ptr) (args : list ptr)
  | CallClosure (f : StradaMethod) (caps : option (list ptr)) (args : list ptr)
  | ReturnUndef (u : addr).

(** [strada_closure_call]; [argc] is the number of arguments passed. *)
Definition strada_closure_call (closure : ptr) (args : list ptr) (s : State)
    : result (ClosureCall * State) :=
  match closure with
  | None => let r := strada_new_undef s in Done (ReturnUndef (fst r), snd r)
  | Some a =>
      match values s !! a with
      | None => Fault
      | Some v =>
          match value v with
          | PCPointer p =>
              if (length args <=? 5)%nat then Done (CallPlain p args, s)
              else let r := strada_new_undef s in Done (ReturnUndef (fst r), snd r)
          | PClosure cl =>
              if (length args <=? 5)%nat then
                match cl with
                | None => Fault
                | Some c =>
                    match closures s !! c with
                    | None => Fault
                    | Some clo => Done (CallClosure (func_ptr clo) (captures clo) args, s)
                    end
                end
              else let r := strada_new_undef s in Done (ReturnUndef (fst r), snd r)
          | _ => let r := strada_new_undef s in Done (ReturnUndef (fst r), snd r)
          end
      end
  end.

(** The assignment [*x = p] to a pointer variable. *)
Definition store_cell (x : addr) (p : ptr) (s : State) : State :=
  with_cells (<[x := p]> (cells s)) s.

(** ** Reads of absent elements *)

(** The outcome [r] of a read in state [s] is a newly allocated [Undef]
    value with reference count 1, and nothing else has changed. *)
Definition returns_fresh_undef (s : State) (r : result (ptr * State)) : Prop :=
  exists u s',
    r = Done (Some u, s') /\
    values s !! u = None /\
    values s' = <[u := mkValue 1 PUndef None]> (values s) /\
    arrays s' = arrays s /\
    hashes s' = hashes s.

(** An index that, once a negative one is counted from the end, is outside
    the array. *)
Definition out_of_bounds (arr : StradaArray) (idx : Z) : Prop :=
  let size := Z.of_nat (length (elements arr)) in
  (idx < 0 /\ size + idx < 0) \/ size <= idx.

(** A state with an empty array at address 1, a one-element array at
    address 2 and an empty table of sixteen buckets at address 1. *)
Definition containers_demo : State :=
  with_hashes {[ 1%nat := mkHash (replicate 16 []) 0 1 ]}
    (with_arrays {[ 1%nat := mkArray [] 8 1; 2%nat := mkArray [Some 7%nat] 8 1 ]}
       initial_state).

(** ** Truthiness *)

(** The conversion [r] completes, and yields true exactly when [P] holds. *)
Definition truth_is (r : result bool) (P : Prop) : Prop :=
  exists b, r = Done b /\ (b = true <-> P).

(** A C library for the examples: integers print in decimal; the other
    conversions are placeholders. *)
Definition demo_libc : Libc :=
  mkLibc (fun _ => 0) (fun _ => 0%float) (fun i => pretty i) (fun _ => "0"%string)
    (fun tag _ => tag) (fun _ => "SOCKET"%string) (fun n _ => n)
    (fun _ => 0) (fun _ => 0%float).

(** The three bytes ['0'], NUL, ['x']. *)
Definition zero_nul_x : string := String "0"%char (String NUL (String "x"%char EmptyString)).

(** The state after [strada_new_str_len] has built a [Str] of these three
    bytes in a new process; the value is at address 0. *)
Definition binary_str_state : State :=
  snd (strada_new_str_len (Some zero_nul_x) initial_state).

(** ** Exceptions *)

(** The try stack as [STRADA_TRY_PUSH] and [STRADA_TRY_POP] keep it: the
    frames below [strada_try_depth], and only they, are active. *)
Definition try_inv (s : State) : Prop :=
  0 <= strada_try_depth s <= STRADA_MAX_TRY_DEPTH /\
  length (strada_try_stack s) = 64%nat /\
  forall i, frame_active s i = true <-> 0 <= i < strada_try_depth s.

(** A new process creates the [Int] 42 (at address 0) and enters a try
    region. *)
Definition in_try_with_int : State :=
  snd (STRADA_TRY_PUSH (snd (strada_new_int 42 initial_state))).

(** The process throws that value and the handler then asks for the
    exception. *)
Definition after_throw_of_int : result (Control * (addr * State)) :=
  r <- strada_throw_value demo_libc (Some 0%nat) in_try_with_int ;;
  Done (fst r, strada_get_exception (snd r)).

(** ** Objects *)

(** Native code that performs no reference-count operation. *)
Definition no_native : Native := fun _ _ => [].

(** A new process creates the [Int] 7; it is at address 0. *)
Definition with_int_7 : State := snd (strada_new_int 7 initial_state).

(** Following the specification's words for [SUPER::]: only the method
    tables of the direct parents are searched, the first match wins. *)
Fixpoint super_direct_parents_only (pkgs : list OopPackage) (ps : list string)
    (method : string) : option StradaMethod :=
  match ps with
  | [] => None
  | p :: rest =>
      match oop_find_package pkgs p with
      | Some pkg =>
          match find_method (methods pkg) method with
          | Some f => Some f
          | None => super_direct_parents_only pkgs rest method
          end
      | None => super_direct_parents_only pkgs rest method
      end
  end.

(** An object: an [Undef] at address 0 and, at address 1, a reference to it
    blessed into [class], in a process whose registry holds [pkgs]. *)
Definition object_state (pkgs : list OopPackage) (class : string) : State :=
  with_initialized true
    (with_packages pkgs
       (with_values {[ 0%nat := mkValue 1 PUndef None;
                       1%nat := mkValue 1 (PRef (Some 0%nat)) (Some class) ]}
          initial_state)).

(** The diamond: [A], [B] and [C] with parent [A], [D] with parents [B] and
    [C]; [A], [B] and [C] each define [hello] (methods 10, 20 and 30). *)
Definition diamond : list OopPackage :=
  [ mkPackage "A" [] [mkMethod "hello" 10%nat];
    mkPackage "B" ["A"%string] [mkMethod "hello" 20%nat];
    mkPackage "C" ["A"%string] [mkMethod "hello" 30%nat];
    mkPackage "D" ["B"%string; "C"%string] [] ].

(** A chain: [Base] defines [hello] (method 10), [Mid] inherits from [Base]
    and defines nothing, [Leaf] inherits from [Mid] and overrides [hello]
    (method 30). *)
Definition three_levels : list OopPackage :=
  [ mkPackage "Base" [] [mkMethod "hello" 10%nat];
    mkPackage "Mid" ["Base"%string] [];
    mkPackage "Leaf" ["Mid"%string] [mkMethod "hello" 30%nat] ].

(** ** Reference counting *)

(** Increments minus decrements. *)
Fixpoint net (ops : list RcOp) : Z :=
  match ops with
  | [] => 0
  | OpIncref :: rest => 1 + net rest
  | OpDecref :: rest => -1 + net rest
  end.

(** The number of owners left when a value with [n] owners has gone through
    [ops]. *)
Definition owners_after (n : Z) (ops : list RcOp) : Z := n + net ops.

Definition is_free_of (a : addr) (e : Event) : bool :=
  match e with
  | EvFree b => Nat.eqb a b
  | _ => false
  end.

(** How many times [strada_free_value] has been entered for the value at
    [a]. *)
Definition free_count (a : addr) (s : State) : nat :=
  length (List.filter (is_free_of a) (trace s)).

(** [k] owners more, then [k + 1] owners fewer. *)
Definition up_then_down (k : nat) : list RcOp :=
  replicate k OpIncref ++ replicate (S k) OpDecref.

(** [2^31], as a number of operations. *)
Definition two_to_31 : nat := Z.to_nat 2147483648.

(** ** Invariants of a release cascade *)

(** A relation between the state before and the state after that every
    elementary step of a release respects: the steps of [strada_decref],
    [strada_free_value], [strada_free_array], [strada_free_hash] and
    [strada_call_destroy]. *)
Record CascadeInvariant (R : State -> State -> Prop) : Prop := {
  ci_refl : forall s, R s s;
  ci_trans : forall s1 s2 s3, R s1 s2 -> R s2 s3 -> R s1 s3;
  ci_refcount : forall s a v rc, values s !! a = Some v -> R s (set_refcount a rc s);
  ci_untag : forall s a v, values s !! a = Some v -> R s (set_blessed a None s);
  ci_report_non_ref : forall s a, R s (log (EvNonRefBlessed a) s);
  ci_report_corrupt : forall s a, R s (log (EvCorruptPackage a) s);
  ci_destroy :
    forall s s2 a v pk f,
      values s !! a = Some v -> blessed_package v = Some pk ->
      oop_destroying s = false ->
      R (log (EvDestroy a f) (with_destroying true s)) s2 ->
      R s (with_destroying false s2);
  ci_free :
    forall s s2 a,
      is_Some (values s !! a) -> R (log (EvFree a) s) s2 -> is_Some (values s2 !! a) ->
      R s (with_values (delete a (values s2)) s2);
  ci_array_rc :
    forall s a arr rc,
      arrays s !! a = Some arr ->
      R s (with_arrays (<[a := mkArray (elements arr) (capacity arr) rc]> (arrays s)) s);
  ci_array_free : forall s a, R s (with_arrays (delete a (arrays s)) s);
  ci_hash_rc :
    forall s a h rc,
      hashes s !! a = Some h ->
      R s (with_hashes (<[a := mkHash (buckets h) (num_entries h) rc]> (hashes s)) s);
  ci_hash_free : forall s a, R s (with_hashes (delete a (hashes s)) s);
  ci_cell_free : forall s c, R s (with_cells (delete c (cells s)) s);
  ci_closure_free : forall s c, R s (with_closures (delete c (closures s)) s)
}.

(** The value at [a], if it is still there afterwards, was there before and
    [strada_free_value] has not been entered for it in between. *)
Definition not_freed_between (a : addr) (s s' : State) : Prop :=
  is_Some (values s' !! a) ->
  is_Some (values s !! a) /\ free_count a s' = free_count a s.

Definition is_destroy_of (p : addr) (e : Event) : bool :=
  match e with
  | EvDestroy q _ => Nat.eqb p q
  | _ => false
  end.

(** How many times the destructor of the object at [p] has been invoked. *)
Definition destroy_count (p : addr) (s : State) : nat :=
  length (List.filter (is_destroy_of p) (trace s)).

(** While a destructor is being dispatched, none is invoked. *)
Definition guarded (p : addr) (s s' : State) : Prop :=
  oop_destroying s = true ->
  oop_destroying s' = true /\ destroy_count p s' = destroy_count p s.

(** The object at [p] carries no package tag, or is gone. *)
Definition untagged_or_gone (p : addr) (s : State) : Prop :=
  forall v, values s !! p = Some v -> blessed_package v = None.

(** An object without a tag stays so, and its destructor is not invoked. *)
Definition stays_untagged (p : addr) (s s' : State) : Prop :=
  untagged_or_gone p s ->
  untagged_or_gone p s' /\ destroy_count p s' = destroy_count p s.

(** Two objects, each a blessed reference to an [Undef] of its own and each
    with one owner: the object at address 1 is an [Outer], the object at
    address 3 an [Inner].  Both packages define [DESTROY] (methods 1 and 2). *)
Definition two_objects : State :=
  with_initialized true
    (with_packages
       [ mkPackage "Outer" [] [mkMethod "DESTROY" 1%nat];
         mkPackage "Inner" [] [mkMethod "DESTROY" 2%nat] ]
       (with_values {[ 0%nat := mkValue 1 PUndef None;
                       1%nat := mkValue 1 (PRef (Some 0%nat)) (Some "Outer"%string);
                       2%nat := mkValue 1 PUndef None;
                       3%nat := mkValue 1 (PRef (Some 2%nat)) (Some "Inner"%string) ]}
          initial_state)).

(** The destructor of [Outer] (method 1) drops the [Inner] object, whose
    only owner the [Outer] object is; the destructor of [Inner] does nothing. *)
Definition outer_drops_inner : Native :=
  fun f self => match f with 1%nat => [CDecref (Some 3%nat)] | _ => [] end.

(** The trace only grows. *)
Definition extends_trace (s s' : State) : Prop :=
  exists l, trace s' = trace s ++ l.

(** ** Closures *)

(** How many of the variables [vars] hold a pointer to the value at [t]. *)
Definition captures_of (s : State) (vars : list addr) (t : addr) : nat :=
  length (List.filter (fun x => bool_decide (cells s !! x = Some (Some t))) vars).

(** One [strada_incref] of a reference count. *)
Definition incremented (rc : Z) : Z := int32 (rc + 1).

(** The variables exist, and each holds [NULL] or a pointer to a value. *)
Definition variables_ok (s : State) (vars : list addr) : Prop :=
  forall x, x ∈ vars ->
    exists held, cells s !! x = Some held /\
      forall t, held = Some t -> is_Some (values s !! t).

(** A scope with the variable [x] (the cell at address 0), which holds the
    [Int] 1 (the value at address 0). *)
Definition scope_x_is_1 : State :=
  with_cells {[ 0%nat := Some 0%nat ]} (snd (strada_new_int 1 initial_state)).

(** The scope creates a closure that captures [x] ... *)
Definition scope_with_closure : result (addr * State) :=
  strada_closure_new 7%nat 0 1 (Some [Some 0%nat]) scope_x_is_1.

(** ... and then assigns the new [Int] 2 to [x], releasing the value that
    [x] held. *)
Definition scope_after_assignment : result State :=
  r <- scope_with_closure ;;
  let n := strada_new_int 2 (snd r) in
  strada_decref no_native 1 (Some 0%nat) (store_cell 0%nat (Some (fst n)) (snd n)).

(** ** Hash tables as finite maps *)

(** The entries of a table, bucket by bucket. *)
Definition contents (h : StradaHash) : list StradaHashEntry := concat (buckets h).

Definition binding (e : StradaHashEntry) : string * option addr := (key e, e_value e).

(** The finite map that a table stands for. *)
Definition hash_map (h : StradaHash) : gmap string (option addr) :=
  list_to_map (binding <$> contents h).

(** Every entry sits in the bucket that its key hashes to. *)
Definition placed (n : Z) (bs : list (list StradaHashEntry)) : Prop :=
  forall i chain e, bs !! i = Some chain -> e ∈ chain -> bucket_of n (key e) = i.

(** The shape that [strada_hash_new] establishes and the operations keep:
    at least one bucket, every entry in the bucket of its key, no key twice,
    [num_entries] the number of entries, and every key a C string (a copy
    made by [strdup]). *)
Definition hash_wf (h : StradaHash) : Prop :=
  0 < num_buckets h /\
  placed (num_buckets h) (buckets h) /\
  NoDup (key <$> contents h) /\
  num_entries h = Z.of_nat (length (contents h)) /\
  (forall e, e ∈ contents h -> cstr (key e) = key e).

(** A chain read as an association list: the first entry with that key,
    the keys compared as they are.  On C strings this is the walk with
    [strcmp]. *)
Fixpoint assoc_find (chain : list StradaHashEntry) (k : string) : option StradaHashEntry :=
  match chain with
  | [] => None
  | e :: rest => if String.eqb (key e) k then Some e else assoc_find rest k
  end.



(** What the bucket of a key binds it to. *)
Definition hash_find (h : StradaHash) (k : string) : option (option addr) :=
  e_value <$> assoc_find (chain_at h k) k.


(** A table of sixteen buckets that binds ["k"] to the value at address 7,
    and a state that holds it at address 1, next to that value (an [Int]
    with one owner, the table). *)
Definition one_entry_table : StradaHash :=
  put_chain (mkHash (replicate 16 []) 0 1) "k" [mkEntry "k" (Some 7%nat)] 1.

Definition one_entry_state : State :=
  with_hashes {[ 1%nat := one_entry_table ]}
    (with_values {[ 7%nat := mkValue 1 (PInt 5) None ]} initial_state).

(** The three bytes ['k'], NUL, ['x']: a buffer that holds the C string
    ["k"]. *)
Definition k_nul_x : string := String "k"%char (String NUL (String "x"%char EmptyString)).

(** ** Arrays: the writing operations *)

(** The growth step that [strada_array_push], [strada_array_push_take] and
    [strada_array_unshift] start with: the capacity doubles when the array
    is full. *)
Definition grown (arr : StradaArray) : Z :=
  if capacity arr <=? Z.of_nat (length (elements arr)) then capacity arr * 2
  else capacity arr.

(** [strada_array_push_take]: the pointer is stored behind the last
    element; a store beyond the allocation is a fault. *)
Definition strada_array_push_take (av sv : ptr) (s : State) : result State :=
  match av with
  | None => Done s
  | Some a =>
      match arrays s !! a with
      | None => Fault
      | Some arr =>
          if grown arr <=? Z.of_nat (length (elements arr)) then Fault
          else Done (with_arrays
                       (<[a := mkArray (elements arr ++ [sv]) (grown arr) (a_refcount arr)]>
                          (arrays s)) s)
      end
  end.

(** [strada_array_push]: the same store, and the array takes a share of
    the value. *)
Definition strada_array_push (av sv : ptr) (s : State) : result State :=
  match av with
  | None => Done s
  | Some a =>
      match arrays s !! a with
      | None => Fault
      | Some arr =>
          if grown arr <=? Z.of_nat (length (elements arr)) then Fault
          else strada_incref sv
                 (with_arrays
                    (<[a := mkArray (elements arr ++ [sv]) (grown arr) (a_refcount arr)]>
                       (arrays s)) s)
      end
  end.

(** [strada_array_unshift]: the elements move up by one ([memmove]) and the
    pointer becomes the first. *)
Definition strada_array_unshift (av sv : ptr) (s : State) : result State :=
  match av with
  | None => Done s
  | Some a =>
      match arrays s !! a with
      | None => Fault
      | Some arr =>
          if grown arr <=? Z.of_nat (length (elements arr)) then Fault
          else strada_incref sv
                 (with_arrays
                    (<[a := mkArray (sv :: elements arr) (grown arr) (a_refcount arr)]>
                       (arrays s)) s)
      end
  end.

(** The loop [while (left < right)] of [strada_array_reverse], which swaps
    the two ends and moves inwards. *)
Fixpoint reverse_loop (fuel : nat) (left right : nat) (els : list ptr) : result (list ptr) :=
  if (left <? right)%nat then
    match fuel with
    | O => OutOfFuel
    | S fuel' =>
        match els !! left, els !! right with
        | Some l, Some r =>
            reverse_loop fuel' (S left) (right - 1) (<[right := l]> (<[left := r]> els))
        | _, _ => Fault
        end
    end
  else Done els.

(** [strada_array_reverse]. *)
Definition strada_array_reverse (fuel : nat) (av : ptr) (s : State) : result State :=
  match av with
  | None => Done s
  | Some a =>
      match arrays s !! a with
      | None => Fault
      | Some arr =>
          if (length (elements arr) <? 2)%nat then Done s
          else
            els <- reverse_loop fuel 0 (length (elements arr) - 1) (elements arr) ;;
            Done (with_arrays (<[a := mkArray els (capacity arr) (a_refcount arr)]> (arrays s)) s)
      end
  end.




(** The shape that [strada_array_new] establishes and the operations
    keep: room for at least one element, and no more elements than room. *)
Definition array_wf (arr : StradaArray) : Prop :=
  0 < capacity arr /\ Z.of_nat (length (elements arr)) <= capacity arr.


(** An array of capacity 2 that holds the values at addresses 3 and 4, the
    [Int]s 30 and 40, each with the array as its one owner. *)
Definition two_element_state : State :=
  with_arrays {[ 1%nat := mkArray [Some 3%nat; Some 4%nat] 2 1 ]}
    (with_values {[ 3%nat := mkValue 1 (PInt 30) None; 4%nat := mkValue 1 (PInt 40) None ]}
       initial_state).

(** ** The method registry: registration and queries *)

(** The end of [strada_method_register]: the first method of that name gets
    the new function, or else a new method is appended. *)
Fixpoint set_method (ms : list OopMethod) (m : string) (f : StradaMethod) : list OopMethod :=
  match ms with
  | [] => [mkMethod (strncpy (OOP_MAX_NAME_LEN - 1) m) f]
  | x :: rest =>
      if strcmp_eq (m_name x) m then mkMethod (m_name x) f :: rest
      else x :: set_method rest m f
  end.

(** [strada_method_register]; the limit on the number of methods is checked
    before the search for an existing method. *)
Definition strada_method_register (package nm : option string) (f : option StradaMethod)
    (s : State) : result State :=
  match package, nm, f with
  | Some pk, Some m, Some f =>
      let s0 := strada_oop_init s in
      s1 <- oop_get_or_create_package pk s0 ;;
      match oop_packages s1 !! returned_slot pk s0 with
      | None => Fault
      | Some pkg =>
          if OOP_MAX_METHODS <=? Z.of_nat (length (methods pkg)) then Exit 1
          else Done (with_packages
                       (<[returned_slot pk s0 :=
                            mkPackage (name pkg) (parents pkg) (set_method (methods pkg) m f)]>
                          (oop_packages s1)) s1)
      end
  | _, _, _ => Done s
  end.

(** The loop over [pkg->parents] of [oop_method_lookup_package_in]. *)
Fixpoint lookup_package_parents
    (rec : string -> list string -> result (option string * list string))
    (ps : list string) (visited : list string)
    : result (option string * list string) :=
  match ps with
  | [] => Done (None, visited)
  | p :: rest =>
      r <- rec p visited ;;
      match fst r with
      | Some q => Done (Some q, snd r)
      | None => lookup_package_parents rec rest (snd r)
      end
  end.

(** [oop_method_lookup_package_in]: the name of the package whose method
    is found. *)
Fixpoint oop_method_lookup_package_in (fuel : nat) (pkgs : list OopPackage)
    (package : string) (method : string) (visited : list string)
    : result (option string * list string) :=
  match fuel with
  | O => OutOfFuel
  | S fuel' =>
      if first_is_nul package then Done (None, visited)
      else if existsb (fun x => strcmp_eq x package) visited then Done (None, visited)
      else
        let visited1 := mark_visited visited package in
        match oop_find_package pkgs package with
        | None => Done (None, visited1)
        | Some pkg =>
            match find_method (methods pkg) method with
            | Some _ => Done (Some package, visited1)
            | None =>
                lookup_package_parents
                  (fun p vis => oop_method_lookup_package_in fuel' pkgs p method vis)
                  (parents pkg) visited1
            end
        end
  end.

(** [strada_method_lookup_package]. *)
Definition strada_method_lookup_package (fuel : nat) (s : State)
    (package method : option string) : result (option string) :=
  match package, method with
  | Some p, Some m =>
      if oop_initialized s then
        r <- oop_method_lookup_package_in fuel (oop_packages s) p m [] ;; Done (fst r)
      else Done None
  | _, _ => Done None
  end.

(** The loop over [pkg->parents] of [oop_isa_check]. *)
Fixpoint isa_parents (rec : string -> list string -> result (bool * list string))
    (ps : list string) (visited : list string) : result (bool * list string) :=
  match ps with
  | [] => Done (false, visited)
  | p :: rest =>
      r <- rec p visited ;;
      if fst r then Done (true, snd r) else isa_parents rec rest (snd r)
  end.

(** [oop_isa_check]. *)
Fixpoint oop_isa_check (fuel : nat) (pkgs : list OopPackage)
    (current_pkg : string) (target : string) (visited : list string)
    : result (bool * list string) :=
  match fuel with
  | O => OutOfFuel
  | S fuel' =>
      if first_is_nul current_pkg then Done (false, visited)
      else if strcmp_eq current_pkg target then Done (true, visited)
      else if existsb (fun x => strcmp_eq x current_pkg) visited then Done (false, visited)
      else
        let visited1 := mark_visited visited current_pkg in
        match oop_find_package pkgs current_pkg with
        | None => Done (false, visited1)
        | Some pkg =>
            isa_parents (fun p vis => oop_isa_check fuel' pkgs p target vis)
              (parents pkg) visited1
        end
  end.

(** [strada_isa]. *)
Definition strada_isa (fuel : nat) (obj : ptr) (package : option string) (s : State)
    : result bool :=
  match obj, package with
  | Some a, Some pk =>
      match values s !! a with
      | None => Fault
      | Some v =>
          match blessed_package v with
          | None => Done false
          | Some bp =>
              if oop_initialized s then
                r <- oop_isa_check fuel (oop_packages s) bp pk [] ;; Done (fst r)
              else Done false
          end
      end
  | _, _ => Done false
  end.

(** [strada_can]. *)
Definition strada_can (fuel : nat) (obj : ptr) (method : option string) (s : State)
    : result bool :=
  match obj, method with
  | Some a, Some m =>
      match values s !! a with
      | None => Fault
      | Some v =>
          match blessed_package v with
          | None => Done false
          | Some bp =>
              if oop_initialized s then
                r <- oop_lookup_method fuel s (Some bp) (Some m) ;;
                Done (match r with Some _ => true | None => false end)
              else Done false
          end
      end
  | _, _ => Done false
  end.

(** [strada_get_parent_package]: the first parent. *)
Definition strada_get_parent_package (package : option string) (s : State) : option string :=
  match package with
  | None => None
  | Some p =>
      if oop_initialized s then
        match oop_find_package (oop_packages s) p with
        | Some pkg => head (parents pkg)
        | None => None
        end
      else None
  end.

(** A name that [strncpy] into a buffer of 256 bytes keeps whole: the C
    string in [n] has at most 255 bytes. *)
Definition short_name (n : string) : Prop := strncpy (OOP_MAX_NAME_LEN - 1) n = cstr n.

(** [r] is [p] or is reached from [p] along the parents of registered
    packages, no package on the way having the empty name. *)
Inductive reaches (pkgs : list OopPackage) : string -> string -> Prop :=
  | reaches_here (p : string) :
      cstr p <> EmptyString -> reaches pkgs p p
  | reaches_parent (p q r : string) (pkg : OopPackage) :
      cstr p <> EmptyString ->
      oop_find_package pkgs p = Some pkg ->
      q ∈ parents pkg ->
      reaches pkgs q r ->
      reaches pkgs p r.

(** The package registered under the name [q] has [f] as its method [m]. *)
Definition defines (pkgs : list OopPackage) (q m : string) (f : StradaMethod) : Prop :=
  exists pkg, oop_find_package pkgs q = Some pkg /\ find_method (methods pkg) m = Some f.

(** No package reached from [p] has a method [m]. *)
Definition no_method_above (pkgs : list OopPackage) (m p : string) : Prop :=
  forall q f, reaches pkgs p q -> ~ defines pkgs q m f.

(** The hierarchy has no cycle: every parent has a smaller rank. *)
Definition acyclic (pkgs : list OopPackage) (rank : string -> nat) : Prop :=
  forall p pkg q,
    oop_find_package pkgs p = Some pkg -> q ∈ parents pkg -> (rank q < rank p)%nat.

(** A rank for the packages of [diamond]. *)
Definition diamond_rank (p : string) : nat :=
  if strcmp_eq p "D" then 2%nat
  else if strcmp_eq p "B" || strcmp_eq p "C" then 1%nat
  else 0%nat.

(** Buffers that hold the names ["area"] and ["Base"], each followed by a
    NUL byte and further bytes. *)
Definition area_nul_x : string := "area" ++ String NUL "x".
Definition base_nul_x : string := "Base" ++ String NUL "x".

(** The three bytes ['A'], NUL, ['x']: a buffer that holds the name ["A"]. *)
Definition a_nul_x : string := String "A"%char (String NUL (String "x"%char EmptyString)).

(** [t] names [p] or a package reached from [p]. *)
Definition inherits (pkgs : list OopPackage) (p t : string) : Prop :=
  exists r, reaches pkgs p r /\ cstr r = cstr t.

(** The method [m] of the package registered under the name [q]. *)
Definition method_in (pkgs : list OopPackage) (m q : string) : option StradaMethod :=
  match oop_find_package pkgs q with
  | Some pkg => find_method (methods pkg) m
  | None => None
  end.

(** The outcome of [oop_lookup_method_in] that corresponds to an outcome
    of [oop_method_lookup_package_in]. *)
Definition method_of_package (pkgs : list OopPackage) (m : string)
    (r : result (option string * list string))
    : result (option StradaMethod * list string) :=
  match r with
  | Done (Some q, v) => Done (method_in pkgs m q, v)
  | Done (None, v) => Done (None, v)
  | OutOfFuel => OutOfFuel
  | Fault => Fault
  | Exit c => Exit c
  | Jump i s => Jump i s
  end.

(** The parents of the package registered under the name [q]. *)
Definition parents_in (pkgs : list OopPackage) (q : string) : list string :=
  match oop_find_package pkgs q with
  | Some pkg => parents pkg
  | None => []
  end.

(** A process that has registered the package [Shape]. *)
Definition shape_registry : State :=
  with_initialized true
    (with_packages [mkPackage "Shape" [] []]
       (with_values {[ 1%nat := mkValue 1 (PRef None) (Some "Shape"%string) ]}
          initial_state)).

(** An object blessed into a package whose name is not plain ASCII, with
    one owner; the package is registered and defines [DESTROY] (method 9). *)
Definition accented_object : State :=
  with_initialized true
    (with_packages
       [mkPackage (String (Ascii.ascii_of_nat 233) "t") [] [mkMethod "DESTROY" 9%nat]]
       (with_values
          {[ 1%nat := mkValue 1 (PRef None) (Some (String (Ascii.ascii_of_nat 233) "t")) ]}
          initial_state)).

(** ** References *)

(** [strada_ref_create]: a new [Ref] value with one owner, which takes a
    share of the value it refers to. *)
Definition strada_ref_create (sv : ptr) (s : State) : result (addr * State) :=
  match sv with
  | None => Done (strada_new_undef s)
  | Some _ =>
      let r := alloc_value (mkValue 1 (PRef sv) None) s in
      s1 <- strada_incref sv (snd r) ;;
      Done (fst r, s1)
  end.

(** [strada_ref_create_take]: the same without the share; the caller gives
    its own away. *)
Definition strada_ref_create_take (sv : ptr) (s : State) : addr * State :=
  match sv with
  | None => strada_new_undef s
  | Some _ => alloc_value (mkValue 1 (PRef sv) None) s
  end.

(** [strada_ref_deref]: a borrowed pointer to the referent; a value that is
    not a reference is returned as it is. *)
Definition strada_ref_deref (ref : ptr) (s : State) : result (ptr * State) :=
  match ref with
  | None => let r := strada_new_undef s in Done (Some (fst r), snd r)
  | Some a =>
      match values s !! a with
      | None => Fault
      | Some v =>
          match value v with
          | PRef rv => Done (rv, s)
          | _ => Done (ref, s)
          end
      end
  end.

(** [strada_is_ref]. *)
Definition strada_is_ref (sv : ptr) (s : State) : result bool :=
  match sv with
  | None => Done false
  | Some a =>
      match values s !! a with
      | None => Fault
      | Some v => Done (is_ref (value v))
      end
  end.

(** [strada_deref]: the referent, with one more owner. *)
Definition strada_deref (ref : ptr) (s : State) : result (ptr * State) :=
  match ref with
  | None => let r := strada_new_undef s in Done (Some (fst r), snd r)
  | Some a =>
      match values s !! a with
      | None => Fault
      | Some v =>
          match value v with
          | PRef rv => s1 <- strada_incref rv s ;; Done (rv, s1)
          | _ => s1 <- strada_incref ref s ;; Done (ref, s1)
          end
      end
  end.

(** ** UTF-8 *)

(** The conversion [(char)x], read back as an [unsigned char]. *)
Definition byte (x : Z) : Z := x mod 256.

(** [utf8_char_len]: the length of a sequence, from its first byte. *)
Definition utf8_char_len (c : Z) : Z :=
  if Z.land c 0x80 =? 0 then 1
  else if Z.land c 0xE0 =? 0xC0 then 2
  else if Z.land c 0xF0 =? 0xE0 then 3
  else if Z.land c 0xF8 =? 0xF0 then 4
  else 1.

(** [utf8_decode] on the bytes at [p]: the code point and [*bytes_read].
    A read behind the end of the buffer is a fault. *)
Definition utf8_decode (p : list Z) : result (Z * Z) :=
  match p !! 0%nat with
  | None => Fault
  | Some b0 =>
      let len := utf8_char_len b0 in
      if len =? 2 then
        match p !! 1%nat with
        | Some b1 => Done (Z.lor (Z.shiftl (Z.land b0 0x1F) 6) (Z.land b1 0x3F), len)
        | None => Fault
        end
      else if len =? 3 then
        match p !! 1%nat, p !! 2%nat with
        | Some b1, Some b2 =>
            Done (Z.lor (Z.lor (Z.shiftl (Z.land b0 0x0F) 12) (Z.shiftl (Z.land b1 0x3F) 6))
                    (Z.land b2 0x3F), len)
        | _, _ => Fault
        end
      else if len =? 4 then
        match p !! 1%nat, p !! 2%nat, p !! 3%nat with
        | Some b1, Some b2, Some b3 =>
            Done (Z.lor
                    (Z.lor
                       (Z.lor (Z.shiftl (Z.land b0 0x07) 18) (Z.shiftl (Z.land b1 0x3F) 12))
                       (Z.shiftl (Z.land b2 0x3F) 6))
                    (Z.land b3 0x3F), len)
        | _, _, _ => Fault
        end
      else Done (b0, len)
  end.

(** [utf8_encode]: the bytes written to [out]; their number is the result. *)
Definition utf8_encode (codepoint : Z) : list Z :=
  if codepoint <? 0x80 then [byte codepoint]
  else if codepoint <? 0x800 then
    [byte (Z.lor 0xC0 (Z.shiftr codepoint 6));
     byte (Z.lor 0x80 (Z.land codepoint 0x3F))]
  else if codepoint <? 0x10000 then
    [byte (Z.lor 0xE0 (Z.shiftr codepoint 12));
     byte (Z.lor 0x80 (Z.land (Z.shiftr codepoint 6) 0x3F));
     byte (Z.lor 0x80 (Z.land codepoint 0x3F))]
  else if codepoint <? 0x110000 then
    [byte (Z.lor 0xF0 (Z.shiftr codepoint 18));
     byte (Z.lor 0x80 (Z.land (Z.shiftr codepoint 12) 0x3F));
     byte (Z.lor 0x80 (Z.land (Z.shiftr codepoint 6) 0x3F));
     byte (Z.lor 0x80 (Z.land codepoint 0x3F))]
  else [63].

(** [strada_chr]: the encoded bytes and the terminating NUL, for an [int]
    converted to [uint32_t]. *)
Definition strada_chr (code : Z) : list Z := utf8_encode (uint32 code) ++ [0].

(** [strada_ord] on a C string given by its bytes, the terminating NUL
    included. *)
Definition strada_ord (str : option (list Z)) : result Z :=
  match str with
  | None => Done 0
  | Some p =>
      match p !! 0%nat with
      | None => Fault
      | Some b0 =>
          if b0 =? 0 then Done 0
          else r <- utf8_decode p ;; Done (int32 (fst r))
      end
  end.

(** Whether a property of bytes holds for every value below [n]. *)
Definition holds_below (n : nat) (P : Z -> bool) : bool :=
  forallb P (map Z.of_nat (seq 0 n)).

(** [utf8_is_continuation]. *)
Definition utf8_is_continuation (c : Z) : bool := Z.land c 0xC0 =? 0x80.

(** The loop of [utf8_strlen]: bytes up to the NUL, continuation bytes not
    counted. *)
Fixpoint strlen_loop (p : list Z) (count : Z) : result Z :=
  match p with
  | [] => Fault
  | b :: rest =>
      if b =? 0 then Done count
      else strlen_loop rest (if utf8_is_continuation b then count else count + 1)
  end.

(** [utf8_strlen]. *)
Definition utf8_strlen (s : option (list Z)) : result Z :=
  match s with
  | None => Done 0
  | Some p => strlen_loop p 0
  end.

(** The loop of [utf8_offset]: whole sequences are stepped over, by the
    length that their first byte announces. *)
Fixpoint offset_loop (fuel : nat) (p : list Z) (char_index chars bytes : Z) : result Z :=
  match p with
  | [] => Fault
  | b :: _ =>
      if (b =? 0) || (char_index <=? chars) then Done bytes
      else
        match fuel with
        | O => OutOfFuel
        | S fuel' =>
            let len := utf8_char_len b in
            offset_loop fuel' (drop (Z.to_nat len) p) char_index (chars + 1) (bytes + len)
        end
  end.

(** [utf8_offset]: the byte offset of the character with that index. *)
Definition utf8_offset (fuel : nat) (s : option (list Z)) (char_index : Z) : result Z :=
  match s with
  | None => Done 0
  | Some p => offset_loop fuel p char_index 0 0
  end.

(** The C string that holds the UTF-8 encoding of a list of code points. *)
Definition utf8_text (cps : list Z) : list Z := concat (utf8_encode <$> cps) ++ [0].

(** A payload that owns nothing that [strada_free_value] would release. *)
Definition owns_nothing (p : StradaPayload) : bool :=
  match p with
  | PArray _ | PHash _ | PRef _ | PClosure _ => false
  | _ => true
  end.

(** Every captured value has at least one owner, and room in its count
    for one more owner per captured variable. *)
Definition capture_room (s : State) (vars : list addr) : Prop :=
  forall x t v,
    x ∈ vars -> cells s !! x = Some (Some t) -> values s !! t = Some v ->
    1 <= refcount v /\ refcount v + Z.of_nat (length vars) <= INT_MAX.

(** ** Destructors: entry, return and other ways out *)

(** The state in which [strada_call_destroy] starts the destructor [f] of
    the object at [p], when [strada_decref] has taken the last owner away
    in state [s]: the count is zero, the profiling hook has seen the
    release, the guard [oop_destroying] is set. *)
Definition destructor_entry (p : addr) (f : StradaMethod) (s : State) : State :=
  log (EvDestroy p f) (with_destroying true (log (EvFree p) (set_refcount p 0 s))).

(** The state in which [strada_free_value] goes on once the destructor has
    returned in state [sb]: the guard is reset and the tag is cleared. *)
Definition after_destructor (p : addr) (sb : State) : State :=
  set_blessed p None (with_destroying false sb).

(** A release that starts outside of any destructor ends outside. *)
Definition guard_released (s s' : State) : Prop :=
  oop_destroying s = false -> oop_destroying s' = false.

(** The destructor of [Outer] (method 1) drops its own receiver. *)
Definition destructor_drops_receiver : Native :=
  fun f self => match f with 1%nat => [CDecref (Some self)] | _ => [] end.

(** The destructor of [Outer] (method 1) throws. *)
Definition destructor_throws : Native :=
  fun f self => match f with 1%nat => [CThrow (Some "boom"%string)] | _ => [] end.

(** The two objects, in a process that has entered a try region. *)
Definition two_objects_in_try : State := snd (STRADA_TRY_PUSH two_objects).





(** ** The lookup as a depth-first search *)

(** The visited set holds a package of that name. *)
Definition visited_has (visited : list string) (p : string) : Prop :=
  exists x, x ∈ visited /\ cstr x = cstr p.

(** The search that the specification describes: depth-first, from left to
    right over the parent lists, with a visited set.  [depth_first pkgs m V
    p r V'] says that the search for the method [m] from the package [p],
    with the packages [V] visited before, yields [r], the first package that
    defines [m] together with that method, or nothing, and leaves the
    packages [V'] visited, in the order of their visits.  A package without
    a name and a package that was visited before yield nothing; any other
    package is visited, and is the answer if it defines [m]; if not, its
    parents are searched from left to right, each from the visited set that
    the one before has left, and the first that yields an answer ends the
    search. *)
Inductive depth_first (pkgs : list OopPackage) (m : string)
    : list string -> string -> option (string * StradaMethod) -> list string -> Prop :=
  | depth_first_no_name (V : list string) (p : string) :
      cstr p = EmptyString ->
      depth_first pkgs m V p None V
  | depth_first_seen (V : list string) (p : string) :
      cstr p <> EmptyString ->
      visited_has V p ->
      depth_first pkgs m V p None V
  | depth_first_own (V : list string) (p : string) (f : StradaMethod) :
      cstr p <> EmptyString ->
      ~ visited_has V p ->
      method_in pkgs m p = Some f ->
      depth_first pkgs m V p (Some (p, f)) (V ++ [p])
  | depth_first_inherited (V : list string) (p : string)
      (r : option (string * StradaMethod)) (V' : list string) :
      cstr p <> EmptyString ->
      ~ visited_has V p ->
      method_in pkgs m p = None ->
      depth_first_parents pkgs m (V ++ [p]) (parents_in pkgs p) r V' ->
      depth_first pkgs m V p r V'
with depth_first_parents (pkgs : list OopPackage) (m : string)
    : list string -> list string -> option (string * StradaMethod) -> list string -> Prop :=
  | depth_first_parents_none (V : list string) :
      depth_first_parents pkgs m V [] None V
  | depth_first_parents_found (V : list string) (q : string) (rest : list string)
      (a : string * StradaMethod) (V' : list string) :
      depth_first pkgs m V q (Some a) V' ->
      depth_first_parents pkgs m V (q :: rest) (Some a) V'
  | depth_first_parents_next (V : list string) (q : string) (rest : list string)
      (r : option (string * StradaMethod)) (V' V'' : list string) :
      depth_first pkgs m V q None V' ->
      depth_first_parents pkgs m V' rest r V'' ->
      depth_first_parents pkgs m V (q :: rest) r V''.

(** The names that a search from [p] can meet are in [U]: that of [p], and
    with a name those of the parents of the package registered under it. *)
Definition holds_hierarchy (pkgs : list OopPackage) (p : string) (U : gset string) : Prop :=
  cstr p ∈ U /\
  forall x q, cstr x ∈ U -> q ∈ parents_in pkgs x -> cstr q ∈ U.

(** Such a set: the name of [p] and the names in the parent lists of the
    registry. *)
Definition names_in (pkgs : list OopPackage) (p : string) : gset string :=
  {[ cstr p ]} ∪ list_to_set (cstr <$> concat (parents <$> pkgs)).

(** The visited array holds no name twice, and only names of [U]. *)
Definition visits_ok (U : gset string) (V : list string) : Prop :=
  NoDup (cstr <$> V) /\ forall x, x ∈ V -> cstr x ∈ U.

(** No visited package defines the method. *)
Definition none_defines (pkgs : list OopPackage) (m : string) (V : list string) : Prop :=
  forall x, x ∈ V -> method_in pkgs m x = None.

(** Every visited package whose search has ended (it is not among those in
    [stack], whose parents are being searched) has all its parents visited. *)
Definition searched (pkgs : list OopPackage) (stack V : list string) : Prop :=
  forall x q, x ∈ V -> ~ visited_has stack x -> q ∈ parents_in pkgs x ->
    cstr q = EmptyString \/ visited_has V q.

(** The visited array [Vc], which holds at most 64 names, against the
    visited set [Ve] of the search: the array holds only names of the set;
    it has forgotten a name only if it is full; and every package of the set
    is done with, no method above it, or it ranks above the packages [ps]
    that are about to be searched. *)
Definition array_follows (pkgs : list OopPackage) (m : string) (rank : string -> nat)
    (ps Vc Ve : list string) : Prop :=
  (forall x, x ∈ Vc -> x ∈ Ve) /\
  ((exists x, x ∈ Ve /\ ~ visited_has Vc x) -> (64 <= length Vc)%nat) /\
  (forall x, x ∈ Ve ->
     no_method_above pkgs m x \/
     forall q y, q ∈ ps -> cstr y = cstr x -> (rank q < rank y)%nat).

(** What a search that found nothing leaves behind: as [array_follows], the
    packages added to the set having no method above them. *)
Definition array_followed (pkgs : list OopPackage) (m : string)
    (Vc' Ve' Ve : list string) : Prop :=
  (forall x, x ∈ Vc' -> x ∈ Ve') /\
  ((exists x, x ∈ Ve' /\ ~ visited_has Vc' x) -> (64 <= length Vc')%nat) /\
  (forall x, x ∈ Ve' -> x ∈ Ve \/ no_method_above pkgs m x).

(** The lookup from [p] for the method [m] answers as the depth-first
    search does, with any fuel above [bound]: it returns the method of the
    first package that defines [m] ([strada_method_lookup_package] names that
    package), which is reached from [p], no package visited before it
    defining [m]; or it returns [NULL], no package reached from [p] defining
    [m]. *)
Definition lookup_answers (s : State) (p m : string) (bound : nat) : Prop :=
  exists r visited,
    depth_first (oop_packages s) m [] p r visited /\
    (forall fuel, (bound < fuel)%nat ->
       oop_lookup_method fuel s (Some p) (Some m) = Done (snd <$> r) /\
       strada_method_lookup_package fuel s (Some p) (Some m) = Done (fst <$> r)) /\
    match r with
    | Some (q, f) =>
        reaches (oop_packages s) p q /\ defines (oop_packages s) q m f /\
        exists before, visited = before ++ [q] /\ none_defines (oop_packages s) m before
    | None => no_method_above (oop_packages s) m p
    end.

(** A registry with a cycle: [A] inherits from [B] and [C], [B] inherits
    from [A], and [C] defines [m]. *)
Definition cyclic_registry : State :=
  with_initialized true
    (with_packages
       [ mkPackage "A" ["B"%string; "C"%string] [];
         mkPackage "B" ["A"%string] [];
         mkPackage "C" [] [mkMethod "m" 7%nat] ]
       initial_state).

(** The name of the [i]-th package of [long_chain]: [P00], [P01], ... *)
Definition chain_name (i : nat) : string :=
  String "P"%char
    (String (Ascii.ascii_of_nat (48 + i / 10))
       (String (Ascii.ascii_of_nat (48 + i mod 10)) EmptyString)).

(** Sixty-six packages: each of [P00] ... [P64] inherits from the next one,
    and [P65] inherits from [P64]. *)
Definition long_chain : list OopPackage :=
  ((fun i => mkPackage (chain_name i) [chain_name (S i)] []) <$> seq 0 65)
  ++ [mkPackage (chain_name 65) [chain_name 64] []].

Definition long_chain_state : State :=
  with_initialized true (with_packages long_chain initial_state).

(** The calls of [strada_inherit] that build [long_chain]. *)
Definition long_chain_links : list (string * string) :=
  ((fun i => (chain_name i, chain_name (S i))) <$> seq 0 65)
  ++ [(chain_name 65, chain_name 64)].

Fixpoint inherit_all (links : list (string * string)) (s : State) : result State :=
  match links with
  | [] => Done s
  | (child, parent) :: rest =>
      s1 <- strada_inherit (Some child) (Some parent) s ;; inherit_all rest s1
  end.

(** A registry that holds a package without a name, which defines [m]. *)
Definition nameless_registry : State :=
  with_initialized true
    (with_packages [mkPackage EmptyString [] [mkMethod "m" 5%nat]] initial_state).

(* PROPERTIES *)

(** * Properties *)

(** ** C strings *)

Lemma cstr_idem (m : string) : cstr (cstr m) = cstr m.
Proof.
  induction m as [|c m IH]; [reflexivity|]. cbn [cstr].
  destruct (Ascii.eqb c NUL) eqn:Hc; [reflexivity|]. cbn [cstr]. rewrite Hc, IH. reflexivity.
Qed.

Lemma strcmp_spec (a b : string) : reflect (cstr a = cstr b) (strcmp_eq a b).
Proof. unfold strcmp_eq. apply String.eqb_spec. Qed.

Lemma strcmp_refl (a : string) : strcmp_eq a a = true.
Proof. unfold strcmp_eq. apply String.eqb_refl. Qed.

Lemma strcmp_true (a b : string) : strcmp_eq a b = true <-> cstr a = cstr b.
Proof. unfold strcmp_eq. apply String.eqb_eq. Qed.

Lemma strcmp_false (a b : string) : strcmp_eq a b = false <-> cstr a <> cstr b.
Proof. unfold strcmp_eq. apply String.eqb_neq. Qed.

Lemma strcmp_cstr_l (a b : string) : strcmp_eq (cstr a) b = strcmp_eq a b.
Proof. unfold strcmp_eq. rewrite cstr_idem. reflexivity. Qed.

Lemma strcmp_cstr_r (a b : string) : strcmp_eq a (cstr b) = strcmp_eq a b.
Proof. unfold strcmp_eq. rewrite cstr_idem. reflexivity. Qed.

Lemma strcmp_same_r (a b b' : string) :
  cstr b = cstr b' -> strcmp_eq a b = strcmp_eq a b'.
Proof. unfold strcmp_eq. intros ->. reflexivity. Qed.

Lemma first_is_nul_spec (s : string) : first_is_nul s = true <-> cstr s = EmptyString.
Proof.
  destruct s as [|c s]; cbn [first_is_nul cstr]; [split; reflexivity|].
  destruct (Ascii.eqb c NUL); split; intros H; try reflexivity; discriminate H.
Qed.

Lemma first_is_nul_false (s : string) : first_is_nul s = false <-> cstr s <> EmptyString.
Proof.
  rewrite <- first_is_nul_spec. destruct (first_is_nul s); split; intros H; congruence.
Qed.

Lemma first_is_nul_same (a b : string) : cstr a = cstr b -> first_is_nul a = first_is_nul b.
Proof.
  intros H. destruct (first_is_nul a) eqn:Ha; symmetry.
  - apply first_is_nul_spec. rewrite <- H. apply first_is_nul_spec. exact Ha.
  - apply first_is_nul_false. rewrite <- H. apply first_is_nul_false. exact Ha.
Qed.

Lemma strncpy_cstr (n : nat) : forall s : string, strncpy n (cstr s) = strncpy n s.
Proof.
  induction n as [|n IH]; intros s; [reflexivity|].
  destruct s as [|c s]; [reflexivity|]. cbn [cstr strncpy].
  destruct (Ascii.eqb c NUL) eqn:Hc; [reflexivity|]. cbn [strncpy]. rewrite Hc, IH. reflexivity.
Qed.

Lemma cstr_strncpy (n : nat) : forall s : string, cstr (strncpy n s) = strncpy n s.
Proof.
  induction n as [|n IH]; intros s; [reflexivity|].
  destruct s as [|c s]; [reflexivity|]. cbn [strncpy].
  destruct (Ascii.eqb c NUL) eqn:Hc; [reflexivity|]. cbn [cstr]. rewrite Hc, IH. reflexivity.
Qed.


Lemma fresh_value_unused (s : State) : values s !! fresh (dom (values s)) = None.
Proof. apply not_elem_of_dom, is_fresh. Qed.

Lemma new_undef_fresh (s : State) :
  returns_fresh_undef s
    (let r := strada_new_undef s in Done (Some (fst r), snd r)).
Proof.
  exists (fresh (dom (values s))), (snd (strada_new_undef s)).
  split; [reflexivity|]. split; [apply fresh_value_unused|].
  repeat split; reflexivity.
Qed.

(** C10.  Reads of absent elements are total: [strada_array_get] with a
    null array or an index that is out of bounds after a negative index is
    counted from the end, [strada_array_pop] and [strada_array_shift] on a
    null or empty array, and [strada_hash_get] with a null table, a null key
    or a key that the table does not hold, each return a newly allocated
    [Undef] value with reference count 1 (never [NULL], never an error) and
    leave every array and hash table as it was. *)
Theorem absent_reads_return_fresh_undef (s : State) :
  (forall idx, returns_fresh_undef s (strada_array_get None idx s)) /\
  (forall a arr idx,
      arrays s !! a = Some arr -> out_of_bounds arr idx ->
      returns_fresh_undef s (strada_array_get (Some a) idx s)) /\
  returns_fresh_undef s (strada_array_pop None s) /\
  returns_fresh_undef s (strada_array_shift None s) /\
  (forall a arr,
      arrays s !! a = Some arr -> elements arr = [] ->
      returns_fresh_undef s (strada_array_pop (Some a) s) /\
      returns_fresh_undef s (strada_array_shift (Some a) s)) /\
  (forall k, returns_fresh_undef s (strada_hash_get None k s)) /\
  (forall hv, returns_fresh_undef s (strada_hash_get hv None s)) /\
  (forall a k,
      strada_hash_exists (Some a) (Some k) s = Done false ->
      returns_fresh_undef s (strada_hash_get (Some a) (Some k) s)).
Proof.
  repeat split.
  - intros idx. apply new_undef_fresh.
  - intros a arr idx Ha Hout. unfold strada_array_get. rewrite Ha.
    assert (Hb : ((if idx <? 0 then Z.of_nat (length (elements arr)) + idx else idx) <? 0)
                 || (Z.of_nat (length (elements arr)) <=?
                      (if idx <? 0 then Z.of_nat (length (elements arr)) + idx else idx))
                 = true).
    { unfold out_of_bounds in Hout. apply orb_true_iff.
      destruct (Z.ltb_spec idx 0); [destruct Hout as [[_ H1]|H1] | destruct Hout as [[H1 _]|H1]].
      - left. apply Z.ltb_lt. exact H1.
      - right. apply Z.leb_le. lia.
      - lia.
      - right. apply Z.leb_le. exact H1. }
    cbv zeta. rewrite Hb. apply new_undef_fresh.
  - apply new_undef_fresh.
  - apply new_undef_fresh.
  - unfold strada_array_pop. rewrite H, H0. apply new_undef_fresh.
  - unfold strada_array_shift. rewrite H, H0. apply new_undef_fresh.
  - intros k. destruct k; apply new_undef_fresh.
  - intros hv. destruct hv; apply new_undef_fresh.
  - intros a k Hex. unfold strada_hash_exists in Hex. unfold strada_hash_get.
    destruct (hashes s !! a) as [h|]; [|discriminate].
    destruct (num_buckets h =? 0); [discriminate|].
    destruct (chain_find (chain_at h k) k); [discriminate|].
    apply new_undef_fresh.
Qed.

Lemma absent_reads_witness :
  (arrays containers_demo !! 2%nat = Some (mkArray [Some 7%nat] 8 1) /\
   out_of_bounds (mkArray [Some 7%nat] 8 1) (-2) /\
   returns_fresh_undef containers_demo (strada_array_get (Some 2%nat) (-2) containers_demo)) /\
  (arrays containers_demo !! 1%nat = Some (mkArray [] 8 1) /\
   returns_fresh_undef containers_demo (strada_array_pop (Some 1%nat) containers_demo) /\
   returns_fresh_undef containers_demo (strada_array_shift (Some 1%nat) containers_demo)) /\
  (strada_hash_exists (Some 1%nat) (Some "k"%string) containers_demo = Done false /\
   returns_fresh_undef containers_demo
     (strada_hash_get (Some 1%nat) (Some "k"%string) containers_demo)).
Proof.
  destruct (absent_reads_return_fresh_undef containers_demo)
    as (_ & Hget & _ & _ & Hempty & _ & _ & Hhash).
  assert (Ha2 : arrays containers_demo !! 2%nat = Some (mkArray [Some 7%nat] 8 1))
    by reflexivity.
  assert (Ha1 : arrays containers_demo !! 1%nat = Some (mkArray [] 8 1)) by reflexivity.
  assert (Hout : out_of_bounds (mkArray [Some 7%nat] 8 1) (-2))
    by (left; simpl; lia).
  assert (Hex : strada_hash_exists (Some 1%nat) (Some "k"%string) containers_demo = Done false)
    by reflexivity.
  split; [|split].
  - split; [exact Ha2|]. split; [exact Hout|]. exact (Hget _ _ _ Ha2 Hout).
  - split; [exact Ha1|]. exact (Hempty _ _ Ha1 eq_refl).
  - split; [exact Hex|]. exact (Hhash _ _ Hex).
Defined.

(** ** Conversions *)

Lemma str_truth_spec (x : string) :
  str_truth (Some x) = true <-> cstr x <> EmptyString /\ cstr x <> "0"%string.
Proof.
  unfold str_truth. destruct x as [|c r]; simpl.
  - split; [discriminate | intros [H _]; congruence].
  - unfold strcmp_eq. change (cstr "0") with "0"%string.
    change (cstr (String c r))
      with (if Ascii.eqb c NUL then EmptyString else String c (cstr r)).
    destruct (Ascii.eqb c NUL) eqn:Hc.
    + rewrite andb_false_l. split; [discriminate | intros [H _]; congruence].
    + rewrite andb_true_l, negb_true_iff, String.eqb_neq. split.
      * intros H. split; [discriminate | exact H].
      * intros [_ H]. exact H.
Qed.

(** C7 (amended).  What the conversions yield, variant by variant: [Undef]
    converts to false, 0, 0.0 and the empty string; an [Int] is true iff it
    is not 0 and a [Num] iff it does not compare equal to 0.0; a [Str] is
    true iff the C string it holds, its bytes before the first NUL byte, is
    neither empty nor ["0"] (a null string pointer is false); an [Array] is
    true iff it has an element and a [Hash] iff its entry count is positive
    (a null container is false); the truth of a [Reference] is the truth of
    its referent, found by the recursive call (a null referent is false). *)
Theorem conversions_follow_truthiness_rules
    (L : Libc) (fuel : nat) (s : State) (a : addr) (v : StradaValue) :
  values s !! a = Some v ->
  match value v with
  | PUndef =>
      strada_to_bool (S fuel) (Some a) s = Done false /\
      strada_to_int L (Some a) s = Done 0 /\
      strada_to_num L (Some a) s = Done 0%float /\
      strada_to_str L (Some a) s = Done EmptyString
  | PInt iv => truth_is (strada_to_bool (S fuel) (Some a) s) (iv <> 0)
  | PNum nv => truth_is (strada_to_bool (S fuel) (Some a) s) (PrimFloat.eqb nv 0%float = false)
  | PStr pv =>
      truth_is (strada_to_bool (S fuel) (Some a) s)
        (exists bytes, pv = Some bytes /\ cstr bytes <> EmptyString /\ cstr bytes <> "0"%string)
  | PArray None => strada_to_bool (S fuel) (Some a) s = Done false
  | PArray (Some x) =>
      forall arr, arrays s !! x = Some arr ->
      truth_is (strada_to_bool (S fuel) (Some a) s) (elements arr <> [])
  | PHash None => strada_to_bool (S fuel) (Some a) s = Done false
  | PHash (Some x) =>
      forall tbl, hashes s !! x = Some tbl ->
      truth_is (strada_to_bool (S fuel) (Some a) s) (0 < num_entries tbl)
  | PRef None => strada_to_bool (S fuel) (Some a) s = Done false
  | PRef (Some r) =>
      strada_to_bool (S fuel) (Some a) s = strada_to_bool fuel (Some r) s
  | _ => strada_to_bool (S fuel) (Some a) s = Done true
  end.
Proof.
  intros Hv.
  destruct (value v) as [|iv|nv|pv|av|hv|rv|fh|rx|fd|p n|p|cl] eqn:Hp;
    unfold strada_to_int, strada_to_num, strada_to_str; simpl; rewrite Hv, ?Hp;
    try reflexivity.
  - auto.
  - exists (negb (iv =? 0)). split; [reflexivity|].
    rewrite negb_true_iff, Z.eqb_neq. reflexivity.
  - exists (negb (PrimFloat.eqb nv 0)). split; [reflexivity|].
    rewrite negb_true_iff. reflexivity.
  - exists (str_truth pv). split; [reflexivity|]. destruct pv as [x|].
    + rewrite str_truth_spec. split.
      * intros H. exists x. split; [reflexivity | exact H].
      * intros (y & Hy & H). injection Hy as <-. exact H.
    + simpl. split; [discriminate | intros (y & Hy & _); discriminate].
  - destruct av as [x|]; [|reflexivity].
    intros arr Harr. unfold strada_array_length. rewrite Harr. simpl.
    exists (0 <? Z.of_nat (length (elements arr))). split; [reflexivity|].
    rewrite Z.ltb_lt. destruct (elements arr); simpl; split; intros; try lia; congruence.
  - destruct hv as [x|]; [|reflexivity].
    intros tbl Htbl. rewrite Htbl.
    exists (0 <? num_entries tbl). split; [reflexivity|]. apply Z.ltb_lt.
  - destruct rv as [r|]; reflexivity.
Qed.

Lemma conversions_witness :
  values binary_str_state !! 0%nat = Some (mkValue 1 (PStr (Some zero_nul_x)) None) /\
  truth_is (strada_to_bool 1 (Some 0%nat) binary_str_state)
    (exists bytes, Some zero_nul_x = Some bytes /\
       cstr bytes <> EmptyString /\ cstr bytes <> "0"%string).
Proof.
  assert (H : values binary_str_state !! 0%nat
              = Some (mkValue 1 (PStr (Some zero_nul_x)) None)) by reflexivity.
  split; [exact H|].
  exact (conversions_follow_truthiness_rules demo_libc 0 binary_str_state 0%nat _ H).
Defined.

(** C7, as it is stated, fails on a binary string: the [Str] of the three
    bytes ['0'], NUL, ['x'] is neither empty nor literally ["0"], and
    [strada_to_bool] finds it false. *)
Lemma binary_str_is_false_counterexample :
  values binary_str_state !! 0%nat = Some (mkValue 1 (PStr (Some zero_nul_x)) None) /\
  strada_to_bool 1 (Some 0%nat) binary_str_state = Done false /\
  ~ (zero_nul_x = EmptyString \/ zero_nul_x = "0"%string).
Proof.
  split; [reflexivity|]. split; [reflexivity|].
  intros [H|H]; discriminate H.
Qed.

(** ** Exceptions *)

Lemma try_inv_initial : try_inv initial_state.
Proof.
  split; [unfold STRADA_MAX_TRY_DEPTH; simpl; lia|]. split; [reflexivity|].
  intros i. unfold frame_active.
  change (strada_try_stack initial_state) with (replicate 64 false).
  change (strada_try_depth initial_state) with 0. split.
  - intros H. apply andb_true_iff in H as [_ H].
    destruct (replicate 64 false !! Z.to_nat i) as [b|] eqn:Hb; [|discriminate H].
    apply lookup_replicate in Hb as [-> _]. discriminate H.
  - lia.
Qed.

Lemma frame_active_with_try (s : State) (st : list bool) (d i : Z) :
  frame_active (with_try st d s) i = (0 <=? i) && default false (st !! Z.to_nat i).
Proof. reflexivity. Qed.

Lemma try_inv_push (s : State) : try_inv s -> try_inv (snd (STRADA_TRY_PUSH s)).
Proof.
  intros (Hd & Hlen & Hact). unfold STRADA_TRY_PUSH, STRADA_MAX_TRY_DEPTH in *.
  destruct (Z.ltb_spec (strada_try_depth s) 64);
    [|cbn [snd]; unfold try_inv, STRADA_MAX_TRY_DEPTH; auto].
  unfold try_inv, STRADA_MAX_TRY_DEPTH. cbn [snd].
  split; [simpl; lia|]. split; [simpl; rewrite length_insert; exact Hlen|].
  intros i. rewrite frame_active_with_try. simpl.
  destruct (Z.eq_dec i (strada_try_depth s)) as [->|Hne].
  - rewrite list_lookup_insert_eq by lia. simpl.
    split; [lia | intros _; apply andb_true_iff; split; [apply Z.leb_le; lia | reflexivity]].
  - destruct (Z.leb_spec 0 i) as [Hi|Hi]; simpl.
    + rewrite list_lookup_insert_ne by lia.
      specialize (Hact i). unfold frame_active in Hact.
      apply Z.leb_le in Hi. rewrite Hi in Hact. simpl in Hact. rewrite Hact. lia.
    + split; [discriminate | lia].
Qed.

Lemma try_inv_pop (s : State) : try_inv s -> try_inv (snd (STRADA_TRY_POP s)).
Proof.
  intros (Hd & Hlen & Hact). unfold STRADA_TRY_POP, STRADA_MAX_TRY_DEPTH in *.
  destruct (Z.ltb_spec 0 (strada_try_depth s));
    [|cbn [snd]; unfold try_inv, STRADA_MAX_TRY_DEPTH; auto].
  unfold try_inv, STRADA_MAX_TRY_DEPTH. cbn [snd].
  split; [simpl; lia|]. split; [simpl; rewrite length_insert; exact Hlen|].
  intros i. rewrite frame_active_with_try. simpl.
  destruct (Z.eq_dec i (strada_try_depth s - 1)) as [->|Hne].
  - rewrite list_lookup_insert_eq by lia. simpl.
    rewrite andb_false_r. split; [discriminate | lia].
  - destruct (Z.leb_spec 0 i) as [Hi|Hi]; simpl.
    + rewrite list_lookup_insert_ne by lia.
      specialize (Hact i). unfold frame_active in Hact.
      apply Z.leb_le in Hi. rewrite Hi in Hact. simpl in Hact. rewrite Hact. lia.
    + split; [discriminate | lia].
Qed.

Lemma get_exception_fresh_str (s : State) (msg : string) :
  strada_exception_msg s = Some msg ->
  values s !! fst (strada_get_exception s) = None /\
  values (snd (strada_get_exception s)) !! fst (strada_get_exception s)
    = Some (mkValue 1 (PStr (Some (cstr msg))) None) /\
  forall a, a <> fst (strada_get_exception s) ->
    values (snd (strada_get_exception s)) !! a = values s !! a.
Proof.
  intros Hm. unfold strada_get_exception. rewrite Hm.
  unfold strada_new_str, alloc_value. simpl. split; [apply fresh_value_unused|].
  split; [apply lookup_insert_eq|].
  intros a Ha. apply lookup_insert_ne. congruence.
Qed.

(** C2 (amended).  On a try stack kept by [STRADA_TRY_PUSH] and
    [STRADA_TRY_POP], [strada_throw_value] of a value whose string
    conversion is [msg]: when some try frame is active, control is
    transferred by [longjmp] to the innermost active frame, and
    [strada_get_exception] then returns a newly allocated [Str] with
    reference count 1 that holds [msg], the string conversion of the thrown
    value, while the thrown value itself is left as it was; when no try
    frame is active, the process exits with status 1. *)
Theorem throw_value_reaches_nearest_frame
    (L : Libc) (s : State) (sv : ptr) (msg : string) :
  try_inv s ->
  strada_to_str L sv s = Done msg ->
  ((exists i, frame_active s i = true) ->
   exists s1,
     strada_throw_value L sv s = Done (Longjmp (strada_try_depth s - 1), s1) /\
     frame_active s (strada_try_depth s - 1) = true /\
     (forall i, frame_active s i = true -> i <= strada_try_depth s - 1) /\
     values s1 = values s /\
     values s !! fst (strada_get_exception s1) = None /\
     values (snd (strada_get_exception s1)) !! fst (strada_get_exception s1)
       = Some (mkValue 1 (PStr (Some (cstr msg))) None) /\
     (forall a, a <> fst (strada_get_exception s1) ->
        values (snd (strada_get_exception s1)) !! a = values s !! a)) /\
  ((forall i, frame_active s i = false) ->
   exists s1, strada_throw_value L sv s = Done (ExitProcess 1, s1)).
Proof.
  intros (Hd & Hlen & Hact) Hstr. unfold strada_throw_value. rewrite Hstr. simpl.
  assert (Hblk : strada_in_try_block (with_exception_msg (Some msg) s)
                 = strada_in_try_block s) by reflexivity.
  rewrite Hblk. split.
  - intros [i Hi]. apply Hact in Hi.
    assert (Htop : frame_active s (strada_try_depth s - 1) = true) by (apply Hact; lia).
    assert (Hcond : strada_in_try_block s = true).
    { unfold strada_in_try_block. rewrite Htop, andb_true_r. apply Z.ltb_lt. lia. }
    rewrite Hcond. eexists. split; [reflexivity|]. split; [exact Htop|].
    split; [intros j Hj; apply Hact in Hj; lia|]. split; [reflexivity|].
    exact (get_exception_fresh_str (with_exception_msg (Some msg) s) msg eq_refl).
  - intros Hnone. unfold strada_in_try_block. rewrite Hnone, andb_false_r.
    eexists. reflexivity.
Qed.

Lemma throw_value_witness :
  try_inv in_try_with_int /\
  strada_to_str demo_libc (Some 0%nat) in_try_with_int = Done "42"%string /\
  frame_active in_try_with_int 0 = true /\
  exists s1,
    strada_throw_value demo_libc (Some 0%nat) in_try_with_int
      = Done (Longjmp (strada_try_depth in_try_with_int - 1), s1) /\
    values (snd (strada_get_exception s1)) !! fst (strada_get_exception s1)
      = Some (mkValue 1 (PStr (Some (cstr "42"))) None).
Proof.
  assert (Hinv : try_inv in_try_with_int).
  { unfold in_try_with_int. apply try_inv_push.
    destruct try_inv_initial as (H1 & H2 & H3). split; [exact H1|]. split; [exact H2|exact H3]. }
  assert (Hstr : strada_to_str demo_libc (Some 0%nat) in_try_with_int = Done "42"%string)
    by reflexivity.
  assert (Hact : frame_active in_try_with_int 0 = true) by reflexivity.
  split; [exact Hinv|]. split; [exact Hstr|]. split; [exact Hact|].
  destruct (throw_value_reaches_nearest_frame demo_libc in_try_with_int (Some 0%nat) "42"
              Hinv Hstr) as [Hjump _].
  destruct (Hjump (ex_intro _ 0 Hact)) as (s1 & H1 & _ & _ & _ & _ & H2 & _).
  exists s1. split; [exact H1 | exact H2].
Defined.

(** C2, as it is stated, fails: the [Int] 42 is thrown inside a try region;
    what [strada_get_exception] returns is another value, at another
    address, and it is the [Str] ["42"], not the [Int] 42. *)
Lemma thrown_int_comes_back_as_str_counterexample :
  values in_try_with_int !! 0%nat = Some (mkValue 1 (PInt 42) None) /\
  exists s3,
    after_throw_of_int = Done (Longjmp 0, (1%nat, s3)) /\
    values s3 !! 0%nat = Some (mkValue 1 (PInt 42) None) /\
    values s3 !! 1%nat = Some (mkValue 1 (PStr (Some "42"%string)) None) /\
    (1%nat <> 0%nat) /\
    PStr (Some "42"%string) <> PInt 42.
Proof.
  split; [reflexivity|]. eexists. split; [reflexivity|].
  split; [reflexivity|]. split; [reflexivity|]. split; discriminate.
Qed.

(** ** Blessing *)

(** C3 (the check is missing in [strada_bless]).  [strada_bless] is applied
    to an [Int]: it succeeds, the [Int] carries the package tag from then
    on, and when the value is released [strada_free_value] itself reports
    the tag on a non-reference as memory corruption. *)
Theorem bless_tags_a_non_reference :
  values with_int_7 !! 0%nat = Some (mkValue 1 (PInt 7) None) /\
  exists s1 s2,
    strada_bless (Some 0%nat) (Some "Counter"%string) with_int_7 = Done (Some 0%nat, s1) /\
    values s1 !! 0%nat = Some (mkValue 1 (PInt 7) (Some "Counter"%string)) /\
    type_of (PInt 7) <> STRADA_REF /\
    strada_decref no_native 2 (Some 0%nat) s1 = Done s2 /\
    trace s2 = [EvFree 0%nat; EvNonRefBlessed 0%nat].
Proof.
  split; [reflexivity|]. eexists. eexists.
  split; [vm_compute; reflexivity|]. split; [vm_compute; reflexivity|].
  split; [discriminate|].
  split; vm_compute; reflexivity.
Qed.

(** [strada_bless] never looks at the type of the value it tags. *)
Lemma bless_ignores_type (s s1 : State) (a : addr) (v : StradaValue) (pk : string) (r : ptr) :
  values s !! a = Some v ->
  strada_bless (Some a) (Some pk) s = Done (r, s1) ->
  r = Some a /\ values s1 !! a = Some (mkValue (refcount v) (value v) (Some (cstr pk))).
Proof.
  intros Hv. unfold strada_bless. rewrite Hv.
  unfold oop_get_or_create_package.
  assert (Hval : values (strada_oop_init s) = values s)
    by (unfold strada_oop_init; destruct (oop_initialized s); reflexivity).
  destruct (oop_find_package (oop_packages (strada_oop_init s)) pk); simpl.
  - intros [= <- <-]. split; [reflexivity|].
    unfold set_blessed. rewrite Hval, Hv. simpl. apply lookup_insert_eq.
  - destruct (OOP_MAX_PACKAGES <=? Z.of_nat (length (oop_packages (strada_oop_init s))));
      simpl; [discriminate|].
    intros [= <- <-]. split; [reflexivity|].
    unfold set_blessed. simpl. rewrite Hval, Hv. simpl. apply lookup_insert_eq.
Qed.

(** ** SUPER:: dispatch *)

Lemma super_search_first (fuel : nat) (s : State) (m : string) (f : StradaMethod) :
  forall (ps : list string) (i : nat) (p : string),
    ps !! i = Some p ->
    oop_lookup_method fuel s (Some p) (Some m) = Done (Some f) ->
    (forall j q, (j < i)%nat -> ps !! j = Some q ->
       oop_lookup_method fuel s (Some q) (Some m) = Done None) ->
    super_search fuel s ps m = Done (Some f).
Proof.
  induction ps as [|q rest IH]; intros i p Hi Hp Hbefore; [discriminate|].
  destruct i as [|i]; cbn [super_search].
  - injection Hi as ->. rewrite Hp. reflexivity.
  - rewrite (Hbefore 0%nat q (Nat.lt_0_succ i) eq_refl). cbn [bind].
    apply (IH i p Hi Hp). intros j q' Hj Hq'. apply (Hbefore (S j) q'); [lia | exact Hq'].
Qed.

Lemma super_search_none (fuel : nat) (s : State) (m : string) :
  forall ps : list string,
    (forall j q, ps !! j = Some q -> oop_lookup_method fuel s (Some q) (Some m) = Done None) ->
    super_search fuel s ps m = Done None.
Proof.
  induction ps as [|q rest IH]; intros Hall; [reflexivity|]. cbn [super_search].
  rewrite (Hall 0%nat q eq_refl). cbn [bind]. apply IH.
  intros j q' Hq'. apply (Hall (S j) q' Hq').
Qed.

(** C6 (amended).  [SUPER::] dispatch from the package [from] of the
    running method goes through the direct parents of [from] in their order
    and runs, for each, the full hierarchy lookup ([oop_lookup_method], depth
    first through that parent's own ancestors); the first parent whose
    lookup finds the method decides, and when none does the process exits.
    The class of the receiver plays no part.  In the diamond, [SUPER::hello]
    from a method of [B] on an instance of [D] runs the method of [A] (10),
    not the one of [C] (30), while a plain method call on the instance runs
    the method of [B] (20). *)
Theorem super_call_searches_parent_hierarchies
    (fuel : nat) (s : State) (a : addr) (v : StradaValue) (class from m : string)
    (pkg : OopPackage) :
  values s !! a = Some v ->
  blessed_package v = Some class ->
  oop_initialized s = true ->
  oop_find_package (oop_packages s) from = Some pkg ->
  (forall i p f,
      parents pkg !! i = Some p ->
      oop_lookup_method fuel s (Some p) (Some m) = Done (Some f) ->
      (forall j q, (j < i)%nat -> parents pkg !! j = Some q ->
         oop_lookup_method fuel s (Some q) (Some m) = Done None) ->
      strada_super_call fuel (Some a) (Some from) (Some m) s = Done (Invoke f a, s)) /\
  ((forall j q, parents pkg !! j = Some q ->
      oop_lookup_method fuel s (Some q) (Some m) = Done None) ->
   strada_super_call fuel (Some a) (Some from) (Some m) s = Exit 1) /\
  strada_super_call 2 (Some 1%nat) (Some "B"%string) (Some "hello"%string)
    (object_state diamond "D") = Done (Invoke 10%nat 1%nat, object_state diamond "D") /\
  strada_method_call 3 (Some 1%nat) (Some "hello"%string)
    (object_state diamond "D") = Done (Invoke 20%nat 1%nat, object_state diamond "D").
Proof.
  intros Hv Hb Hinit Hpkg.
  assert (Hs : strada_oop_init s = s) by (unfold strada_oop_init; rewrite Hinit; reflexivity).
  split; [|split; [|split; reflexivity]].
  - intros i p f Hi Hp Hbefore. unfold strada_super_call.
    rewrite Hv, Hb, Hs, Hpkg.
    rewrite (super_search_first fuel s m f (parents pkg) i p Hi Hp Hbefore). reflexivity.
  - intros Hall. unfold strada_super_call. rewrite Hv, Hb, Hs, Hpkg.
    rewrite (super_search_none fuel s m (parents pkg) Hall). reflexivity.
Qed.

Lemma super_call_witness :
  values (object_state three_levels "Leaf") !! 1%nat
    = Some (mkValue 1 (PRef (Some 0%nat)) (Some "Leaf"%string)) /\
  oop_find_package three_levels "Leaf" = Some (mkPackage "Leaf" ["Mid"%string] [mkMethod "hello" 30%nat]) /\
  oop_lookup_method 2 (object_state three_levels "Leaf") (Some "Mid"%string) (Some "hello"%string)
    = Done (Some 10%nat) /\
  strada_super_call 2 (Some 1%nat) (Some "Leaf"%string) (Some "hello"%string)
    (object_state three_levels "Leaf")
    = Done (Invoke 10%nat 1%nat, object_state three_levels "Leaf").
Proof.
  assert (Hv : values (object_state three_levels "Leaf") !! 1%nat
               = Some (mkValue 1 (PRef (Some 0%nat)) (Some "Leaf"%string))) by reflexivity.
  assert (Hp : oop_find_package (oop_packages (object_state three_levels "Leaf")) "Leaf"
               = Some (mkPackage "Leaf" ["Mid"%string] [mkMethod "hello" 30%nat]))
    by reflexivity.
  assert (Hl : oop_lookup_method 2 (object_state three_levels "Leaf")
                 (Some "Mid"%string) (Some "hello"%string) = Done (Some 10%nat))
    by reflexivity.
  split; [exact Hv|]. split; [exact Hp|]. split; [exact Hl|].
  destruct (super_call_searches_parent_hierarchies 2 (object_state three_levels "Leaf")
              1%nat _ "Leaf" "Leaf" "hello" _ Hv eq_refl eq_refl Hp) as [Hfirst _].
  apply (Hfirst 0%nat "Mid"%string 10%nat eq_refl Hl).
  intros j q Hj. lia.
Defined.

(** C6, as it is stated, fails: [Leaf] has the single direct parent [Mid],
    which defines no [hello]; a search of the direct parents only finds
    nothing, yet [SUPER::hello] from [Leaf] runs the method of the
    grandparent [Base]. *)
Lemma super_reaches_grandparent_counterexample :
  oop_find_package three_levels "Leaf"
    = Some (mkPackage "Leaf" ["Mid"%string] [mkMethod "hello" 30%nat]) /\
  super_direct_parents_only three_levels ["Mid"%string] "hello" = None /\
  strada_super_call 2 (Some 1%nat) (Some "Leaf"%string) (Some "hello"%string)
    (object_state three_levels "Leaf")
    = Done (Invoke 10%nat 1%nat, object_state three_levels "Leaf").
Proof. split; [reflexivity|]. split; reflexivity. Qed.

(** ** What a release cascade preserves

    A relation between the state before and the state after that holds for
    each elementary step of [strada_free_value] and its helpers holds for
    every completed call, whatever the heap looks like and whatever the
    native destructors do. *)

Section Cascade.

Context (native : Native).

Variable R : State -> State -> Prop.

Hypothesis R_refl : forall s, R s s.
Hypothesis R_trans : forall s1 s2 s3, R s1 s2 -> R s2 s3 -> R s1 s3.
Hypothesis R_refcount :
  forall s a v rc, values s !! a = Some v -> R s (set_refcount a rc s).
Hypothesis R_untag :
  forall s a v, values s !! a = Some v -> R s (set_blessed a None s).
Hypothesis R_report_non_ref : forall s a, R s (log (EvNonRefBlessed a) s).
Hypothesis R_report_corrupt : forall s a, R s (log (EvCorruptPackage a) s).
Hypothesis R_destroy :
  forall s s2 a v pk f,
    values s !! a = Some v -> blessed_package v = Some pk ->
    oop_destroying s = false ->
    R (log (EvDestroy a f) (with_destroying true s)) s2 ->
    R s (with_destroying false s2).
Hypothesis R_free :
  forall s s2 a,
    is_Some (values s !! a) -> R (log (EvFree a) s) s2 -> is_Some (values s2 !! a) ->
    R s (with_values (delete a (values s2)) s2).
Hypothesis R_array_rc :
  forall s a arr rc,
    arrays s !! a = Some arr ->
    R s (with_arrays (<[a := mkArray (elements arr) (capacity arr) rc]> (arrays s)) s).
Hypothesis R_array_free : forall s a, R s (with_arrays (delete a (arrays s)) s).
Hypothesis R_hash_rc :
  forall s a h rc,
    hashes s !! a = Some h ->
    R s (with_hashes (<[a := mkHash (buckets h) (num_entries h) rc]> (hashes s)) s).
Hypothesis R_hash_free : forall s a, R s (with_hashes (delete a (hashes s)) s).
Hypothesis R_cell_free : forall s c, R s (with_cells (delete c (cells s)) s).
Hypothesis R_closure_free : forall s c, R s (with_closures (delete c (closures s)) s).

Definition keeps (f : State -> result State) : Prop :=
  forall s s', f s = Done s' -> R s s'.

Lemma bind_done {A B : Type} (r : result A) (k : A -> result B) (b : B) :
  bind r k = Done b -> exists a, r = Done a /\ k a = Done b.
Proof. destruct r; simpl; intros H; try discriminate. eauto. Qed.

Lemma incref_keeps (p : ptr) : keeps (strada_incref p).
Proof.
  intros s s'. unfold strada_incref. destruct p as [a|].
  - destruct (values s !! a) as [v|] eqn:Hv; [|discriminate].
    intros [= <-]. eapply R_refcount. exact Hv.
  - intros [= <-]. apply R_refl.
Qed.

Lemma run_native_keeps (decref : ptr -> State -> result State) :
  (forall p, keeps (decref p)) -> forall cmds, keeps (run_native decref cmds).
Proof.
  intros Hd. induction cmds as [|c rest IH]; intros s s'; simpl.
  - intros [= <-]. apply R_refl.
  - destruct c as [p|p|msg]; intros H.
    + apply bind_done in H as (s1 & H1 & H2).
      eapply R_trans; [apply (incref_keeps p _ _ H1) | apply (IH _ _ H2)].
    + apply bind_done in H as (s1 & H1 & H2).
      eapply R_trans; [apply (Hd p _ _ H1) | apply (IH _ _ H2)].
    + destruct (strada_throw msg s) as [[frame|code] s1]; discriminate H.
Qed.

Lemma call_destroy_keeps (fuel : nat) (decref : ptr -> State -> result State) :
  (forall p, keeps (decref p)) ->
  forall obj, keeps (call_destroy_body native fuel decref obj).
Proof.
  intros Hd obj s s'. unfold call_destroy_body.
  destruct obj as [a|]; [|intros [= <-]; apply R_refl].
  destruct (values s !! a) as [v|] eqn:Hv; [|discriminate].
  destruct (blessed_package v) as [pk|] eqn:Hpk; [|intros [= <-]; apply R_refl].
  destruct (oop_destroying s) eqn:Hg; [intros [= <-]; apply R_refl|].
  destruct (negb (oop_initialized s)); [intros [= <-]; apply R_refl|].
  destruct (negb (strada_validate_blessed_package (Some pk)));
    [intros [= <-]; apply R_refl|].
  intros H. apply bind_done in H as (r & _ & H).
  destruct r as [f|]; [|injection H as <-; apply R_refl].
  apply bind_done in H as (s2 & H2 & H3). injection H3 as <-.
  eapply R_destroy; [exact Hv | exact Hpk | exact Hg |].
  apply (run_native_keeps decref Hd _ _ _ H2).
Qed.

Lemma decref_all_keeps (decref : ptr -> State -> result State) :
  (forall p, keeps (decref p)) -> forall l, keeps (decref_all decref l).
Proof.
  intros Hd. induction l as [|p rest IH]; intros s s'; simpl.
  - intros [= <-]. apply R_refl.
  - intros H. apply bind_done in H as (s1 & H1 & H2).
    eapply R_trans; [apply (Hd p _ _ H1) | apply (IH _ _ H2)].
Qed.

Lemma free_array_keeps (decref : ptr -> State -> result State) :
  (forall p, keeps (decref p)) -> forall av, keeps (free_array_body decref av).
Proof.
  intros Hd av s s'. unfold free_array_body.
  destruct av as [a|]; [|intros [= <-]; apply R_refl].
  destruct (arrays s !! a) as [arr|] eqn:Ha; [|discriminate].
  destruct (0 <? int32 (a_refcount arr - 1)).
  - intros [= <-]. apply R_array_rc. exact Ha.
  - intros H. apply bind_done in H as (s2 & H2 & H3). injection H3 as <-.
    eapply R_trans; [apply R_array_rc; exact Ha|].
    eapply R_trans; [apply (decref_all_keeps decref Hd _ _ _ H2) | apply R_array_free].
Qed.

Lemma free_hash_keeps (decref : ptr -> State -> result State) :
  (forall p, keeps (decref p)) -> forall hv, keeps (free_hash_body decref hv).
Proof.
  intros Hd hv s s'. unfold free_hash_body.
  destruct hv as [a|]; [|intros [= <-]; apply R_refl].
  destruct (hashes s !! a) as [h|] eqn:Ha; [|discriminate].
  destruct (0 <? int32 (h_refcount h - 1)).
  - intros [= <-]. apply R_hash_rc. exact Ha.
  - intros H. apply bind_done in H as (s2 & H2 & H3). injection H3 as <-.
    eapply R_trans; [apply R_hash_rc; exact Ha|].
    eapply R_trans; [apply (decref_all_keeps decref Hd _ _ _ H2) | apply R_hash_free].
Qed.

Lemma free_captures_keeps (decref : ptr -> State -> result State) :
  (forall p, keeps (decref p)) -> forall n cs, keeps (free_captures decref n cs).
Proof.
  intros Hd. induction n as [|n IH]; intros cs s s'; simpl.
  - intros [= <-]. apply R_refl.
  - destruct cs as [|[c|] rest]; [discriminate| |apply IH].
    destruct (cells s !! c) as [held|]; [|discriminate].
    destruct held as [x|].
    + destruct (decref (Some x) s) as [s1| | | |] eqn:H1; simpl; try discriminate.
      intros H. eapply R_trans; [apply (Hd _ _ _ H1)|].
      eapply R_trans; [apply R_cell_free | apply (IH _ _ _ H)].
    + simpl. intros H. eapply R_trans; [apply R_cell_free | apply (IH _ _ _ H)].
Qed.

Lemma free_closure_keeps (decref : ptr -> State -> result State) :
  (forall p, keeps (decref p)) -> forall cl, keeps (free_closure_body decref cl).
Proof.
  intros Hd cl s s'. unfold free_closure_body.
  destruct cl as [c|]; [|intros [= <-]; apply R_refl].
  destruct (closures s !! c) as [clo|]; [|discriminate].
  intros H. apply bind_done in H as (s1 & H1 & H2). injection H2 as <-.
  eapply R_trans; [|apply R_closure_free].
  destruct (captures clo) as [cs|].
  - apply (free_captures_keeps decref Hd _ _ _ _ H1).
  - injection H1 as <-. apply R_refl.
Qed.

Lemma release_payload_keeps (decref : ptr -> State -> result State) :
  (forall p, keeps (decref p)) -> forall pl, keeps (release_payload decref pl).
Proof.
  intros Hd pl s s' H. unfold release_payload in H.
  destruct pl; try (injection H as <-; apply R_refl).
  - apply (free_array_keeps _ Hd _ _ _ H).
  - apply (free_hash_keeps _ Hd _ _ _ H).
  - destruct rv; [apply (Hd _ _ _ H) | injection H as <-; apply R_refl].
  - apply (free_closure_keeps _ Hd _ _ _ H).
Qed.

Lemma decref_body_keeps (free : ptr -> State -> result State) :
  (forall p, keeps (free p)) -> forall p, keeps (decref_body free p).
Proof.
  intros Hf p s s'. unfold decref_body.
  destruct p as [a|]; [|intros [= <-]; apply R_refl].
  destruct (values s !! a) as [v|] eqn:Hv; [|discriminate].
  destruct (int32 (refcount v - 1) <=? 0).
  - intros H. eapply R_trans; [eapply R_refcount; exact Hv | apply (Hf _ _ _ H)].
  - intros [= <-]. eapply R_refcount. exact Hv.
Qed.

Lemma values_log (e : Event) (s : State) : values (log e s) = values s.
Proof. reflexivity. Qed.

Lemma free_value_step (fuel : nat) (a : addr) (s s' : State) :
  (forall p, keeps (strada_free_value native fuel p)) ->
  strada_free_value native (S fuel) (Some a) s = Done s' ->
  exists s2,
    is_Some (values s !! a) /\ R (log (EvFree a) s) s2 /\ is_Some (values s2 !! a) /\
    s' = with_values (delete a (values s2)) s2.
Proof.
  intros IH.
  assert (Hd : forall q, keeps (decref_body (strada_free_value native fuel) q))
    by (apply decref_body_keeps; exact IH).
  cbn [strada_free_value].
  destruct (values s !! a) as [v|] eqn:Hv; [|discriminate].
  intros H. apply bind_done in H as (s1 & H1 & H2).
  destruct (values s1 !! a) as [v1|] eqn:Hv1; [|discriminate].
  apply bind_done in H2 as (s2 & H2 & H3).
  destruct (values s2 !! a) as [v2|] eqn:Hv2; [|discriminate].
  injection H3 as <-.
  assert (R01 : R (log (EvFree a) s) s1).
  { destruct (blessed_package v) as [pk|]; [|injection H1 as <-; apply R_refl].
    destruct (negb (is_ref (value v))).
    { injection H1 as <-. eapply R_trans; [apply R_report_non_ref|].
      eapply R_untag. rewrite !values_log. exact Hv. }
    destruct (negb (strada_validate_blessed_package (Some pk))).
    { injection H1 as <-. eapply R_trans; [apply R_report_corrupt|].
      eapply R_untag. rewrite !values_log. exact Hv. }
    apply bind_done in H1 as (sd & Hsd & H1).
    destruct (values sd !! a) as [vd|] eqn:Hvd; [|discriminate].
    injection H1 as <-.
    eapply R_trans; [apply (call_destroy_keeps fuel _ Hd _ _ _ Hsd)|].
    eapply R_untag. exact Hvd. }
  assert (R12 : R s1 s2) by apply (release_payload_keeps _ Hd _ _ _ H2).
  exists s2. split; [eauto|]. split; [eapply R_trans; eassumption|].
  split; [rewrite Hv2; eauto | reflexivity].
Qed.

Lemma free_value_keeps : forall fuel p, keeps (strada_free_value native fuel p).
Proof.
  induction fuel as [|fuel IH]; intros p s s'; [discriminate|].
  destruct p as [a|]; [|intros [= <-]; apply R_refl].
  intros H. apply (free_value_step fuel a s s' IH) in H as (s2 & H0 & H02 & H2 & ->).
  apply R_free; assumption.
Qed.

Lemma free_value_inv (fuel : nat) (a : addr) (s s' : State) :
  strada_free_value native fuel (Some a) s = Done s' ->
  exists s2,
    is_Some (values s !! a) /\ R (log (EvFree a) s) s2 /\ is_Some (values s2 !! a) /\
    s' = with_values (delete a (values s2)) s2.
Proof.
  destruct fuel as [|fuel]; [discriminate|].
  apply free_value_step. apply free_value_keeps.
Qed.

Lemma decref_keeps (fuel : nat) (p : ptr) : keeps (strada_decref native fuel p).
Proof. apply decref_body_keeps. apply free_value_keeps. Qed.

End Cascade.

Lemma run_native_preserves (R : State -> State -> Prop) (HR : CascadeInvariant R)
    (native : Native) (fuel : nat) (cmds : list Cmd) (s s' : State) :
  run_native (strada_decref native fuel) cmds s = Done s' -> R s s'.
Proof.
  destruct HR. apply (run_native_keeps R); auto.
  intros p. apply (decref_keeps native R); auto.
Qed.

Lemma release_payload_preserves (R : State -> State -> Prop) (HR : CascadeInvariant R)
    (native : Native) (fuel : nat) (pl : StradaPayload) (s s' : State) :
  release_payload (strada_decref native fuel) pl s = Done s' -> R s s'.
Proof.
  destruct HR. apply (release_payload_keeps R); auto.
  intros p. apply (decref_keeps native R); auto.
Qed.


Lemma free_value_unfold (R : State -> State -> Prop) (HR : CascadeInvariant R)
    (native : Native) (fuel : nat) (a : addr) (s s' : State) :
  strada_free_value native fuel (Some a) s = Done s' ->
  exists s2,
    is_Some (values s !! a) /\ R (log (EvFree a) s) s2 /\ is_Some (values s2 !! a) /\
    s' = with_values (delete a (values s2)) s2.
Proof. destruct HR. apply (free_value_inv native R); auto. Qed.

(** ** Reference counts *)

Lemma int32_small (x : Z) : INT_MIN <= x <= INT_MAX -> int32 x = x.
Proof.
  unfold INT_MIN, INT_MAX, int32. intros H.
  rewrite Z.mod_small by lia. lia.
Qed.

Lemma set_refcount_lookup (s : State) (a : addr) (v : StradaValue) (rc : Z) :
  values s !! a = Some v ->
  values (set_refcount a rc s) !! a = Some (mkValue rc (value v) (blessed_package v)).
Proof. intros Hv. unfold set_refcount. rewrite Hv. apply lookup_insert_eq. Qed.

Lemma set_refcount_twice (s : State) (a : addr) (v : StradaValue) (r1 r2 : Z) :
  values s !! a = Some v ->
  set_refcount a r2 (set_refcount a r1 s) = set_refcount a r2 s.
Proof.
  intros Hv. unfold set_refcount at 1. rewrite (set_refcount_lookup s a v r1 Hv).
  unfold set_refcount. rewrite Hv. unfold with_values. simpl.
  rewrite insert_insert_eq. reflexivity.
Qed.

Lemma set_refcount_same (s : State) (a : addr) (v : StradaValue) :
  values s !! a = Some v -> set_refcount a (refcount v) s = s.
Proof.
  intros Hv. unfold set_refcount. rewrite Hv. destruct v as [rc p b]. simpl.
  rewrite insert_id by exact Hv. destruct s. reflexivity.
Qed.

Lemma bind_ret {A : Type} (r : result A) : bind r (fun x => Done x) = r.
Proof. destruct r; reflexivity. Qed.

Section RefCounting.

Context (native : Native) (fuel : nat) (a : addr).

Lemma run_ops_app (l1 l2 : list RcOp) (s : State) :
  run_ops native fuel (Some a) (l1 ++ l2) s
  = (s1 <- run_ops native fuel (Some a) l1 s ;; run_ops native fuel (Some a) l2 s1).
Proof.
  revert s. induction l1 as [|op rest IH]; intros s; [reflexivity|].
  destruct op; rewrite <- app_comm_cons; cbn [run_ops].
  - destruct (strada_incref (Some a) s); cbn [bind]; auto.
  - destruct (strada_decref native fuel (Some a) s); cbn [bind]; auto.
Qed.

Lemma net_app (l1 l2 : list RcOp) : net (l1 ++ l2) = net l1 + net l2.
Proof. induction l1 as [|[|] rest IH]; simpl; lia. Qed.

(** While the count stays between 1 and [INT_MAX], the operations change
    the count and nothing else. *)
Lemma run_ops_counts : forall (ops : list RcOp) (s : State) (v : StradaValue),
  values s !! a = Some v ->
  (forall pre suf, ops = pre ++ suf -> 1 <= owners_after (refcount v) pre <= INT_MAX) ->
  run_ops native fuel (Some a) ops s
  = Done (set_refcount a (owners_after (refcount v) ops) s).
Proof.
  unfold owners_after.
  induction ops as [|op rest IH]; intros s v Hv Hpre.
  - simpl. rewrite Z.add_0_r, set_refcount_same by exact Hv. reflexivity.
  - pose proof (Hpre [] (op :: rest) eq_refl) as H0.
    pose proof (Hpre [op] rest eq_refl) as H1. simpl in H0, H1.
    assert (Hstep : forall d, (d = 1 \/ d = -1) -> d + 0 = net [op] ->
              (forall pre suf, rest = pre ++ suf ->
                 1 <= (refcount v + d) + net pre <= INT_MAX)).
    { intros d _ Hd pre suf ->. specialize (Hpre (op :: pre) suf eq_refl).
      simpl in Hd. destruct op; simpl in Hpre; lia. }
    unfold INT_MAX in *. destruct op; cbn [run_ops net].
    + unfold strada_incref. rewrite Hv. cbn [bind].
      rewrite int32_small by (unfold INT_MIN, INT_MAX; simpl in H1; lia).
      rewrite (IH _ _ (set_refcount_lookup s a v _ Hv)); cbn [refcount].
      * rewrite (set_refcount_twice s a v) by exact Hv. do 2 f_equal. lia.
      * apply (Hstep 1); [lia | reflexivity].
    + unfold strada_decref, decref_body. rewrite Hv.
      rewrite int32_small by (unfold INT_MIN, INT_MAX; simpl in H1; lia).
      replace (refcount v - 1 <=? 0) with false
        by (symmetry; apply Z.leb_gt; simpl in H1; lia).
      cbn [bind].
      rewrite (IH _ _ (set_refcount_lookup s a v _ Hv)); cbn [refcount].
      * rewrite (set_refcount_twice s a v) by exact Hv. do 2 f_equal. lia.
      * intros pre suf Hrest.
        pose proof (Hstep (-1) ltac:(lia) eq_refl pre suf Hrest). lia.
Qed.

(** The last operation of a sequence that brings the count from at least 1
    to 0 is a decrement from 1. *)
Lemma last_is_decrement (n : Z) (ops : list RcOp) :
  1 <= n ->
  n + net ops = 0 ->
  (forall pre suf, ops = pre ++ suf -> suf <> [] -> 1 <= n + net pre) ->
  exists pre, ops = pre ++ [OpDecref] /\ n + net pre = 1.
Proof.
  intros Hn Hend Hpre.
  destruct (exists_last (l := ops)) as (pre & last & ->).
  { intros ->. simpl in Hend. lia. }
  exists pre. rewrite net_app in Hend.
  specialize (Hpre pre [last] eq_refl ltac:(discriminate)).
  destruct last; simpl in Hend; [lia|]. split; [reflexivity | lia].
Qed.

End RefCounting.

Lemma live_set_refcount (s : State) (a b : addr) (rc : Z) :
  is_Some (values (set_refcount b rc s) !! a) -> is_Some (values s !! a).
Proof.
  unfold set_refcount. destruct (values s !! b) as [v|] eqn:Hb; [|auto].
  simpl. destruct (decide (b = a)) as [->|Hne].
  - intros _. eauto.
  - rewrite lookup_insert_ne by exact Hne. auto.
Qed.

Lemma live_set_blessed (s : State) (a b : addr) (pk : option string) :
  is_Some (values (set_blessed b pk s) !! a) -> is_Some (values s !! a).
Proof.
  unfold set_blessed. destruct (values s !! b) as [v|] eqn:Hb; [|auto].
  simpl. destruct (decide (b = a)) as [->|Hne].
  - intros _. eauto.
  - rewrite lookup_insert_ne by exact Hne. auto.
Qed.

Lemma trace_set_refcount (s : State) (b : addr) (rc : Z) :
  trace (set_refcount b rc s) = trace s.
Proof. unfold set_refcount. destruct (values s !! b); reflexivity. Qed.

Lemma trace_set_blessed (s : State) (b : addr) (pk : option string) :
  trace (set_blessed b pk s) = trace s.
Proof. unfold set_blessed. destruct (values s !! b); reflexivity. Qed.

Lemma free_count_log (a : addr) (e : Event) (s : State) :
  free_count a (log e s) = (if is_free_of a e then S (free_count a s) else free_count a s).
Proof.
  unfold free_count, log. simpl. rewrite List.filter_app, length_app. simpl.
  destruct (is_free_of a e); simpl; lia.
Qed.

Lemma not_freed_between_invariant (a : addr) : CascadeInvariant (not_freed_between a).
Proof.
  unfold not_freed_between. split.
  - intros s0 Hl. auto.
  - intros s1 s2 s3 H12 H23 Hl. destruct (H23 Hl) as [Hl2 Hc2].
    destruct (H12 Hl2) as [Hl1 Hc1]. split; [exact Hl1 | congruence].
  - intros s0 b v rc _ Hl. split; [eapply live_set_refcount; exact Hl|].
    unfold free_count. rewrite trace_set_refcount. reflexivity.
  - intros s0 b v _ Hl. split; [eapply live_set_blessed; exact Hl|].
    unfold free_count. rewrite trace_set_blessed. reflexivity.
  - intros s0 b Hl. split; [exact Hl | apply free_count_log].
  - intros s0 b Hl. split; [exact Hl | apply free_count_log].
  - intros s0 s2 b v pk f _ _ _ HR Hl. destruct (HR Hl) as [Hl0 Hc].
    split; [exact Hl0|]. rewrite free_count_log in Hc. exact Hc.
  - intros s0 s2 b Hb HR Hb2 Hl. simpl in Hl.
    destruct (decide (b = a)) as [->|Hne].
    + rewrite lookup_delete_eq in Hl. destruct Hl as [? Hl]. discriminate Hl.
    + rewrite lookup_delete_ne in Hl by exact Hne. destruct (HR Hl) as [Hl0 Hc].
      split; [exact Hl0|]. rewrite free_count_log in Hc. simpl in Hc.
      replace (a =? b)%nat with false in Hc
        by (symmetry; apply Nat.eqb_neq; congruence).
      exact Hc.
  - intros s0 b arr rc _ Hl. split; [exact Hl | reflexivity].
  - intros s0 b Hl. split; [exact Hl | reflexivity].
  - intros s0 b h rc _ Hl. split; [exact Hl | reflexivity].
  - intros s0 b Hl. split; [exact Hl | reflexivity].
  - intros s0 b Hl. split; [exact Hl | reflexivity].
  - intros s0 b Hl. split; [exact Hl | reflexivity].
Qed.

(** A completed [strada_free_value] of the value at [a] has entered
    [strada_free_value] for it once, and the value is gone. *)
Lemma free_value_frees_once (native : Native) (fuel : nat) (a : addr) (s s' : State) :
  strada_free_value native fuel (Some a) s = Done s' ->
  values s' !! a = None /\ free_count a s' = S (free_count a s).
Proof.
  intros H.
  apply (free_value_unfold _ (not_freed_between_invariant a)) in H
    as (s2 & Hlive & HR & Hlive2 & ->).
  split; [apply lookup_delete_eq|].
  destruct (HR Hlive2) as [_ Hc]. unfold free_count in *. simpl.
  rewrite Hc. change (trace (log (EvFree a) s)) with (trace s ++ [EvFree a]).
  rewrite List.filter_app, length_app. simpl. rewrite Nat.eqb_refl. simpl. lia.
Qed.

(** The release of a value without a tag: what the value owns is released,
    then the value itself. *)
Lemma free_value_plain (native : Native) (n : nat) (a : addr) (s : State) (v : StradaValue) :
  values s !! a = Some v ->
  blessed_package v = None ->
  strada_free_value native (S n) (Some a) s
  = (s2 <- release_payload (strada_decref native n) (value v) (log (EvFree a) s) ;;
     match values s2 !! a with
     | None => Fault
     | Some _ => Done (with_values (delete a (values s2)) s2)
     end).
Proof.
  intros Hv Hbp. cbn [strada_free_value]. rewrite Hv, Hbp. cbn [bind].
  rewrite values_log, Hv. reflexivity.
Qed.

(** C1 (amended).  A value with between 1 and [INT_MAX] owners goes through
    a sequence of [strada_incref] and [strada_decref] that ends when the last
    owner is gone and during which the number of owners stays between 1 and
    [INT_MAX] (the reference count is a 32-bit [int]).  Then no operation
    before the last one frees the value: every proper prefix returns, in a
    state that differs from the initial one in the reference count only.
    The last operation, the decrement from 1 to 0, calls
    [strada_free_value].  For a value without a package tag that call
    returns and has freed the value as soon as the release of what the value
    owns returns and leaves the value in place; a value that owns nothing
    ([Undef], [Int], [Num], [Str], ...) is freed in any case, the rest of
    the state being untouched.  And whatever the value is: when the call
    returns, the value is gone and [strada_free_value] has been entered for
    it exactly once. *)
Theorem balanced_refcounting_frees_exactly_once
    (native : Native) (n : nat) (s : State) (a : addr) (v : StradaValue)
    (ops : list RcOp) :
  values s !! a = Some v ->
  1 <= refcount v <= INT_MAX ->
  owners_after (refcount v) ops = 0 ->
  (forall pre suf, ops = pre ++ suf -> suf <> [] ->
     1 <= owners_after (refcount v) pre <= INT_MAX) ->
  (forall pre suf, ops = pre ++ suf -> suf <> [] ->
     run_ops native (S n) (Some a) pre s
     = Done (set_refcount a (owners_after (refcount v) pre) s)) /\
  (blessed_package v = None ->
   (forall s2,
      release_payload (strada_decref native n) (value v)
        (log (EvFree a) (set_refcount a 0 s)) = Done s2 ->
      is_Some (values s2 !! a) ->
      run_ops native (S n) (Some a) ops s = Done (with_values (delete a (values s2)) s2) /\
      free_count a s2 = S (free_count a s)) /\
   (owns_nothing (value v) = true ->
    run_ops native (S n) (Some a) ops s
    = Done (with_values (delete a (values s)) (log (EvFree a) s)))) /\
  (forall s', run_ops native (S n) (Some a) ops s = Done s' ->
     values s' !! a = None /\ free_count a s' = S (free_count a s)).
Proof.
  intros Hv Hrc Hend Hpre.
  assert (Hprefix : forall pre suf, ops = pre ++ suf -> suf <> [] ->
            run_ops native (S n) (Some a) pre s
            = Done (set_refcount a (owners_after (refcount v) pre) s)).
  { intros pre suf Hops Hsuf. apply (run_ops_counts native (S n) a pre s v Hv).
    intros p1 p2 ->. apply (Hpre p1 (p2 ++ suf)).
    - rewrite Hops, <- app_assoc. reflexivity.
    - destruct p2; [exact Hsuf | discriminate]. }
  assert (Hlast : run_ops native (S n) (Some a) ops s
                  = strada_free_value native (S n) (Some a) (set_refcount a 0 s)).
  { destruct (last_is_decrement (refcount v) ops) as (pre & Hops & Hone).
    - lia.
    - exact Hend.
    - intros p1 p2 H1 H2. apply (Hpre p1 p2 H1 H2).
    - rewrite Hops at 1. rewrite run_ops_app.
      rewrite (Hprefix pre [OpDecref] Hops) by discriminate.
      unfold owners_after. rewrite Hone. cbn [bind run_ops].
      unfold strada_decref, decref_body.
      rewrite (set_refcount_lookup s a v 1 Hv). cbn [refcount].
      change (int32 (1 - 1) <=? 0) with true. cbv iota.
      change (int32 (1 - 1)) with 0.
      rewrite (set_refcount_twice s a v) by exact Hv. apply bind_ret. }
  pose proof (set_refcount_lookup s a v 0 Hv) as Hv0.
  split; [exact Hprefix|]. split.
  - intros Hbp. rewrite Hlast, (free_value_plain native n a _ _ Hv0) by exact Hbp.
    cbn [value]. split.
    + intros s2 H2 [w Hw]. rewrite H2. cbn [bind]. rewrite Hw. split; [reflexivity|].
      destruct (release_payload_preserves _ (not_freed_between_invariant a) _ _ _ _ _ H2
                  (ex_intro _ w Hw)) as [_ Hc].
      rewrite Hc, free_count_log. cbn [is_free_of]. rewrite Nat.eqb_refl.
      unfold free_count. rewrite trace_set_refcount. reflexivity.
    + intros Hplain.
      assert (Hrel : forall t, release_payload (strada_decref native n) (value v) t = Done t)
        by (intros t; destruct (value v); try discriminate Hplain; reflexivity).
      rewrite Hrel. cbn [bind]. rewrite values_log, Hv0. f_equal.
      unfold set_refcount. rewrite Hv. cbn [values with_values log].
      rewrite delete_insert_eq. destruct s; reflexivity.
  - intros s' Hrun. rewrite Hlast in Hrun.
    apply free_value_frees_once in Hrun as [Hgone Hcount]. split; [exact Hgone|].
    rewrite Hcount. unfold free_count. rewrite trace_set_refcount. reflexivity.
Qed.

Lemma balanced_refcounting_witness :
  values with_int_7 !! 0%nat = Some (mkValue 1 (PInt 7) None) /\
  owners_after 1 [OpIncref; OpDecref; OpDecref] = 0 /\
  run_ops no_native 1 (Some 0%nat) [OpIncref; OpDecref] with_int_7
    = Done (set_refcount 0%nat 1 with_int_7) /\
  exists s',
    run_ops no_native 1 (Some 0%nat) [OpIncref; OpDecref; OpDecref] with_int_7 = Done s' /\
    values s' = ∅ /\
    trace s' = [EvFree 0%nat] /\
    free_count 0%nat s' = 1%nat.
Proof.
  assert (Hv : values with_int_7 !! 0%nat = Some (mkValue 1 (PInt 7) None)) by reflexivity.
  assert (Hrc : 1 <= refcount (mkValue 1 (PInt 7) None) <= INT_MAX)
    by (unfold INT_MAX; simpl; lia).
  assert (Hend : owners_after (refcount (mkValue 1 (PInt 7) None))
                   [OpIncref; OpDecref; OpDecref] = 0) by reflexivity.
  assert (Hpre : forall pre suf, [OpIncref; OpDecref; OpDecref] = pre ++ suf -> suf <> [] ->
            1 <= owners_after (refcount (mkValue 1 (PInt 7) None)) pre <= INT_MAX).
  { intros pre suf H Hsuf. unfold owners_after, INT_MAX.
    destruct pre as [|o1 [|o2 [|o3 [|o4 pre]]]]; simpl in H.
    - simpl. lia.
    - injection H as <- _. simpl. lia.
    - injection H as <- <- _. simpl. lia.
    - injection H as _ _ _ Hs. congruence.
    - injection H as _ _ _ Hs. discriminate Hs. }
  destruct (balanced_refcounting_frees_exactly_once no_native 0 with_int_7 0%nat _
              [OpIncref; OpDecref; OpDecref] Hv Hrc Hend Hpre) as (Hbefore & Hplain & Hafter).
  destruct (Hplain eq_refl) as [_ Hfreed]. specialize (Hfreed eq_refl).
  split; [exact Hv|]. split; [exact Hend|]. split.
  { apply (Hbefore [OpIncref; OpDecref] [OpDecref] eq_refl). discriminate. }
  eexists. split; [exact Hfreed|]. split; [reflexivity|]. split; [reflexivity|].
  destruct (Hafter _ Hfreed) as [_ Hcount]. exact Hcount.
Defined.

Lemma int32_add_l (x y : Z) : int32 (int32 x + y) = int32 (x + y).
Proof.
  unfold int32.
  replace ((x + 2147483648) mod 4294967296 - 2147483648 + y + 2147483648)
    with ((x + 2147483648) mod 4294967296 + y) by lia.
  rewrite Zplus_mod_idemp_l. f_equal. f_equal. lia.
Qed.

Lemma int32_idem (x : Z) : int32 (int32 x) = int32 x.
Proof.
  apply int32_small. unfold int32, INT_MIN, INT_MAX.
  pose proof (Z.mod_pos_bound (x + 2147483648) 4294967296 ltac:(lia)). lia.
Qed.

(** [k] increments in a row add [k] to the reference count, modulo [2^32]. *)
Lemma run_increfs (native : Native) (fuel : nat) (a : addr) :
  forall (k : nat) (s : State) (v : StradaValue),
    values s !! a = Some v ->
    int32 (refcount v) = refcount v ->
    run_ops native fuel (Some a) (replicate k OpIncref) s
    = Done (set_refcount a (int32 (refcount v + Z.of_nat k)) s).
Proof.
  induction k as [|k IH]; intros s v Hv Hin.
  - cbn [replicate run_ops]. rewrite Z.add_0_r, Hin, set_refcount_same by exact Hv.
    reflexivity.
  - cbn [replicate run_ops]. unfold strada_incref. rewrite Hv. cbn [bind].
    rewrite (IH _ _ (set_refcount_lookup s a v _ Hv)) by (cbn [refcount]; apply int32_idem).
    cbn [refcount]. rewrite (set_refcount_twice s a v) by exact Hv.
    do 2 f_equal. rewrite int32_add_l. f_equal. lia.
Qed.

Lemma net_all_increments (l : list RcOp) :
  Forall (eq OpIncref) l -> net l = Z.of_nat (length l).
Proof.
  induction 1 as [|op rest Hop _ IH]; [reflexivity|].
  subst op. cbn [net length]. lia.
Qed.

Lemma net_all_decrements (l : list RcOp) :
  Forall (eq OpDecref) l -> net l = - Z.of_nat (length l).
Proof.
  induction 1 as [|op rest Hop _ IH]; [reflexivity|].
  subst op. cbn [net length]. lia.
Qed.

(** [up_then_down k] is balanced for a value that starts with one owner. *)
Lemma up_then_down_balanced (k : nat) :
  owners_after 1 (up_then_down k) = 0 /\
  forall pre suf, up_then_down k = pre ++ suf -> suf <> [] -> 1 <= owners_after 1 pre.
Proof.
  unfold owners_after, up_then_down. split.
  - rewrite net_app, net_all_increments, net_all_decrements
      by (apply Forall_replicate; reflexivity).
    rewrite !length_replicate. lia.
  - intros pre suf H Hsuf. symmetry in H.
    apply List.app_eq_app in H as (l & [[Hpre Hdec] | [Hinc Hsuf']]).
    + assert (Hl : Forall (eq OpDecref) l).
      { assert (Hall : Forall (eq OpDecref) (l ++ suf))
          by (rewrite <- Hdec; apply Forall_replicate; reflexivity).
        apply Forall_app in Hall as [Hall _]. exact Hall. }
      assert (Hlen : (length l + length suf = S k)%nat)
        by (rewrite <- length_app, <- Hdec, length_replicate; reflexivity).
      rewrite Hpre, net_app, net_all_increments, (net_all_decrements l Hl)
        by (apply Forall_replicate; reflexivity).
      rewrite length_replicate. destruct suf; [congruence|]. simpl in Hlen. lia.
    + assert (Hp : Forall (eq OpIncref) pre).
      { assert (Hall : Forall (eq OpIncref) (pre ++ l))
          by (rewrite <- Hinc; apply Forall_replicate; reflexivity).
        apply Forall_app in Hall as [Hall _]. exact Hall. }
      rewrite (net_all_increments pre Hp). lia.
Qed.

(** C1, as it is stated, fails in two ways.  When the count leaves the range
    of [int]: a new value receives [2^31] further owners and is then released
    by one of them; the sequence is the beginning of a balanced one and
    [2^31] owners are left, yet this first decrement finds the wrapped count
    negative and frees the value.  And when a destructor does not return: the
    [Outer] object has one owner, who drops it inside a try region; its
    destructor throws, control goes to the try frame, and the object, whose
    count is zero, has not been freed. *)
Lemma refcount_wraps_counterexample :
  (values with_int_7 !! 0%nat = Some (mkValue 1 (PInt 7) None) /\
   owners_after 1 (up_then_down two_to_31) = 0 /\
   (forall pre suf, up_then_down two_to_31 = pre ++ suf -> suf <> [] ->
      1 <= owners_after 1 pre) /\
   up_then_down two_to_31
     = (replicate two_to_31 OpIncref ++ [OpDecref]) ++ replicate two_to_31 OpDecref /\
   owners_after 1 (replicate two_to_31 OpIncref ++ [OpDecref]) = 2147483648 /\
   exists s',
     run_ops no_native 1 (Some 0%nat) (replicate two_to_31 OpIncref ++ [OpDecref]) with_int_7
       = Done s' /\
     values s' !! 0%nat = None /\
     free_count 0%nat s' = 1%nat) /\
  (values two_objects_in_try !! 1%nat
     = Some (mkValue 1 (PRef (Some 0%nat)) (Some "Outer"%string)) /\
   owners_after 1 [OpDecref] = 0 /\
   exists s',
     run_ops destructor_throws 2 (Some 1%nat) [OpDecref] two_objects_in_try = Jump 0 s' /\
     values s' !! 1%nat = Some (mkValue 0 (PRef (Some 0%nat)) (Some "Outer"%string))).
Proof.
  split.
  - assert (Hk : Z.of_nat two_to_31 = 2147483648) by (apply Z2Nat.id; lia).
    generalize dependent two_to_31. intros k Hk.
    split; [reflexivity|].
    destruct (up_then_down_balanced k) as [Hend Hpre].
    split; [exact Hend|]. split; [exact Hpre|]. split.
    { unfold up_then_down. rewrite <- app_assoc. reflexivity. }
    split.
    { unfold owners_after. rewrite net_app, net_all_increments
        by (apply Forall_replicate; reflexivity).
      rewrite length_replicate, Hk. reflexivity. }
    rewrite run_ops_app.
    rewrite (run_increfs no_native 1 0%nat k with_int_7 (mkValue 1 (PInt 7) None))
      by reflexivity.
    cbn [refcount bind]. rewrite Hk.
    eexists. split; [vm_compute; reflexivity|]. split; reflexivity.
  - split; [reflexivity|]. split; [reflexivity|].
    eexists. split; [vm_compute; reflexivity | reflexivity].
Qed.

(** ** Destructors *)

Lemma destroy_count_log (p : addr) (e : Event) (s : State) :
  destroy_count p (log e s)
  = (if is_destroy_of p e then S (destroy_count p s) else destroy_count p s).
Proof.
  unfold destroy_count, log. simpl. rewrite List.filter_app, length_app. simpl.
  destruct (is_destroy_of p e); simpl; lia.
Qed.

Lemma destroying_set_refcount (s : State) (b : addr) (rc : Z) :
  oop_destroying (set_refcount b rc s) = oop_destroying s.
Proof. unfold set_refcount. destruct (values s !! b); reflexivity. Qed.

Lemma destroying_set_blessed (s : State) (b : addr) (pk : option string) :
  oop_destroying (set_blessed b pk s) = oop_destroying s.
Proof. unfold set_blessed. destruct (values s !! b); reflexivity. Qed.

Lemma destroy_count_set_refcount (p : addr) (s : State) (b : addr) (rc : Z) :
  destroy_count p (set_refcount b rc s) = destroy_count p s.
Proof. unfold destroy_count. rewrite trace_set_refcount. reflexivity. Qed.

Lemma destroy_count_set_blessed (p : addr) (s : State) (b : addr) (pk : option string) :
  destroy_count p (set_blessed b pk s) = destroy_count p s.
Proof. unfold destroy_count. rewrite trace_set_blessed. reflexivity. Qed.

Lemma guarded_invariant (p : addr) : CascadeInvariant (guarded p).
Proof.
  unfold guarded. split.
  - auto.
  - intros s1 s2 s3 H12 H23 Hg. destruct (H12 Hg) as [Hg2 Hc2].
    destruct (H23 Hg2) as [Hg3 Hc3]. split; [exact Hg3 | congruence].
  - intros s b v rc _ Hg.
    rewrite destroying_set_refcount, destroy_count_set_refcount. auto.
  - intros s b v _ Hg.
    rewrite destroying_set_blessed, destroy_count_set_blessed. auto.
  - intros s b Hg. rewrite destroy_count_log. auto.
  - intros s b Hg. rewrite destroy_count_log. auto.
  - intros s s2 b v pk f _ _ Hoff _ Hg. congruence.
  - intros s s2 b _ HR _ Hg. destruct (HR Hg) as [Hg2 Hc].
    rewrite destroy_count_log in Hc. auto.
  - intros s b arr rc _ Hg. auto.
  - intros s b Hg. auto.
  - intros s b h rc _ Hg. auto.
  - intros s b Hg. auto.
  - intros s b Hg. auto.
  - intros s b Hg. auto.
Qed.

Lemma untagged_set_refcount (p : addr) (s : State) (b : addr) (rc : Z) :
  untagged_or_gone p s -> untagged_or_gone p (set_refcount b rc s).
Proof.
  unfold untagged_or_gone, set_refcount. intros H v.
  destruct (values s !! b) as [vb|] eqn:Hb; [|apply H]. simpl.
  destruct (decide (b = p)) as [->|Hne].
  - rewrite lookup_insert_eq. intros [= <-]. simpl. apply (H vb Hb).
  - rewrite lookup_insert_ne by exact Hne. apply H.
Qed.

Lemma untagged_set_blessed_none (p : addr) (s : State) (b : addr) :
  untagged_or_gone p s -> untagged_or_gone p (set_blessed b None s).
Proof.
  unfold untagged_or_gone, set_blessed. intros H v.
  destruct (values s !! b) as [vb|] eqn:Hb; [|apply H]. simpl.
  destruct (decide (b = p)) as [->|Hne].
  - rewrite lookup_insert_eq. intros [= <-]. reflexivity.
  - rewrite lookup_insert_ne by exact Hne. apply H.
Qed.

Lemma stays_untagged_invariant (p : addr) : CascadeInvariant (stays_untagged p).
Proof.
  unfold stays_untagged. split.
  - auto.
  - intros s1 s2 s3 H12 H23 Hu. destruct (H12 Hu) as [Hu2 Hc2].
    destruct (H23 Hu2) as [Hu3 Hc3]. split; [exact Hu3 | congruence].
  - intros s b v rc _ Hu. split; [apply untagged_set_refcount; exact Hu|].
    apply destroy_count_set_refcount.
  - intros s b v _ Hu. split; [apply untagged_set_blessed_none; exact Hu|].
    apply destroy_count_set_blessed.
  - intros s b Hu. split; [exact Hu | apply destroy_count_log].
  - intros s b Hu. split; [exact Hu | apply destroy_count_log].
  - intros s s2 b v pk f Hv Hpk _ HR Hu.
    assert (Hne : p <> b).
    { intros ->. specialize (Hu v Hv). congruence. }
    destruct (HR Hu) as [Hu2 Hc]. split; [exact Hu2|].
    rewrite destroy_count_log in Hc. simpl in Hc.
    replace (p =? b)%nat with false in Hc by (symmetry; apply Nat.eqb_neq; exact Hne).
    exact Hc.
  - intros s s2 b _ HR _ Hu. destruct (HR Hu) as [Hu2 Hc]. split.
    + intros v. simpl. destruct (decide (b = p)) as [->|Hne].
      * rewrite lookup_delete_eq. discriminate.
      * rewrite lookup_delete_ne by exact Hne. apply Hu2.
    + rewrite destroy_count_log in Hc. exact Hc.
  - intros s b arr rc _ Hu. auto.
  - intros s b Hu. auto.
  - intros s b h rc _ Hu. auto.
  - intros s b Hu. auto.
  - intros s b Hu. auto.
  - intros s b Hu. auto.
Qed.

Lemma extends_trace_invariant : CascadeInvariant extends_trace.
Proof.
  unfold extends_trace. split.
  - intros s. exists []. rewrite app_nil_r. reflexivity.
  - intros s1 s2 s3 [l1 H1] [l2 H2]. exists (l1 ++ l2). rewrite H2, H1, app_assoc.
    reflexivity.
  - intros s b v rc _. exists []. rewrite trace_set_refcount, app_nil_r. reflexivity.
  - intros s b v _. exists []. rewrite trace_set_blessed, app_nil_r. reflexivity.
  - intros s b. eexists. reflexivity.
  - intros s b. eexists. reflexivity.
  - intros s s2 b v pk f _ _ _ [l H]. exists (EvDestroy b f :: l).
    simpl in *. rewrite H, <- app_assoc. reflexivity.
  - intros s s2 b _ [l H] _. exists (EvFree b :: l).
    simpl in *. rewrite H, <- app_assoc. reflexivity.
  - intros s b arr rc _. exists []. rewrite app_nil_r. reflexivity.
  - intros s b. exists []. rewrite app_nil_r. reflexivity.
  - intros s b h rc _. exists []. rewrite app_nil_r. reflexivity.
  - intros s b. exists []. rewrite app_nil_r. reflexivity.
  - intros s b. exists []. rewrite app_nil_r. reflexivity.
  - intros s b. exists []. rewrite app_nil_r. reflexivity.
Qed.

Lemma oop_lookup_method_registry (fuel : nat) (s s' : State) (p m : option string) :
  oop_initialized s' = oop_initialized s ->
  oop_packages s' = oop_packages s ->
  oop_lookup_method fuel s' p m = oop_lookup_method fuel s p m.
Proof. intros Hi Hp. unfold oop_lookup_method. rewrite Hi, Hp. reflexivity. Qed.

(** The last decrement of a blessed reference outside of any destructor:
    its destructor is invoked, once. *)
Lemma last_decref_destroys_once
    (native : Native) (n : nat) (s s' : State) (p : addr) (v : StradaValue)
    (pk : string) (f : StradaMethod) :
  values s !! p = Some v ->
  blessed_package v = Some pk ->
  is_ref (value v) = true ->
  strada_validate_blessed_package (Some pk) = true ->
  oop_initialized s = true ->
  oop_lookup_method n s (Some pk) (Some "DESTROY"%string) = Done (Some f) ->
  refcount v = 1 ->
  oop_destroying s = false ->
  strada_decref native (S n) (Some p) s = Done s' ->
  values s' !! p = None /\
  destroy_count p s' = S (destroy_count p s) /\
  In (EvDestroy p f) (trace s').
Proof.
  intros Hv Hpk Href Hvalid Hinit Hlook Hone Hoff H.
  unfold strada_decref, decref_body in H. rewrite Hv, Hone in H.
  change (int32 (1 - 1)) with 0 in H. change (0 <=? 0) with true in H. cbv iota in H.
  pose proof (set_refcount_lookup s p v 0 Hv) as Hv0.
  set (s0 := set_refcount p 0 s) in *.
  cbn [strada_free_value] in H. rewrite Hv0 in H.
  cbn [blessed_package value] in H. rewrite Hpk, Href, Hvalid in H.
  cbn [negb] in H.
  apply bind_done in H as (s1 & H1 & H).
  apply bind_done in H1 as (sd & Hd & H1).
  destruct (values sd !! p) as [vd|] eqn:Hvd; [|discriminate H1].
  injection H1 as <-.
  destruct (values (set_blessed p None sd) !! p) as [v1|] eqn:Hv1; [|discriminate H].
  apply bind_done in H as (s2 & H2 & H).
  destruct (values s2 !! p) as [v2|] eqn:Hv2; [|discriminate H].
  injection H as <-.
  (* the destructor dispatch *)
  unfold call_destroy_body in Hd. rewrite values_log, Hv0 in Hd.
  cbn [blessed_package] in Hd. rewrite Hpk in Hd.
  assert (Hoff0 : oop_destroying (log (EvFree p) s0) = false)
    by (unfold s0; cbn [log oop_destroying]; rewrite destroying_set_refcount; exact Hoff).
  assert (Hinit0 : oop_initialized (log (EvFree p) s0) = true)
    by (unfold s0, set_refcount; rewrite Hv; exact Hinit).
  rewrite Hoff0, Hinit0, Hvalid in Hd. cbn [negb] in Hd.
  rewrite (oop_lookup_method_registry n s (log (EvFree p) s0)) in Hd
    by (unfold s0, set_refcount; rewrite Hv; reflexivity).
  rewrite Hlook in Hd. cbn [bind] in Hd.
  apply bind_done in Hd as (sb & Hb & Hd). injection Hd as <-.
  (* the body runs under the guard *)
  pose proof (run_native_preserves _ (guarded_invariant p) _ _ _ _ _ Hb eq_refl)
    as [_ Hcb].
  pose proof (run_native_preserves _ extends_trace_invariant _ _ _ _ _ Hb) as [lb Hlb].
  (* the rest of the release finds the object without a tag *)
  assert (Hu : untagged_or_gone p (set_blessed p None (with_destroying false sb))).
  { intros w Hw. unfold set_blessed in Hw. rewrite Hvd in Hw. simpl in Hw.
    rewrite lookup_insert_eq in Hw. injection Hw as <-. reflexivity. }
  pose proof (release_payload_preserves _ (stays_untagged_invariant p) _ _ _ _ _ H2 Hu)
    as [_ Hc2].
  pose proof (release_payload_preserves _ extends_trace_invariant _ _ _ _ _ H2) as [l2 Hl2].
  split; [apply lookup_delete_eq|]. split.
  - change (destroy_count p (with_values (delete p (values s2)) s2))
      with (destroy_count p s2).
    rewrite Hc2, destroy_count_set_blessed.
    change (destroy_count p (with_destroying false sb)) with (destroy_count p sb).
    rewrite Hcb, destroy_count_log. cbn [is_destroy_of]. rewrite Nat.eqb_refl.
    f_equal. unfold s0. rewrite <- (destroy_count_set_refcount p s p 0).
    apply (destroy_count_log p (EvFree p)).
  - change (trace (with_values (delete p (values s2)) s2)) with (trace s2).
    rewrite Hl2, trace_set_blessed.
    change (trace (with_destroying false sb)) with (trace sb). rewrite Hlb.
    apply in_or_app. left. apply in_or_app. left.
    cbn [log trace]. apply in_or_app. right. left. reflexivity.
Qed.

Lemma guard_released_invariant : CascadeInvariant guard_released.
Proof.
  unfold guard_released. split.
  - auto.
  - intros s1 s2 s3 H12 H23 H. auto.
  - intros s b v rc _ H. rewrite destroying_set_refcount. exact H.
  - intros s b v _ H. rewrite destroying_set_blessed. exact H.
  - intros s b H. exact H.
  - intros s b H. exact H.
  - intros s s2 b v pk f _ _ _ _ _. reflexivity.
  - intros s s2 b _ HR _ H. apply HR. exact H.
  - intros s b arr rc _ H. exact H.
  - intros s b H. exact H.
  - intros s b h rc _ H. exact H.
  - intros s b H. exact H.
  - intros s b H. exact H.
  - intros s b H. exact H.
Qed.

(** The last decrement of a blessed reference outside of any destructor,
    step by step: the destructor body runs from [destructor_entry]; when it
    has returned, the release goes on from [after_destructor]. *)
Lemma last_decref_unfold
    (native : Native) (n : nat) (s : State) (p : addr) (v : StradaValue)
    (pk : string) (f : StradaMethod) :
  values s !! p = Some v ->
  blessed_package v = Some pk ->
  is_ref (value v) = true ->
  strada_validate_blessed_package (Some pk) = true ->
  oop_initialized s = true ->
  oop_lookup_method n s (Some pk) (Some "DESTROY"%string) = Done (Some f) ->
  refcount v = 1 ->
  oop_destroying s = false ->
  strada_decref native (S n) (Some p) s
  = (sb <- run_native (strada_decref native n) (native f p) (destructor_entry p f s) ;;
     match values sb !! p with
     | None => Fault
     | Some vb =>
         s2 <- release_payload (strada_decref native n) (value vb) (after_destructor p sb) ;;
         match values s2 !! p with
         | None => Fault
         | Some _ => Done (with_values (delete p (values s2)) s2)
         end
     end).
Proof.
  intros Hv Hpk Href Hvalid Hinit Hlook Hone Hoff.
  unfold strada_decref at 1. unfold decref_body. rewrite Hv, Hone.
  change (int32 (1 - 1)) with 0. change (0 <=? 0) with true. cbv iota.
  pose proof (set_refcount_lookup s p v 0 Hv) as Hv0.
  cbn [strada_free_value]. rewrite Hv0.
  cbn [blessed_package value]. rewrite Hpk, Href, Hvalid. cbn [negb].
  unfold call_destroy_body. rewrite values_log, Hv0.
  cbn [blessed_package]. rewrite Hpk.
  assert (Hoff0 : oop_destroying (log (EvFree p) (set_refcount p 0 s)) = false)
    by (cbn [log oop_destroying]; rewrite destroying_set_refcount; exact Hoff).
  assert (Hinit0 : oop_initialized (log (EvFree p) (set_refcount p 0 s)) = true)
    by (unfold set_refcount; rewrite Hv; exact Hinit).
  rewrite Hoff0, Hinit0, Hvalid. cbn [negb].
  rewrite (oop_lookup_method_registry n s (log (EvFree p) (set_refcount p 0 s)))
    by (unfold set_refcount; rewrite Hv; reflexivity).
  rewrite Hlook. cbn [bind]. fold (destructor_entry p f s).
  fold (strada_decref native n).
  destruct (run_native (strada_decref native n) (native f p) (destructor_entry p f s))
    as [sb| | | |]; cbn [bind]; try reflexivity.
  change (values (with_destroying false sb)) with (values sb).
  destruct (values sb !! p) as [vb|] eqn:Hvb; [|reflexivity]. cbn [bind].
  fold (after_destructor p sb).
  assert (Hva : values (after_destructor p sb) !! p
                = Some (mkValue (refcount vb) (value vb) None)).
  { unfold after_destructor, set_blessed.
    change (values (with_destroying false sb)) with (values sb). rewrite Hvb.
    apply lookup_insert_eq. }
  rewrite Hva. reflexivity.
Qed.

(** C4 (amended).  For a blessed reference whose package name passes the
    validation of the tag (1 to 255 printable ASCII characters) and whose
    hierarchy defines [DESTROY]: a decrement that leaves owners runs nothing.
    The decrement that takes the last owner away, made while no destructor
    is being dispatched, invokes [DESTROY] once, with the guard
    [oop_destroying] set.  When the destructor returns and its receiver is
    still in place, the guard is reset, and as soon as the release of the
    referent returns the object is freed: [DESTROY] has then run exactly
    once for it and the guard is off.  When the destructor has released its
    own receiver, the release goes on with freed memory.  When the destructor
    does not return (it throws, or the process exits), the decrement does not
    return either: it ends as the destructor does, and neither the guard is
    reset nor the object freed.  While the guard is set no destructor is
    invoked, for any object, so that a destructor that retains or drops
    objects does not recurse. *)
Theorem destroy_runs_once_at_last_decref
    (native : Native) (n : nat) (s : State) (p : addr) (v : StradaValue)
    (pk : string) (f : StradaMethod) :
  values s !! p = Some v ->
  blessed_package v = Some pk ->
  is_ref (value v) = true ->
  strada_validate_blessed_package (Some pk) = true ->
  oop_initialized s = true ->
  oop_lookup_method n s (Some pk) (Some "DESTROY"%string) = Done (Some f) ->
  (2 <= refcount v <= INT_MAX ->
   strada_decref native (S n) (Some p) s = Done (set_refcount p (refcount v - 1) s) /\
   destroy_count p (set_refcount p (refcount v - 1) s) = destroy_count p s) /\
  (refcount v = 1 -> oop_destroying s = false ->
   let body := run_native (strada_decref native n) (native f p) (destructor_entry p f s) in
   destroy_count p (destructor_entry p f s) = S (destroy_count p s) /\
   oop_destroying (destructor_entry p f s) = true /\
   (forall sb vb s2,
      body = Done sb ->
      values sb !! p = Some vb ->
      release_payload (strada_decref native n) (value vb) (after_destructor p sb) = Done s2 ->
      is_Some (values s2 !! p) ->
      strada_decref native (S n) (Some p) s = Done (with_values (delete p (values s2)) s2) /\
      destroy_count p s2 = S (destroy_count p s) /\
      oop_destroying sb = true /\
      oop_destroying (after_destructor p sb) = false /\
      oop_destroying s2 = false) /\
   (forall sb, body = Done sb -> values sb !! p = None ->
      strada_decref native (S n) (Some p) s = Fault) /\
   ((forall sb, body <> Done sb) -> strada_decref native (S n) (Some p) s = body)) /\
  (forall q cmds s0 s1,
     oop_destroying s0 = true ->
     run_native (strada_decref native n) cmds s0 = Done s1 ->
     oop_destroying s1 = true /\ destroy_count q s1 = destroy_count q s0).
Proof.
  intros Hv Hpk Href Hvalid Hinit Hlook. split; [|split].
  - intros Hrc. split; [|apply destroy_count_set_refcount].
    unfold strada_decref, decref_body. rewrite Hv.
    rewrite int32_small by (unfold INT_MIN, INT_MAX in *; lia).
    replace (refcount v - 1 <=? 0) with false by (symmetry; apply Z.leb_gt; lia).
    reflexivity.
  - intros Hone Hoff body.
    pose proof (last_decref_unfold native n s p v pk f Hv Hpk Href Hvalid Hinit Hlook
                  Hone Hoff) as Hrun.
    fold body in Hrun.
    split; [|split; [reflexivity|split; [|split]]].
    + unfold destructor_entry. rewrite destroy_count_log. cbn [is_destroy_of].
      rewrite Nat.eqb_refl. f_equal.
      change (destroy_count p (with_destroying true (log (EvFree p) (set_refcount p 0 s))))
        with (destroy_count p (log (EvFree p) (set_refcount p 0 s))).
      rewrite destroy_count_log. cbn [is_destroy_of]. apply destroy_count_set_refcount.
    + intros sb vb s2 Hbody Hvb H2 [w Hw].
      rewrite Hbody in Hrun. cbn [bind] in Hrun. rewrite Hvb, H2 in Hrun.
      cbn [bind] in Hrun. rewrite Hw in Hrun.
      split; [exact Hrun|].
      destruct (last_decref_destroys_once native n s _ p v pk f Hv Hpk Href Hvalid Hinit
                  Hlook Hone Hoff Hrun) as (_ & Hcount & _).
      split; [exact Hcount|].
      assert (Hoffa : oop_destroying (after_destructor p sb) = false)
        by (unfold after_destructor; rewrite destroying_set_blessed; reflexivity).
      split; [|split; [exact Hoffa|]].
      * apply (run_native_preserves _ (guarded_invariant p) _ _ _ _ _ Hbody eq_refl).
      * apply (release_payload_preserves _ guard_released_invariant _ _ _ _ _ H2 Hoffa).
    + intros sb Hbody Hgone. rewrite Hbody in Hrun. cbn [bind] in Hrun.
      rewrite Hgone in Hrun. exact Hrun.
    + intros Hnot. rewrite Hrun. destruct body as [sb| | | |]; try reflexivity.
      exfalso. apply (Hnot sb). reflexivity.
  - intros q cmds s0 s1 Hg H.
    apply (run_native_preserves _ (guarded_invariant q) _ _ _ _ _ H Hg).
Qed.

Lemma destroy_runs_once_witness :
  values two_objects !! 1%nat = Some (mkValue 1 (PRef (Some 0%nat)) (Some "Outer"%string)) /\
  strada_validate_blessed_package (Some "Outer"%string) = true /\
  oop_lookup_method 2 two_objects (Some "Outer"%string) (Some "DESTROY"%string)
    = Done (Some 1%nat) /\
  exists s',
    strada_decref outer_drops_inner 3 (Some 1%nat) two_objects = Done s' /\
    values s' !! 1%nat = None /\
    destroy_count 1%nat s' = S (destroy_count 1%nat two_objects) /\
    oop_destroying s' = false.
Proof.
  assert (Hv : values two_objects !! 1%nat
               = Some (mkValue 1 (PRef (Some 0%nat)) (Some "Outer"%string))) by reflexivity.
  assert (Hvalid : strada_validate_blessed_package (Some "Outer"%string) = true)
    by reflexivity.
  assert (Hlook : oop_lookup_method 2 two_objects (Some "Outer"%string)
                    (Some "DESTROY"%string) = Done (Some 1%nat)) by reflexivity.
  split; [exact Hv|]. split; [exact Hvalid|]. split; [exact Hlook|].
  destruct (destroy_runs_once_at_last_decref outer_drops_inner 2 two_objects 1%nat _ "Outer"
              1%nat Hv eq_refl eq_refl Hvalid eq_refl Hlook) as (_ & Hlast & _).
  destruct (Hlast eq_refl eq_refl) as (_ & _ & Hreturns & _).
  assert (Hbody : exists sb,
            run_native (strada_decref outer_drops_inner 2) (outer_drops_inner 1%nat 1%nat)
              (destructor_entry 1%nat 1%nat two_objects) = Done sb /\
            values sb !! 1%nat = Some (mkValue 0 (PRef (Some 0%nat)) (Some "Outer"%string)))
    by (eexists; split; vm_compute; reflexivity).
  destruct Hbody as (sb & Hbody & Hvb).
  assert (Hrel : exists s2,
            release_payload (strada_decref outer_drops_inner 2)
              (value (mkValue 0 (PRef (Some 0%nat)) (Some "Outer"%string)))
              (after_destructor 1%nat sb) = Done s2 /\
            is_Some (values s2 !! 1%nat)).
  { vm_compute in Hbody. injection Hbody as <-.
    eexists. split; [vm_compute; reflexivity|]. eexists. vm_compute. reflexivity. }
  destruct Hrel as (s2 & Hrel & Hlive).
  destruct (Hreturns sb _ s2 Hbody Hvb Hrel Hlive) as (Hrun & Hcount & _ & _ & Hoff).
  eexists. split; [exact Hrun|]. split; [apply lookup_delete_eq|].
  split; [exact Hcount | exact Hoff].
Defined.

(** C4, as it is stated, fails in three ways.  An object whose last owner
    goes away during the destructor of another object misses its own
    destructor: the [Outer] object is dropped and its destructor drops the
    [Inner] object; both objects are gone afterwards, the package of each
    defines [DESTROY], and [DESTROY] has run zero times for [Inner].  A
    destructor that drops the object being destroyed is not harmless: the
    guard keeps [DESTROY] from running again, but [strada_free_value] is
    entered again and frees the object, and the release that was under way
    goes on with freed memory.  And a destructor that throws inside a try
    region leaves the guard set for good: the [Outer] object is not freed,
    and the [Inner] object, dropped later and outside of any destructor, is
    released without its [DESTROY]. *)
Lemma inner_object_misses_destroy_counterexample :
  (values two_objects !! 3%nat = Some (mkValue 1 (PRef (Some 2%nat)) (Some "Inner"%string)) /\
   oop_lookup_method 1 two_objects (Some "Inner"%string) (Some "DESTROY"%string)
     = Done (Some 2%nat) /\
   exists s',
     strada_decref outer_drops_inner 3 (Some 1%nat) two_objects = Done s' /\
     values s' !! 1%nat = None /\
     values s' !! 3%nat = None /\
     trace s' = [EvFree 1%nat; EvDestroy 1%nat 1%nat; EvFree 3%nat; EvFree 2%nat; EvFree 0%nat] /\
     destroy_count 3%nat s' = 0%nat) /\
  (destructor_drops_receiver 1%nat 1%nat = [CDecref (Some 1%nat)] /\
   strada_decref destructor_drops_receiver 3 (Some 1%nat) two_objects = Fault) /\
  (destructor_throws 1%nat 1%nat = [CThrow (Some "boom"%string)] /\
   oop_destroying two_objects_in_try = false /\
   exists s1 s2,
     strada_decref destructor_throws 2 (Some 1%nat) two_objects_in_try = Jump 0 s1 /\
     oop_destroying s1 = true /\
     values s1 !! 1%nat = Some (mkValue 0 (PRef (Some 0%nat)) (Some "Outer"%string)) /\
     values s1 !! 3%nat = Some (mkValue 1 (PRef (Some 2%nat)) (Some "Inner"%string)) /\
     strada_decref destructor_throws 2 (Some 3%nat) (snd (STRADA_TRY_POP s1)) = Done s2 /\
     values s2 !! 3%nat = None /\
     destroy_count 3%nat s2 = 0%nat).
Proof.
  split; [|split].
  - split; [reflexivity|]. split; [reflexivity|].
    eexists. split; [vm_compute; reflexivity|].
    split; [reflexivity|]. split; [reflexivity|]. split; reflexivity.
  - split; [reflexivity|]. vm_compute. reflexivity.
  - split; [reflexivity|]. split; [reflexivity|].
    eexists. eexists. split; [vm_compute; reflexivity|].
    split; [reflexivity|]. split; [reflexivity|]. split; [reflexivity|].
    split; [vm_compute; reflexivity|]. split; reflexivity.
Qed.

(** ** Closures *)

Lemma fresh_cell_unused (s : State) : cells s !! fresh (dom (cells s)) = None.
Proof. apply not_elem_of_dom, is_fresh. Qed.

Lemma captures_of_agree (s s' : State) (vars : list addr) (t : addr) :
  (forall x, x ∈ vars -> cells s' !! x = cells s !! x) ->
  captures_of s' vars t = captures_of s vars t.
Proof.
  unfold captures_of. induction vars as [|x rest IH]; intros H; [reflexivity|].
  cbn [List.filter]. rewrite (H x) by left.
  destruct (bool_decide (cells s !! x = Some (Some t))); cbn [length];
    rewrite IH by (intros y Hy; apply H; right; exact Hy); reflexivity.
Qed.

Lemma copy_captures_spec : forall (vars : list addr) (s : State),
  variables_ok s vars ->
  exists caps s1,
    copy_captures (length vars) (map Some vars) s = Done (map Some caps, s1) /\
    length caps = length vars /\
    (forall i x ci, vars !! i = Some x -> caps !! i = Some ci ->
       cells s !! ci = None /\ cells s1 !! ci = cells s !! x) /\
    (forall y, is_Some (cells s !! y) -> cells s1 !! y = cells s !! y) /\
    (forall t v, values s !! t = Some v ->
       values s1 !! t
       = Some (mkValue (Nat.iter (captures_of s vars t) incremented (refcount v))
                 (value v) (blessed_package v))) /\
    (forall t, values s !! t = None -> values s1 !! t = None) /\
    closures s1 = closures s.
Proof.
  induction vars as [|x rest IH]; intros s Hok.
  - exists [], s. simpl. repeat split; auto.
    + discriminate H.
    + discriminate H.
    + intros t [rc p b] Hv. exact Hv.
  - destruct (Hok x) as (held & Hx & Hlive); [left|].
    set (c := fresh (dom (cells s))).
    assert (Hc : cells s !! c = None) by apply fresh_cell_unused.
    set (s1 := with_cells (<[c := held]> (cells s)) s).
    assert (Hinc : exists s2,
               match held with Some _ => strada_incref held s1 | None => Done s1 end = Done s2 /\
               cells s2 = cells s1 /\ closures s2 = closures s /\
               (forall t v, values s !! t = Some v ->
                  values s2 !! t
                  = Some (mkValue (if bool_decide (held = Some t)
                                   then incremented (refcount v) else refcount v)
                            (value v) (blessed_package v))) /\
               (forall t, values s !! t = None -> values s2 !! t = None)).
    { destruct held as [t0|].
      - destruct (Hlive t0 eq_refl) as [v0 Hv0].
        unfold strada_incref. change (values s1) with (values s). rewrite Hv0.
        eexists. split; [reflexivity|].
        unfold set_refcount. change (values s1) with (values s). rewrite Hv0.
        split; [reflexivity|]. split; [reflexivity|]. split.
        + intros t v Hv. simpl. destruct (decide (t0 = t)) as [->|Hne].
          * rewrite lookup_insert_eq, bool_decide_eq_true_2 by reflexivity.
            rewrite Hv0 in Hv. injection Hv as <-. reflexivity.
          * rewrite lookup_insert_ne, bool_decide_eq_false_2 by congruence.
            rewrite Hv. destruct v. reflexivity.
        + intros t Hn. simpl. rewrite lookup_insert_ne by congruence. exact Hn.
      - exists s1. split; [reflexivity|]. split; [reflexivity|]. split; [reflexivity|].
        split; [|auto]. intros t [rc p b] Hv. exact Hv. }
    destruct Hinc as (s2 & Hs2 & Hcells2 & Hclo2 & Hval2 & Hnone2).
    assert (Hsame : forall y, is_Some (cells s !! y) -> cells s2 !! y = cells s !! y).
    { intros y [h Hy]. rewrite Hcells2. simpl. apply lookup_insert_ne. congruence. }
    destruct (IH s2) as (caps & s3 & Hrun & Hlen & Hidx & Hold & Hval & Hnone & Hclo).
    { intros y Hy. destruct (Hok y) as (h & Hyc & Hyl); [right; exact Hy|].
      exists h. split; [rewrite Hsame by eauto; exact Hyc|].
      intros t Ht. destruct (Hyl t Ht) as [v Hv]. rewrite (Hval2 t v Hv). eauto. }
    exists (c :: caps), s3. split.
    { cbn [length map copy_captures]. rewrite Hx. fold c. fold s1.
      rewrite Hs2. cbn [bind]. rewrite Hrun. reflexivity. }
    split; [simpl; congruence|]. split; [|split; [|split; [|split]]].
    + intros i y ci Hy Hci. destruct i as [|i]; simpl in Hy, Hci.
      * injection Hy as <-. injection Hci as <-. split; [exact Hc|].
        rewrite Hold by (rewrite Hcells2; simpl; rewrite lookup_insert_eq; eauto).
        rewrite Hcells2. simpl. rewrite lookup_insert_eq. symmetry. exact Hx.
      * destruct (Hidx i y ci Hy Hci) as [Hn Heq].
        assert (Hyin : is_Some (cells s !! y)).
        { destruct (Hok y) as (h & Hyc & _); [right; eapply list_elem_of_lookup_2; exact Hy|].
          eauto. }
        split.
        -- rewrite Hcells2 in Hn. simpl in Hn.
           destruct (decide (c = ci)) as [<-|Hne].
           ++ rewrite lookup_insert_eq in Hn. discriminate Hn.
           ++ rewrite lookup_insert_ne in Hn by exact Hne. exact Hn.
        -- rewrite Heq. apply Hsame. exact Hyin.
    + intros y Hy. rewrite Hold by (rewrite Hsame by exact Hy; exact Hy).
      apply Hsame. exact Hy.
    + intros t v Hv. rewrite (Hval t _ (Hval2 t v Hv)). cbn [refcount value blessed_package].
      f_equal. f_equal.
      rewrite (captures_of_agree s s2 rest t)
        by (intros y Hy; apply Hsame; destruct (Hok y) as (h & Hyc & _);
            [right; exact Hy | eauto]).
      unfold captures_of at 2. cbn [List.filter]. rewrite Hx.
      destruct (decide (held = Some t)) as [->|Hne].
      * rewrite !bool_decide_eq_true_2 by reflexivity. cbn [length].
        fold (captures_of s rest t). rewrite Nat.iter_succ_r. reflexivity.
      * rewrite bool_decide_eq_false_2 by exact Hne.
        rewrite bool_decide_eq_false_2 by congruence. reflexivity.
    + intros t Hn. apply Hnone. apply Hnone2. exact Hn.
    + congruence.
Qed.

(** C9.  [strada_closure_new] on existing variables completes and builds a
    closure whose captures are a snapshot: every capture cell is a new
    variable of the closure's own, it holds the pointer that the captured
    variable held when the closure was created, and it still does after any
    later assignment to a variable of the enclosing scope; every captured
    value has been retained once per capture ([strada_incref]) and is
    otherwise untouched; [strada_closure_call] hands these capture cells to
    the closure body. *)
Theorem closure_captures_are_a_snapshot
    (f : StradaMethod) (params : Z) (vars : list addr) (s : State) :
  vars <> [] ->
  variables_ok s vars ->
  exists cl c caps s',
    strada_closure_new f params (Z.of_nat (length vars)) (Some (map Some vars)) s
      = Done (cl, s') /\
    values s !! cl = None /\
    values s' !! cl = Some (mkValue 1 (PClosure (Some c)) None) /\
    closures s' !! c
      = Some (mkClosure f params (Z.of_nat (length vars)) (Some (map Some caps))) /\
    strada_closure_call (Some cl) [] s' = Done (CallClosure f (Some (map Some caps)) [], s') /\
    length caps = length vars /\
    (forall i x ci, vars !! i = Some x -> caps !! i = Some ci ->
       cells s !! ci = None /\
       cells s' !! ci = cells s !! x /\
       forall y q, is_Some (cells s !! y) ->
         cells (store_cell y q s') !! ci = cells s !! x) /\
    (forall t v, values s !! t = Some v ->
       values s' !! t
       = Some (mkValue (Nat.iter (captures_of s vars t) incremented (refcount v))
                 (value v) (blessed_package v))).
Proof.
  intros Hne Hok.
  destruct (copy_captures_spec vars s Hok)
    as (caps & s1 & Hrun & Hlen & Hidx & Hold & Hval & Hnone & Hclo).
  unfold strada_closure_new.
  replace (0 <? Z.of_nat (length vars)) with true
    by (symmetry; apply Z.ltb_lt; destruct vars; [congruence | simpl; lia]).
  rewrite Nat2Z.id, Hrun. cbn [bind fst snd].
  set (c := fresh (dom (closures s1))).
  set (s2 := with_closures
               (<[c := mkClosure f params (Z.of_nat (length vars)) (Some (map Some caps))]>
                  (closures s1)) s1).
  set (cl := fresh (dom (values s2))).
  assert (Hcl : values s1 !! cl = None) by apply (fresh_value_unused s2).
  exists cl, c, caps, (snd (alloc_value (mkValue 1 (PClosure (Some c)) None) s2)).
  split; [reflexivity|]. split.
  { destruct (values s !! cl) as [v|] eqn:Hv; [|reflexivity].
    rewrite (Hval cl v Hv) in Hcl. discriminate Hcl. }
  assert (Hnew : values (snd (alloc_value (mkValue 1 (PClosure (Some c)) None) s2)) !! cl
                 = Some (mkValue 1 (PClosure (Some c)) None)) by apply lookup_insert_eq.
  assert (Hclos : closures (snd (alloc_value (mkValue 1 (PClosure (Some c)) None) s2)) !! c
                  = Some (mkClosure f params (Z.of_nat (length vars)) (Some (map Some caps))))
    by apply lookup_insert_eq.
  split; [exact Hnew|]. split; [exact Hclos|]. split.
  { unfold strada_closure_call. rewrite Hnew. cbn [value length Nat.leb].
    rewrite Hclos. reflexivity. }
  split; [exact Hlen|]. split.
  - intros i x ci Hx Hci. destruct (Hidx i x ci Hx Hci) as [Hfresh Hheld].
    split; [exact Hfresh|]. split; [exact Hheld|].
    intros y q [h Hy]. unfold store_cell. cbn [cells with_cells].
    rewrite lookup_insert_ne by congruence. exact Hheld.
  - intros t v Hv. rewrite <- (Hval t v Hv).
    apply lookup_insert_ne. intros <-. rewrite (Hval cl v Hv) in Hcl. discriminate Hcl.
Qed.

Lemma closure_snapshot_witness :
  variables_ok scope_x_is_1 [0%nat] /\
  (exists s1 s3,
     scope_with_closure = Done (1%nat, s1) /\
     strada_closure_call (Some 1%nat) [] s1 = Done (CallClosure 7%nat (Some [Some 1%nat]) [], s1) /\
     scope_after_assignment = Done s3 /\
     cells s3 !! 0%nat = Some (Some 2%nat) /\
     values s3 !! 2%nat = Some (mkValue 1 (PInt 2) None) /\
     cells s3 !! 1%nat = Some (Some 0%nat) /\
     values s3 !! 0%nat = Some (mkValue 1 (PInt 1) None) /\
     strada_to_int demo_libc (Some 0%nat) s3 = Done 1) /\
  exists cl c caps s',
    strada_closure_new 7%nat 0 1 (Some [Some 0%nat]) scope_x_is_1 = Done (cl, s') /\
    closures s' !! c = Some (mkClosure 7%nat 0 1 (Some (map Some caps))) /\
    forall ci, caps !! 0%nat = Some ci ->
      forall y q, is_Some (cells scope_x_is_1 !! y) ->
        cells (store_cell y q s') !! ci = cells scope_x_is_1 !! 0%nat.
Proof.
  assert (Hok : variables_ok scope_x_is_1 [0%nat]).
  { intros x Hx. apply list_elem_of_singleton in Hx as ->.
    exists (Some 0%nat). split; [reflexivity|]. intros t [= <-]. eexists. reflexivity. }
  split; [exact Hok|]. split.
  { eexists. eexists. split; [vm_compute; reflexivity|].
    split; [reflexivity|]. split; [vm_compute; reflexivity|].
    repeat split; reflexivity. }
  destruct (closure_captures_are_a_snapshot 7%nat 0 [0%nat] scope_x_is_1
              ltac:(discriminate) Hok)
    as (cl & c & caps & s' & Hnew & _ & _ & Hclo & _ & _ & Hidx & _).
  exists cl, c, caps, s'. split; [exact Hnew|]. split; [exact Hclo|].
  intros ci Hci y q Hy.
  destruct (Hidx 0%nat 0%nat ci eq_refl Hci) as (_ & _ & Hlater).
  apply (Hlater y q Hy).
Defined.

(** ** Hash tables *)

Lemma assoc_find_Some (l : list StradaHashEntry) (k : string) (e : StradaHashEntry) :
  assoc_find l k = Some e -> e ∈ l /\ key e = k.
Proof.
  induction l as [|x rest IH]; [discriminate|]. cbn [assoc_find].
  destruct (String.eqb_spec (key x) k) as [Hk|Hk].
  - intros [= <-]. split; [left | exact Hk].
  - intros H. destruct (IH H) as [Hin Hkey]. split; [right; exact Hin | exact Hkey].
Qed.

Lemma assoc_find_None (l : list StradaHashEntry) (k : string) :
  assoc_find l k = None <-> k ∉ key <$> l.
Proof.
  induction l as [|x rest IH]; cbn [assoc_find fmap list_fmap].
  - split; [intros _; apply not_elem_of_nil | reflexivity].
  - rewrite not_elem_of_cons. destruct (String.eqb_spec (key x) k) as [Hk|Hk].
    + split; [discriminate | intros [Hne _]; congruence].
    + rewrite IH. split; [intros H; split; [congruence | exact H] | intros [_ H]; exact H].
Qed.

Lemma assoc_find_unique (l : list StradaHashEntry) (e : StradaHashEntry) :
  NoDup (key <$> l) -> e ∈ l -> assoc_find l (key e) = Some e.
Proof.
  induction l as [|x rest IH]; intros Hnd Hin; [inversion Hin|].
  cbn [fmap list_fmap] in Hnd. apply NoDup_cons in Hnd as [Hx Hnd].
  cbn [assoc_find]. apply elem_of_cons in Hin as [->|Hin].
  - rewrite String.eqb_refl. reflexivity.
  - destruct (String.eqb_spec (key x) (key e)) as [Hk|Hk].
    + exfalso. apply Hx. rewrite Hk. apply list_elem_of_fmap_2. exact Hin.
    + apply IH; assumption.
Qed.







Lemma bucket_of_lt (n : Z) (k : string) : 0 < n -> (bucket_of n k < Z.to_nat n)%nat.
Proof.
  intros Hn. unfold bucket_of.
  pose proof (Z.mod_pos_bound (strada_hash_string k) n Hn). lia.
Qed.

(** Replacing the chain of one bucket replaces it in the contents. *)
Lemma contents_put_chain (bs : list (list StradaHashEntry)) (i : nat)
    (c c' : list StradaHashEntry) :
  bs !! i = Some c ->
  concat bs = concat (take i bs) ++ c ++ concat (drop (S i) bs) /\
  concat (<[i := c']> bs) = concat (take i bs) ++ c' ++ concat (drop (S i) bs).
Proof.
  intros Hi. split.
  - rewrite <- (take_drop_middle bs i c Hi) at 1. rewrite concat_app. reflexivity.
  - rewrite insert_take_drop by (eapply lookup_lt_Some; exact Hi).
    rewrite concat_app. reflexivity.
Qed.

Lemma chain_at_lookup (h : StradaHash) (k : string) :
  0 < num_buckets h ->
  buckets h !! bucket_of (num_buckets h) k = Some (chain_at h k).
Proof.
  intros Hn. unfold chain_at.
  destruct (buckets h !! bucket_of (num_buckets h) k) as [c|] eqn:Hc; [reflexivity|].
  apply lookup_ge_None in Hc. pose proof (bucket_of_lt (num_buckets h) k Hn).
  unfold num_buckets in *. lia.
Qed.

Lemma elem_of_contents (h : StradaHash) (e : StradaHashEntry) :
  e ∈ contents h <-> exists i chain, buckets h !! i = Some chain /\ e ∈ chain.
Proof.
  unfold contents. rewrite list_elem_of_In, in_concat. split.
  - intros (chain & Hc & He). apply list_elem_of_In, list_elem_of_lookup in Hc as [i Hi].
    exists i, chain. split; [exact Hi | apply list_elem_of_In; exact He].
  - intros (i & chain & Hi & He). exists chain. split.
    + apply list_elem_of_In. eapply list_elem_of_lookup_2. exact Hi.
    + apply list_elem_of_In. exact He.
Qed.

Lemma binding_keys (l : list StradaHashEntry) : (binding <$> l).*1 = key <$> l.
Proof. rewrite <- list_fmap_compose. reflexivity. Qed.

(** On a well-formed table, the walk along the chain of the key's bucket
    finds what the finite map holds. *)
Lemma hash_find_map (h : StradaHash) (k : string) :
  hash_wf h -> hash_find h k = hash_map h !! k.
Proof.
  intros (Hn & Hpl & Hnd & _). unfold hash_find, hash_map.
  destruct (assoc_find (chain_at h k) k) as [e|] eqn:Hf; cbn [fmap option_fmap option_map].
  - symmetry. apply assoc_find_Some in Hf as [Hin Hk].
    apply elem_of_list_to_map_1; [rewrite binding_keys; exact Hnd|].
    apply list_elem_of_fmap. exists e. split; [unfold binding; rewrite Hk; reflexivity|].
    apply elem_of_contents. eexists _, _. split; [apply chain_at_lookup; exact Hn | exact Hin].
  - symmetry. apply not_elem_of_list_to_map. rewrite binding_keys.
    intros Hin. apply list_elem_of_fmap in Hin as (e & Hk & He).
    apply elem_of_contents in He as (i & chain & Hi & He).
    pose proof (Hpl i chain e Hi He) as Hb. rewrite <- Hk in Hb.
    rewrite <- Hb, chain_at_lookup in Hi by exact Hn. injection Hi as <-.
    apply assoc_find_None in Hf. apply Hf. rewrite Hk at 1.
    apply list_elem_of_fmap_2. exact He.
Qed.

Lemma elem_of_concat (bs : list (list StradaHashEntry)) (e : StradaHashEntry) :
  e ∈ concat bs <-> exists j chain, bs !! j = Some chain /\ e ∈ chain.
Proof.
  rewrite list_elem_of_In, in_concat. split.
  - intros (chain & Hc & He). apply list_elem_of_In, list_elem_of_lookup in Hc as [i Hi].
    exists i, chain. split; [exact Hi | apply list_elem_of_In; exact He].
  - intros (i & chain & Hi & He). exists chain. split.
    + apply list_elem_of_In. eapply list_elem_of_lookup_2. exact Hi.
    + apply list_elem_of_In. exact He.
Qed.

Lemma others_not_in_bucket (n : Z) (bs : list (list StradaHashEntry)) (i : nat)
    (e : StradaHashEntry) :
  placed n bs ->
  e ∈ concat (take i bs) ++ concat (drop (S i) bs) ->
  bucket_of n (key e) <> i.
Proof.
  intros Hpl Hin. apply elem_of_app in Hin as [Hin|Hin];
    apply elem_of_concat in Hin as (j & chain & Hj & He).
  - apply lookup_take_Some in Hj as [Hj Hlt]. rewrite (Hpl j chain e Hj He). lia.
  - rewrite lookup_drop in Hj. rewrite (Hpl _ chain e Hj He). lia.
Qed.

(** A bucket's chain may be replaced by any chain of distinct keys that
    belong to that bucket. *)
Lemma put_chain_wf (h : StradaHash) (k : string) (c' : list StradaHashEntry) (n : Z) :
  hash_wf h ->
  NoDup (key <$> c') ->
  (forall e, e ∈ c' ->
     bucket_of (num_buckets h) (key e) = bucket_of (num_buckets h) k) ->
  (forall e, e ∈ c' -> cstr (key e) = key e) ->
  n = num_entries h - Z.of_nat (length (chain_at h k)) + Z.of_nat (length c') ->
  hash_wf (put_chain h k c' n).
Proof.
  intros (Hn & Hpl & Hnd & Hcount & Hkeys) Hnd' Hin' Hkeys' ->.
  pose proof (chain_at_lookup h k Hn) as Hi.
  destruct (contents_put_chain (buckets h) _ (chain_at h k) c' Hi) as [Hold Hnew].
  assert (Hnb : num_buckets (put_chain h k c' (num_entries h
                  - Z.of_nat (length (chain_at h k)) + Z.of_nat (length c')))
                = num_buckets h)
    by (unfold num_buckets, put_chain; cbn [buckets]; rewrite length_insert; reflexivity).
  unfold hash_wf. rewrite Hnb. unfold contents in *. cbn [buckets num_entries put_chain].
  split; [exact Hn|]. split; [|split; [|split]].
  - intros j chain e Hj He.
    destruct (decide (bucket_of (num_buckets h) k = j)) as [<-|Hne].
    + rewrite list_lookup_insert_eq in Hj by (eapply lookup_lt_Some; exact Hi).
      injection Hj as <-. apply Hin'. exact He.
    + rewrite list_lookup_insert_ne in Hj by exact Hne. apply (Hpl j chain e Hj He).
  - rewrite Hnew. rewrite Hold in Hnd. rewrite !fmap_app in *.
    apply NoDup_app in Hnd as (HA & HAcB & HcB).
    apply NoDup_app in HcB as (_ & _ & HB).
    apply NoDup_app. split; [exact HA|]. split.
    + intros x HxA Hx. apply HAcB in HxA as HxcB.
      apply elem_of_app in Hx as [Hx|Hx]; [|apply HxcB, elem_of_app; right; exact Hx].
      apply list_elem_of_fmap in HxA as (ea & -> & Hea).
      apply list_elem_of_fmap in Hx as (ec & Hkey & Hec).
      apply (others_not_in_bucket (num_buckets h) (buckets h)
                 (bucket_of (num_buckets h) k) ea Hpl).
      * apply elem_of_app. left. exact Hea.
      * rewrite Hkey. apply Hin'. exact Hec.
    + apply NoDup_app. split; [exact Hnd'|]. split; [|exact HB].
      intros x Hx HxB.
      apply list_elem_of_fmap in Hx as (ec & -> & Hec).
      apply list_elem_of_fmap in HxB as (eb & Hkey & Heb).
      apply (others_not_in_bucket (num_buckets h) (buckets h)
                 (bucket_of (num_buckets h) k) eb Hpl).
      * apply elem_of_app. right. exact Heb.
      * rewrite <- Hkey. apply Hin'. exact Hec.
  - rewrite Hnew, Hcount, Hold. rewrite !length_app. lia.
  - intros e He. rewrite Hnew in He. rewrite Hold in Hkeys.
    apply elem_of_app in He as [He|He]; [apply Hkeys, elem_of_app; left; exact He|].
    apply elem_of_app in He as [He|He]; [apply Hkeys'; exact He|].
    apply Hkeys, elem_of_app. right. apply elem_of_app. right. exact He.
Qed.

(** What [hash_find] sees after the chain of a bucket has been replaced. *)
Lemma hash_find_put_chain (h : StradaHash) (k k' : string) (c' : list StradaHashEntry) (n : Z) :
  0 < num_buckets h ->
  hash_find (put_chain h k c' n) k'
  = if decide (bucket_of (num_buckets h) k = bucket_of (num_buckets h) k')
    then e_value <$> assoc_find c' k'
    else hash_find h k'.
Proof.
  intros Hn. unfold hash_find, chain_at.
  assert (Hnb : num_buckets (put_chain h k c' n) = num_buckets h)
    by (unfold num_buckets, put_chain; cbn [buckets]; rewrite length_insert; reflexivity).
  rewrite Hnb. cbn [buckets put_chain].
  destruct (decide (bucket_of (num_buckets h) k = bucket_of (num_buckets h) k')) as [<-|Hne].
  - rewrite list_lookup_insert_eq; [reflexivity|].
    pose proof (bucket_of_lt (num_buckets h) k Hn). unfold num_buckets in *. lia.
  - rewrite list_lookup_insert_ne by exact Hne. reflexivity.
Qed.

Lemma concat_alter_cons (e : StradaHashEntry) :
  forall (bs : list (list StradaHashEntry)) (i : nat),
    (i < length bs)%nat -> concat (alter (cons e) i bs) ≡ₚ e :: concat bs.
Proof.
  induction bs as [|c rest IH]; intros i Hi; [simpl in Hi; lia|].
  destruct i as [|i]; cbn [alter list_alter concat].
  - reflexivity.
  - rewrite IH by (simpl in Hi; lia). symmetry. apply Permutation_middle.
Qed.

(** The rehash loop: the entries of [l] are spread over the buckets. *)
Lemma rehash_fold (n : Z) :
  0 < n ->
  forall (l : list StradaHashEntry) (bs : list (list StradaHashEntry)),
    length bs = Z.to_nat n ->
    placed n bs ->
    length (fold_left (rehash_entry n) l bs) = Z.to_nat n /\
    placed n (fold_left (rehash_entry n) l bs) /\
    concat (fold_left (rehash_entry n) l bs) ≡ₚ l ++ concat bs.
Proof.
  intros Hn. induction l as [|e rest IH]; intros bs Hlen Hpl.
  - cbn [fold_left]. split; [exact Hlen|]. split; [exact Hpl | reflexivity].
  - cbn [fold_left].
    pose proof (bucket_of_lt n (key e) Hn) as Hlt.
    destruct (IH (rehash_entry n bs e)) as (Hlen' & Hpl' & Hperm).
    + unfold rehash_entry. rewrite length_alter. exact Hlen.
    + intros j chain e0 Hj He0. unfold rehash_entry in Hj.
      rewrite list_lookup_alter in Hj.
      destruct (decide (bucket_of n (key e) = j)) as [<-|Hne].
      * destruct (bs !! bucket_of n (key e)) as [c|] eqn:Hc; [|discriminate Hj].
        injection Hj as <-. apply elem_of_cons in He0 as [->|He0]; [reflexivity|].
        apply (Hpl _ c e0 Hc He0).
      * apply (Hpl j chain e0 Hj He0).
    + split; [exact Hlen'|]. split; [exact Hpl'|].
      rewrite Hperm. unfold rehash_entry.
      rewrite concat_alter_cons by lia. symmetry. apply Permutation_middle.
Qed.

Lemma concat_replicate_nil (n : nat) : concat (replicate n ([] : list StradaHashEntry)) = [].
Proof. induction n as [|n IH]; [reflexivity | exact IH]. Qed.

Lemma resize_spec (h : StradaHash) :
  hash_wf h ->
  hash_wf (strada_hash_resize h) /\
  num_buckets (strada_hash_resize h) = 2 * num_buckets h /\
  num_entries (strada_hash_resize h) = num_entries h /\
  hash_map (strada_hash_resize h) = hash_map h /\
  forall k, hash_find (strada_hash_resize h) k = hash_find h k.
Proof.
  intros Hwf. pose proof Hwf as (Hn & Hpl & Hnd & Hcount & Hkeys).
  assert (Hn2 : 0 < num_buckets h * 2) by lia.
  destruct (rehash_fold (num_buckets h * 2) Hn2 (concat (buckets h))
              (replicate (Z.to_nat (num_buckets h * 2)) []))
    as (Hlen & Hpl' & Hperm).
  { apply length_replicate. }
  { intros j chain e Hj He. apply lookup_replicate in Hj as [-> _]. inversion He. }
  rewrite concat_replicate_nil, app_nil_r in Hperm.
  assert (Hnb : num_buckets (strada_hash_resize h) = num_buckets h * 2).
  { unfold num_buckets at 1. unfold strada_hash_resize. cbn [buckets].
    rewrite Hlen. lia. }
  assert (Hwf' : hash_wf (strada_hash_resize h)).
  { unfold hash_wf. rewrite Hnb. unfold contents, strada_hash_resize. cbn [buckets num_entries].
    split; [lia|]. split; [exact Hpl'|]. split; [|split].
    - rewrite Hperm. exact Hnd.
    - rewrite Hperm. exact Hcount.
    - intros e He. rewrite Hperm in He. apply Hkeys. exact He. }
  assert (Hmap : hash_map (strada_hash_resize h) = hash_map h).
  { unfold hash_map, contents. symmetry. apply list_to_map_proper.
    - rewrite binding_keys. exact Hnd.
    - unfold strada_hash_resize. cbn [buckets]. rewrite Hperm. reflexivity. }
  split; [exact Hwf'|]. split; [lia|]. split; [reflexivity|]. split; [exact Hmap|].
  intros k. rewrite !hash_find_map by assumption. rewrite Hmap. reflexivity.
Qed.

Lemma chain_at_same_bucket (h : StradaHash) (k k' : string) :
  bucket_of (num_buckets h) k = bucket_of (num_buckets h) k' ->
  chain_at h k = chain_at h k'.
Proof. unfold chain_at. intros ->. reflexivity. Qed.


Lemma assoc_insert_table (h : StradaHash) (k : string) (sv : option addr) :
  hash_wf h ->
  cstr k = k ->
  assoc_find (chain_at h k) k = None ->
  hash_wf (put_chain h k (mkEntry k sv :: chain_at h k) (num_entries h + 1)) /\
  hash_map (put_chain h k (mkEntry k sv :: chain_at h k) (num_entries h + 1))
    = <[k := sv]> (hash_map h).
Proof.
  intros Hwf Hk Hnone. pose proof Hwf as (Hn & Hpl & Hnd & Hcount & Hkeys).
  pose proof (chain_at_lookup h k Hn) as Hi.
  assert (Hwf' : hash_wf (put_chain h k (mkEntry k sv :: chain_at h k) (num_entries h + 1))).
  { apply put_chain_wf; [exact Hwf | | | |].
    - cbn [fmap list_fmap key]. apply NoDup_cons. split.
      + apply assoc_find_None. exact Hnone.
      + destruct (contents_put_chain (buckets h) _ _ [] Hi) as [Hdec _].
        unfold contents in Hnd. rewrite Hdec, !fmap_app in Hnd.
        apply NoDup_app in Hnd as (_ & _ & Hnd). apply NoDup_app in Hnd as (Hnd & _).
        exact Hnd.
    - intros e He. apply elem_of_cons in He as [->|He]; [reflexivity|].
      rewrite (Hpl _ _ e Hi He). reflexivity.
    - intros e He. apply elem_of_cons in He as [->|He]; [exact Hk|].
      apply Hkeys, elem_of_contents. eauto.
    - cbn [length]. lia. }
  split; [exact Hwf'|]. apply map_eq. intros k'.
  rewrite <- (hash_find_map _ k' Hwf'), hash_find_put_chain by exact Hn.
  rewrite lookup_insert, <- (hash_find_map h k' Hwf).
  destruct (decide (k = k')) as [<-|Hne].
  - rewrite decide_True by reflexivity. cbn [assoc_find key].
    rewrite String.eqb_refl. reflexivity.
  - destruct (decide (bucket_of (num_buckets h) k = bucket_of (num_buckets h) k')) as [Hb|Hb];
      [|reflexivity].
    cbn [assoc_find key].
    replace (String.eqb k k') with false by (symmetry; apply String.eqb_neq; exact Hne).
    unfold hash_find. rewrite (chain_at_same_bucket h k k' Hb). reflexivity.
Qed.


(** *** The walk with [strcmp]

    The keys of a well-formed table are C strings, and on C strings
    [strcmp] is equality: the walk for a key [k] is the walk along the
    association list for the C string that [k] holds. *)

Lemma hash_loop_cstr (k : string) : forall h, hash_loop h (cstr k) = hash_loop h k.
Proof.
  induction k as [|c k IH]; intros h; cbn [cstr hash_loop]; [reflexivity|].
  destruct (Ascii.eqb c NUL) eqn:Hc; [reflexivity|]. cbn [hash_loop]. rewrite Hc. apply IH.
Qed.

Lemma bucket_of_cstr (n : Z) (k : string) : bucket_of n (cstr k) = bucket_of n k.
Proof. unfold bucket_of, strada_hash_string. rewrite hash_loop_cstr. reflexivity. Qed.

Lemma chain_at_cstr (h : StradaHash) (k : string) : chain_at h (cstr k) = chain_at h k.
Proof. unfold chain_at. rewrite bucket_of_cstr. reflexivity. Qed.


Lemma strcmp_key (e : StradaHashEntry) (k : string) :
  cstr (key e) = key e -> strcmp_eq (key e) k = String.eqb (key e) (cstr k).
Proof. unfold strcmp_eq. intros ->. reflexivity. Qed.

Lemma chain_find_assoc (l : list StradaHashEntry) (k : string) :
  (forall e, e ∈ l -> cstr (key e) = key e) ->
  chain_find l k = assoc_find l (cstr k).
Proof.
  induction l as [|x l IH]; intros Hkeys; [reflexivity|]. cbn [chain_find assoc_find].
  rewrite strcmp_key by (apply Hkeys; left).
  rewrite IH by (intros e He; apply Hkeys; right; exact He). reflexivity.
Qed.



Lemma chain_keys (h : StradaHash) (k : string) :
  hash_wf h -> forall e, e ∈ chain_at h k -> cstr (key e) = key e.
Proof.
  intros (Hn & _ & _ & _ & Hkeys) e He. apply Hkeys, elem_of_contents.
  eexists _, _. split; [apply chain_at_lookup; exact Hn | exact He].
Qed.

(** On a well-formed table, the walk of [strada_hash_get] finds what the
    finite map holds for the C string of the key. *)
Lemma chain_find_map (h : StradaHash) (k : string) :
  hash_wf h -> e_value <$> chain_find (chain_at h k) k = hash_map h !! cstr k.
Proof.
  intros Hwf. rewrite (chain_find_assoc _ _ (chain_keys h k Hwf)), <- chain_at_cstr.
  apply (hash_find_map h (cstr k) Hwf).
Qed.

Lemma hash_map_keys (h : StradaHash) (k : string) :
  hash_wf h -> is_Some (hash_map h !! k) -> cstr k = k.
Proof.
  intros (_ & _ & _ & _ & Hkeys) [sv Hsv]. unfold hash_map in Hsv.
  apply elem_of_list_to_map_2, list_elem_of_fmap in Hsv as (e & Heq & He).
  injection Heq as -> _. apply Hkeys. exact He.
Qed.




Lemma hashes_set_refcount (s : State) (b : addr) (rc : Z) :
  hashes (set_refcount b rc s) = hashes s.
Proof. unfold set_refcount. destruct (values s !! b); reflexivity. Qed.




Lemma hash_map_size (h : StradaHash) :
  hash_wf h -> num_entries h = Z.of_nat (size (hash_map h)).
Proof.
  intros (_ & _ & Hnd & Hcount & _). unfold hash_map.
  rewrite map_size_list_to_map by (rewrite binding_keys; exact Hnd).
  rewrite length_fmap. exact Hcount.
Qed.

(** X1.  [strada_hash_new] creates, at an address not in use, an empty
    well-formed table with the default number of buckets and one owner;
    [strada_set_hash_default_capacity] keeps that number positive. *)
Theorem hash_new_is_empty (s : State) (c : Z) :
  0 < strada_default_hash_capacity s ->
  0 < strada_default_hash_capacity (strada_set_hash_default_capacity c s) /\
  hashes s !! fst (strada_hash_new s) = None /\
  exists h,
    hashes (snd (strada_hash_new s)) !! fst (strada_hash_new s) = Some h /\
    hash_wf h /\ hash_map h = ∅ /\ num_entries h = 0 /\ h_refcount h = 1 /\
    num_buckets h = strada_default_hash_capacity s /\
    forall k, strada_hash_exists (Some (fst (strada_hash_new s))) (Some k)
                (snd (strada_hash_new s)) = Done false.
Proof.
  intros Hcap. split.
  { unfold strada_set_hash_default_capacity. destruct (Z.ltb_spec 0 c); [exact H | exact Hcap]. }
  split; [apply not_elem_of_dom, is_fresh|].
  set (h := mkHash (replicate (Z.to_nat (strada_default_hash_capacity s)) []) 0 1).
  assert (Hnb : num_buckets h = strada_default_hash_capacity s)
    by (unfold num_buckets, h; cbn [buckets]; rewrite length_replicate; lia).
  assert (Hc : contents h = []) by apply concat_replicate_nil.
  assert (Hwf : hash_wf h).
  { unfold hash_wf. rewrite Hnb, Hc. split; [exact Hcap|]. split; [|split; [|split]].
    - intros i chain e Hi He. apply lookup_replicate in Hi as [-> _]. inversion He.
    - constructor.
    - reflexivity.
    - intros e He. inversion He. }
  assert (Hmap : hash_map h = ∅) by (unfold hash_map; rewrite Hc; reflexivity).
  assert (Hlook : hashes (snd (strada_hash_new s)) !! fst (strada_hash_new s) = Some h)
    by apply lookup_insert_eq.
  exists h. split; [exact Hlook|]. split; [exact Hwf|]. split; [exact Hmap|].
  split; [reflexivity|]. split; [reflexivity|]. split; [exact Hnb|].
  intros k. unfold strada_hash_exists. rewrite Hlook.
  replace (num_buckets h =? 0) with false by (symmetry; apply Z.eqb_neq; lia).
  pose proof (chain_find_map h k Hwf) as Hf. rewrite Hmap, lookup_empty in Hf.
  destruct (chain_find (chain_at h k) k); [discriminate Hf | reflexivity].
Qed.

Lemma hash_new_witness :
  0 < strada_default_hash_capacity initial_state /\
  hashes initial_state !! fst (strada_hash_new initial_state) = None /\
  exists h,
    hashes (snd (strada_hash_new initial_state)) !! fst (strada_hash_new initial_state)
      = Some h /\ hash_wf h /\ num_buckets h = 16.
Proof.
  assert (Hcap : 0 < strada_default_hash_capacity initial_state) by (cbn; lia).
  destruct (hash_new_is_empty initial_state 0 Hcap) as (_ & Hfresh & h & Hh & Hwf & _ & _ & _ & Hnb & _).
  split; [exact Hcap|]. split; [exact Hfresh|].
  exists h. split; [exact Hh|]. split; [exact Hwf | exact Hnb].
Defined.

Lemma hash_exists_spec (s : State) (a : addr) (h : StradaHash) (k : string) :
  hashes s !! a = Some h -> hash_wf h ->
  strada_hash_exists (Some a) (Some k) s
    = Done (bool_decide (is_Some (hash_map h !! cstr k))).
Proof.
  intros Hh Hwf. pose proof Hwf as (Hn & _).
  pose proof (chain_find_map h k Hwf) as Hf.
  unfold strada_hash_exists. rewrite Hh.
  replace (num_buckets h =? 0) with false by (symmetry; apply Z.eqb_neq; lia).
  destruct (chain_find (chain_at h k) k) as [e|]; cbn in Hf; rewrite <- Hf.
  - rewrite bool_decide_eq_true_2 by eauto. reflexivity.
  - rewrite bool_decide_eq_false_2 by (intros [? ?]; discriminate). reflexivity.
Qed.

Lemma hash_get_bound (s : State) (a : addr) (h : StradaHash) (k : string) (sv : ptr) :
  hashes s !! a = Some h -> hash_wf h ->
  hash_map h !! cstr k = Some sv ->
  strada_hash_get (Some a) (Some k) s = Done (sv, s).
Proof.
  intros Hh Hwf Hsv. pose proof Hwf as (Hn & _).
  pose proof (chain_find_map h k Hwf) as Hf.
  unfold strada_hash_get. rewrite Hh.
  replace (num_buckets h =? 0) with false by (symmetry; apply Z.eqb_neq; lia).
  rewrite Hsv in Hf.
  destruct (chain_find (chain_at h k) k) as [e|]; cbn in Hf; [|discriminate Hf].
  injection Hf as ->. reflexivity.
Qed.

Lemma empty_table_wf (n rc : Z) :
  0 < n ->
  hash_wf (mkHash (replicate (Z.to_nat n) []) 0 rc) /\
  hash_map (mkHash (replicate (Z.to_nat n) []) 0 rc) = ∅.
Proof.
  intros Hn.
  assert (Hc : contents (mkHash (replicate (Z.to_nat n) []) 0 rc) = [])
    by apply concat_replicate_nil.
  unfold hash_wf, hash_map. rewrite Hc. split; [|reflexivity].
  split; [unfold num_buckets; cbn [buckets]; rewrite length_replicate; lia|].
  split; [|split; [constructor | split; [reflexivity | intros e He; inversion He]]].
  intros i chain e Hi He. apply lookup_replicate in Hi as [-> _]. inversion He.
Qed.

Lemma one_entry_table_wf :
  hash_wf one_entry_table /\ hash_map one_entry_table = {[ "k"%string := Some 7%nat ]}.
Proof.
  destruct (empty_table_wf 16 1 ltac:(lia)) as [Hwf Hmap].
  destruct (assoc_insert_table _ "k" (Some 7%nat) Hwf eq_refl) as [Hwf' Hmap'].
  { apply assoc_find_None. unfold chain_at. cbn [buckets].
    destruct (replicate (Z.to_nat 16) [] !! _) as [c|] eqn:Hc; [|apply not_elem_of_nil].
    apply lookup_replicate in Hc as [-> _]. apply not_elem_of_nil. }
  assert (Heq : one_entry_table =
    put_chain (mkHash (replicate (Z.to_nat 16) []) 0 1) "k"
      (mkEntry "k" (Some 7%nat) :: chain_at (mkHash (replicate (Z.to_nat 16) []) 0 1) "k")
      (num_entries (mkHash (replicate (Z.to_nat 16) []) 0 1) + 1))
    by (vm_compute; reflexivity).
  rewrite Heq. split; [exact Hwf'|]. rewrite Hmap', Hmap. reflexivity.
Qed.

(** X2.  [strada_hash_resize] keeps a table well formed, doubles its bucket
    count, and leaves the entry count and the finite map that the table
    stands for unchanged.  So a resize is not seen through the table's
    interface: in the state with the resized table [strada_hash_exists]
    answers as before, and [strada_hash_get] returns the stored pointer of
    every bound key. *)
Theorem hash_resize_preserves_map (s : State) (a : addr) (h : StradaHash) :
  hashes s !! a = Some h ->
  hash_wf h ->
  let s' := with_hashes (<[a := strada_hash_resize h]> (hashes s)) s in
  hash_wf (strada_hash_resize h) /\
  num_buckets (strada_hash_resize h) = 2 * num_buckets h /\
  num_entries (strada_hash_resize h) = num_entries h /\
  hash_map (strada_hash_resize h) = hash_map h /\
  (forall k, strada_hash_exists (Some a) (Some k) s' = strada_hash_exists (Some a) (Some k) s) /\
  (forall k sv, hash_map h !! k = Some sv ->
     strada_hash_get (Some a) (Some k) s' = Done (sv, s')).
Proof.
  intros Hh Hwf s'.
  destruct (resize_spec h Hwf) as (Hwf' & Hnb & Hcount & Hmap & _).
  assert (Hh' : hashes s' !! a = Some (strada_hash_resize h)) by apply lookup_insert_eq.
  split; [exact Hwf'|]. split; [exact Hnb|]. split; [exact Hcount|]. split; [exact Hmap|].
  split.
  - intros k. rewrite (hash_exists_spec s' a _ k Hh' Hwf'), (hash_exists_spec s a h k Hh Hwf).
    rewrite Hmap. reflexivity.
  - intros k sv Hsv. apply (hash_get_bound s' a _ k sv Hh' Hwf'). rewrite Hmap.
    rewrite (hash_map_keys h k Hwf) by eauto. exact Hsv.
Qed.

Lemma hash_resize_witness :
  hashes one_entry_state !! 1%nat = Some one_entry_table /\
  hash_wf one_entry_table /\
  num_buckets (strada_hash_resize one_entry_table) = 32 /\
  strada_hash_exists (Some 1%nat) (Some "k"%string)
    (with_hashes (<[1%nat := strada_hash_resize one_entry_table]> (hashes one_entry_state))
       one_entry_state) = Done true.
Proof.
  destruct one_entry_table_wf as [Hwf Hmap].
  assert (Hh : hashes one_entry_state !! 1%nat = Some one_entry_table) by reflexivity.
  destruct (hash_resize_preserves_map one_entry_state 1%nat one_entry_table Hh Hwf)
    as (_ & Hnb & _ & _ & Hex & _).
  split; [exact Hh|]. split; [exact Hwf|]. split; [exact Hnb|].
  rewrite Hex. vm_compute. reflexivity.
Defined.

(** X3.  On a well-formed table [strada_hash_get] and [strada_hash_exists]
    read the finite map at the C string that the key buffer holds, its bytes
    before the first NUL (the keys are compared with [strcmp]): when that
    string is bound, [strada_hash_get] yields the pointer stored for it (a
    borrowed pointer: nothing is allocated and no count changes), and
    [strada_hash_exists] tells whether it is bound; [num_entries] is the
    size of the map. *)
Theorem hash_get_reads_map (s : State) (a : addr) (h : StradaHash) (k : string) :
  hashes s !! a = Some h ->
  hash_wf h ->
  strada_hash_exists (Some a) (Some k) s
    = Done (bool_decide (is_Some (hash_map h !! cstr k))) /\
  (forall sv, hash_map h !! cstr k = Some sv ->
     strada_hash_get (Some a) (Some k) s = Done (sv, s)) /\
  num_entries h = Z.of_nat (size (hash_map h)).
Proof.
  intros Hh Hwf. split; [apply hash_exists_spec; assumption|].
  split; [|apply hash_map_size; exact Hwf].
  intros sv Hsv. apply (hash_get_bound s a h k sv Hh Hwf Hsv).
Qed.

Lemma hash_get_witness :
  hashes one_entry_state !! 1%nat = Some one_entry_table /\
  hash_wf one_entry_table /\
  hash_map one_entry_table !! cstr k_nul_x = Some (Some 7%nat) /\
  strada_hash_get (Some 1%nat) (Some k_nul_x) one_entry_state
    = Done (Some 7%nat, one_entry_state).
Proof.
  destruct one_entry_table_wf as [Hwf Hmap].
  assert (Hh : hashes one_entry_state !! 1%nat = Some one_entry_table) by reflexivity.
  assert (Hk : hash_map one_entry_table !! cstr k_nul_x = Some (Some 7%nat))
    by (rewrite Hmap; reflexivity).
  destruct (hash_get_reads_map one_entry_state 1%nat one_entry_table k_nul_x Hh Hwf)
    as (_ & Hget & _).
  split; [exact Hh|]. split; [exact Hwf|]. split; [exact Hk|]. apply Hget. exact Hk.
Defined.

Lemma incref_hashes (sv : ptr) (s s1 : State) :
  strada_incref sv s = Done s1 -> hashes s1 = hashes s.
Proof.
  unfold strada_incref. destruct sv as [b|].
  - destruct (values s !! b); [|discriminate]. intros [= <-]. apply hashes_set_refcount.
  - intros [= <-]. reflexivity.
Qed.






(** X5.  Binding a key whose C string the table does not hold yet cannot
    fail and releases nothing, whatever the fuel: [strada_hash_set] takes
    one more share of the value (the caller keeps its own), the table gains
    one entry, and nothing else in the heap changes. *)
Theorem hash_set_new_key_shares_value (native : Native) (fuel : nat) (s s1 : State)
    (a : addr) (h : StradaHash) (k : string) (sv : ptr) :
  hashes s !! a = Some h ->
  hash_wf h ->
  hash_map h !! cstr k = None ->
  strada_incref sv s = Done s1 ->
  exists h',
    strada_hash_set native fuel (Some a) (Some k) sv s
      = Done (with_hashes (<[a := h']> (hashes s)) s1) /\
    num_entries h' = num_entries h + 1 /\
    h_refcount h' = h_refcount h.
Proof.
  intros Hh Hwf Hnone Hinc. pose proof Hwf as (Hn & _).
  pose proof (chain_find_map h k Hwf) as Hf. rewrite Hnone in Hf.
  unfold strada_hash_set. rewrite Hh.
  replace (num_buckets h =? 0) with false by (symmetry; apply Z.eqb_neq; lia).
  destruct (chain_find (chain_at h k) k) as [e|]; [discriminate Hf|].
  rewrite Hinc. cbn [bind]. rewrite (incref_hashes sv s s1 Hinc).
  eexists. split; [reflexivity|].
  destruct (_ <? _); split; reflexivity.
Qed.

Lemma hash_set_new_key_witness :
  hashes one_entry_state !! 1%nat = Some one_entry_table /\
  hash_wf one_entry_table /\
  hash_map one_entry_table !! "j"%string = None /\
  exists s1 h',
    strada_incref (Some 7%nat) one_entry_state = Done s1 /\
    values s1 !! 7%nat = Some (mkValue 2 (PInt 5) None) /\
    strada_hash_set no_native 0 (Some 1%nat) (Some "j"%string) (Some 7%nat) one_entry_state
      = Done (with_hashes (<[1%nat := h']> (hashes one_entry_state)) s1) /\
    num_entries h' = 2.
Proof.
  destruct one_entry_table_wf as [Hwf Hmap].
  assert (Hh : hashes one_entry_state !! 1%nat = Some one_entry_table) by reflexivity.
  assert (Hnone : hash_map one_entry_table !! "j"%string = None)
    by (rewrite Hmap; reflexivity).
  assert (Hinc : strada_incref (Some 7%nat) one_entry_state
            = Done (set_refcount 7%nat 2 one_entry_state)) by reflexivity.
  destruct (hash_set_new_key_shares_value no_native 0 one_entry_state _ 1%nat one_entry_table
              "j" (Some 7%nat) Hh Hwf Hnone Hinc) as (h' & Hrun & Hcount & _).
  split; [exact Hh|]. split; [exact Hwf|]. split; [exact Hnone|].
  exists (set_refcount 7%nat 2 one_entry_state), h'.
  split; [exact Hinc|]. split; [reflexivity|]. split; [exact Hrun | exact Hcount].
Defined.



(** ** The table operations together *)








(** ** Arrays *)



Lemma incref_with_arrays (sv : ptr) (s s1 : State) (m : gmap addr StradaArray) :
  strada_incref sv s = Done s1 ->
  strada_incref sv (with_arrays m s) = Done (with_arrays m s1) /\ arrays s1 = arrays s.
Proof.
  unfold strada_incref. destruct sv as [b|].
  - cbn [values with_arrays]. destruct (values s !! b) as [v|] eqn:Hv; [|discriminate].
    intros [= <-]. unfold set_refcount. cbn [values with_arrays]. rewrite Hv.
    split; reflexivity.
  - intros [= <-]. split; reflexivity.
Qed.

Lemma grown_wf (arr : StradaArray) :
  array_wf arr ->
  Z.of_nat (length (elements arr)) < grown arr /\ 0 < grown arr.
Proof.
  unfold array_wf, grown. intros [Hpos Hle].
  destruct (Z.leb_spec (capacity arr) (Z.of_nat (length (elements arr)))); lia.
Qed.

(** X7.  [strada_array_push] on an array with room for at least one
    element cannot fail: it appends the pointer and takes one share of the
    value, doubling the capacity when the array is full
    ([strada_array_push_take] does the same and leaves the count alone).
    The value is then the last element ([strada_array_get] with index -1),
    and [strada_array_pop] hands back that very pointer, with the share that
    the array took, and leaves the elements as they were before the push. *)
Theorem array_push_then_pop (s s1 : State) (a : addr) (arr : StradaArray) (sv : ptr) :
  arrays s !! a = Some arr ->
  array_wf arr ->
  strada_incref sv s = Done s1 ->
  let pushed := mkArray (elements arr ++ [sv]) (grown arr) (a_refcount arr) in
  let s2 := with_arrays (<[a := pushed]> (arrays s)) s1 in
  strada_array_push (Some a) sv s = Done s2 /\
  strada_array_push_take (Some a) sv s = Done (with_arrays (<[a := pushed]> (arrays s)) s) /\
  array_wf pushed /\
  strada_array_length (Some a) s2 = Done (Z.of_nat (length (elements arr)) + 1) /\
  strada_array_get (Some a) (-1) s2 = Done (sv, s2) /\
  strada_array_pop (Some a) s2
    = Done (sv, with_arrays
                  (<[a := mkArray (elements arr) (grown arr) (a_refcount arr)]> (arrays s)) s1).
Proof.
  intros Harr Hwf Hinc pushed s2.
  destruct (grown_wf arr Hwf) as [Hroom Hpos].
  destruct (incref_with_arrays sv s s1 (<[a := pushed]> (arrays s)) Hinc) as [Hinc' _].
  assert (Hlook : arrays s2 !! a = Some pushed) by apply lookup_insert_eq.
  assert (Hlen : length (elements pushed) = S (length (elements arr)))
    by (cbn [elements pushed]; rewrite length_app; cbn [length]; lia).
  split.
  { unfold strada_array_push. rewrite Harr.
    replace (grown arr <=? Z.of_nat (length (elements arr))) with false
      by (symmetry; apply Z.leb_gt; exact Hroom).
    exact Hinc'. }
  split.
  { unfold strada_array_push_take. rewrite Harr.
    replace (grown arr <=? Z.of_nat (length (elements arr))) with false
      by (symmetry; apply Z.leb_gt; exact Hroom).
    reflexivity. }
  split.
  { unfold array_wf. rewrite Hlen. cbn [capacity pushed]. lia. }
  split.
  { unfold strada_array_length. rewrite Hlook, Hlen. f_equal. lia. }
  split.
  { unfold strada_array_get. rewrite Hlook, Hlen.
    change (-1 <? 0) with true. cbn match.
    replace (Z.of_nat (S (length (elements arr))) + -1)
      with (Z.of_nat (length (elements arr))) by lia.
    replace (Z.of_nat (length (elements arr)) <? 0) with false by (symmetry; apply Z.ltb_ge; lia).
    replace (Z.of_nat (S (length (elements arr))) <=? Z.of_nat (length (elements arr)))
      with false by (symmetry; apply Z.leb_gt; lia).
    cbn [orb]. rewrite Nat2Z.id. cbn [elements pushed].
    rewrite list_lookup_middle by reflexivity. reflexivity. }
  unfold strada_array_pop. rewrite Hlook, Hlen. cbn [elements pushed capacity a_refcount].
  rewrite list_lookup_middle by reflexivity. rewrite take_app_length.
  cbn [default]. unfold s2. cbn [arrays with_arrays]. rewrite insert_insert_eq. reflexivity.
Qed.

Lemma array_push_witness :
  exists s1 s2,
    arrays two_element_state !! 1%nat = Some (mkArray [Some 3%nat; Some 4%nat] 2 1) /\
    array_wf (mkArray [Some 3%nat; Some 4%nat] 2 1) /\
    strada_incref (Some 3%nat) two_element_state = Done s1 /\
    strada_array_push (Some 1%nat) (Some 3%nat) two_element_state = Done s2 /\
    arrays s2 !! 1%nat = Some (mkArray [Some 3%nat; Some 4%nat; Some 3%nat] 4 1) /\
    strada_array_get (Some 1%nat) (-1) s2 = Done (Some 3%nat, s2).
Proof.
  assert (Harr : arrays two_element_state !! 1%nat
            = Some (mkArray [Some 3%nat; Some 4%nat] 2 1)) by reflexivity.
  assert (Hwf : array_wf (mkArray [Some 3%nat; Some 4%nat] 2 1))
    by (unfold array_wf; cbn; lia).
  assert (Hinc : strada_incref (Some 3%nat) two_element_state
            = Done (set_refcount 3%nat 2 two_element_state)) by reflexivity.
  destruct (array_push_then_pop two_element_state _ 1%nat _ (Some 3%nat) Harr Hwf Hinc)
    as (Hpush & _ & _ & _ & Hget & _).
  eexists _, _. split; [exact Harr|]. split; [exact Hwf|]. split; [exact Hinc|].
  split; [exact Hpush|]. split; [reflexivity | exact Hget].
Defined.

Lemma array_get_in_bounds (s : State) (a : addr) (arr : StradaArray) (i : nat) (p : ptr) :
  arrays s !! a = Some arr ->
  elements arr !! i = Some p ->
  strada_array_get (Some a) (Z.of_nat i) s = Done (p, s).
Proof.
  intros Harr Hi. pose proof (lookup_lt_Some _ _ _ Hi) as Hlt.
  assert (Hneg : (Z.of_nat i <? 0) = false) by (apply Z.ltb_ge; lia).
  assert (Hin : (Z.of_nat (length (elements arr)) <=? Z.of_nat i) = false)
    by (apply Z.leb_gt; lia).
  unfold strada_array_get. rewrite Harr. cbv zeta.
  rewrite Hneg. cbv iota. rewrite Hneg, Hin. cbn [orb].
  rewrite Nat2Z.id, Hi. reflexivity.
Qed.

(** X8.  [strada_array_unshift] on an array with room for at least one
    element cannot fail: the pointer becomes element 0, every element moves
    up by one index, and the array takes one share of the value.
    [strada_array_shift] then hands back that very pointer and leaves the
    elements as they were before. *)
Theorem array_unshift_then_shift (s s1 : State) (a : addr) (arr : StradaArray) (sv : ptr) :
  arrays s !! a = Some arr ->
  array_wf arr ->
  strada_incref sv s = Done s1 ->
  let unshifted := mkArray (sv :: elements arr) (grown arr) (a_refcount arr) in
  let s2 := with_arrays (<[a := unshifted]> (arrays s)) s1 in
  strada_array_unshift (Some a) sv s = Done s2 /\
  array_wf unshifted /\
  strada_array_get (Some a) 0 s2 = Done (sv, s2) /\
  (forall i p, elements arr !! i = Some p ->
     strada_array_get (Some a) (Z.of_nat i + 1) s2 = Done (p, s2)) /\
  strada_array_shift (Some a) s2
    = Done (sv, with_arrays
                  (<[a := mkArray (elements arr) (grown arr) (a_refcount arr)]> (arrays s)) s1).
Proof.
  intros Harr Hwf Hinc unshifted s2.
  destruct (grown_wf arr Hwf) as [Hroom Hpos].
  destruct (incref_with_arrays sv s s1 (<[a := unshifted]> (arrays s)) Hinc) as [Hinc' _].
  assert (Hlook : arrays s2 !! a = Some unshifted) by apply lookup_insert_eq.
  split.
  { unfold strada_array_unshift. rewrite Harr.
    replace (grown arr <=? Z.of_nat (length (elements arr))) with false
      by (symmetry; apply Z.leb_gt; exact Hroom).
    exact Hinc'. }
  split.
  { unfold array_wf. cbn [capacity elements unshifted length]. lia. }
  split.
  { apply (array_get_in_bounds s2 a unshifted 0 sv Hlook). reflexivity. }
  split.
  { intros i p Hi. replace (Z.of_nat i + 1) with (Z.of_nat (S i)) by lia.
    apply (array_get_in_bounds s2 a unshifted (S i) p Hlook). exact Hi. }
  unfold strada_array_shift. rewrite Hlook. cbn [elements unshifted capacity a_refcount].
  unfold s2. cbn [arrays with_arrays]. rewrite insert_insert_eq. reflexivity.
Qed.

Lemma array_unshift_witness :
  exists s1 s2,
    arrays two_element_state !! 1%nat = Some (mkArray [Some 3%nat; Some 4%nat] 2 1) /\
    array_wf (mkArray [Some 3%nat; Some 4%nat] 2 1) /\
    strada_incref (Some 4%nat) two_element_state = Done s1 /\
    strada_array_unshift (Some 1%nat) (Some 4%nat) two_element_state = Done s2 /\
    arrays s2 !! 1%nat = Some (mkArray [Some 4%nat; Some 3%nat; Some 4%nat] 4 1) /\
    strada_array_get (Some 1%nat) 0 s2 = Done (Some 4%nat, s2).
Proof.
  assert (Harr : arrays two_element_state !! 1%nat
            = Some (mkArray [Some 3%nat; Some 4%nat] 2 1)) by reflexivity.
  assert (Hwf : array_wf (mkArray [Some 3%nat; Some 4%nat] 2 1))
    by (unfold array_wf; cbn; lia).
  assert (Hinc : strada_incref (Some 4%nat) two_element_state
            = Done (set_refcount 4%nat 2 two_element_state)) by reflexivity.
  destruct (array_unshift_then_shift two_element_state _ 1%nat _ (Some 4%nat) Harr Hwf Hinc)
    as (Hun & _ & Hget & _).
  eexists _, _. split; [exact Harr|]. split; [exact Hwf|]. split; [exact Hinc|].
  split; [exact Hun|]. split; [reflexivity | exact Hget].
Defined.

Lemma insert_at_length {A : Type} (l1 l2 : list A) (x y : A) :
  <[length l1 := x]> (l1 ++ y :: l2) = l1 ++ x :: l2.
Proof. induction l1 as [|z l1 IH]; [reflexivity|]. cbn. f_equal. exact IH. Qed.

Lemma last_case {A : Type} (l : list A) : l = [] \/ exists l' y, l = l' ++ [y].
Proof. destruct l using rev_ind; [left; reflexivity | right; eauto]. Qed.

Lemma reverse_loop_spec (fuel : nat) :
  forall (mid pre post : list ptr),
    (length mid <= 2 * fuel)%nat ->
    reverse_loop fuel (length pre) (length pre + length mid - 1) (pre ++ mid ++ post)
      = Done (pre ++ reverse mid ++ post).
Proof.
  induction fuel as [|fuel IH]; intros mid pre post Hlen.
  - destruct mid; [|cbn in Hlen; lia]. cbn [reverse_loop length].
    replace (length pre <? length pre + 0 - 1)%nat with false
      by (symmetry; apply Nat.ltb_ge; lia).
    reflexivity.
  - destruct mid as [|x mid].
    { cbn [reverse_loop length].
      replace (length pre <? length pre + 0 - 1)%nat with false
        by (symmetry; apply Nat.ltb_ge; lia).
      reflexivity. }
    destruct (last_case mid) as [->|(mid' & y & ->)].
    { cbn [reverse_loop length].
      replace (length pre <? length pre + 1 - 1)%nat with false
        by (symmetry; apply Nat.ltb_ge; lia).
      reflexivity. }
    cbn [reverse_loop].
    assert (Hright : (length pre + length (x :: mid' ++ [y]) - 1
                      = length (pre ++ x :: mid'))%nat)
      by (cbn [length]; rewrite !length_app; cbn [length]; lia).
    rewrite Hright.
    replace (length pre <? length (pre ++ x :: mid'))%nat with true
      by (symmetry; apply Nat.ltb_lt; rewrite length_app; cbn [length]; lia).
    assert (Hels : pre ++ (x :: mid' ++ [y]) ++ post = pre ++ x :: (mid' ++ y :: post))
      by (cbn [app]; rewrite <- !app_assoc; reflexivity).
    assert (Hels' : pre ++ x :: (mid' ++ y :: post) = (pre ++ x :: mid') ++ y :: post)
      by (rewrite <- !app_assoc; reflexivity).
    assert (H1 : (pre ++ (x :: mid' ++ [y]) ++ post) !! length pre = Some x)
      by (rewrite Hels; apply list_lookup_middle; reflexivity).
    assert (H2 : (pre ++ (x :: mid' ++ [y]) ++ post) !! length (pre ++ x :: mid') = Some y)
      by (rewrite Hels, Hels'; apply list_lookup_middle; reflexivity).
    assert (H3 : <[length (pre ++ x :: mid') := x]>
                   (<[length pre := y]> (pre ++ (x :: mid' ++ [y]) ++ post))
                 = (pre ++ [y]) ++ mid' ++ x :: post).
    { rewrite Hels, insert_at_length.
      replace (pre ++ y :: mid' ++ y :: post) with ((pre ++ y :: mid') ++ y :: post)
        by (rewrite <- !app_assoc; reflexivity).
      replace (length (pre ++ x :: mid')) with (length (pre ++ y :: mid'))
        by (rewrite !length_app; reflexivity).
      rewrite insert_at_length. rewrite <- !app_assoc. reflexivity. }
    rewrite H1, H2, H3.
    replace (S (length pre)) with (length (pre ++ [y]))
      by (rewrite length_app; cbn [length]; lia).
    replace (length (pre ++ x :: mid') - 1)%nat
      with (length (pre ++ [y]) + length mid' - 1)%nat
      by (rewrite !length_app; cbn [length]; lia).
    rewrite IH by (cbn [length] in Hlen; rewrite length_app in Hlen; cbn [length] in Hlen; lia).
    f_equal. rewrite reverse_cons, reverse_app, reverse_singleton.
    rewrite <- !app_assoc. reflexivity.
Qed.

Lemma with_arrays_id (s : State) : with_arrays (arrays s) s = s.
Proof. destruct s; reflexivity. Qed.

(** X9.  [strada_array_reverse] reverses the elements in place: given fuel
    for half the length, the loop of swaps ends, the array then holds the
    reversed list (nothing else in the state changes, no count moves), the
    element at index [i] is read at index [size - 1 - i], and a second call
    restores the state. *)
Theorem array_reverse_reverses (fuel : nat) (s : State) (a : addr) (arr : StradaArray) :
  arrays s !! a = Some arr ->
  (length (elements arr) <= 2 * fuel)%nat ->
  let s' := with_arrays
              (<[a := mkArray (reverse (elements arr)) (capacity arr) (a_refcount arr)]>
                 (arrays s)) s in
  strada_array_reverse fuel (Some a) s = Done s' /\
  (forall i p, elements arr !! i = Some p ->
     strada_array_get (Some a) (Z.of_nat (length (elements arr)) - 1 - Z.of_nat i) s'
       = Done (p, s')) /\
  strada_array_reverse fuel (Some a) s' = Done s.
Proof.
  intros Harr Hfuel s'.
  assert (Hrun : forall (t : State) (arr0 : StradaArray),
    arrays t !! a = Some arr0 -> (length (elements arr0) <= 2 * fuel)%nat ->
    strada_array_reverse fuel (Some a) t
      = Done (with_arrays
                (<[a := mkArray (reverse (elements arr0)) (capacity arr0) (a_refcount arr0)]>
                   (arrays t)) t)).
  { intros t arr0 Ht Hlen. unfold strada_array_reverse. rewrite Ht.
    destruct (Nat.ltb_spec (length (elements arr0)) 2) as [Hshort|Hlong].
    - assert (Hrev : reverse (elements arr0) = elements arr0).
      { destruct (elements arr0) as [|x [|y l]]; [reflexivity | reflexivity |].
        cbn [length] in Hshort. lia. }
      rewrite Hrev. destruct arr0 as [els cap rc]. cbn [elements capacity a_refcount].
      rewrite insert_id by exact Ht. rewrite with_arrays_id. reflexivity.
    - pose proof (reverse_loop_spec fuel (elements arr0) [] [] Hlen) as Hloop.
      cbn [length app Nat.add] in Hloop. rewrite !app_nil_r in Hloop.
      rewrite Hloop. reflexivity. }
  assert (Hlook : arrays s' !! a
            = Some (mkArray (reverse (elements arr)) (capacity arr) (a_refcount arr)))
    by apply lookup_insert_eq.
  split; [apply Hrun; assumption|]. split.
  - intros i p Hi. pose proof (lookup_lt_Some _ _ _ Hi) as Hlt.
    replace (Z.of_nat (length (elements arr)) - 1 - Z.of_nat i)
      with (Z.of_nat (length (elements arr) - S i)) by lia.
    apply (array_get_in_bounds s' a _ _ p Hlook). cbn [elements].
    rewrite reverse_lookup by lia.
    replace (length (elements arr) - S (length (elements arr) - S i))%nat with i by lia.
    exact Hi.
  - rewrite (Hrun s' _ Hlook) by (cbn [elements]; rewrite length_reverse; exact Hfuel).
    cbn [elements capacity a_refcount]. rewrite reverse_involutive.
    unfold s'. cbn [arrays with_arrays]. rewrite insert_insert_eq.
    destruct arr as [els cap rc]. cbn [elements capacity a_refcount].
    rewrite insert_id by exact Harr.
    f_equal. change (with_arrays (arrays s) s = s). apply with_arrays_id.
Qed.

Lemma array_reverse_witness :
  arrays two_element_state !! 1%nat = Some (mkArray [Some 3%nat; Some 4%nat] 2 1) /\
  (length [Some 3%nat; Some 4%nat] <= 2 * 1)%nat /\
  exists s',
    strada_array_reverse 1 (Some 1%nat) two_element_state = Done s' /\
    arrays s' !! 1%nat = Some (mkArray [Some 4%nat; Some 3%nat] 2 1) /\
    strada_array_reverse 1 (Some 1%nat) s' = Done two_element_state.
Proof.
  assert (Harr : arrays two_element_state !! 1%nat
            = Some (mkArray [Some 3%nat; Some 4%nat] 2 1)) by reflexivity.
  assert (Hfuel : (length (elements (mkArray [Some 3%nat; Some 4%nat] 2 1)) <= 2 * 1)%nat)
    by (cbn; lia).
  destruct (array_reverse_reverses 1 two_element_state 1%nat _ Harr Hfuel)
    as (Hrev & _ & Hback).
  split; [exact Harr|]. split; [exact Hfuel|].
  eexists. split; [exact Hrev|]. split; [reflexivity | exact Hback].
Defined.









(** ** The try stack *)

Lemma in_try_block_depth (s : State) :
  try_inv s -> strada_in_try_block s = (0 <? strada_try_depth s).
Proof.
  intros (Hd & _ & Hact). unfold strada_in_try_block.
  destruct (Z.ltb_spec 0 (strada_try_depth s)) as [Hpos|Hzero]; [|reflexivity].
  cbn [andb]. apply Hact. lia.
Qed.

Lemma with_try_id (s : State) : with_try (strada_try_stack s) (strada_try_depth s) s = s.
Proof. destruct s; reflexivity. Qed.

(** X11.  The try stack is a stack of at most 64 frames.  Below that depth
    [STRADA_TRY_PUSH] hands out the frame at the current depth, which makes
    [strada_in_try_block] true, and [STRADA_TRY_POP] then restores the
    state exactly.  At depth 64 [STRADA_TRY_PUSH] yields [NULL] and changes
    nothing, and at depth 0 [STRADA_TRY_POP] yields 0 and changes nothing.
    Both keep the invariant that exactly the frames below the depth are
    active. *)
Theorem try_push_then_pop (s : State) :
  try_inv s ->
  try_inv (snd (STRADA_TRY_PUSH s)) /\
  try_inv (snd (STRADA_TRY_POP s)) /\
  (strada_try_depth s < STRADA_MAX_TRY_DEPTH ->
     fst (STRADA_TRY_PUSH s) = Some (strada_try_depth s) /\
     strada_in_try_block (snd (STRADA_TRY_PUSH s)) = true /\
     STRADA_TRY_POP (snd (STRADA_TRY_PUSH s)) = (true, s)) /\
  (strada_try_depth s = STRADA_MAX_TRY_DEPTH -> STRADA_TRY_PUSH s = (None, s)) /\
  (strada_try_depth s = 0 ->
     STRADA_TRY_POP s = (false, s) /\ strada_in_try_block s = false).
Proof.
  intros Hinv. pose proof Hinv as (Hd & Hlen & Hact).
  split; [apply try_inv_push; exact Hinv|].
  split; [apply try_inv_pop; exact Hinv|].
  split; [|split].
  - intros Hroom.
    assert (Hpush : STRADA_TRY_PUSH s
              = (Some (strada_try_depth s),
                 with_try (<[Z.to_nat (strada_try_depth s) := true]> (strada_try_stack s))
                   (strada_try_depth s + 1) s)).
    { unfold STRADA_TRY_PUSH.
      replace (strada_try_depth s <? STRADA_MAX_TRY_DEPTH) with true
        by (symmetry; apply Z.ltb_lt; exact Hroom).
      reflexivity. }
    rewrite Hpush. cbn [fst snd]. split; [reflexivity|].
    split.
    { pose proof (try_inv_push s Hinv) as Hinv'. rewrite Hpush in Hinv'. cbn [snd] in Hinv'.
      rewrite (in_try_block_depth _ Hinv'). apply Z.ltb_lt.
      cbn [strada_try_depth with_try]. lia. }
    unfold STRADA_TRY_POP. cbn [strada_try_depth strada_try_stack with_try].
    replace (0 <? strada_try_depth s + 1) with true by (symmetry; apply Z.ltb_lt; lia).
    f_equal. replace (strada_try_depth s + 1 - 1) with (strada_try_depth s) by lia.
    rewrite list_insert_insert_eq.
    assert (Hslot : strada_try_stack s !! Z.to_nat (strada_try_depth s) = Some false).
    { unfold STRADA_MAX_TRY_DEPTH in Hroom.
      destruct (strada_try_stack s !! Z.to_nat (strada_try_depth s)) as [b|] eqn:Hb;
        [|apply lookup_ge_None in Hb; lia].
      destruct b; [|reflexivity].
      assert (Hfalse : frame_active s (strada_try_depth s) = true).
      { unfold frame_active. rewrite Hb. cbn [default].
        apply andb_true_iff. split; [apply Z.leb_le; lia | reflexivity]. }
      apply Hact in Hfalse. lia. }
    rewrite list_insert_id by exact Hslot.
    change (with_try (strada_try_stack s) (strada_try_depth s) s = s). apply with_try_id.
  - intros Hfull. unfold STRADA_TRY_PUSH. rewrite Hfull. reflexivity.
  - intros Hzero. split.
    + unfold STRADA_TRY_POP. rewrite Hzero. reflexivity.
    + rewrite (in_try_block_depth s Hinv), Hzero. reflexivity.
Qed.

Lemma try_push_witness :
  try_inv initial_state /\
  strada_try_depth initial_state < STRADA_MAX_TRY_DEPTH /\
  STRADA_TRY_POP (snd (STRADA_TRY_PUSH initial_state)) = (true, initial_state).
Proof.
  assert (Hroom : strada_try_depth initial_state < STRADA_MAX_TRY_DEPTH)
    by (unfold STRADA_MAX_TRY_DEPTH; cbn; lia).
  destruct (try_push_then_pop initial_state try_inv_initial) as (_ & _ & Hpush & _).
  destruct (Hpush Hroom) as (_ & _ & Hpop).
  split; [exact try_inv_initial|]. split; [exact Hroom | exact Hpop].
Defined.

(** X12.  [strada_throw] records the message as a C string (["Unknown
    error"] for [NULL]) and leaves the try stack as it is: with a frame on
    the stack control jumps to the innermost one, otherwise the process
    exits with status 1.  [strada_get_exception] then returns a new [Str]
    with one owner that holds the recorded message, and after
    [strada_clear_exception] it returns a new empty [Str]. *)
Theorem throw_then_get_exception (msg : option string) (s : State) :
  try_inv s ->
  let r := strada_throw msg s in
  let m := match msg with Some m => cstr m | None => "Unknown error"%string end in
  fst r = (if 0 <? strada_try_depth s then Longjmp (strada_try_depth s - 1)
           else ExitProcess 1) /\
  snd r = with_exception_msg (Some m) s /\
  try_inv (snd r) /\
  values (snd r) !! fst (strada_get_exception (snd r)) = None /\
  values (snd (strada_get_exception (snd r))) !! fst (strada_get_exception (snd r))
    = Some (mkValue 1 (PStr (Some m)) None) /\
  values (snd (strada_get_exception (strada_clear_exception (snd r))))
    !! fst (strada_get_exception (strada_clear_exception (snd r)))
    = Some (mkValue 1 (PStr (Some EmptyString)) None).
Proof.
  intros Hinv r m.
  assert (Hinv' : try_inv (with_exception_msg (Some m) s)) by exact Hinv.
  assert (Hr : r = (if 0 <? strada_try_depth s then Longjmp (strada_try_depth s - 1)
                    else ExitProcess 1, with_exception_msg (Some m) s)).
  { unfold r, strada_throw. fold m. rewrite (in_try_block_depth _ Hinv').
    cbn [strada_try_depth with_exception_msg].
    destruct (0 <? strada_try_depth s); reflexivity. }
  rewrite Hr. cbn [fst snd]. split; [reflexivity|]. split; [reflexivity|].
  split; [exact Hinv'|].
  destruct (get_exception_fresh_str (with_exception_msg (Some m) s) m eq_refl)
    as (Hfresh & Hstr & _).
  split; [exact Hfresh|]. split.
  - rewrite Hstr. replace (cstr m) with m; [reflexivity|].
    unfold m. destruct msg as [x|]; [symmetry; apply cstr_idem | reflexivity].
  - unfold strada_get_exception, strada_clear_exception.
    cbn [strada_exception_msg with_exception_msg].
    unfold strada_new_str, alloc_value. cbn [fst snd values with_values cstr].
    apply lookup_insert_eq.
Qed.

Lemma throw_witness :
  try_inv in_try_with_int /\
  fst (strada_throw (Some "boom"%string) in_try_with_int) = Longjmp 0 /\
  values (snd (strada_get_exception (snd (strada_throw (Some "boom"%string) in_try_with_int))))
    !! fst (strada_get_exception (snd (strada_throw (Some "boom"%string) in_try_with_int)))
    = Some (mkValue 1 (PStr (Some "boom"%string)) None).
Proof.
  assert (Hinv : try_inv in_try_with_int)
    by (unfold in_try_with_int; apply try_inv_push; exact try_inv_initial).
  destruct (throw_then_get_exception (Some "boom"%string) in_try_with_int Hinv)
    as (Hctl & _ & _ & _ & Hget & _).
  split; [exact Hinv|]. split; [exact Hctl | exact Hget].
Defined.

(** ** Method resolution *)

Lemma existsb_strcmp (p : string) (vis : list string) :
  existsb (fun x => strcmp_eq x p) vis = true <-> exists x, x ∈ vis /\ cstr x = cstr p.
Proof.
  rewrite existsb_exists. split.
  - intros (x & Hin & Heq). apply strcmp_true in Heq. exists x.
    split; [apply list_elem_of_In; exact Hin | exact Heq].
  - intros (x & Hin & Heq). exists x.
    split; [apply list_elem_of_In; exact Hin | apply strcmp_true; exact Heq].
Qed.

(** The registry sees of a name only the C string. *)
Lemma find_package_cstr (pkgs : list OopPackage) (p q : string) :
  cstr p = cstr q -> oop_find_package pkgs p = oop_find_package pkgs q.
Proof.
  intros H. induction pkgs as [|x l IH]; cbn [oop_find_package]; [reflexivity|].
  rewrite (strcmp_same_r _ p q H), IH. reflexivity.
Qed.

Lemma find_method_cstr (ms : list OopMethod) (m m' : string) :
  cstr m = cstr m' -> find_method ms m = find_method ms m'.
Proof.
  intros H. induction ms as [|x l IH]; cbn [find_method]; [reflexivity|].
  rewrite (strcmp_same_r _ m m' H), IH. reflexivity.
Qed.

Lemma lookup_parents_sound
    (rec : string -> list string -> result (option StradaMethod * list string))
    (P : string -> StradaMethod -> Prop) (ps : list string) :
  forall (vis : list string) (f : StradaMethod) (vis' : list string),
    (forall q v g v', rec q v = Done (Some g, v') -> P q g) ->
    lookup_parents rec ps vis = Done (Some f, vis') ->
    exists q, q ∈ ps /\ P q f.
Proof.
  induction ps as [|p ps IH]; intros vis f vis' Hrec; cbn [lookup_parents].
  - discriminate.
  - intros H. apply bind_done in H as ([r v] & Hr & H). cbn [fst snd] in H.
    destruct r as [g|].
    + injection H as <- <-. exists p. split; [apply list_elem_of_here|].
      apply (Hrec _ _ _ _ Hr).
    + destruct (IH _ _ _ Hrec H) as (q & Hq & HP).
      exists q. split; [apply list_elem_of_further; exact Hq | exact HP].
Qed.

Lemma lookup_in_sound (pkgs : list OopPackage) (m : string) (fuel : nat) :
  forall (p : string) (vis : list string) (f : StradaMethod) (vis' : list string),
    oop_lookup_method_in fuel pkgs p m vis = Done (Some f, vis') ->
    exists q, reaches pkgs p q /\ defines pkgs q m f.
Proof.
  induction fuel as [|fuel IH]; intros p vis f vis'; cbn [oop_lookup_method_in];
    [discriminate|].
  destruct (first_is_nul p) eqn:Hne; [discriminate|]. apply first_is_nul_false in Hne.
  destruct (existsb (fun x => strcmp_eq x p) vis); [discriminate|].
  destruct (oop_find_package pkgs p) as [pkg|] eqn:Hpkg; [|discriminate].
  destruct (find_method (methods pkg) m) as [g|] eqn:Hm.
  - intros [= <- <-]. exists p. split; [apply reaches_here; exact Hne|].
    exists pkg. split; assumption.
  - intros H.
    destruct (lookup_parents_sound _
                (fun q g => exists r, reaches pkgs q r /\ defines pkgs r m g)
                _ _ _ _ (fun q v g v' Hq => IH q v g v' Hq) H) as (q & Hq & r & Hreach & Hdef).
    exists r. split; [|exact Hdef].
    apply (reaches_parent pkgs p q r pkg Hne Hpkg Hq Hreach).
Qed.

Lemma elem_of_mark_visited (vis : list string) (p x : string) :
  x ∈ mark_visited vis p -> x ∈ vis \/ x = p.
Proof.
  unfold mark_visited. destruct (_ <? _); [|auto].
  intros H. apply elem_of_app in H as [H|H]; [auto|].
  apply list_elem_of_singleton in H. auto.
Qed.

Lemma no_method_above_unregistered (pkgs : list OopPackage) (m p : string) :
  oop_find_package pkgs p = None -> no_method_above pkgs m p.
Proof.
  intros Hnone q f Hreach (pkg & Hpkg & _).
  inversion Hreach; subst; congruence.
Qed.

Lemma no_method_above_empty (pkgs : list OopPackage) (m p : string) :
  cstr p = EmptyString -> no_method_above pkgs m p.
Proof. intros Hp q f Hreach _. inversion Hreach; subst; congruence. Qed.

Lemma no_method_above_parents (pkgs : list OopPackage) (m p : string) (pkg : OopPackage) :
  oop_find_package pkgs p = Some pkg ->
  find_method (methods pkg) m = None ->
  (forall q, q ∈ parents pkg -> no_method_above pkgs m q) ->
  no_method_above pkgs m p.
Proof.
  intros Hpkg Hm Hps q f Hreach Hdef.
  inversion Hreach as [p0 Hne|p0 q0 r0 pkg0 Hne Hpkg0 Hq0 Hrest]; subst.
  - destruct Hdef as (pkg' & Hpkg' & Hf). congruence.
  - rewrite Hpkg in Hpkg0. injection Hpkg0 as <-.
    apply (Hps q0 Hq0 q f Hrest Hdef).
Qed.

(** Two buffers that hold the same name reach the same packages. *)
Lemma reaches_cstr (pkgs : list OopPackage) (p p' r : string) :
  cstr p = cstr p' -> reaches pkgs p r ->
  exists r', reaches pkgs p' r' /\ cstr r' = cstr r.
Proof.
  intros Heq Hreach.
  inversion Hreach as [p0 Hne|p0 q0 r0 pkg0 Hne Hpkg0 Hq0 Hrest]; subst.
  - exists p'. split; [apply reaches_here; rewrite <- Heq; exact Hne | symmetry; exact Heq].
  - exists r. split; [|reflexivity].
    apply (reaches_parent pkgs p' q0 r pkg0); [rewrite <- Heq; exact Hne | | exact Hq0 | exact Hrest].
    rewrite <- (find_package_cstr pkgs p p' Heq). exact Hpkg0.
Qed.

Lemma defines_cstr (pkgs : list OopPackage) (q q' m : string) (f : StradaMethod) :
  cstr q = cstr q' -> defines pkgs q m f -> defines pkgs q' m f.
Proof.
  intros Heq (pkg & Hpkg & Hf). exists pkg. split; [|exact Hf].
  rewrite <- (find_package_cstr pkgs q q' Heq). exact Hpkg.
Qed.

Lemma no_method_above_cstr (pkgs : list OopPackage) (m p p' : string) :
  cstr p = cstr p' -> no_method_above pkgs m p -> no_method_above pkgs m p'.
Proof.
  intros Heq Hno q f Hreach Hdef.
  destruct (reaches_cstr pkgs p' p q (eq_sym Heq) Hreach) as (r' & Hr' & Hc).
  apply (Hno r' f Hr'). apply (defines_cstr pkgs q r' m f); [symmetry; exact Hc | exact Hdef].
Qed.

Section Acyclic.

Variable pkgs : list OopPackage.
Variable m : string.
Variable rank : string -> nat.
Hypothesis Hacyclic : acyclic pkgs rank.

(** A visited package is either done with, no method above it, or it is
    still being searched: then every buffer that holds its name ranks above
    the packages that remain to be searched. *)
Lemma lookup_parents_complete
    (rec : string -> list string -> result (option StradaMethod * list string))
    (ps : list string) :
  (forall q v, q ∈ ps ->
     (forall x, x ∈ v ->
        no_method_above pkgs m x \/ forall y, cstr y = cstr x -> (rank q < rank y)%nat) ->
     exists r v', rec q v = Done (r, v') /\
       (r = None -> no_method_above pkgs m q /\
          forall x, x ∈ v' -> x ∈ v \/ no_method_above pkgs m x)) ->
  forall vis,
    (forall x, x ∈ vis ->
       no_method_above pkgs m x \/
       forall q y, q ∈ ps -> cstr y = cstr x -> (rank q < rank y)%nat) ->
    exists r vis', lookup_parents rec ps vis = Done (r, vis') /\
      (r = None -> (forall q, q ∈ ps -> no_method_above pkgs m q) /\
         forall x, x ∈ vis' -> x ∈ vis \/ no_method_above pkgs m x).
Proof.
  induction ps as [|p ps IH]; intros Hrec vis Hvis; cbn [lookup_parents].
  - exists None, vis. split; [reflexivity|]. intros _. split; [|auto].
    intros q Hq. inversion Hq.
  - destruct (Hrec p vis (list_elem_of_here _ _)) as (r & v' & Hr & Hpost).
    { intros x Hx. destruct (Hvis x Hx) as [H|H]; [left; exact H|].
      right. intros y Hy. apply (H p y); [apply list_elem_of_here | exact Hy]. }
    rewrite Hr. cbn [bind fst snd]. destruct r as [f|].
    + exists (Some f), v'. split; [reflexivity | discriminate].
    + destruct (Hpost eq_refl) as [Hp Hv'].
      destruct (IH (fun q v Hq => Hrec q v (list_elem_of_further _ _ _ Hq)) v')
        as (r & vis' & Hrun & Hpost').
      { intros x Hx. destruct (Hv' x Hx) as [H|H]; [|left; exact H].
        destruct (Hvis x H) as [H'|H']; [left; exact H'|].
        right. intros q y Hq Hy. apply (H' q y); [apply list_elem_of_further; exact Hq | exact Hy]. }
      exists r, vis'. split; [exact Hrun|]. intros Hnone.
      destruct (Hpost' Hnone) as [Hps Hvis'']. split.
      * intros q Hq. apply elem_of_cons in Hq as [->|Hq]; [exact Hp | apply Hps; exact Hq].
      * intros x Hx. destruct (Hvis'' x Hx) as [H|H]; [apply Hv'; exact H | right; exact H].
Qed.

Lemma lookup_in_complete (fuel : nat) :
  forall (p : string) (vis : list string),
    (rank p < fuel)%nat ->
    (forall x, x ∈ vis ->
       no_method_above pkgs m x \/ forall y, cstr y = cstr x -> (rank p < rank y)%nat) ->
    exists r vis', oop_lookup_method_in fuel pkgs p m vis = Done (r, vis') /\
      (r = None -> no_method_above pkgs m p /\
         forall x, x ∈ vis' -> x ∈ vis \/ no_method_above pkgs m x).
Proof.
  induction fuel as [|fuel IH]; intros p vis Hfuel Hvis; [lia|].
  cbn [oop_lookup_method_in].
  destruct (first_is_nul p) eqn:Hne.
  { exists None, vis. split; [reflexivity|]. intros _.
    split; [apply no_method_above_empty, first_is_nul_spec; exact Hne | auto]. }
  destruct (existsb (fun x => strcmp_eq x p) vis) eqn:Hseen.
  { exists None, vis. split; [reflexivity|]. intros _. split; [|auto].
    apply existsb_strcmp in Hseen as (x & Hx & Heq).
    destruct (Hvis x Hx) as [H|H]; [apply (no_method_above_cstr pkgs m x p Heq H)|].
    specialize (H p (eq_sym Heq)). lia. }
  assert (Hmark : forall x, x ∈ mark_visited vis p -> x ∈ vis \/ x = p)
    by (intros x; apply elem_of_mark_visited).
  destruct (oop_find_package pkgs p) as [pkg|] eqn:Hpkg.
  2:{ exists None, (mark_visited vis p). split; [reflexivity|]. intros _.
      pose proof (no_method_above_unregistered pkgs m p Hpkg) as Hp.
      split; [exact Hp|]. intros x Hx.
      destruct (Hmark x Hx) as [H| ->]; [left; exact H | right; exact Hp]. }
  destruct (find_method (methods pkg) m) as [f|] eqn:Hm.
  { exists (Some f), (mark_visited vis p). split; [reflexivity | discriminate]. }
  destruct (lookup_parents_complete
              (fun q v => oop_lookup_method_in fuel pkgs q m v) (parents pkg))
    with (vis := mark_visited vis p) as (r & vis' & Hrun & Hpost).
  - intros q v Hq Hv. apply IH; [|exact Hv].
    pose proof (Hacyclic p pkg q Hpkg Hq). lia.
  - intros x Hx. destruct (Hmark x Hx) as [H| ->].
    + destruct (Hvis x H) as [H'|H']; [left; exact H'|].
      right. intros q y Hq Hy. pose proof (Hacyclic p pkg q Hpkg Hq).
      specialize (H' y Hy). lia.
    + right. intros q y Hq Hy. apply (Hacyclic y pkg q); [|exact Hq].
      rewrite (find_package_cstr pkgs y p Hy). exact Hpkg.
  - exists r, vis'. split; [exact Hrun|]. intros Hnone.
    destruct (Hpost Hnone) as [Hps Hvis'].
    pose proof (no_method_above_parents pkgs m p pkg Hpkg Hm Hps) as Hp.
    split; [exact Hp|]. intros x Hx.
    destruct (Hvis' x Hx) as [H|H]; [|right; exact H].
    destruct (Hmark x H) as [H'| ->]; [left; exact H' | right; exact Hp].
Qed.

End Acyclic.

(** X13.  A method that [oop_lookup_method] finds is never made up: it is
    the method of that name in the package itself or in a package reached
    from it along registered parents, whatever the registry and the fuel. *)
Theorem lookup_finds_inherited_methods_only (fuel : nat) (s : State) (p m : string)
    (f : StradaMethod) :
  oop_lookup_method fuel s (Some p) (Some m) = Done (Some f) ->
  oop_initialized s = true /\
  exists q, reaches (oop_packages s) p q /\ defines (oop_packages s) q m f.
Proof.
  unfold oop_lookup_method. destruct (oop_initialized s); [|discriminate].
  intros H. apply bind_done in H as ([r vis'] & Hr & H). cbn [fst] in H.
  injection H as ->. split; [reflexivity|].
  apply (lookup_in_sound _ _ _ _ _ _ _ Hr).
Qed.

Lemma lookup_sound_witness :
  oop_lookup_method 3 (object_state diamond "D") (Some "D"%string) (Some "hello"%string)
    = Done (Some 20%nat) /\
  exists q, reaches diamond "D" q /\ defines diamond q "hello" 20%nat.
Proof.
  assert (Hrun : oop_lookup_method 3 (object_state diamond "D") (Some "D"%string)
                   (Some "hello"%string) = Done (Some 20%nat)) by (vm_compute; reflexivity).
  destruct (lookup_finds_inherited_methods_only 3 _ _ _ _ Hrun) as (_ & Hq).
  split; [exact Hrun | exact Hq].
Defined.

(** X14.  When the inheritance relation has no cycle, [oop_lookup_method]
    ends (fuel above the rank of the package is enough, however many
    packages there are) and it is complete: it answers [NULL] only if no
    package reached from the start has a method of that name, so a method
    that is inherited along any path, through diamonds too, is found. *)
Theorem lookup_complete_without_cycles (fuel : nat) (s : State) (rank : string -> nat)
    (p m : string) :
  oop_initialized s = true ->
  acyclic (oop_packages s) rank ->
  (rank p < fuel)%nat ->
  exists r,
    oop_lookup_method fuel s (Some p) (Some m) = Done r /\
    match r with
    | Some f => exists q, reaches (oop_packages s) p q /\ defines (oop_packages s) q m f
    | None => no_method_above (oop_packages s) m p
    end.
Proof.
  intros Hinit Hacyc Hfuel.
  destruct (lookup_in_complete (oop_packages s) m rank Hacyc fuel p [] Hfuel)
    as (r & vis' & Hrun & Hpost).
  { intros x Hx. inversion Hx. }
  exists r. unfold oop_lookup_method. rewrite Hinit, Hrun. cbn [bind fst].
  split; [reflexivity|]. destruct r as [f|].
  - apply (lookup_in_sound _ _ _ _ _ _ _ Hrun).
  - apply (Hpost eq_refl).
Qed.


Lemma diamond_acyclic : acyclic diamond diamond_rank.
Proof.
  intros p pkg q Hpkg Hq. unfold diamond in Hpkg. cbn [oop_find_package name] in Hpkg.
  assert (Hrank : forall n, cstr n = cstr p ->
            diamond_rank p = diamond_rank n).
  { intros n Hn. unfold diamond_rank, strcmp_eq. rewrite Hn. reflexivity. }
  destruct (strcmp_spec "A" p) as [Ha|_].
  { injection Hpkg as <-. inversion Hq. }
  destruct (strcmp_spec "B" p) as [Hb|_].
  { injection Hpkg as <-. cbn [parents] in Hq.
    apply list_elem_of_singleton in Hq as ->. rewrite (Hrank "B"%string Hb).
    vm_compute. lia. }
  destruct (strcmp_spec "C" p) as [Hc|_].
  { injection Hpkg as <-. cbn [parents] in Hq.
    apply list_elem_of_singleton in Hq as ->. rewrite (Hrank "C"%string Hc).
    vm_compute. lia. }
  destruct (strcmp_spec "D" p) as [Hd|_]; [|discriminate Hpkg].
  injection Hpkg as <-. cbn [parents] in Hq. rewrite (Hrank "D"%string Hd).
  apply elem_of_cons in Hq as [->|Hq]; [vm_compute; lia|].
  apply list_elem_of_singleton in Hq as ->. vm_compute. lia.
Qed.

Lemma lookup_complete_witness :
  oop_initialized (object_state diamond "D") = true /\
  acyclic (oop_packages (object_state diamond "D")) diamond_rank /\
  (diamond_rank "D" < 3)%nat /\
  exists r,
    oop_lookup_method 3 (object_state diamond "D") (Some "D"%string) (Some "bye"%string)
      = Done r /\
    match r with
    | Some f => exists q, reaches diamond "D" q /\ defines diamond q "bye" f
    | None => no_method_above diamond "bye" "D"
    end.
Proof.
  assert (Hinit : oop_initialized (object_state diamond "D") = true) by reflexivity.
  assert (Hrank : (diamond_rank "D" < 3)%nat) by (vm_compute; lia).
  split; [exact Hinit|]. split; [exact diamond_acyclic|]. split; [exact Hrank|].
  apply (lookup_complete_without_cycles 3 (object_state diamond "D") diamond_rank "D" "bye"
           Hinit diamond_acyclic Hrank).
Defined.

Lemma lookup_package_parents_agree (pkgs : list OopPackage) (m : string)
    (rec : string -> list string -> result (option StradaMethod * list string))
    (recp : string -> list string -> result (option string * list string))
    (ps : list string) :
  (forall q v, rec q v = method_of_package pkgs m (recp q v)) ->
  (forall q v x v', recp q v = Done (Some x, v') -> is_Some (method_in pkgs m x)) ->
  forall vis,
    lookup_parents rec ps vis = method_of_package pkgs m (lookup_package_parents recp ps vis) /\
    forall x v', lookup_package_parents recp ps vis = Done (Some x, v') ->
      is_Some (method_in pkgs m x).
Proof.
  intros Hrec Hsome. induction ps as [|p ps IH]; intros vis;
    cbn [lookup_parents lookup_package_parents].
  - split; [reflexivity | discriminate].
  - rewrite Hrec. destruct (recp p vis) as [[[x|] v]| | | |] eqn:Hp;
      cbn [method_of_package bind fst snd].
    + destruct (Hsome p vis x v Hp) as [f Hf]. rewrite Hf. cbn [fst snd method_of_package].
      split; [reflexivity|]. intros y v' [= <- <-]. eauto.
    + apply IH.
    + split; [reflexivity | discriminate].
    + split; [reflexivity | discriminate].
    + split; [reflexivity | discriminate].
    + split; [reflexivity | discriminate].
Qed.

Lemma lookup_package_in_agrees (pkgs : list OopPackage) (m : string) (fuel : nat) :
  forall (p : string) (vis : list string),
    oop_lookup_method_in fuel pkgs p m vis
      = method_of_package pkgs m (oop_method_lookup_package_in fuel pkgs p m vis) /\
    forall x v', oop_method_lookup_package_in fuel pkgs p m vis = Done (Some x, v') ->
      is_Some (method_in pkgs m x).
Proof.
  induction fuel as [|fuel IH]; intros p vis;
    cbn [oop_lookup_method_in oop_method_lookup_package_in].
  - split; [reflexivity | discriminate].
  - destruct (first_is_nul p); [split; [reflexivity | discriminate]|].
    destruct (existsb (fun x => strcmp_eq x p) vis); [split; [reflexivity | discriminate]|].
    destruct (oop_find_package pkgs p) as [pkg|] eqn:Hpkg;
      [|split; [reflexivity | discriminate]].
    destruct (find_method (methods pkg) m) as [f|] eqn:Hm.
    + cbn [method_of_package]. unfold method_in. rewrite Hpkg, Hm.
      split; [reflexivity|]. intros x v' [= <- <-]. rewrite Hpkg, Hm. eauto.
    + apply lookup_package_parents_agree.
      * intros q v. apply IH.
      * intros q v. apply IH.
Qed.

(** X15.  [strada_method_lookup_package] and [oop_lookup_method] resolve a
    method in the same way: where one finds nothing, runs on or fails, so
    does the other, and the package that the first names is registered and
    has a method of that name, which is the function the second returns. *)
Theorem lookup_package_names_the_method_found (fuel : nat) (s : State) (p m : string) :
  match strada_method_lookup_package fuel s (Some p) (Some m) with
  | Done (Some q) =>
      exists f, defines (oop_packages s) q m f /\
        oop_lookup_method fuel s (Some p) (Some m) = Done (Some f)
  | Done None => oop_lookup_method fuel s (Some p) (Some m) = Done None
  | OutOfFuel => oop_lookup_method fuel s (Some p) (Some m) = OutOfFuel
  | Fault => oop_lookup_method fuel s (Some p) (Some m) = Fault
  | Exit c => oop_lookup_method fuel s (Some p) (Some m) = Exit c
  | Jump i s' => oop_lookup_method fuel s (Some p) (Some m) = Jump i s'
  end.
Proof.
  unfold strada_method_lookup_package, oop_lookup_method.
  destruct (oop_initialized s); [|reflexivity].
  destruct (lookup_package_in_agrees (oop_packages s) m fuel p []) as [Heq Hsome].
  rewrite Heq.
  destruct (oop_method_lookup_package_in fuel (oop_packages s) p m [])
    as [[[q|] v]| | | |] eqn:Hq; cbn [bind fst method_of_package]; try reflexivity.
  destruct (Hsome q v eq_refl) as [f Hf]. exists f. rewrite Hf. split; [|reflexivity].
  unfold method_in in Hf. unfold defines.
  destruct (oop_find_package (oop_packages s) q) as [pkg|]; [|discriminate Hf]. eauto.
Qed.

(** ** Lookup within 64 names: a depth-first search *)

Lemma find_package_elem (pkgs : list OopPackage) (p : string) (pkg : OopPackage) :
  oop_find_package pkgs p = Some pkg -> pkg ∈ pkgs.
Proof.
  induction pkgs as [|x l IH]; cbn [oop_find_package]; [discriminate|].
  destruct (strcmp_eq (name x) p).
  - intros [= ->]. apply list_elem_of_here.
  - intros H. apply list_elem_of_further, IH, H.
Qed.

Lemma parents_in_names (pkgs : list OopPackage) (p0 p q : string) :
  q ∈ parents_in pkgs p -> cstr q ∈ names_in pkgs p0.
Proof.
  unfold parents_in, names_in.
  destruct (oop_find_package pkgs p) as [pkg|] eqn:Hpkg; [|intros H; inversion H].
  intros Hq. apply elem_of_union_r, elem_of_list_to_set, list_elem_of_fmap_2.
  apply list_elem_of_In, in_concat. exists (parents pkg).
  split; [|apply list_elem_of_In; exact Hq].
  apply list_elem_of_In, list_elem_of_fmap_2, (find_package_elem pkgs p pkg Hpkg).
Qed.

Lemma parents_in_cstr (pkgs : list OopPackage) (p p' : string) :
  cstr p = cstr p' -> parents_in pkgs p = parents_in pkgs p'.
Proof. intros H. unfold parents_in. rewrite (find_package_cstr pkgs p p' H). reflexivity. Qed.

Lemma method_in_cstr (pkgs : list OopPackage) (m p p' : string) :
  cstr p = cstr p' -> method_in pkgs m p = method_in pkgs m p'.
Proof. intros H. unfold method_in. rewrite (find_package_cstr pkgs p p' H). reflexivity. Qed.

Lemma visited_has_app (V new : list string) (p : string) :
  visited_has V p -> visited_has (V ++ new) p.
Proof. intros (x & Hx & Heq). exists x. split; [apply elem_of_app; left; exact Hx | exact Heq]. Qed.

Lemma visited_has_last (V : list string) (p : string) : visited_has (V ++ [p]) p.
Proof.
  exists p. split; [|reflexivity]. apply elem_of_app. right. apply list_elem_of_here.
Qed.

(** An unseen name of [U] finds room in the visited array. *)
Lemma visits_room (U : gset string) (V : list string) (p : string) :
  visits_ok U V -> ~ visited_has V p -> cstr p ∈ U ->
  (length V < size U)%nat /\ visits_ok U (V ++ [p]).
Proof.
  intros [Hnd HU] Hnew Hp.
  assert (Hfresh : cstr p ∉ cstr <$> V).
  { intros H. apply list_elem_of_fmap in H as (x & Heq & Hx). apply Hnew.
    exists x. split; [exact Hx | symmetry; exact Heq]. }
  split.
  - assert (Hsub : {[ cstr p ]} ∪ list_to_set (cstr <$> V) ⊆ U).
    { intros y Hy. apply elem_of_union in Hy as [Hy|Hy].
      - apply elem_of_singleton in Hy as ->. exact Hp.
      - apply elem_of_list_to_set, list_elem_of_fmap in Hy as (x & -> & Hx).
        apply HU, Hx. }
    apply subseteq_size in Hsub. rewrite size_union in Hsub.
    + rewrite size_singleton, size_list_to_set, length_fmap in Hsub by exact Hnd. lia.
    + intros y Hy1 Hy2. apply elem_of_singleton in Hy1 as ->.
      apply elem_of_list_to_set in Hy2. exact (Hfresh Hy2).
  - split.
    + rewrite fmap_app. apply NoDup_app. split; [exact Hnd|]. split.
      * intros y Hy Hy'. cbn in Hy'. apply list_elem_of_singleton in Hy' as ->.
        exact (Hfresh Hy).
      * cbn. apply NoDup_singleton.
    + intros x Hx. apply elem_of_app in Hx as [Hx|Hx]; [apply HU, Hx|].
      apply list_elem_of_singleton in Hx as ->. exact Hp.
Qed.

Lemma mark_visited_room (V : list string) (p : string) :
  (length V < 64)%nat -> mark_visited V p = V ++ [p].
Proof.
  intros H. unfold mark_visited.
  replace (Z.of_nat (length V) <? 64) with true by (symmetry; apply Z.ltb_lt; lia).
  reflexivity.
Qed.

Section DepthFirstSearch.

Variable pkgs : list OopPackage.
Variable m : string.
Variable U : gset string.
Hypothesis Hparents : forall p q, cstr p ∈ U -> q ∈ parents_in pkgs p -> cstr q ∈ U.
Hypothesis Hroom : (size U <= 64)%nat.

Section Step.

Variable fuel : nat.
Hypothesis IH : forall p V,
  visits_ok U V -> cstr p ∈ U -> (size U - length V < fuel)%nat ->
  exists r V',
    oop_lookup_method_in fuel pkgs p m V = Done (snd <$> r, V') /\
    oop_method_lookup_package_in fuel pkgs p m V = Done (fst <$> r, V') /\
    depth_first pkgs m V p r V' /\
    visits_ok U V' /\ (exists new, V' = V ++ new) /\
    match r with
    | Some (q, f) =>
        reaches pkgs p q /\ defines pkgs q m f /\
        exists before, V' = before ++ [q] /\
          (none_defines pkgs m V -> none_defines pkgs m before)
    | None =>
        (none_defines pkgs m V -> none_defines pkgs m V') /\
        (forall stack, searched pkgs stack V -> searched pkgs stack V') /\
        (cstr p = EmptyString \/ visited_has V' p)
    end.

Lemma parents_search (ps : list string) : forall V,
  visits_ok U V -> (forall q, q ∈ ps -> cstr q ∈ U) -> (size U - length V < fuel)%nat ->
  exists r V',
    lookup_parents (fun q v => oop_lookup_method_in fuel pkgs q m v) ps V
      = Done (snd <$> r, V') /\
    lookup_package_parents (fun q v => oop_method_lookup_package_in fuel pkgs q m v) ps V
      = Done (fst <$> r, V') /\
    depth_first_parents pkgs m V ps r V' /\
    visits_ok U V' /\ (exists new, V' = V ++ new) /\
    match r with
    | Some (q, f) =>
        (exists q0, q0 ∈ ps /\ reaches pkgs q0 q) /\ defines pkgs q m f /\
        exists before, V' = before ++ [q] /\
          (none_defines pkgs m V -> none_defines pkgs m before)
    | None =>
        (none_defines pkgs m V -> none_defines pkgs m V') /\
        (forall stack, searched pkgs stack V -> searched pkgs stack V') /\
        (forall q, q ∈ ps -> cstr q = EmptyString \/ visited_has V' q)
    end.
Proof.
  induction ps as [|p ps IHps]; intros V Hok Hps Hfuel;
    cbn [lookup_parents lookup_package_parents].
  - exists None, V. split; [reflexivity|]. split; [reflexivity|].
    split; [constructor|]. split; [exact Hok|].
    split; [exists []; symmetry; apply app_nil_r|].
    split; [auto|]. split; [auto|]. intros q Hq. inversion Hq.
  - destruct (IH p V Hok (Hps p (list_elem_of_here _ _)) Hfuel)
      as (r1 & V1 & Hrun & Hrunp & Hdf & Hok1 & [new1 Hnew1] & Hpost).
    rewrite Hrun, Hrunp. cbn [bind fst snd]. destruct r1 as [[q f]|].
    + exists (Some (q, f)), V1. cbn [fmap option_fmap option_map fst snd].
      split; [reflexivity|]. split; [reflexivity|].
      split; [apply depth_first_parents_found; exact Hdf|]. split; [exact Hok1|].
      split; [exists new1; exact Hnew1|].
      destruct Hpost as (Hreach & Hdef & Hbefore).
      split; [exists p; split; [apply list_elem_of_here | exact Hreach]|].
      split; [exact Hdef | exact Hbefore].
    + cbn [fmap option_fmap option_map].
      destruct Hpost as (Hnone1 & Hsearched1 & Hp).
      destruct (IHps V1 Hok1) as (r & V' & Hrun' & Hrunp' & Hdf' & Hok' & [new Hnew] & Hpost').
      { intros q Hq. apply Hps, list_elem_of_further, Hq. }
      { rewrite Hnew1, length_app. lia. }
      exists r, V'. split; [exact Hrun'|]. split; [exact Hrunp'|].
      split; [apply (depth_first_parents_next pkgs m V p ps r V1 V' Hdf Hdf')|].
      split; [exact Hok'|].
      split; [exists (new1 ++ new); rewrite Hnew, Hnew1, app_assoc; reflexivity|].
      destruct r as [[q f]|].
      * destruct Hpost' as ((q0 & Hq0 & Hreach) & Hdef & before & Hbef & Hnd).
        split; [exists q0; split; [apply list_elem_of_further; exact Hq0 | exact Hreach]|].
        split; [exact Hdef|]. exists before. split; [exact Hbef | auto].
      * destruct Hpost' as (Hnone' & Hsearched' & Hrest).
        split; [auto|]. split; [auto|].
        intros q Hq. apply elem_of_cons in Hq as [->|Hq]; [|apply Hrest, Hq].
        destruct Hp as [Hp|Hp]; [left; exact Hp|].
        right. rewrite Hnew. apply visited_has_app, Hp.
Qed.

End Step.

Lemma lookup_in_depth_first (fuel : nat) : forall p V,
  visits_ok U V -> cstr p ∈ U -> (size U - length V < fuel)%nat ->
  exists r V',
    oop_lookup_method_in fuel pkgs p m V = Done (snd <$> r, V') /\
    oop_method_lookup_package_in fuel pkgs p m V = Done (fst <$> r, V') /\
    depth_first pkgs m V p r V' /\
    visits_ok U V' /\ (exists new, V' = V ++ new) /\
    match r with
    | Some (q, f) =>
        reaches pkgs p q /\ defines pkgs q m f /\
        exists before, V' = before ++ [q] /\
          (none_defines pkgs m V -> none_defines pkgs m before)
    | None =>
        (none_defines pkgs m V -> none_defines pkgs m V') /\
        (forall stack, searched pkgs stack V -> searched pkgs stack V') /\
        (cstr p = EmptyString \/ visited_has V' p)
    end.
Proof.
  induction fuel as [|fuel IHfuel]; intros p V Hok Hp Hfuel; [lia|].
  cbn [oop_lookup_method_in oop_method_lookup_package_in].
  destruct (first_is_nul p) eqn:Hnul.
  { apply first_is_nul_spec in Hnul. exists None, V.
    split; [reflexivity|]. split; [reflexivity|].
    split; [apply depth_first_no_name; exact Hnul|]. split; [exact Hok|].
    split; [exists []; symmetry; apply app_nil_r|]. auto. }
  apply first_is_nul_false in Hnul.
  destruct (existsb (fun x => strcmp_eq x p) V) eqn:Hseen.
  { apply existsb_strcmp in Hseen. exists None, V.
    split; [reflexivity|]. split; [reflexivity|].
    split; [apply depth_first_seen; assumption|]. split; [exact Hok|].
    split; [exists []; symmetry; apply app_nil_r|]. auto. }
  assert (Hnew : ~ visited_has V p).
  { intros H. apply existsb_strcmp in H. congruence. }
  destruct (visits_room U V p Hok Hnew Hp) as [Hlen Hok1].
  rewrite mark_visited_room by lia.
  assert (Hkeep : forall x, x ∈ V ++ [p] -> x ∈ V \/ x = p).
  { intros x Hx. apply elem_of_app in Hx as [Hx|Hx]; [auto|].
    apply list_elem_of_singleton in Hx. auto. }
  destruct (oop_find_package pkgs p) as [pkg|] eqn:Hpkg.
  2:{ assert (Hm : method_in pkgs m p = None) by (unfold method_in; rewrite Hpkg; reflexivity).
      assert (Hps : parents_in pkgs p = []) by (unfold parents_in; rewrite Hpkg; reflexivity).
      exists None, (V ++ [p]). split; [reflexivity|]. split; [reflexivity|].
      split.
      { apply depth_first_inherited; [assumption..|]. rewrite Hps. constructor. }
      split; [exact Hok1|]. split; [exists [p]; reflexivity|].
      split; [|split; [|right; apply visited_has_last]].
      - intros Hnd x Hx. destruct (Hkeep x Hx) as [H| ->]; [apply Hnd, H | exact Hm].
      - intros stack Hs x q Hx Hst Hq. destruct (Hkeep x Hx) as [H| ->].
        + destruct (Hs x q H Hst Hq) as [Hq'|Hq']; [left; exact Hq'|].
          right. apply visited_has_app, Hq'.
        + rewrite Hps in Hq. inversion Hq. }
  assert (Hps : parents_in pkgs p = parents pkg)
    by (unfold parents_in; rewrite Hpkg; reflexivity).
  destruct (find_method (methods pkg) m) as [f|] eqn:Hmeth.
  { assert (Hm : method_in pkgs m p = Some f) by (unfold method_in; rewrite Hpkg; exact Hmeth).
    exists (Some (p, f)), (V ++ [p]). split; [reflexivity|]. split; [reflexivity|].
    split; [apply depth_first_own; assumption|]. split; [exact Hok1|].
    split; [exists [p]; reflexivity|].
    split; [apply reaches_here; exact Hnul|].
    split; [exists pkg; split; assumption|].
    exists V. split; [reflexivity | auto]. }
  assert (Hm : method_in pkgs m p = None) by (unfold method_in; rewrite Hpkg; exact Hmeth).
  destruct (parents_search fuel IHfuel (parents pkg) (V ++ [p]) Hok1)
    as (r & V' & Hrun & Hrunp & Hdf & Hok' & [new Hnew'] & Hpost).
  { intros q Hq. apply (Hparents p q Hp). rewrite Hps. exact Hq. }
  { rewrite length_app. cbn [length]. lia. }
  assert (Hnd1 : none_defines pkgs m V -> none_defines pkgs m (V ++ [p])).
  { intros Hnd x Hx. destruct (Hkeep x Hx) as [H| ->]; [apply Hnd, H | exact Hm]. }
  exists r, V'. split; [exact Hrun|]. split; [exact Hrunp|].
  split; [apply depth_first_inherited; [assumption..|]; rewrite Hps; exact Hdf|].
  split; [exact Hok'|].
  split; [exists ([p] ++ new); rewrite Hnew', app_assoc; reflexivity|].
  destruct r as [[q f]|].
  - destruct Hpost as ((q0 & Hq0 & Hreach) & Hdef & before & Hbef & Hnd).
    split; [apply (reaches_parent pkgs p q0 q pkg Hnul Hpkg Hq0 Hreach)|].
    split; [exact Hdef|]. exists before. split; [exact Hbef | auto].
  - destruct Hpost as (Hnone & Hsearched & Hall).
    split; [auto|]. split.
    + intros stack Hs.
      assert (Hs1 : searched pkgs (p :: stack) (V ++ [p])).
      { intros x q Hx Hst Hq. destruct (Hkeep x Hx) as [H| ->].
        - destruct (Hs x q H) as [Hq'|Hq']; [|exact Hq|left; exact Hq'|].
          + intros (y & Hy & Heq). apply Hst. exists y.
            split; [apply list_elem_of_further; exact Hy | exact Heq].
          + right. apply visited_has_app, Hq'.
        - exfalso. apply Hst. exists p. split; [apply list_elem_of_here | reflexivity]. }
      pose proof (Hsearched (p :: stack) Hs1) as Hs'.
      intros x q Hx Hst Hq.
      destruct (decide (cstr x = cstr p)) as [Heq|Hne].
      * apply Hall. rewrite <- Hps, <- (parents_in_cstr pkgs x p Heq). exact Hq.
      * apply (Hs' x q Hx); [|exact Hq].
        intros (y & Hy & Hyx). apply elem_of_cons in Hy as [->|Hy]; [congruence|].
        apply Hst. exists y. split; assumption.
    + right. rewrite Hnew'. apply visited_has_app, visited_has_last.
Qed.

End DepthFirstSearch.

(** More fuel does not change an answer. *)
Lemma lookup_parents_more_fuel
    (rec rec' : string -> list string -> result (option StradaMethod * list string))
    (ps : list string) :
  (forall q v r, rec q v = Done r -> rec' q v = Done r) ->
  forall V r, lookup_parents rec ps V = Done r -> lookup_parents rec' ps V = Done r.
Proof.
  intros Hrec. induction ps as [|p ps IH]; intros V r; cbn [lookup_parents]; [auto|].
  intros H. apply bind_done in H as (r1 & H1 & H). rewrite (Hrec _ _ _ H1). cbn [bind].
  destruct (fst r1); [exact H | apply IH, H].
Qed.

Lemma lookup_in_more_fuel (pkgs : list OopPackage) (m : string) (fuel : nat) :
  forall p V r,
    oop_lookup_method_in fuel pkgs p m V = Done r ->
    oop_lookup_method_in (S fuel) pkgs p m V = Done r.
Proof.
  induction fuel as [|fuel IH]; intros p V r; [discriminate|].
  cbn [oop_lookup_method_in].
  destruct (first_is_nul p); [auto|].
  destruct (existsb (fun x => strcmp_eq x p) V); [auto|].
  destruct (oop_find_package pkgs p) as [pkg|]; [|auto].
  destruct (find_method (methods pkg) m); [auto|].
  apply lookup_parents_more_fuel. intros q v r'. apply IH.
Qed.

Lemma lookup_in_enough_fuel (pkgs : list OopPackage) (m : string) (fuel fuel' : nat)
    (p : string) (V : list string) (r : option StradaMethod * list string) :
  (fuel <= fuel')%nat ->
  oop_lookup_method_in fuel pkgs p m V = Done r ->
  oop_lookup_method_in fuel' pkgs p m V = Done r.
Proof.
  intros Hle H. induction Hle as [|n Hle IH]; [exact H|].
  apply lookup_in_more_fuel, IH.
Qed.

Lemma lookup_package_parents_more_fuel
    (rec rec' : string -> list string -> result (option string * list string))
    (ps : list string) :
  (forall q v r, rec q v = Done r -> rec' q v = Done r) ->
  forall V r, lookup_package_parents rec ps V = Done r ->
    lookup_package_parents rec' ps V = Done r.
Proof.
  intros Hrec. induction ps as [|p ps IH]; intros V r; cbn [lookup_package_parents]; [auto|].
  intros H. apply bind_done in H as (r1 & H1 & H). rewrite (Hrec _ _ _ H1). cbn [bind].
  destruct (fst r1); [exact H | apply IH, H].
Qed.

Lemma lookup_package_in_more_fuel (pkgs : list OopPackage) (m : string) (fuel : nat) :
  forall p V r,
    oop_method_lookup_package_in fuel pkgs p m V = Done r ->
    oop_method_lookup_package_in (S fuel) pkgs p m V = Done r.
Proof.
  induction fuel as [|fuel IH]; intros p V r; [discriminate|].
  cbn [oop_method_lookup_package_in].
  destruct (first_is_nul p); [auto|].
  destruct (existsb (fun x => strcmp_eq x p) V); [auto|].
  destruct (oop_find_package pkgs p) as [pkg|]; [|auto].
  destruct (find_method (methods pkg) m); [auto|].
  apply lookup_package_parents_more_fuel. intros q v r'. apply IH.
Qed.

Lemma lookup_package_in_enough_fuel (pkgs : list OopPackage) (m : string) (fuel fuel' : nat)
    (p : string) (V : list string) (r : option string * list string) :
  (fuel <= fuel')%nat ->
  oop_method_lookup_package_in fuel pkgs p m V = Done r ->
  oop_method_lookup_package_in fuel' pkgs p m V = Done r.
Proof.
  intros Hle H. induction Hle as [|n Hle IH]; [exact H|].
  apply lookup_package_in_more_fuel, IH.
Qed.

(** When the search has ended everywhere, the visited set is closed
    under the parents: it holds every package reached from one it holds. *)
Lemma searched_reaches (pkgs : list OopPackage) (V : list string) (p q : string) :
  searched pkgs [] V -> reaches pkgs p q -> visited_has V p -> visited_has V q.
Proof.
  intros Hs Hreach. induction Hreach as [p Hne|p q0 r pkg Hne Hpkg Hq0 Hrest IH]; [auto|].
  intros (x & Hx & Heq). apply IH.
  destruct (Hs x q0 Hx) as [Hempty|Hseen]; [| |inversion Hrest; congruence|exact Hseen].
  - intros (y & Hy & _). inversion Hy.
  - rewrite (parents_in_cstr pkgs x p Heq). unfold parents_in. rewrite Hpkg. exact Hq0.
Qed.

Lemma none_defines_above (pkgs : list OopPackage) (m : string) (V : list string) (p : string) :
  none_defines pkgs m V -> searched pkgs [] V ->
  cstr p = EmptyString \/ visited_has V p ->
  no_method_above pkgs m p.
Proof.
  intros Hnd Hs [Hempty|Hseen]; [apply no_method_above_empty; exact Hempty|].
  intros q f Hreach (pkg & Hpkg & Hf).
  destruct (searched_reaches pkgs V p q Hs Hreach Hseen) as (x & Hx & Heq).
  pose proof (Hnd x Hx) as Hnone. rewrite (method_in_cstr pkgs m x q Heq) in Hnone.
  unfold method_in in Hnone. rewrite Hpkg in Hnone. congruence.
Qed.

Lemma names_in_hierarchy (pkgs : list OopPackage) (p : string) :
  holds_hierarchy pkgs p (names_in pkgs p).
Proof.
  split.
  - unfold names_in. apply elem_of_union. left. apply elem_of_singleton. reflexivity.
  - intros x q _. apply parents_in_names.
Qed.

Lemma lookup_within_64_names (pkgs : list OopPackage) (U : gset string) (p m : string) :
  holds_hierarchy pkgs p U ->
  (size U <= 64)%nat ->
  exists r visited,
    depth_first pkgs m [] p r visited /\
    (forall fuel, (size U < fuel)%nat ->
       oop_lookup_method_in fuel pkgs p m [] = Done (snd <$> r, visited) /\
       oop_method_lookup_package_in fuel pkgs p m [] = Done (fst <$> r, visited)) /\
    match r with
    | Some (q, f) =>
        reaches pkgs p q /\ defines pkgs q m f /\
        exists before, visited = before ++ [q] /\ none_defines pkgs m before
    | None => no_method_above pkgs m p
    end.
Proof.
  intros [Hp Hclosed] Hroom.
  assert (Hok : visits_ok U []).
  { split; [constructor|]. intros x Hx. inversion Hx. }
  destruct (lookup_in_depth_first pkgs m U Hclosed Hroom (S (size U)) p [] Hok Hp)
    as (r & V' & Hrun & Hrunp & Hdf & _ & _ & Hpost).
  { cbn [length]. lia. }
  exists r, V'. split; [exact Hdf|]. split.
  - intros fuel Hfuel. split.
    + apply (lookup_in_enough_fuel pkgs m (S (size U)) fuel); [lia | exact Hrun].
    + apply (lookup_package_in_enough_fuel pkgs m (S (size U)) fuel); [lia | exact Hrunp].
  - assert (Hnd0 : none_defines pkgs m []) by (intros x Hx; inversion Hx).
    assert (Hs0 : searched pkgs [] []) by (intros x q Hx; inversion Hx).
    destruct r as [[q f]|].
    + destruct Hpost as (Hreach & Hdef & before & Hbef & Hnd).
      split; [exact Hreach|]. split; [exact Hdef|]. exists before. split; [exact Hbef | auto].
    + destruct Hpost as (Hnd & Hs & Hseen).
      apply (none_defines_above pkgs m V' p (Hnd Hnd0) (Hs [] Hs0) Hseen).
Qed.

(** ** Lookup without cycles: the same search, whatever the number of names *)

Lemma mark_visited_full (V : list string) (p : string) :
  (64 <= length V)%nat -> mark_visited V p = V.
Proof.
  intros H. unfold mark_visited.
  replace (Z.of_nat (length V) <? 64) with false by (symmetry; apply Z.ltb_ge; lia).
  reflexivity.
Qed.

Lemma lookup_parents_full
    (rec : string -> list string -> result (option StradaMethod * list string))
    (ps : list string) (V : list string) :
  (forall q r V', rec q V = Done (r, V') -> V' = V) ->
  forall r V', lookup_parents rec ps V = Done (r, V') -> V' = V.
Proof.
  intros Hrec. induction ps as [|p ps IH]; intros r V'; cbn [lookup_parents].
  - intros [= _ <-]. reflexivity.
  - intros H. apply bind_done in H as ([r1 V1] & H1 & H). cbn [fst snd] in H.
    apply Hrec in H1 as ->. destruct r1; [injection H as _ <-; reflexivity | apply (IH _ _ H)].
Qed.

(** A full visited array stays as it is. *)
Lemma lookup_in_full (pkgs : list OopPackage) (m : string) (V : list string) (fuel : nat) :
  (64 <= length V)%nat ->
  forall p r V', oop_lookup_method_in fuel pkgs p m V = Done (r, V') -> V' = V.
Proof.
  intros Hfull. induction fuel as [|fuel IH]; intros p r V'; [discriminate|].
  cbn [oop_lookup_method_in]. rewrite (mark_visited_full V p Hfull).
  destruct (first_is_nul p); [intros [= _ <-]; reflexivity|].
  destruct (existsb (fun x => strcmp_eq x p) V); [intros [= _ <-]; reflexivity|].
  destruct (oop_find_package pkgs p) as [pkg|]; [|intros [= _ <-]; reflexivity].
  destruct (find_method (methods pkg) m); [intros [= _ <-]; reflexivity|].
  apply lookup_parents_full. intros q r' V''. apply IH.
Qed.

(** The answer of [oop_method_lookup_package_in], from that of
    [oop_lookup_method_in]. *)
Lemma lookup_package_in_none (pkgs : list OopPackage) (m : string) (fuel : nat)
    (p : string) (V V' : list string) :
  oop_lookup_method_in fuel pkgs p m V = Done (None, V') ->
  oop_method_lookup_package_in fuel pkgs p m V = Done (None, V').
Proof.
  destruct (lookup_package_in_agrees pkgs m fuel p V) as [Heq Hsome]. rewrite Heq.
  destruct (oop_method_lookup_package_in fuel pkgs p m V) as [[[x|] v]| | | |] eqn:Hp;
    cbn [method_of_package]; try discriminate.
  - destruct (Hsome x v eq_refl) as [f Hf]. rewrite Hf. discriminate.
  - intros [= ->]. reflexivity.
Qed.

Lemma elem_of_mark_visited_l (V : list string) (p x : string) :
  x ∈ V -> x ∈ mark_visited V p.
Proof.
  unfold mark_visited. destruct (_ <? _); [|auto]. intros H. apply elem_of_app. auto.
Qed.

Lemma visited_has_mono (V V' : list string) (p : string) :
  (forall x, x ∈ V -> x ∈ V') -> visited_has V p -> visited_has V' p.
Proof. intros H (x & Hx & Heq). exists x. split; [apply H, Hx | exact Heq]. Qed.

Section AcyclicSearch.

Variable pkgs : list OopPackage.
Variable m : string.
Variable rank : string -> nat.
Hypothesis Hacyclic : acyclic pkgs rank.

Section Step.

Variable fuel : nat.
Hypothesis IH : forall p Vc Ve,
  (rank p < fuel)%nat -> array_follows pkgs m rank [p] Vc Ve ->
  exists r Vc' Ve',
    oop_lookup_method_in fuel pkgs p m Vc = Done (snd <$> r, Vc') /\
    oop_method_lookup_package_in fuel pkgs p m Vc = Done (fst <$> r, Vc') /\
    depth_first pkgs m Ve p r Ve' /\
    match r with
    | Some (q, f) => reaches pkgs p q /\ defines pkgs q m f
    | None => no_method_above pkgs m p /\ array_followed pkgs m Vc' Ve' Ve
    end.

Lemma parents_search_acyclic (ps : list string) : forall Vc Ve,
  (forall q, q ∈ ps -> (rank q < fuel)%nat) -> array_follows pkgs m rank ps Vc Ve ->
  exists r Vc' Ve',
    lookup_parents (fun q v => oop_lookup_method_in fuel pkgs q m v) ps Vc
      = Done (snd <$> r, Vc') /\
    lookup_package_parents (fun q v => oop_method_lookup_package_in fuel pkgs q m v) ps Vc
      = Done (fst <$> r, Vc') /\
    depth_first_parents pkgs m Ve ps r Ve' /\
    match r with
    | Some (q, f) => (exists q0, q0 ∈ ps /\ reaches pkgs q0 q) /\ defines pkgs q m f
    | None => (forall q, q ∈ ps -> no_method_above pkgs m q) /\
              array_followed pkgs m Vc' Ve' Ve
    end.
Proof.
  induction ps as [|p ps IHps]; intros Vc Ve Hfuel (Hsub & Hfull & Hrank);
    cbn [lookup_parents lookup_package_parents].
  - exists None, Vc, Ve. split; [reflexivity|]. split; [reflexivity|].
    split; [constructor|]. split; [intros q Hq; inversion Hq|].
    split; [exact Hsub|]. split; [exact Hfull | auto].
  - destruct (IH p Vc Ve (Hfuel p (list_elem_of_here _ _)))
      as (r1 & Vc1 & Ve1 & Hrun & Hrunp & Hdf & Hpost).
    { split; [exact Hsub|]. split; [exact Hfull|].
      intros x Hx. destruct (Hrank x Hx) as [H|H]; [left; exact H|].
      right. intros q y Hq Hy. apply list_elem_of_singleton in Hq as ->.
      apply (H p y); [apply list_elem_of_here | exact Hy]. }
    rewrite Hrun, Hrunp. cbn [bind fst snd]. destruct r1 as [[q f]|].
    + exists (Some (q, f)), Vc1, Ve1. cbn [fmap option_fmap option_map fst snd].
      split; [reflexivity|]. split; [reflexivity|].
      split; [apply depth_first_parents_found; exact Hdf|].
      destruct Hpost as [Hreach Hdef].
      split; [exists p; split; [apply list_elem_of_here | exact Hreach] | exact Hdef].
    + cbn [fmap option_fmap option_map].
      destruct Hpost as (Hp & Hsub1 & Hfull1 & Hadded1).
      destruct (IHps Vc1 Ve1) as (r & Vc' & Ve' & Hrun' & Hrunp' & Hdf' & Hpost').
      { intros q Hq. apply Hfuel, list_elem_of_further, Hq. }
      { split; [exact Hsub1|]. split; [exact Hfull1|].
        intros x Hx. destruct (Hadded1 x Hx) as [H|H]; [|left; exact H].
        destruct (Hrank x H) as [H'|H']; [left; exact H'|].
        right. intros q y Hq Hy. apply (H' q y); [apply list_elem_of_further; exact Hq | exact Hy]. }
      exists r, Vc', Ve'. split; [exact Hrun'|]. split; [exact Hrunp'|].
      split; [apply (depth_first_parents_next pkgs m Ve p ps r Ve1 Ve' Hdf Hdf')|].
      destruct r as [[q f]|].
      * destruct Hpost' as ((q0 & Hq0 & Hreach) & Hdef).
        split; [exists q0; split; [apply list_elem_of_further; exact Hq0 | exact Hreach]|].
        exact Hdef.
      * destruct Hpost' as (Hps & Hsub' & Hfull' & Hadded').
        split.
        { intros q Hq. apply elem_of_cons in Hq as [->|Hq]; [exact Hp | apply Hps, Hq]. }
        split; [exact Hsub'|]. split; [exact Hfull'|].
        intros x Hx. destruct (Hadded' x Hx) as [H|H]; [apply Hadded1, H | right; exact H].
Qed.

End Step.

Lemma seen_is_done (p : string) (Vc Ve : list string) :
  array_follows pkgs m rank [p] Vc Ve -> visited_has Ve p -> no_method_above pkgs m p.
Proof.
  intros (_ & _ & Hrank) (x & Hx & Heq).
  destruct (Hrank x Hx) as [H|H]; [apply (no_method_above_cstr pkgs m x p Heq H)|].
  specialize (H p p (list_elem_of_here _ _) (eq_sym Heq)). lia.
Qed.

Lemma lookup_in_acyclic (fuel : nat) : forall p Vc Ve,
  (rank p < fuel)%nat -> array_follows pkgs m rank [p] Vc Ve ->
  exists r Vc' Ve',
    oop_lookup_method_in fuel pkgs p m Vc = Done (snd <$> r, Vc') /\
    oop_method_lookup_package_in fuel pkgs p m Vc = Done (fst <$> r, Vc') /\
    depth_first pkgs m Ve p r Ve' /\
    match r with
    | Some (q, f) => reaches pkgs p q /\ defines pkgs q m f
    | None => no_method_above pkgs m p /\ array_followed pkgs m Vc' Ve' Ve
    end.
Proof.
  induction fuel as [|fuel IHfuel]; intros p Vc Ve Hfuel Hinv; [lia|].
  pose proof Hinv as (Hsub & Hfull & Hrank).
  destruct (first_is_nul p) eqn:Hnul.
  { exists None, Vc, Ve. cbn [oop_lookup_method_in oop_method_lookup_package_in].
    rewrite Hnul. apply first_is_nul_spec in Hnul.
    split; [reflexivity|]. split; [reflexivity|].
    split; [apply depth_first_no_name; exact Hnul|].
    split; [apply no_method_above_empty; exact Hnul|].
    split; [exact Hsub|]. split; [exact Hfull | auto]. }
  pose proof (proj1 (first_is_nul_false p) Hnul) as Hne.
  destruct (existsb (fun x => strcmp_eq x p) Ve) eqn:Hseen.
  { (* the search has seen the package *)
    apply existsb_strcmp in Hseen.
    pose proof (seen_is_done p Vc Ve Hinv Hseen) as Hdone.
    destruct (lookup_in_complete pkgs m rank Hacyclic (S fuel) p Vc Hfuel)
      as (r & Vc' & Hrun & _).
    { intros x Hx. destruct (Hrank x (Hsub x Hx)) as [H|H]; [left; exact H|].
      right. intros y Hy. apply (H p y); [apply list_elem_of_here | exact Hy]. }
    destruct r as [f|].
    { destruct (lookup_in_sound pkgs m (S fuel) p Vc f Vc' Hrun) as (q & Hreach & Hdef).
      destruct (Hdone q f Hreach Hdef). }
    assert (Hsame : Vc' = Vc).
    { destruct (existsb (fun x => strcmp_eq x p) Vc) eqn:Hc.
      - cbn [oop_lookup_method_in] in Hrun. rewrite Hnul, Hc in Hrun.
        injection Hrun as <-. reflexivity.
      - apply (lookup_in_full pkgs m Vc (S fuel)) with (p := p) (r := None); [|exact Hrun].
        apply Hfull. destruct Hseen as (x & Hx & Heq). exists x. split; [exact Hx|].
        intros (y & Hy & Hyx).
        assert (Hex : existsb (fun z => strcmp_eq z p) Vc = true).
        { apply existsb_strcmp. exists y. split; [exact Hy|]. congruence. }
        congruence. }
    subst Vc'. exists None, Vc, Ve. split; [exact Hrun|].
    split; [apply lookup_package_in_none; exact Hrun|].
    split; [apply depth_first_seen; assumption|]. split; [exact Hdone|].
    split; [exact Hsub|]. split; [exact Hfull | auto]. }
  assert (Hnew : ~ visited_has Ve p).
  { intros H. apply existsb_strcmp in H. congruence. }
  assert (Hnewc : existsb (fun x => strcmp_eq x p) Vc = false).
  { destruct (existsb (fun x => strcmp_eq x p) Vc) eqn:Hc; [|reflexivity].
    exfalso. apply Hnew. apply existsb_strcmp in Hc.
    apply (visited_has_mono Vc Ve p Hsub Hc). }
  cbn [oop_lookup_method_in oop_method_lookup_package_in]. rewrite Hnul, Hnewc.
  assert (Hsub1 : forall x, x ∈ mark_visited Vc p -> x ∈ Ve ++ [p]).
  { intros x Hx. apply elem_of_app. destruct (elem_of_mark_visited Vc p x Hx) as [H| ->].
    - left. apply Hsub, H.
    - right. apply list_elem_of_here. }
  assert (Hfull1 : (exists x, x ∈ Ve ++ [p] /\ ~ visited_has (mark_visited Vc p) x) ->
                   (64 <= length (mark_visited Vc p))%nat).
  { intros (x & Hx & Hforgot). unfold mark_visited in *.
    destruct (Z.ltb_spec (Z.of_nat (length Vc)) 64) as [Hlt|Hge]; [|lia].
    exfalso. apply elem_of_app in Hx as [Hx|Hx].
    - assert (Hold : (64 <= length Vc)%nat); [|lia].
      apply Hfull. exists x. split; [exact Hx|].
      intros Hv. apply Hforgot. apply visited_has_app, Hv.
    - apply list_elem_of_singleton in Hx as ->. apply Hforgot. apply visited_has_last. }
  assert (Hkeep : forall x, x ∈ Ve ++ [p] -> x ∈ Ve \/ x = p).
  { intros x Hx. apply elem_of_app in Hx as [Hx|Hx]; [auto|].
    apply list_elem_of_singleton in Hx. auto. }
  destruct (oop_find_package pkgs p) as [pkg|] eqn:Hpkg.
  2:{ assert (Hm : method_in pkgs m p = None) by (unfold method_in; rewrite Hpkg; reflexivity).
      assert (Hps : parents_in pkgs p = []) by (unfold parents_in; rewrite Hpkg; reflexivity).
      pose proof (no_method_above_unregistered pkgs m p Hpkg) as Hp.
      exists None, (mark_visited Vc p), (Ve ++ [p]).
      split; [reflexivity|]. split; [reflexivity|]. split.
      { apply depth_first_inherited; [assumption..|]. rewrite Hps. constructor. }
      split; [exact Hp|]. split; [exact Hsub1|]. split; [exact Hfull1|].
      intros x Hx. destruct (Hkeep x Hx) as [H| ->]; [left; exact H | right; exact Hp]. }
  assert (Hps : parents_in pkgs p = parents pkg)
    by (unfold parents_in; rewrite Hpkg; reflexivity).
  destruct (find_method (methods pkg) m) as [f|] eqn:Hmeth.
  { assert (Hm : method_in pkgs m p = Some f) by (unfold method_in; rewrite Hpkg; exact Hmeth).
    exists (Some (p, f)), (mark_visited Vc p), (Ve ++ [p]).
    split; [reflexivity|]. split; [reflexivity|].
    split; [apply depth_first_own; assumption|].
    split; [apply reaches_here; exact Hne | exists pkg; split; assumption]. }
  assert (Hm : method_in pkgs m p = None) by (unfold method_in; rewrite Hpkg; exact Hmeth).
  destruct (parents_search_acyclic fuel IHfuel (parents pkg) (mark_visited Vc p) (Ve ++ [p]))
    as (r & Vc' & Ve' & Hrun & Hrunp & Hdf & Hpost).
  { intros q Hq. pose proof (Hacyclic p pkg q Hpkg Hq). lia. }
  { split; [exact Hsub1|]. split; [exact Hfull1|].
    intros x Hx. destruct (Hkeep x Hx) as [H| ->].
    - destruct (Hrank x H) as [H'|H']; [left; exact H'|].
      right. intros q y Hq Hy. pose proof (Hacyclic p pkg q Hpkg Hq).
      specialize (H' p y (list_elem_of_here _ _) Hy). lia.
    - right. intros q y Hq Hy. apply (Hacyclic y pkg q); [|exact Hq].
      rewrite (find_package_cstr pkgs y p Hy). exact Hpkg. }
  exists r, Vc', Ve'. split; [exact Hrun|]. split; [exact Hrunp|].
  split; [apply depth_first_inherited; [assumption..|]; rewrite Hps; exact Hdf|].
  destruct r as [[q f]|].
  - destruct Hpost as ((q0 & Hq0 & Hreach) & Hdef).
    split; [apply (reaches_parent pkgs p q0 q pkg Hne Hpkg Hq0 Hreach) | exact Hdef].
  - destruct Hpost as (Hall & Hsub' & Hfull' & Hadded').
    pose proof (no_method_above_parents pkgs m p pkg Hpkg Hmeth Hall) as Hp.
    split; [exact Hp|]. split; [exact Hsub'|]. split; [exact Hfull'|].
    intros x Hx. destruct (Hadded' x Hx) as [H|H]; [|right; exact H].
    destruct (Hkeep x H) as [H'| ->]; [left; exact H' | right; exact Hp].
Qed.

End AcyclicSearch.

Scheme depth_first_mut := Minimality for depth_first Sort Prop
  with depth_first_parents_mut := Minimality for depth_first_parents Sort Prop.

(** The package that the search finds is the last one visited, and the
    first one visited that defines the method. *)
Lemma depth_first_order (pkgs : list OopPackage) (m : string)
    (V : list string) (p : string) (r : option (string * StradaMethod)) (V' : list string) :
  depth_first pkgs m V p r V' ->
  none_defines pkgs m V ->
  match r with
  | Some (q, f) => exists before, V' = before ++ [q] /\ none_defines pkgs m before
  | None => none_defines pkgs m V'
  end.
Proof.
  revert V p r V'.
  apply (depth_first_mut pkgs m
           (fun V p r V' => none_defines pkgs m V ->
              match r with
              | Some (q, f) => exists before, V' = before ++ [q] /\ none_defines pkgs m before
              | None => none_defines pkgs m V'
              end)
           (fun V ps r V' => none_defines pkgs m V ->
              match r with
              | Some (q, f) => exists before, V' = before ++ [q] /\ none_defines pkgs m before
              | None => none_defines pkgs m V'
              end)).
  - auto.
  - auto.
  - intros V p f _ _ _ Hnd. exists V. split; [reflexivity | exact Hnd].
  - intros V p r V' _ _ Hm _ IH Hnd. apply IH.
    intros x Hx. apply elem_of_app in Hx as [Hx|Hx]; [apply Hnd, Hx|].
    apply list_elem_of_singleton in Hx as ->. exact Hm.
  - auto.
  - intros V q rest a V' _ IH Hnd. apply (IH Hnd).
  - intros V q rest r V' V'' _ IH1 _ IH2 Hnd. apply IH2, IH1, Hnd.
Qed.

Lemma lookup_answers_from_runs (s : State) (p m : string) (bound : nat)
    (r : option (string * StradaMethod)) (Vc visited : list string) :
  oop_initialized s = true ->
  depth_first (oop_packages s) m [] p r visited ->
  oop_lookup_method_in (S bound) (oop_packages s) p m [] = Done (snd <$> r, Vc) ->
  oop_method_lookup_package_in (S bound) (oop_packages s) p m [] = Done (fst <$> r, Vc) ->
  match r with
  | Some (q, f) => reaches (oop_packages s) p q /\ defines (oop_packages s) q m f
  | None => no_method_above (oop_packages s) m p
  end ->
  lookup_answers s p m bound.
Proof.
  intros Hinit Hdf Hrun Hrunp Hpost. exists r, visited. split; [exact Hdf|]. split.
  - intros fuel Hfuel. unfold oop_lookup_method, strada_method_lookup_package. rewrite Hinit.
    rewrite (lookup_in_enough_fuel _ _ (S bound) fuel _ _ _ ltac:(lia) Hrun).
    rewrite (lookup_package_in_enough_fuel _ _ (S bound) fuel _ _ _ ltac:(lia) Hrunp).
    split; reflexivity.
  - pose proof (depth_first_order _ _ _ _ _ _ Hdf) as Horder.
    destruct r as [[q f]|]; [|exact Hpost].
    destruct Hpost as [Hreach Hdef]. split; [exact Hreach|]. split; [exact Hdef|].
    apply Horder. intros x Hx. inversion Hx.
Qed.

(** C5 (amended).  In an initialised registry, [oop_lookup_method] ends and
    answers as the depth-first search of the specification does (from left
    to right over the parent lists, with a visited set, starting at the
    given package) in two cases.  When the search can meet at most 64
    different names (the start, and the parents of the packages it meets),
    whatever cycles the inheritance has: the recursion is then no deeper
    than the number of names.  And when the inheritance has no cycle,
    however many packages there are: the recursion is then no deeper than
    the rank of the start.  In both cases the method returned is that of the
    first package visited that defines the name, a package reached from the
    start along packages with non-empty names, and [NULL] is returned only
    if no package reached from the start defines the name. *)
Theorem lookup_is_depth_first_search (s : State) (p m : string) :
  oop_initialized s = true ->
  (forall U : gset string,
     holds_hierarchy (oop_packages s) p U -> (size U <= 64)%nat ->
     lookup_answers s p m (size U)) /\
  (forall rank, acyclic (oop_packages s) rank -> lookup_answers s p m (rank p)).
Proof.
  intros Hinit. split.
  - intros U Hhier Hroom.
    destruct (lookup_within_64_names (oop_packages s) U p m Hhier Hroom)
      as (r & visited & Hdf & Hruns & Hpost).
    destruct (Hruns (S (size U)) ltac:(lia)) as [Hrun Hrunp].
    apply (lookup_answers_from_runs s p m _ r visited visited Hinit Hdf Hrun Hrunp).
    destruct r as [[q f]|]; [|exact Hpost].
    destruct Hpost as (Hreach & Hdef & _). split; assumption.
  - intros rank Hacyclic.
    destruct (lookup_in_acyclic (oop_packages s) m rank Hacyclic (S (rank p)) p [] [])
      as (r & Vc & visited & Hrun & Hrunp & Hdf & Hpost); [lia| |].
    { split; [auto|]. split; [|intros x Hx; inversion Hx].
      intros (x & Hx & _). inversion Hx. }
    apply (lookup_answers_from_runs s p m _ r Vc visited Hinit Hdf Hrun Hrunp).
    destruct r as [[q f]|]; [exact Hpost | apply Hpost].
Qed.

Lemma lookup_is_depth_first_witness :
  oop_initialized cyclic_registry = true /\
  holds_hierarchy (oop_packages cyclic_registry) "A"
    (names_in (oop_packages cyclic_registry) "A") /\
  (size (names_in (oop_packages cyclic_registry) "A") <= 64)%nat /\
  (exists r visited,
     depth_first (oop_packages cyclic_registry) "m" [] "A" r visited /\
     oop_lookup_method 4 cyclic_registry (Some "A"%string) (Some "m"%string)
       = Done (snd <$> r) /\
     snd <$> r = Some 7%nat) /\
  oop_initialized (object_state diamond "D") = true /\
  acyclic (oop_packages (object_state diamond "D")) diamond_rank /\
  lookup_answers (object_state diamond "D") "D" "bye" (diamond_rank "D").
Proof.
  assert (Hinit : oop_initialized cyclic_registry = true) by reflexivity.
  assert (Hsize : size (names_in (oop_packages cyclic_registry) "A") = 3%nat)
    by (vm_compute; reflexivity).
  pose proof (names_in_hierarchy (oop_packages cyclic_registry) "A") as Hhier.
  destruct (lookup_is_depth_first_search cyclic_registry "A" "m" Hinit) as [Hwithin _].
  destruct (Hwithin _ Hhier) as (r & visited & Hdf & Hruns & _); [rewrite Hsize; lia|].
  destruct (Hruns 4%nat) as [Hrun _]; [rewrite Hsize; lia|].
  assert (Hval : oop_lookup_method 4 cyclic_registry (Some "A"%string) (Some "m"%string)
                 = Done (Some 7%nat)) by (vm_compute; reflexivity).
  assert (Hinit' : oop_initialized (object_state diamond "D") = true) by reflexivity.
  destruct (lookup_is_depth_first_search (object_state diamond "D") "D" "bye" Hinit')
    as [_ Hacyclic].
  split; [exact Hinit|]. split; [exact Hhier|]. split; [rewrite Hsize; lia|].
  split.
  - exists r, visited. split; [exact Hdf|]. split; [exact Hrun|].
    rewrite Hrun in Hval. injection Hval as Hval. exact Hval.
  - split; [exact Hinit'|]. split; [exact diamond_acyclic|].
    apply (Hacyclic diamond_rank diamond_acyclic).
Defined.

(** A package with one parent that defines nothing hands the search on. *)
Lemma lookup_descends (pkgs : list OopPackage) (m p q : string) (V : list string)
    (pkg : OopPackage) :
  first_is_nul p = false ->
  existsb (fun x => strcmp_eq x p) V = false ->
  oop_find_package pkgs p = Some pkg ->
  find_method (methods pkg) m = None ->
  parents pkg = [q] ->
  (forall fuel, oop_lookup_method_in fuel pkgs q m (mark_visited V p) = OutOfFuel) ->
  forall fuel, oop_lookup_method_in fuel pkgs p m V = OutOfFuel.
Proof.
  intros Hnul Hseen Hpkg Hm Hps Hnext [|fuel]; [reflexivity|].
  cbn [oop_lookup_method_in]. rewrite Hnul, Hseen, Hpkg, Hm, Hps.
  cbn [lookup_parents]. rewrite Hnext. reflexivity.
Qed.

(** Two packages that inherit from each other and are not recorded, the
    visited array being full: the search goes round for ever. *)
Lemma lookup_spins (pkgs : list OopPackage) (m p q : string) (V : list string)
    (pkgp pkgq : OopPackage) :
  (64 <= length V)%nat ->
  first_is_nul p = false -> first_is_nul q = false ->
  existsb (fun x => strcmp_eq x p) V = false ->
  existsb (fun x => strcmp_eq x q) V = false ->
  oop_find_package pkgs p = Some pkgp -> oop_find_package pkgs q = Some pkgq ->
  find_method (methods pkgp) m = None -> find_method (methods pkgq) m = None ->
  parents pkgp = [q] -> parents pkgq = [p] ->
  forall fuel, oop_lookup_method_in fuel pkgs p m V = OutOfFuel.
Proof.
  intros Hfull Hp Hq Hsp Hsq Hfp Hfq Hmp Hmq Hpp Hpq.
  assert (Hmark : forall x, mark_visited V x = V).
  { intros x. unfold mark_visited.
    replace (Z.of_nat (length V) <? 64) with false by (symmetry; apply Z.ltb_ge; lia).
    reflexivity. }
  assert (Hboth : forall fuel,
            oop_lookup_method_in fuel pkgs p m V = OutOfFuel /\
            oop_lookup_method_in fuel pkgs q m V = OutOfFuel).
  { induction fuel as [|fuel [IHp IHq]]; [split; reflexivity|].
    cbn [oop_lookup_method_in].
    rewrite Hp, Hq, Hsp, Hsq, Hfp, Hfq, Hmp, Hmq, Hpp, Hpq, !Hmark.
    cbn [lookup_parents]. rewrite IHp, IHq. split; reflexivity. }
  intros fuel. apply Hboth.
Qed.

Ltac descend :=
  eapply lookup_descends;
  [reflexivity | reflexivity | reflexivity | reflexivity | reflexivity |];
  match goal with
  | |- context [mark_visited ?V ?p] =>
      let v := eval vm_compute in (mark_visited V p) in
      change (mark_visited V p) with v
  end.

Lemma long_chain_never_ends :
  forall fuel, oop_lookup_method_in fuel long_chain (chain_name 0) "m" [] = OutOfFuel.
Proof.
  do 64 descend.
  eapply lookup_spins with (q := chain_name 65); [vm_compute; lia | reflexivity..].
Qed.

(** C5, as it is stated, fails in two ways.  The visited array holds 64
    names and a package met when it is full is not recorded.  Sixty-six
    calls of [strada_inherit] build a chain [P00], [P01], ..., [P64] at
    whose end [P64] and [P65] inherit from each other; a lookup from [P00]
    of a method that no package defines fills the array on its way down and
    then goes round between [P64] and [P65]: no amount of fuel is enough.
    And a package without a name is never searched: the package [""] is
    registered and defines [m], and a lookup of [m] from it finds nothing. *)
Lemma lookup_beyond_64_names_counterexample :
  (inherit_all long_chain_links initial_state = Done long_chain_state /\
   length (oop_packages long_chain_state) = 66%nat /\
   forall fuel,
     oop_lookup_method fuel long_chain_state (Some (chain_name 0)) (Some "m"%string)
     = OutOfFuel) /\
  (strada_method_register (Some EmptyString) (Some "m"%string) (Some 5%nat) initial_state
     = Done nameless_registry /\
   defines (oop_packages nameless_registry) EmptyString "m" 5%nat /\
   forall fuel,
     oop_lookup_method (S fuel) nameless_registry (Some EmptyString) (Some "m"%string)
     = Done None).
Proof.
  split; [split; [|split] | split; [|split]].
  - vm_compute. reflexivity.
  - reflexivity.
  - intros fuel. unfold oop_lookup_method. cbn [oop_initialized long_chain_state with_initialized].
    change (oop_packages long_chain_state) with long_chain.
    rewrite long_chain_never_ends. reflexivity.
  - vm_compute. reflexivity.
  - eexists. split; reflexivity.
  - intros fuel. reflexivity.
Qed.

(** ** The isa check *)

Lemma isa_parents_sound (rec : string -> list string -> result (bool * list string))
    (P : string -> Prop) (ps : list string) :
  forall (vis vis' : list string),
    (forall q v v', rec q v = Done (true, v') -> P q) ->
    isa_parents rec ps vis = Done (true, vis') ->
    exists q, q ∈ ps /\ P q.
Proof.
  induction ps as [|p ps IH]; intros vis vis' Hrec; cbn [isa_parents].
  - discriminate.
  - intros H. apply bind_done in H as ([r v] & Hr & H). cbn [fst snd] in H.
    destruct r.
    + exists p. split; [apply list_elem_of_here | apply (Hrec _ _ _ Hr)].
    + destruct (IH _ _ Hrec H) as (q & Hq & HP).
      exists q. split; [apply list_elem_of_further; exact Hq | exact HP].
Qed.

Lemma isa_check_sound (pkgs : list OopPackage) (t : string) (fuel : nat) :
  forall (p : string) (vis vis' : list string),
    oop_isa_check fuel pkgs p t vis = Done (true, vis') -> inherits pkgs p t.
Proof.
  induction fuel as [|fuel IH]; intros p vis vis'; cbn [oop_isa_check]; [discriminate|].
  destruct (first_is_nul p) eqn:Hne; [discriminate|]. apply first_is_nul_false in Hne.
  destruct (strcmp_spec p t) as [Heq|Hnt].
  { intros _. exists p. split; [apply reaches_here; exact Hne | exact Heq]. }
  destruct (existsb (fun x => strcmp_eq x p) vis); [discriminate|].
  destruct (oop_find_package pkgs p) as [pkg|] eqn:Hpkg; [|discriminate].
  intros H.
  destruct (isa_parents_sound _ (fun q => inherits pkgs q t) _ _ _
              (fun q v v' Hq => IH q v v' Hq) H) as (q & Hq & r & Hreach & Hc).
  exists r. split; [|exact Hc].
  apply (reaches_parent pkgs p q r pkg Hne Hpkg Hq Hreach).
Qed.

Lemma inherits_cstr (pkgs : list OopPackage) (p p' t : string) :
  cstr p = cstr p' -> inherits pkgs p t -> inherits pkgs p' t.
Proof.
  intros Heq (r & Hr & Hc).
  destruct (reaches_cstr pkgs p p' r Heq Hr) as (r' & Hr' & Hc').
  exists r'. split; [exact Hr' | congruence].
Qed.

Lemma not_inherits_empty (pkgs : list OopPackage) (p t : string) :
  cstr p = EmptyString -> ~ inherits pkgs p t.
Proof. intros Hp (r & Hreach & _). inversion Hreach; subst; congruence. Qed.

Lemma not_inherits_unregistered (pkgs : list OopPackage) (p t : string) :
  cstr p <> cstr t -> oop_find_package pkgs p = None -> ~ inherits pkgs p t.
Proof. intros Hne Hnone (r & Hreach & Hc). inversion Hreach; subst; congruence. Qed.

Lemma not_inherits_parents (pkgs : list OopPackage) (p t : string) (pkg : OopPackage) :
  cstr p <> cstr t ->
  oop_find_package pkgs p = Some pkg ->
  (forall q, q ∈ parents pkg -> ~ inherits pkgs q t) ->
  ~ inherits pkgs p t.
Proof.
  intros Hne Hpkg Hps (r & Hreach & Hc).
  inversion Hreach as [p0 Hp0|p0 q0 r0 pkg0 Hp0 Hpkg0 Hq0 Hrest]; subst; [congruence|].
  rewrite Hpkg in Hpkg0. injection Hpkg0 as <-. apply (Hps q0 Hq0).
  exists r. split; assumption.
Qed.

Section AcyclicIsa.

Variable pkgs : list OopPackage.
Variable t : string.
Variable rank : string -> nat.
Hypothesis Hacyclic : acyclic pkgs rank.

Lemma isa_parents_complete (rec : string -> list string -> result (bool * list string))
    (ps : list string) :
  (forall q v, q ∈ ps ->
     (forall x, x ∈ v ->
        ~ inherits pkgs x t \/ forall y, cstr y = cstr x -> (rank q < rank y)%nat) ->
     exists r v', rec q v = Done (r, v') /\
       (r = false -> ~ inherits pkgs q t /\
          forall x, x ∈ v' -> x ∈ v \/ ~ inherits pkgs x t)) ->
  forall vis,
    (forall x, x ∈ vis ->
       ~ inherits pkgs x t \/
       forall q y, q ∈ ps -> cstr y = cstr x -> (rank q < rank y)%nat) ->
    exists r vis', isa_parents rec ps vis = Done (r, vis') /\
      (r = false -> (forall q, q ∈ ps -> ~ inherits pkgs q t) /\
         forall x, x ∈ vis' -> x ∈ vis \/ ~ inherits pkgs x t).
Proof.
  induction ps as [|p ps IH]; intros Hrec vis Hvis; cbn [isa_parents].
  - exists false, vis. split; [reflexivity|]. intros _. split; [|auto].
    intros q Hq. inversion Hq.
  - destruct (Hrec p vis (list_elem_of_here _ _)) as (r & v' & Hr & Hpost).
    { intros x Hx. destruct (Hvis x Hx) as [H|H]; [left; exact H|].
      right. intros y Hy. apply (H p y); [apply list_elem_of_here | exact Hy]. }
    rewrite Hr. cbn [bind fst snd]. destruct r.
    + exists true, v'. split; [reflexivity | discriminate].
    + destruct (Hpost eq_refl) as [Hp Hv'].
      destruct (IH (fun q v Hq => Hrec q v (list_elem_of_further _ _ _ Hq)) v')
        as (r & vis' & Hrun & Hpost').
      { intros x Hx. destruct (Hv' x Hx) as [H|H]; [|left; exact H].
        destruct (Hvis x H) as [H'|H']; [left; exact H'|].
        right. intros q y Hq Hy. apply (H' q y); [apply list_elem_of_further; exact Hq | exact Hy]. }
      exists r, vis'. split; [exact Hrun|]. intros Hnone.
      destruct (Hpost' Hnone) as [Hps Hvis'']. split.
      * intros q Hq. apply elem_of_cons in Hq as [->|Hq]; [exact Hp | apply Hps; exact Hq].
      * intros x Hx. destruct (Hvis'' x Hx) as [H|H]; [apply Hv'; exact H | right; exact H].
Qed.

Lemma isa_check_complete (fuel : nat) :
  forall (p : string) (vis : list string),
    (rank p < fuel)%nat ->
    (forall x, x ∈ vis ->
       ~ inherits pkgs x t \/ forall y, cstr y = cstr x -> (rank p < rank y)%nat) ->
    exists r vis', oop_isa_check fuel pkgs p t vis = Done (r, vis') /\
      (r = false -> ~ inherits pkgs p t /\
         forall x, x ∈ vis' -> x ∈ vis \/ ~ inherits pkgs x t).
Proof.
  induction fuel as [|fuel IH]; intros p vis Hfuel Hvis; [lia|].
  cbn [oop_isa_check].
  destruct (first_is_nul p) eqn:Hne.
  { exists false, vis. split; [reflexivity|]. intros _. split; [|auto].
    apply not_inherits_empty, first_is_nul_spec. exact Hne. }
  destruct (strcmp_spec p t) as [Heq|Hnt].
  { exists true, vis. split; [reflexivity | discriminate]. }
  destruct (existsb (fun x => strcmp_eq x p) vis) eqn:Hseen.
  { exists false, vis. split; [reflexivity|]. intros _. split; [|auto].
    apply existsb_strcmp in Hseen as (x & Hx & Heq).
    destruct (Hvis x Hx) as [H|H].
    - intros Hin. apply H. apply (inherits_cstr pkgs p x t (eq_sym Heq) Hin).
    - specialize (H p (eq_sym Heq)). lia. }
  assert (Hmark : forall x, x ∈ mark_visited vis p -> x ∈ vis \/ x = p)
    by (intros x; apply elem_of_mark_visited).
  destruct (oop_find_package pkgs p) as [pkg|] eqn:Hpkg.
  2:{ exists false, (mark_visited vis p). split; [reflexivity|]. intros _.
      pose proof (not_inherits_unregistered pkgs p t Hnt Hpkg) as Hp.
      split; [exact Hp|]. intros x Hx.
      destruct (Hmark x Hx) as [H| ->]; [left; exact H | right; exact Hp]. }
  destruct (isa_parents_complete
              (fun q v => oop_isa_check fuel pkgs q t v) (parents pkg))
    with (vis := mark_visited vis p) as (r & vis' & Hrun & Hpost).
  - intros q v Hq Hv. apply IH; [|exact Hv].
    pose proof (Hacyclic p pkg q Hpkg Hq). lia.
  - intros x Hx. destruct (Hmark x Hx) as [H| ->].
    + destruct (Hvis x H) as [H'|H']; [left; exact H'|].
      right. intros q y Hq Hy. pose proof (Hacyclic p pkg q Hpkg Hq).
      specialize (H' y Hy). lia.
    + right. intros q y Hq Hy. apply (Hacyclic y pkg q); [|exact Hq].
      rewrite (find_package_cstr pkgs y p Hy). exact Hpkg.
  - exists r, vis'. split; [exact Hrun|]. intros Hnone.
    destruct (Hpost Hnone) as [Hps Hvis'].
    pose proof (not_inherits_parents pkgs p t pkg Hnt Hpkg Hps) as Hp.
    split; [exact Hp|]. intros x Hx.
    destruct (Hvis' x Hx) as [H|H]; [|right; exact H].
    destruct (Hmark x H) as [H'| ->]; [left; exact H' | right; exact Hp].
Qed.

End AcyclicIsa.

(** X16.  [strada_isa] never says yes without reason: a yes means that the
    package asked for has the name ([strcmp]: the bytes before the first
    NUL) of the object's own package or of a package reached from it along
    registered parents.  And an object always is of its own package, once
    the registry is initialised and unless its tag is the empty string,
    whatever else is registered. *)
Theorem isa_holds_for_ancestors_only (fuel : nat) (s : State) (a : addr) (v : StradaValue)
    (bp t : string) :
  values s !! a = Some v ->
  blessed_package v = Some bp ->
  (strada_isa fuel (Some a) (Some t) s = Done true -> inherits (oop_packages s) bp t) /\
  (oop_initialized s = true -> cstr bp <> EmptyString ->
   strada_isa (S fuel) (Some a) (Some bp) s = Done true).
Proof.
  intros Hv Hbp. unfold strada_isa. rewrite Hv, Hbp. split.
  - destruct (oop_initialized s); [|discriminate].
    intros H. apply bind_done in H as ([r vis'] & Hr & H). cbn [fst] in H.
    injection H as ->. apply (isa_check_sound _ _ _ _ _ _ Hr).
  - intros -> Hne. cbn [oop_isa_check].
    apply first_is_nul_false in Hne. rewrite Hne, strcmp_refl. reflexivity.
Qed.

Lemma isa_witness :
  values (object_state diamond "D") !! 1%nat
    = Some (mkValue 1 (PRef (Some 0%nat)) (Some "D"%string)) /\
  strada_isa 3 (Some 1%nat) (Some a_nul_x) (object_state diamond "D") = Done true /\
  inherits diamond "D" a_nul_x /\
  strada_isa 1 (Some 1%nat) (Some "D"%string) (object_state diamond "D") = Done true.
Proof.
  assert (Hv : values (object_state diamond "D") !! 1%nat
            = Some (mkValue 1 (PRef (Some 0%nat)) (Some "D"%string))) by reflexivity.
  assert (Hrun : strada_isa 3 (Some 1%nat) (Some a_nul_x) (object_state diamond "D")
            = Done true) by (vm_compute; reflexivity).
  destruct (isa_holds_for_ancestors_only 3 _ 1%nat _ "D" a_nul_x Hv eq_refl) as [Hsound _].
  destruct (isa_holds_for_ancestors_only 0 _ 1%nat _ "D" a_nul_x Hv eq_refl) as [_ Hown].
  split; [exact Hv|]. split; [exact Hrun|]. split; [exact (Hsound Hrun)|].
  apply Hown; [reflexivity | discriminate].
Defined.

(** X17.  When the inheritance relation has no cycle, [strada_isa] decides
    inheritance: with fuel above the rank of the object's package it ends,
    and it says yes exactly when the package asked for has the name of the
    object's own package or of a package reached from it along registered
    parents. *)
Theorem isa_decides_inheritance_without_cycles (fuel : nat) (s : State)
    (rank : string -> nat) (a : addr) (v : StradaValue) (bp t : string) :
  values s !! a = Some v ->
  blessed_package v = Some bp ->
  oop_initialized s = true ->
  acyclic (oop_packages s) rank ->
  (rank bp < fuel)%nat ->
  exists b,
    strada_isa fuel (Some a) (Some t) s = Done b /\
    (b = true <-> inherits (oop_packages s) bp t).
Proof.
  intros Hv Hbp Hinit Hacyc Hfuel.
  destruct (isa_check_complete (oop_packages s) t rank Hacyc fuel bp [] Hfuel)
    as (r & vis' & Hrun & Hpost).
  { intros x Hx. inversion Hx. }
  exists r. unfold strada_isa. rewrite Hv, Hbp, Hinit, Hrun. cbn [bind fst].
  split; [reflexivity|]. split.
  - intros ->. apply (isa_check_sound _ _ _ _ _ _ Hrun).
  - intros Hreach. destruct r; [reflexivity|].
    destruct (Hpost eq_refl) as [Hno _]. contradiction.
Qed.

Lemma isa_decides_witness :
  exists b,
    strada_isa 3 (Some 1%nat) (Some "C"%string) (object_state diamond "D") = Done b /\
    (b = true <-> inherits diamond "D" "C").
Proof.
  apply (isa_decides_inheritance_without_cycles 3 (object_state diamond "D") diamond_rank
           1%nat (mkValue 1 (PRef (Some 0%nat)) (Some "D"%string)) "D" "C").
  - reflexivity.
  - reflexivity.
  - reflexivity.
  - exact diamond_acyclic.
  - vm_compute. lia.
Defined.

(** ** Registration *)

Lemma strcmp_same_l (a a' b : string) :
  cstr a = cstr a' -> strcmp_eq a b = strcmp_eq a' b.
Proof. unfold strcmp_eq. intros ->. reflexivity. Qed.

Lemma package_index_find (pkgs : list OopPackage) (n : string) :
  match package_index pkgs n with
  | Some i => exists pkg, pkgs !! i = Some pkg /\ oop_find_package pkgs n = Some pkg
  | None => oop_find_package pkgs n = None
  end.
Proof.
  induction pkgs as [|p pkgs IH]; cbn [package_index oop_find_package]; [reflexivity|].
  destruct (strcmp_eq (name p) n); [exists p; split; reflexivity|].
  destruct (package_index pkgs n) as [i|]; [|exact IH].
  destruct IH as (pkg & Hi & Hfind). exists pkg. split; assumption.
Qed.

Lemma package_index_app (pkgs : list OopPackage) (n : string) (new : OopPackage) :
  package_index pkgs n = None -> cstr (name new) = cstr n ->
  package_index (pkgs ++ [new]) n = Some (length pkgs).
Proof.
  intros Hnone Hname. induction pkgs as [|p pkgs IH]; cbn [package_index app length].
  - replace (strcmp_eq (name new) n) with true by (symmetry; apply strcmp_true; exact Hname).
    reflexivity.
  - cbn [package_index] in Hnone. destruct (strcmp_eq (name p) n); [discriminate|].
    destruct (package_index pkgs n); [discriminate|]. rewrite IH by reflexivity. reflexivity.
Qed.

Lemma package_index_keep (pkgs : list OopPackage) (n : string) (new : OopPackage) (i : nat) :
  package_index pkgs n = Some i -> package_index (pkgs ++ [new]) n = Some i.
Proof.
  revert i. induction pkgs as [|p pkgs IH]; intros i; cbn [package_index app]; [discriminate|].
  destruct (strcmp_eq (name p) n); [auto|].
  destruct (package_index pkgs n) as [j|]; [|discriminate].
  rewrite (IH j eq_refl). auto.
Qed.

Lemma find_package_name (pkgs : list OopPackage) (q : string) (pkg : OopPackage) :
  oop_find_package pkgs q = Some pkg -> cstr (name pkg) = cstr q.
Proof.
  induction pkgs as [|p l IH]; cbn [oop_find_package]; [discriminate|].
  destruct (strcmp_spec (name p) q) as [Hp|Hp]; [intros [= <-]; exact Hp | exact IH].
Qed.

Lemma find_package_app (pkgs : list OopPackage) (new : OopPackage) (q : string) :
  oop_find_package (pkgs ++ [new]) q =
    match oop_find_package pkgs q with
    | Some p => Some p
    | None => if strcmp_eq (name new) q then Some new else None
    end.
Proof.
  induction pkgs as [|p pkgs IH]; cbn [oop_find_package app]; [reflexivity|].
  destruct (strcmp_eq (name p) q); [reflexivity | exact IH].
Qed.

Lemma find_package_update (pkgs : list OopPackage) (n q : string) (i : nat)
    (pkg' : OopPackage) :
  package_index pkgs n = Some i ->
  cstr (name pkg') = cstr n ->
  oop_find_package (<[i := pkg']> pkgs) q =
    if strcmp_eq n q then Some pkg' else oop_find_package pkgs q.
Proof.
  intros Hi Hname. revert i Hi.
  induction pkgs as [|p pkgs IH]; intros i Hi; cbn [package_index] in Hi; [discriminate|].
  destruct (strcmp_spec (name p) n) as [Hp|Hp].
  - injection Hi as <-. cbn [insert list_insert oop_find_package].
    rewrite (strcmp_same_l _ _ q Hname), (strcmp_same_l _ _ q Hp).
    destruct (strcmp_eq n q); reflexivity.
  - destruct (package_index pkgs n) as [j|]; [|discriminate]. injection Hi as <-.
    change (<[S j := pkg']> (p :: pkgs)) with (p :: <[j := pkg']> pkgs).
    cbn [oop_find_package]. rewrite (IH j eq_refl).
    destruct (strcmp_spec (name p) q) as [Hq|Hq]; [|reflexivity].
    destruct (strcmp_spec n q) as [Hn|Hn]; [congruence | reflexivity].
Qed.

Lemma package_index_update (pkgs : list OopPackage) (n : string) (i : nat)
    (pkg' : OopPackage) :
  package_index pkgs n = Some i ->
  cstr (name pkg') = cstr n ->
  package_index (<[i := pkg']> pkgs) n = Some i.
Proof.
  intros Hi Hname. revert i Hi.
  induction pkgs as [|p pkgs IH]; intros i Hi; cbn [package_index] in Hi; [discriminate|].
  destruct (strcmp_spec (name p) n) as [Hp|Hp].
  - injection Hi as <-. cbn [insert list_insert package_index].
    replace (strcmp_eq (name pkg') n) with true by (symmetry; apply strcmp_true; exact Hname).
    reflexivity.
  - destruct (package_index pkgs n) as [j|]; [|discriminate]. injection Hi as <-.
    change (<[S j := pkg']> (p :: pkgs)) with (p :: <[j := pkg']> pkgs).
    cbn [package_index].
    replace (strcmp_eq (name p) n) with false by (symmetry; apply strcmp_false; exact Hp).
    rewrite (IH j eq_refl). reflexivity.
Qed.

(** The name that the registry keeps for a name that fits. *)
Lemma kept_name (n : string) :
  short_name n -> strncpy (OOP_MAX_NAME_LEN - 1) n = cstr n.
Proof. auto. Qed.

Lemma find_method_set_same (ms : list OopMethod) (m : string) (f : StradaMethod) :
  short_name m -> find_method (set_method ms m f) m = Some f.
Proof.
  intros Hshort. apply kept_name in Hshort.
  induction ms as [|x ms IH]; cbn [set_method find_method m_name func].
  - rewrite Hshort, strcmp_cstr_l, strcmp_refl. reflexivity.
  - destruct (strcmp_eq (m_name x) m) eqn:Hx; cbn [find_method m_name func]; rewrite Hx;
      [reflexivity | exact IH].
Qed.

Lemma find_method_set_other (ms : list OopMethod) (m m' : string) (f : StradaMethod) :
  short_name m -> cstr m' <> cstr m ->
  find_method (set_method ms m f) m' = find_method ms m'.
Proof.
  intros Hshort Hne. apply kept_name in Hshort.
  induction ms as [|x ms IH]; cbn [set_method find_method m_name func].
  - rewrite Hshort, strcmp_cstr_l.
    destruct (strcmp_spec m m'); [congruence | reflexivity].
  - destruct (strcmp_spec (m_name x) m) as [Hx|Hx]; cbn [find_method m_name func].
    + destruct (strcmp_spec (m_name x) m'); [congruence | reflexivity].
    + rewrite IH. reflexivity.
Qed.

Lemma oop_init_initialized (s : State) : oop_initialized (strada_oop_init s) = true.
Proof. unfold strada_oop_init. destruct (oop_initialized s) eqn:H; [exact H | reflexivity]. Qed.

Lemma oop_init_idem (s : State) : oop_initialized s = true -> strada_oop_init s = s.
Proof. unfold strada_oop_init. intros ->. reflexivity. Qed.

Lemma oop_init_values (s : State) : values (strada_oop_init s) = values s.
Proof. unfold strada_oop_init. destruct (oop_initialized s); reflexivity. Qed.

(** What [oop_get_or_create_package] changes, whatever the name: a package
    without parents and without methods may have been added at the end. *)
Lemma get_or_create_find (n : string) (s s1 : State) :
  oop_get_or_create_package n s = Done s1 ->
  oop_initialized s1 = oop_initialized s /\
  values s1 = values s /\
  (forall q, parents_in (oop_packages s1) q = parents_in (oop_packages s) q) /\
  (forall q m, method_in (oop_packages s1) m q = method_in (oop_packages s) m q) /\
  (forall q, is_Some (oop_find_package (oop_packages s) q) ->
     oop_find_package (oop_packages s1) q = oop_find_package (oop_packages s) q) /\
  (forall q i, package_index (oop_packages s) q = Some i ->
     package_index (oop_packages s1) q = Some i).
Proof.
  unfold oop_get_or_create_package.
  destruct (oop_find_package (oop_packages s) n) as [pkg|] eqn:Hfind.
  - intros [= <-]. repeat split; eauto.
  - destruct (_ <=? _); [discriminate|].
    set (nm := strncpy (OOP_MAX_NAME_LEN - 1) n) in *.
    intros H. assert (Hs1 : s1 = with_packages (oop_packages s ++ [mkPackage nm [] []]) s)
      by congruence.
    subst s1. clear H. cbn [oop_initialized oop_packages with_packages values].
    split; [reflexivity|]. split; [reflexivity|]. split; [|split; [|split]].
    + intros q. unfold parents_in. rewrite find_package_app.
      destruct (oop_find_package (oop_packages s) q); [reflexivity|].
      destruct (strcmp_eq _ q); reflexivity.
    + intros q m. unfold method_in. rewrite find_package_app.
      destruct (oop_find_package (oop_packages s) q); [reflexivity|].
      destruct (strcmp_eq _ q); reflexivity.
    + intros q [p0 Hp0]. rewrite find_package_app, Hp0. reflexivity.
    + intros q i Hi. apply package_index_keep. exact Hi.
Qed.

(** The slot that [oop_get_or_create_package] returns for a name that fits
    holds a package of that name. *)
Lemma get_or_create_slot (n : string) (s s1 : State) :
  short_name n ->
  oop_get_or_create_package n s = Done s1 ->
  exists pkg,
    package_index (oop_packages s1) n = Some (returned_slot n s) /\
    oop_packages s1 !! returned_slot n s = Some pkg /\
    oop_find_package (oop_packages s1) n = Some pkg /\
    cstr (name pkg) = cstr n /\
    parents pkg = parents_in (oop_packages s) n /\
    (forall m, find_method (methods pkg) m = method_in (oop_packages s) m n).
Proof.
  intros Hshort. apply kept_name in Hshort.
  unfold oop_get_or_create_package, returned_slot, method_in, parents_in.
  pose proof (package_index_find (oop_packages s) n) as Hidx.
  destruct (package_index (oop_packages s) n) as [i|] eqn:Hi.
  - destruct Hidx as (pkg & Hat & Hfind). rewrite Hfind. intros [= <-].
    exists pkg. split; [exact Hi|]. split; [exact Hat|]. split; [exact Hfind|].
    split; [apply (find_package_name _ _ _ Hfind)|]. split; reflexivity.
  - rewrite Hidx. destruct (_ <=? _); [discriminate|].
    set (nm := strncpy (OOP_MAX_NAME_LEN - 1) n) in *.
    intros H. assert (Hs1 : s1 = with_packages (oop_packages s ++ [mkPackage nm [] []]) s)
      by congruence.
    subst s1. clear H. cbn [oop_packages with_packages].
    assert (Hname : cstr (name (mkPackage nm [] [])) = cstr n)
      by (cbn [name]; rewrite Hshort; apply cstr_idem).
    exists (mkPackage nm [] []).
    split; [apply package_index_app; [exact Hi | exact Hname]|].
    split; [apply list_lookup_middle; reflexivity|].
    split; [|split; [exact Hname | split; reflexivity]].
    rewrite find_package_app, Hidx. cbn [name].
    replace (strcmp_eq nm n) with true by (symmetry; apply strcmp_true; exact Hname).
    reflexivity.
Qed.

Lemma lookup_parents_ext
    (rec rec' : string -> list string -> result (option StradaMethod * list string))
    (ps : list string) :
  (forall q v, rec q v = rec' q v) ->
  forall vis, lookup_parents rec ps vis = lookup_parents rec' ps vis.
Proof.
  intros Hrec. induction ps as [|p ps IH]; intros vis; cbn [lookup_parents]; [reflexivity|].
  rewrite Hrec. destruct (rec' p vis) as [[r v]| | | |]; cbn [bind fst snd]; try reflexivity.
  destruct r; [reflexivity | apply IH].
Qed.

Lemma lookup_in_ext (pkgs pkgs' : list OopPackage) (m : string) :
  (forall q, method_in pkgs m q = method_in pkgs' m q) ->
  (forall q, parents_in pkgs q = parents_in pkgs' q) ->
  forall fuel p vis,
    oop_lookup_method_in fuel pkgs p m vis = oop_lookup_method_in fuel pkgs' p m vis.
Proof.
  intros Hm Hp. induction fuel as [|fuel IH]; intros p vis; cbn [oop_lookup_method_in];
    [reflexivity|].
  destruct (first_is_nul p); [reflexivity|].
  destruct (existsb (fun x => strcmp_eq x p) vis); [reflexivity|].
  specialize (Hm p). specialize (Hp p). unfold method_in, parents_in in Hm, Hp.
  destruct (oop_find_package pkgs p) as [pkg|], (oop_find_package pkgs' p) as [pkg'|].
  - rewrite Hm, Hp. destruct (find_method (methods pkg') m); [reflexivity|].
    apply lookup_parents_ext. intros q v. apply IH.
  - rewrite Hm, Hp. reflexivity.
  - rewrite <- Hm, <- Hp. reflexivity.
  - reflexivity.
Qed.

Lemma register_spec (s s' : State) (pk m : string) (f : StradaMethod) :
  short_name pk -> short_name m ->
  strada_method_register (Some pk) (Some m) (Some f) s = Done s' ->
  oop_initialized s' = true /\
  values s' = values s /\
  method_in (oop_packages s') m pk = Some f /\
  (forall q m', (cstr q <> cstr pk \/ cstr m' <> cstr m) ->
     method_in (oop_packages s') m' q = method_in (oop_packages (strada_oop_init s)) m' q) /\
  (forall q, parents_in (oop_packages s') q = parents_in (oop_packages (strada_oop_init s)) q).
Proof.
  intros Hpk Hm. unfold strada_method_register. cbv zeta.
  intros H. apply bind_done in H as (s1 & Hcreate & H).
  destruct (get_or_create_slot pk _ s1 Hpk Hcreate)
    as (pkg & Hidx & Hat & Hfind1 & Hname & Hpars & Hmeth).
  destruct (get_or_create_find pk _ s1 Hcreate) as (Hinit & Hvals & Hpar1 & Hmeth1 & _).
  rewrite Hat in H. destruct (_ <=? _); [discriminate|]. injection H as <-.
  cbn [oop_initialized oop_packages with_packages values].
  split; [rewrite Hinit; apply oop_init_initialized|].
  split; [rewrite Hvals; apply oop_init_values|].
  assert (Hfind : forall q,
    oop_find_package
      (<[returned_slot pk (strada_oop_init s) :=
           mkPackage (name pkg) (parents pkg) (set_method (methods pkg) m f)]>
         (oop_packages s1)) q
    = if strcmp_eq pk q
      then Some (mkPackage (name pkg) (parents pkg) (set_method (methods pkg) m f))
      else oop_find_package (oop_packages s1) q).
  { intros q. apply find_package_update; [exact Hidx | exact Hname]. }
  split; [|split].
  - unfold method_in. rewrite Hfind, strcmp_refl. cbn [methods].
    apply find_method_set_same. exact Hm.
  - intros q m' Hne. unfold method_in at 1. rewrite Hfind.
    destruct (strcmp_spec pk q) as [Hq|Hq].
    + cbn [methods]. destruct Hne as [Hne|Hne]; [congruence|].
      rewrite find_method_set_other by assumption. rewrite Hmeth.
      unfold method_in. rewrite (find_package_cstr _ pk q Hq). reflexivity.
    + rewrite <- Hmeth1. reflexivity.
  - intros q. unfold parents_in at 1. rewrite Hfind.
    destruct (strcmp_spec pk q) as [Hq|Hq].
    + cbn [parents]. rewrite Hpars. unfold parents_in.
      rewrite (find_package_cstr _ pk q Hq). reflexivity.
    + rewrite <- Hpar1. reflexivity.
Qed.

(** X18.  After [strada_method_register] has returned, the method is
    found: looked up from its own package the registered function comes
    back at once (a package's own method wins over any inherited one), so
    [strada_can] says yes and [strada_method_call] dispatches to it for
    every object blessed into the package.  The resolution of every other
    method name, from every package, is as it was before.  A name is the C
    string in the buffer, its bytes before the first NUL (the registry
    compares with [strcmp]); the names registered must fit the 255 bytes
    that the registry keeps, and the package name must not be empty. *)
Theorem register_then_lookup (s s' : State) (pk m : string) (f : StradaMethod) :
  short_name pk -> short_name m -> cstr pk <> EmptyString ->
  strada_method_register (Some pk) (Some m) (Some f) s = Done s' ->
  (forall fuel, oop_lookup_method (S fuel) s' (Some pk) (Some m) = Done (Some f)) /\
  (forall fuel a v bp,
     values s' !! a = Some v -> blessed_package v = Some bp -> cstr bp = cstr pk ->
     strada_can (S fuel) (Some a) (Some m) s' = Done true /\
     strada_method_call (S fuel) (Some a) (Some m) s' = Done (Invoke f a, s')) /\
  (forall fuel p m', cstr m' <> cstr m ->
     oop_lookup_method fuel s' (Some p) (Some m')
       = oop_lookup_method fuel (strada_oop_init s) (Some p) (Some m')).
Proof.
  intros Hpk Hm Hne Hrun.
  destruct (register_spec s s' pk m f Hpk Hm Hrun) as (Hinit & _ & Hdef & Hother & Hpar).
  assert (Hlook : forall fuel bp, cstr bp = cstr pk ->
            oop_lookup_method (S fuel) s' (Some bp) (Some m) = Done (Some f)).
  { intros fuel bp Hbp. unfold oop_lookup_method. rewrite Hinit. cbn [oop_lookup_method_in].
    replace (first_is_nul bp) with false
      by (symmetry; apply first_is_nul_false; rewrite Hbp; exact Hne).
    cbn [existsb]. unfold method_in in Hdef.
    rewrite (find_package_cstr _ bp pk Hbp).
    destruct (oop_find_package (oop_packages s') pk) as [pkg|]; [|discriminate Hdef].
    rewrite Hdef. reflexivity. }
  split; [intros fuel; apply Hlook; reflexivity|]. split.
  - intros fuel a v bp Hv Hbp Hsame. unfold strada_can, strada_method_call.
    rewrite Hv, Hbp, Hinit, (oop_init_idem s' Hinit), (Hlook fuel bp Hsame).
    split; reflexivity.
  - intros fuel p m' Hm'. unfold oop_lookup_method.
    rewrite Hinit, oop_init_initialized.
    rewrite (lookup_in_ext (oop_packages s') (oop_packages (strada_oop_init s)) m');
      [reflexivity | | exact Hpar].
    intros q. apply Hother. right. exact Hm'.
Qed.

Lemma register_witness :
  short_name "Shape" /\ short_name area_nul_x /\
  exists s',
    strada_method_register (Some "Shape"%string) (Some area_nul_x) (Some 5%nat)
      shape_registry = Done s' /\
    oop_lookup_method 1 s' (Some "Shape"%string) (Some area_nul_x) = Done (Some 5%nat) /\
    strada_method_call 1 (Some 1%nat) (Some area_nul_x) s' = Done (Invoke 5%nat 1%nat, s').
Proof.
  assert (Hpk : short_name "Shape") by reflexivity.
  assert (Hm : short_name area_nul_x) by reflexivity.
  assert (Hrun : exists s',
    strada_method_register (Some "Shape"%string) (Some area_nul_x) (Some 5%nat)
      shape_registry = Done s' /\
    values s' !! 1%nat = Some (mkValue 1 (PRef None) (Some "Shape"%string)))
    by (eexists; split; vm_compute; reflexivity).
  destruct Hrun as (s' & Hrun & Hv).
  destruct (register_then_lookup shape_registry s' "Shape" area_nul_x 5%nat Hpk Hm
              ltac:(discriminate) Hrun) as (Hlook & Hcall & _).
  split; [exact Hpk|]. split; [exact Hm|]. exists s'.
  split; [exact Hrun|]. split; [apply Hlook|].
  apply (Hcall 0%nat 1%nat _ "Shape"%string Hv eq_refl eq_refl).
Defined.

(** ** Inheritance *)

Lemma inherit_spec (s s' : State) (c p : string) :
  short_name c -> short_name p ->
  strada_inherit (Some c) (Some p) s = Done s' ->
  oop_initialized s' = true /\
  values s' = values s /\
  parents_in (oop_packages s') c =
    (if existsb (fun q => strcmp_eq q p) (parents_in (oop_packages (strada_oop_init s)) c)
     then parents_in (oop_packages (strada_oop_init s)) c
     else parents_in (oop_packages (strada_oop_init s)) c ++ [cstr p]) /\
  (forall q, cstr q <> cstr c ->
     parents_in (oop_packages s') q = parents_in (oop_packages (strada_oop_init s)) q) /\
  (forall q m,
     method_in (oop_packages s') m q = method_in (oop_packages (strada_oop_init s)) m q) /\
  (exists pkg,
     oop_find_package (oop_packages s') c = Some pkg /\
     oop_packages s' !! returned_slot c s' = Some pkg).
Proof.
  intros Hc Hp. unfold strada_inherit. cbv zeta.
  intros H. apply bind_done in H as (s1 & Hcreate & H).
  destruct (get_or_create_slot c _ s1 Hc Hcreate)
    as (pkg & Hidx & Hat & Hfind1 & Hname & Hpars & Hmeth).
  destruct (get_or_create_find c _ s1 Hcreate) as (Hinit1 & Hvals1 & Hpar1 & Hmeth1 & _).
  rewrite oop_init_initialized in Hinit1. rewrite oop_init_values in Hvals1.
  rewrite Hat in H. rewrite Hpars in H.
  set (before := parents_in (oop_packages (strada_oop_init s)) c) in *.
  set (i := returned_slot c (strada_oop_init s)) in *.
  assert (Hslot : forall st, package_index (oop_packages st) c = Some i ->
            returned_slot c st = i)
    by (intros st Hst; unfold returned_slot; rewrite Hst; reflexivity).
  destruct (existsb (fun q => strcmp_eq q p) before) eqn:Hex.
  { injection H as <-. split; [exact Hinit1|]. split; [exact Hvals1|].
    split; [unfold parents_in; rewrite Hfind1; exact Hpars|].
    split; [intros q _; apply Hpar1|]. split; [intros q m; apply Hmeth1|].
    exists pkg. split; [exact Hfind1|]. rewrite (Hslot s1 Hidx). exact Hat. }
  destruct (_ <=? _); [discriminate|].
  rewrite (kept_name p Hp) in H.
  set (pkg' := mkPackage (name pkg) (before ++ [cstr p]) (methods pkg)) in *.
  set (s2 := with_packages (<[i := pkg']> (oop_packages s1)) s1) in *.
  assert (Hfind2 : forall q,
            oop_find_package (oop_packages s2) q
            = if strcmp_eq c q then Some pkg' else oop_find_package (oop_packages s1) q).
  { intros q. unfold s2. cbn [oop_packages with_packages].
    apply find_package_update; [exact Hidx | exact Hname]. }
  assert (Hidx2 : package_index (oop_packages s2) c = Some i).
  { unfold s2. cbn [oop_packages with_packages].
    apply package_index_update; [exact Hidx | exact Hname]. }
  assert (Hat2 : oop_packages s2 !! i = Some pkg').
  { unfold s2. cbn [oop_packages with_packages]. apply list_lookup_insert_eq.
    eapply lookup_lt_Some. exact Hat. }
  destruct (get_or_create_find p s2 s' H)
    as (Hinit' & Hvals' & Hpar' & Hmeth' & Hkeep & Hkeepi).
  assert (Hc2 : oop_find_package (oop_packages s2) c = Some pkg')
    by (rewrite Hfind2, strcmp_refl; reflexivity).
  split; [rewrite Hinit'; exact Hinit1|]. split; [rewrite Hvals'; exact Hvals1|].
  split; [|split; [|split]].
  - rewrite Hpar'. unfold parents_in at 1. rewrite Hc2. reflexivity.
  - intros q Hq. rewrite Hpar'. unfold parents_in at 1. rewrite Hfind2.
    replace (strcmp_eq c q) with false by (symmetry; apply strcmp_false; congruence).
    apply Hpar1.
  - intros q m. rewrite Hmeth'. unfold method_in at 1. rewrite Hfind2.
    destruct (strcmp_spec c q) as [Hq|Hq]; [|apply Hmeth1].
    cbn [methods pkg']. rewrite Hmeth. unfold method_in.
    rewrite (find_package_cstr _ c q Hq). reflexivity.
  - exists pkg'. split; [rewrite Hkeep by (rewrite Hc2; eauto); exact Hc2|].
    rewrite (Hslot s' (Hkeepi c i Hidx2)).
    unfold oop_get_or_create_package in H.
    destruct (oop_find_package (oop_packages s2) p); [injection H as <-; exact Hat2|].
    destruct (_ <=? _); [discriminate|]. injection H as <-.
    cbn [oop_packages with_packages]. apply lookup_app_l_Some. exact Hat2.
Qed.

(** X19.  [strada_inherit] makes the parent one of the child's parents, at
    the end of the list, so that the parents there before keep their
    precedence and the first parent stays the first; no method and no other
    package's parents change.  A second call with the same names changes
    nothing: a parent is never listed twice.  A name is the C string in the
    buffer, its bytes before the first NUL; it is what the registry stores
    and compares ([strcmp]).  The names must fit the 255 bytes that the
    registry keeps. *)
Theorem inherit_adds_parent_once (s s' : State) (c p : string) :
  short_name c -> short_name p ->
  strada_inherit (Some c) (Some p) s = Done s' ->
  let before := parents_in (oop_packages (strada_oop_init s)) c in
  (exists x, x ∈ parents_in (oop_packages s') c /\ cstr x = cstr p) /\
  parents_in (oop_packages s') c
    = (if existsb (fun q => strcmp_eq q p) before then before else before ++ [cstr p]) /\
  strada_get_parent_package (Some c) s' = Some (default (cstr p) (head before)) /\
  (forall q, cstr q <> cstr c ->
     parents_in (oop_packages s') q = parents_in (oop_packages (strada_oop_init s)) q) /\
  (forall q m,
     method_in (oop_packages s') m q = method_in (oop_packages (strada_oop_init s)) m q) /\
  (cstr c <> EmptyString -> cstr p <> EmptyString -> inherits (oop_packages s') c p) /\
  strada_inherit (Some c) (Some p) s' = Done s'.
Proof.
  intros Hc Hp Hrun before.
  destruct (inherit_spec s s' c p Hc Hp Hrun)
    as (Hinit & _ & Hpar & Hother & Hmeth & pkg & Hpkg & Hat).
  fold before in Hpar.
  assert (Hin : exists x, x ∈ parents_in (oop_packages s') c /\ cstr x = cstr p).
  { rewrite Hpar. destruct (existsb _ before) eqn:Hex.
    - apply existsb_strcmp. exact Hex.
    - exists (cstr p). split; [|apply cstr_idem].
      apply elem_of_app. right. apply list_elem_of_singleton. reflexivity. }
  assert (Hparents : parents pkg = parents_in (oop_packages s') c)
    by (unfold parents_in; rewrite Hpkg; reflexivity).
  split; [exact Hin|]. split; [exact Hpar|]. split; [|split; [exact Hother|split;
    [exact Hmeth|split]]].
  - unfold strada_get_parent_package. rewrite Hinit, Hpkg, Hparents, Hpar.
    destruct (existsb _ before) eqn:Hex.
    + destruct before as [|x l]; [discriminate Hex | reflexivity].
    + destruct before as [|x l]; reflexivity.
  - intros Hcne Hpne. destruct Hin as (x & Hx & Hxp). exists x. split; [|exact Hxp].
    apply (reaches_parent _ c x x pkg Hcne Hpkg); [rewrite Hparents; exact Hx|].
    apply reaches_here. rewrite Hxp. exact Hpne.
  - unfold strada_inherit. cbv zeta. rewrite (oop_init_idem s' Hinit).
    unfold oop_get_or_create_package at 1. rewrite Hpkg. cbn [bind]. rewrite Hat, Hparents.
    replace (existsb (fun q => strcmp_eq q p) (parents_in (oop_packages s') c)) with true
      by (symmetry; apply existsb_strcmp; exact Hin).
    reflexivity.
Qed.

Lemma inherit_witness :
  short_name "Shape" /\ short_name base_nul_x /\
  exists s',
    strada_inherit (Some "Shape"%string) (Some base_nul_x) shape_registry = Done s' /\
    parents_in (oop_packages s') "Shape" = ["Base"%string] /\
    strada_inherit (Some "Shape"%string) (Some base_nul_x) s' = Done s'.
Proof.
  assert (Hc : short_name "Shape") by reflexivity.
  assert (Hp : short_name base_nul_x) by reflexivity.
  assert (Hrun : exists s',
    strada_inherit (Some "Shape"%string) (Some base_nul_x) shape_registry = Done s')
    by (eexists; vm_compute; reflexivity).
  destruct Hrun as (s' & Hrun).
  destruct (inherit_adds_parent_once shape_registry s' "Shape" base_nul_x Hc Hp Hrun)
    as (_ & Hpar & _ & _ & _ & _ & Hagain).
  split; [exact Hc|]. split; [exact Hp|]. exists s'.
  split; [exact Hrun|]. split; [exact Hpar | exact Hagain].
Defined.

(** ** Package names and destructors *)

Lemma scan_package_spec (n : nat) : forall (pk : string),
  scan_package n pk =
    if forallb printable (take n (String.list_ascii_of_string (cstr pk)))
    then Some (Nat.min n (String.length (cstr pk))) else None.
Proof.
  induction n as [|n IH]; intros pk; [reflexivity|].
  destruct pk as [|c pk]; [reflexivity|].
  cbn [scan_package cstr]. destruct (Ascii.eqb c NUL); [reflexivity|].
  cbn [String.list_ascii_of_string take forallb String.length Nat.min].
  destruct (printable c); [|reflexivity]. cbn [andb]. rewrite IH.
  destruct (forallb printable (take n (String.list_ascii_of_string (cstr pk)))); reflexivity.
Qed.

Lemma length_list_ascii (pk : string) :
  length (String.list_ascii_of_string pk) = String.length pk.
Proof. induction pk as [|c pk IH]; [reflexivity|]. cbn. rewrite IH. reflexivity. Qed.

(** X20.  [strada_validate_blessed_package] accepts exactly the names of 1
    to 255 bytes that are all printable ASCII (codes 32 to 126), the name
    being the C string in the buffer, its bytes before the first NUL: the
    empty name, a name of 256 bytes or more, and a name with any other byte
    in it (a control character, or any byte of a UTF-8 sequence) are taken
    for corrupted. *)
Theorem validate_accepts_printable_names (pk : string) :
  strada_validate_blessed_package (Some pk) = true <->
  (0 < String.length (cstr pk) < 256)%nat /\
  Forall (fun c => printable c = true) (String.list_ascii_of_string (cstr pk)).
Proof.
  unfold strada_validate_blessed_package.
  destruct pk as [|c pk]; [cbn; split; [discriminate | lia]|].
  destruct (Ascii.eqb c NUL) eqn:Hc.
  { apply Ascii.eqb_eq in Hc. subst c.
    change (printable NUL) with false. cbv iota.
    change (cstr (String NUL pk)) with EmptyString. cbn. split; [discriminate | lia]. }
  rewrite scan_package_spec.
  assert (Hcs : cstr (String c pk) = String c (cstr pk))
    by (cbn [cstr]; rewrite Hc; reflexivity).
  rewrite Hcs.
  set (chars := String.list_ascii_of_string (String c (cstr pk))).
  assert (Hlen : length chars = String.length (String c (cstr pk))) by apply length_list_ascii.
  assert (Hhead : forallb printable (take 256 chars) = true -> printable c = true).
  { unfold chars. cbn [String.list_ascii_of_string take forallb].
    intros H. apply andb_true_iff in H as [H _]. exact H. }
  destruct (Nat.lt_ge_cases (String.length (String c (cstr pk))) 256) as [Hshort|Hlong].
  - rewrite take_ge by lia. rewrite Nat.min_r by lia.
    rewrite take_ge in Hhead by lia.
    destruct (forallb printable chars) eqn:Hall.
    + rewrite (Hhead eq_refl).
      replace (String.length (String c (cstr pk)) =? 0)%nat with false
        by (symmetry; apply Nat.eqb_neq; cbn; lia).
      replace (256 <=? String.length (String c (cstr pk)))%nat with false
        by (symmetry; apply Nat.leb_gt; lia).
      cbn [orb negb]. split; [|reflexivity]. intros _. split; [cbn in *; lia|].
      apply Forall_forall. intros x Hx. rewrite forallb_forall in Hall.
      apply Hall, list_elem_of_In. exact Hx.
    + split.
      * destruct (printable c); discriminate.
      * intros [_ HF].
        assert (Htrue : forallb printable chars = true).
        { apply forallb_forall. intros x Hx. rewrite Forall_forall in HF.
          apply HF, list_elem_of_In. exact Hx. }
        congruence.
  - split; [|lia]. rewrite Nat.min_l by lia.
    destruct (printable c); [|discriminate].
    destruct (forallb printable (take 256 chars)); discriminate.
Qed.

(** X21.  An object whose tag fails that validation, or which is blessed
    but not a reference, is released without its [DESTROY]: when
    [strada_free_value] returns, the object is gone, the profiling hook has
    seen one release of it, and no destructor has been invoked for it,
    whatever the package defines. *)
Theorem rejected_tag_skips_destroy (native : Native) (n : nat) (s s' : State) (p : addr)
    (v : StradaValue) (pk : string) :
  values s !! p = Some v ->
  blessed_package v = Some pk ->
  is_ref (value v) = false \/ strada_validate_blessed_package (Some pk) = false ->
  strada_free_value native (S n) (Some p) s = Done s' ->
  values s' !! p = None /\
  destroy_count p s' = destroy_count p s /\
  (In (EvNonRefBlessed p) (trace s') \/ In (EvCorruptPackage p) (trace s')).
Proof.
  intros Hv Hpk Hbad H.
  cbn [strada_free_value] in H. rewrite Hv, Hpk in H.
  set (s0 := log (EvFree p) s) in *.
  assert (Hfirst : exists e,
    (e = EvNonRefBlessed p \/ e = EvCorruptPackage p) /\
    (if negb (is_ref (value v))
     then Done (set_blessed p None (log (EvNonRefBlessed p) s0))
     else if negb (strada_validate_blessed_package (Some pk))
          then Done (set_blessed p None (log (EvCorruptPackage p) s0))
          else s'' <- call_destroy_body native n (decref_body (strada_free_value native n))
                        (Some p) s0 ;;
               match values s'' !! p with
               | Some _ => Done (set_blessed p None s'')
               | None => Fault
               end)
    = Done (set_blessed p None (log e s0))).
  { destruct (is_ref (value v)); cbn [negb].
    - destruct Hbad as [Hbad|Hbad]; [discriminate|]. rewrite Hbad. cbn [negb].
      exists (EvCorruptPackage p). auto.
    - exists (EvNonRefBlessed p). auto. }
  destruct Hfirst as (e & He & Hfirst). rewrite Hfirst in H. cbn [bind] in H.
  set (s1 := set_blessed p None (log e s0)) in *.
  destruct (values s1 !! p) as [v1|] eqn:Hv1; [|discriminate H].
  apply bind_done in H as (s2 & H2 & H).
  destruct (values s2 !! p) as [v2|] eqn:Hv2; [|discriminate H].
  injection H as <-.
  assert (Hu : untagged_or_gone p s1).
  { intros w Hw. unfold s1, set_blessed in Hw.
    change (values (log e s0)) with (values s) in Hw. rewrite Hv in Hw.
    cbn [values with_values] in Hw. rewrite lookup_insert_eq in Hw.
    injection Hw as <-. reflexivity. }
  pose proof (release_payload_preserves _ (stays_untagged_invariant p) _ _ _ _ _ H2 Hu)
    as [_ Hc2].
  pose proof (release_payload_preserves _ extends_trace_invariant _ _ _ _ _ H2) as [l2 Hl2].
  split; [apply lookup_delete_eq|]. split.
  - change (destroy_count p (with_values (delete p (values s2)) s2))
      with (destroy_count p s2).
    rewrite Hc2. unfold s1, s0. rewrite destroy_count_set_blessed, !destroy_count_log.
    destruct He as [-> | ->]; reflexivity.
  - change (trace (with_values (delete p (values s2)) s2)) with (trace s2).
    rewrite Hl2. unfold s1. rewrite trace_set_blessed. cbn [log trace].
    destruct He as [-> | ->]; [left | right]; apply in_or_app; left; apply in_or_app;
      right; left; reflexivity.
Qed.

Lemma rejected_tag_witness :
  exists s',
    strada_validate_blessed_package (Some (String (Ascii.ascii_of_nat 233) "t")) = false /\
    oop_lookup_method 1 accented_object (Some (String (Ascii.ascii_of_nat 233) "t"))
      (Some "DESTROY"%string) = Done (Some 9%nat) /\
    strada_free_value no_native 1 (Some 1%nat) accented_object = Done s' /\
    values s' !! 1%nat = None /\
    destroy_count 1%nat s' = destroy_count 1%nat accented_object.
Proof.
  assert (Hbad : strada_validate_blessed_package (Some (String (Ascii.ascii_of_nat 233) "t"))
            = false) by reflexivity.
  assert (Hrun : exists s', strada_free_value no_native 1 (Some 1%nat) accented_object = Done s')
    by (eexists; vm_compute; reflexivity).
  destruct Hrun as [s' Hrun].
  destruct (rejected_tag_skips_destroy no_native 0 accented_object s' 1%nat
              (mkValue 1 (PRef None) (Some (String (Ascii.ascii_of_nat 233) "t")))
              (String (Ascii.ascii_of_nat 233) "t") eq_refl eq_refl (or_intror Hbad) Hrun)
    as (Hgone & Hcount & _).
  exists s'. split; [exact Hbad|]. split; [vm_compute; reflexivity|].
  split; [exact Hrun|]. split; [exact Hgone | exact Hcount].
Defined.

Lemma initialized_set_blessed (s : State) (b : addr) (pk : option string) :
  oop_initialized (set_blessed b pk s) = oop_initialized s.
Proof. unfold set_blessed. destruct (values s !! b); reflexivity. Qed.

Lemma get_or_create_initialized (n : string) (s s1 : State) :
  oop_get_or_create_package n s = Done s1 -> oop_initialized s1 = oop_initialized s.
Proof.
  unfold oop_get_or_create_package. destruct (oop_find_package _ n); [intros [= <-]; reflexivity|].
  destruct (_ <=? _); [discriminate|]. intros [= <-]. reflexivity.
Qed.

(** X22.  [strada_bless] returns the pointer it was given and tags the
    value with a copy of the package name, the C string in the buffer (its
    bytes before the first NUL): afterwards [strada_blessed] returns a new
    [Str] with one owner that holds that name, [strada_isa] says yes for
    the package unless the name is empty, and a further [strada_bless]
    replaces the tag.  The registry is initialised by the call if it was
    not. *)
Theorem bless_then_blessed (fuel : nat) (s s1 : State) (a : addr) (pk : string) (r : ptr) :
  strada_bless (Some a) (Some pk) s = Done (r, s1) ->
  r = Some a /\
  oop_initialized s1 = true /\
  (exists v, values s !! a = Some v /\
     values s1 !! a = Some (mkValue (refcount v) (value v) (Some (cstr pk)))) /\
  (exists q s2,
     strada_blessed (Some a) s1 = Done (q, s2) /\
     values s1 !! q = None /\
     values s2 !! q = Some (mkValue 1 (PStr (Some (cstr pk))) None)) /\
  (cstr pk <> EmptyString -> strada_isa (S fuel) (Some a) (Some pk) s1 = Done true) /\
  (forall pk2 r2 s2,
     strada_bless (Some a) (Some pk2) s1 = Done (r2, s2) ->
     exists v2, values s2 !! a = Some v2 /\ blessed_package v2 = Some (cstr pk2)).
Proof.
  intros Hrun.
  assert (Hv : exists v, values s !! a = Some v).
  { unfold strada_bless in Hrun. destruct (values s !! a) as [v|]; [eauto | discriminate]. }
  destruct Hv as [v Hv].
  destruct (bless_ignores_type s s1 a v pk r Hv Hrun) as [Hr Hv1].
  assert (Hinit : oop_initialized s1 = true).
  { unfold strada_bless in Hrun. rewrite Hv in Hrun.
    apply bind_done in Hrun as (s0 & Hcreate & Hrun). injection Hrun as _ <-.
    rewrite initialized_set_blessed, (get_or_create_initialized _ _ _ Hcreate).
    apply oop_init_initialized. }
  split; [exact Hr|]. split; [exact Hinit|]. split; [eauto|]. split; [|split].
  - unfold strada_blessed. rewrite Hv1. cbn [blessed_package].
    eexists _, _. split; [reflexivity|].
    unfold strada_new_str, alloc_value. cbn [fst snd values with_values].
    split; [apply fresh_value_unused | rewrite cstr_idem; apply lookup_insert_eq].
  - intros Hne. unfold strada_isa. rewrite Hv1. cbn [blessed_package]. rewrite Hinit.
    cbn [oop_isa_check].
    replace (first_is_nul (cstr pk)) with false
      by (symmetry; apply first_is_nul_false; rewrite cstr_idem; exact Hne).
    rewrite strcmp_cstr_l, strcmp_refl. reflexivity.
  - intros pk2 r2 s2 Hrun2.
    destruct (bless_ignores_type s1 s2 a _ pk2 r2 Hv1 Hrun2) as [_ Hv2].
    eexists. split; [exact Hv2 | reflexivity].
Qed.

Lemma bless_witness :
  exists s1 q s2,
    strada_bless (Some 1%nat) (Some base_nul_x) shape_registry = Done (Some 1%nat, s1) /\
    strada_blessed (Some 1%nat) s1 = Done (q, s2) /\
    values s2 !! q = Some (mkValue 1 (PStr (Some "Base"%string)) None) /\
    strada_isa 1 (Some 1%nat) (Some base_nul_x) s1 = Done true.
Proof.
  assert (Hrun : exists s1,
    strada_bless (Some 1%nat) (Some base_nul_x) shape_registry = Done (Some 1%nat, s1))
    by (eexists; vm_compute; reflexivity).
  destruct Hrun as [s1 Hrun].
  destruct (bless_then_blessed 0 shape_registry s1 1%nat base_nul_x _ Hrun)
    as (_ & _ & _ & (q & s2 & Hbl & _ & Hstr) & Hisa & _).
  exists s1, q, s2. split; [exact Hrun|]. split; [exact Hbl|].
  split; [exact Hstr|]. apply Hisa. discriminate.
Defined.

(** ** References *)

Lemma with_values_id (s : State) : with_values (values s) s = s.
Proof. destruct s; reflexivity. Qed.

Lemma ref_create_spec (s : State) (t : addr) (v : StradaValue) :
  values s !! t = Some v ->
  1 <= refcount v < INT_MAX ->
  let r := fresh (dom (values s)) in
  strada_ref_create (Some t) s
    = Done (r, with_values
                 (<[t := mkValue (refcount v + 1) (value v) (blessed_package v)]>
                    (<[r := mkValue 1 (PRef (Some t)) None]> (values s))) s) /\
  values s !! r = None /\ r <> t.
Proof.
  intros Hv Hrc r.
  assert (Hfresh : values s !! r = None) by apply fresh_value_unused.
  assert (Hne : r <> t) by congruence.
  split; [|split; assumption].
  unfold strada_ref_create, alloc_value, strada_incref. cbn [fst snd values with_values].
  fold r. rewrite lookup_insert_ne by exact Hne. rewrite Hv. cbn [bind].
  unfold set_refcount. cbn [values with_values]. rewrite lookup_insert_ne by exact Hne.
  rewrite Hv. rewrite int32_small by (unfold INT_MIN, INT_MAX in *; lia). reflexivity.
Qed.

(** X23.  [strada_ref_create] allocates a new [Ref] value with one owner
    and takes one share of its referent ([strada_ref_create_take] allocates
    the same reference and takes none); [strada_ref_deref] then yields the
    referent as it is, [strada_deref] yields it with one more owner, and
    [strada_is_ref] says yes.  Releasing the reference gives
    the share back and frees only the reference: the state is again the one
    before the reference was created, the profiling hook having seen one
    release. *)
Theorem ref_create_then_release (native : Native) (fuel : nat) (s : State) (t : addr)
    (v : StradaValue) :
  values s !! t = Some v ->
  1 <= refcount v < INT_MAX ->
  exists r s1,
    strada_ref_create (Some t) s = Done (r, s1) /\
    values s !! r = None /\
    values s1 !! r = Some (mkValue 1 (PRef (Some t)) None) /\
    values s1 !! t = Some (mkValue (refcount v + 1) (value v) (blessed_package v)) /\
    strada_is_ref (Some r) s1 = Done true /\
    strada_ref_deref (Some r) s1 = Done (Some t, s1) /\
    strada_deref (Some r) s1
      = Done (Some t, set_refcount t (int32 (refcount v + 1 + 1)) s1) /\
    strada_ref_create_take (Some t) s
      = (r, with_values (<[r := mkValue 1 (PRef (Some t)) None]> (values s)) s) /\
    strada_decref native (S fuel) (Some r) s1 = Done (log (EvFree r) s).
Proof.
  intros Hv Hrc.
  destruct (ref_create_spec s t v Hv Hrc) as (Hcreate & Hfresh & Hne).
  set (r := fresh (dom (values s))) in *.
  set (vt := mkValue (refcount v + 1) (value v) (blessed_package v)).
  set (vr := mkValue 1 (PRef (Some t)) None).
  set (s1 := with_values (<[t := vt]> (<[r := vr]> (values s))) s) in *.
  assert (Hr1 : values s1 !! r = Some vr).
  { unfold s1. cbn [values with_values]. rewrite lookup_insert_ne by congruence.
    apply lookup_insert_eq. }
  assert (Ht1 : values s1 !! t = Some vt) by apply lookup_insert_eq.
  exists r, s1. split; [exact Hcreate|]. split; [exact Hfresh|].
  split; [exact Hr1|]. split; [exact Ht1|].
  split; [unfold strada_is_ref; rewrite Hr1; reflexivity|].
  split; [unfold strada_ref_deref; rewrite Hr1; reflexivity|].
  split; [unfold strada_deref, strada_incref; rewrite Hr1; cbn [value vr]; rewrite Ht1;
          reflexivity|].
  split; [reflexivity|].
  unfold strada_decref, decref_body. rewrite Hr1. cbn [refcount vr].
  change (int32 (1 - 1)) with 0. change (0 <=? 0) with true. cbv iota.
  set (s2 := set_refcount r 0 s1).
  assert (Hr2 : values s2 !! r = Some (mkValue 0 (PRef (Some t)) None))
    by (apply (set_refcount_lookup s1 r vr 0 Hr1)).
  assert (Ht2 : values s2 !! t = Some vt).
  { unfold s2, set_refcount. rewrite Hr1. cbn [values with_values].
    rewrite lookup_insert_ne by exact Hne. exact Ht1. }
  cbn [strada_free_value]. rewrite Hr2. cbn [blessed_package bind value].
  rewrite values_log, Hr2. cbn [value release_payload].
  unfold decref_body at 1. rewrite values_log, Ht2. cbn [refcount vt].
  replace (refcount v + 1 - 1) with (refcount v) by lia.
  rewrite int32_small by (unfold INT_MIN, INT_MAX in *; lia).
  replace (refcount v <=? 0) with false by (symmetry; apply Z.leb_gt; lia).
  cbn [bind].
  set (s3 := set_refcount t (refcount v) (log (EvFree r) s2)).
  assert (Hr3 : values s3 !! r = Some (mkValue 0 (PRef (Some t)) None)).
  { unfold s3, set_refcount. rewrite values_log, Ht2. cbn [values with_values].
    rewrite lookup_insert_ne by congruence. exact Hr2. }
  rewrite Hr3. f_equal.
  assert (Hvals : delete r (values s3) = values s).
  { apply map_eq. intros i. destruct (decide (i = r)) as [->|Hir].
    - rewrite lookup_delete_eq, Hfresh. reflexivity.
    - rewrite lookup_delete_ne by congruence.
      unfold s3, set_refcount. rewrite values_log, Ht2. cbn [values with_values log].
      destruct (decide (i = t)) as [->|Hit].
      + rewrite lookup_insert_eq, Hv. destruct v; reflexivity.
      + rewrite lookup_insert_ne by congruence.
        unfold s2, set_refcount. rewrite Hr1. cbn [values with_values].
        rewrite lookup_insert_ne by congruence. unfold s1. cbn [values with_values].
        rewrite lookup_insert_ne by congruence. rewrite lookup_insert_ne by congruence.
        reflexivity. }
  rewrite Hvals.
  unfold s3, set_refcount. rewrite values_log, Ht2.
  unfold s2, set_refcount. rewrite Hr1. unfold s1.
  destruct s; reflexivity.
Qed.

Lemma ref_create_witness :
  values two_element_state !! 3%nat = Some (mkValue 1 (PInt 30) None) /\
  1 <= 1 < INT_MAX /\
  exists r s1,
    strada_ref_create (Some 3%nat) two_element_state = Done (r, s1) /\
    strada_ref_deref (Some r) s1 = Done (Some 3%nat, s1) /\
    strada_decref no_native 1 (Some r) s1 = Done (log (EvFree r) two_element_state).
Proof.
  assert (Hv : values two_element_state !! 3%nat = Some (mkValue 1 (PInt 30) None))
    by reflexivity.
  assert (Hrc : 1 <= refcount (mkValue 1 (PInt 30) None) < INT_MAX)
    by (unfold INT_MAX; cbn; lia).
  destruct (ref_create_then_release no_native 0 two_element_state 3%nat _ Hv Hrc)
    as (r & s1 & Hcreate & _ & _ & _ & _ & Hderef & _ & _ & Hrel).
  split; [exact Hv|]. split; [exact Hrc|].
  exists r, s1. split; [exact Hcreate|]. split; [exact Hderef | exact Hrel].
Defined.

(** ** UTF-8 *)

Lemma holds_below_spec (n : nat) (P : Z -> bool) :
  holds_below n P = true -> forall x, 0 <= x < Z.of_nat n -> P x = true.
Proof.
  unfold holds_below. rewrite forallb_forall. intros H x Hx. apply H.
  apply in_map_iff. exists (Z.to_nat x). split; [lia|]. apply in_seq. lia.
Qed.

Lemma lor_shiftl_add (a b n : Z) :
  0 <= n -> 0 <= b < 2 ^ n -> Z.lor (Z.shiftl a n) b = a * 2 ^ n + b.
Proof.
  intros Hn Hb.
  assert (Hland : Z.land (Z.shiftl a n) b = 0).
  { apply Z.bits_inj'. intros i Hi. rewrite Z.land_spec, Z.bits_0.
    destruct (Z.lt_ge_cases i n) as [Hlt|Hge].
    - rewrite Z.shiftl_spec_low by exact Hlt. reflexivity.
    - rewrite <- (Z.mod_small b (2 ^ n)) by exact Hb.
      rewrite Z.mod_pow2_bits_high by lia. apply andb_false_r. }
  pose proof (Z.add_lor_land (Z.shiftl a n) b) as Hadd.
  rewrite Hland, Z.add_0_r, Z.shiftl_mul_pow2 in Hadd by exact Hn.
  rewrite Z.shiftl_mul_pow2 by exact Hn. exact Hadd.
Qed.

Lemma land_63 (x : Z) : Z.land x 0x3F = x mod 64.
Proof. change 0x3F with (Z.ones 6). rewrite Z.land_ones by lia. reflexivity. Qed.

Lemma continuation_byte (x : Z) :
  0 <= x < 64 ->
  byte (Z.lor 0x80 x) <> 0 /\ Z.land (byte (Z.lor 0x80 x)) 0x3F = x.
Proof.
  intros Hx.
  pose proof (holds_below_spec 64
                (fun x => negb (byte (Z.lor 0x80 x) =? 0)
                          && (Z.land (byte (Z.lor 0x80 x)) 0x3F =? x))
                ltac:(vm_compute; reflexivity) x ltac:(lia)) as H.
  apply andb_true_iff in H as [H1 H2]. apply negb_true_iff, Z.eqb_neq in H1.
  apply Z.eqb_eq in H2. split; assumption.
Qed.

Lemma lead_byte_2 (x : Z) :
  2 <= x < 32 ->
  byte (Z.lor 0xC0 x) <> 0 /\ utf8_char_len (byte (Z.lor 0xC0 x)) = 2 /\
  Z.land (byte (Z.lor 0xC0 x)) 0x1F = x.
Proof.
  intros Hx.
  pose proof (holds_below_spec 32
                (fun x => negb (byte (Z.lor 0xC0 x) =? 0)
                          && (utf8_char_len (byte (Z.lor 0xC0 x)) =? 2)
                          && (Z.land (byte (Z.lor 0xC0 x)) 0x1F =? x))
                ltac:(vm_compute; reflexivity) x ltac:(lia)) as H.
  apply andb_true_iff in H as [H H3]. apply andb_true_iff in H as [H1 H2].
  apply negb_true_iff, Z.eqb_neq in H1. apply Z.eqb_eq in H2, H3. auto.
Qed.

Lemma lead_byte_3 (x : Z) :
  0 <= x < 16 ->
  byte (Z.lor 0xE0 x) <> 0 /\ utf8_char_len (byte (Z.lor 0xE0 x)) = 3 /\
  Z.land (byte (Z.lor 0xE0 x)) 0x0F = x.
Proof.
  intros Hx.
  pose proof (holds_below_spec 16
                (fun x => negb (byte (Z.lor 0xE0 x) =? 0)
                          && (utf8_char_len (byte (Z.lor 0xE0 x)) =? 3)
                          && (Z.land (byte (Z.lor 0xE0 x)) 0x0F =? x))
                ltac:(vm_compute; reflexivity) x ltac:(lia)) as H.
  apply andb_true_iff in H as [H H3]. apply andb_true_iff in H as [H1 H2].
  apply negb_true_iff, Z.eqb_neq in H1. apply Z.eqb_eq in H2, H3. auto.
Qed.

Lemma lead_byte_4 (x : Z) :
  0 <= x < 8 ->
  byte (Z.lor 0xF0 x) <> 0 /\ utf8_char_len (byte (Z.lor 0xF0 x)) = 4 /\
  Z.land (byte (Z.lor 0xF0 x)) 0x07 = x.
Proof.
  intros Hx.
  pose proof (holds_below_spec 8
                (fun x => negb (byte (Z.lor 0xF0 x) =? 0)
                          && (utf8_char_len (byte (Z.lor 0xF0 x)) =? 4)
                          && (Z.land (byte (Z.lor 0xF0 x)) 0x07 =? x))
                ltac:(vm_compute; reflexivity) x ltac:(lia)) as H.
  apply andb_true_iff in H as [H H3]. apply andb_true_iff in H as [H1 H2].
  apply negb_true_iff, Z.eqb_neq in H1. apply Z.eqb_eq in H2, H3. auto.
Qed.

Lemma ascii_byte (x : Z) :
  0 <= x < 128 -> byte x = x /\ utf8_char_len x = 1.
Proof.
  intros Hx.
  pose proof (holds_below_spec 128
                (fun x => (byte x =? x) && (utf8_char_len x =? 1))
                ltac:(vm_compute; reflexivity) x ltac:(lia)) as H.
  apply andb_true_iff in H as [H1 H2]. apply Z.eqb_eq in H1, H2. auto.
Qed.

Lemma ord_of_encoded (cp : Z) :
  0 <= cp < 0x110000 -> strada_ord (Some (utf8_encode cp ++ [0])) = Done cp.
Proof.
  intros Hcp.
  assert (Hint : forall x, x = cp -> int32 x = cp).
  { intros x ->. apply int32_small. unfold INT_MIN, INT_MAX. lia. }
  unfold utf8_encode.
  destruct (Z.ltb_spec cp 0x80) as [H1|H1].
  { destruct (ascii_byte cp ltac:(lia)) as [Hb Hlen]. rewrite Hb.
    unfold strada_ord. cbn [app lookup list_lookup].
    destruct (Z.eqb_spec cp 0) as [->|Hnz]; [reflexivity|].
    unfold utf8_decode. cbn [lookup list_lookup]. rewrite Hlen. cbn [Z.eqb Pos.eqb bind fst].
    rewrite (Hint cp eq_refl). reflexivity. }
  assert (Hlow : Z.land cp 0x3F = cp mod 64) by apply land_63.
  assert (Hlow_range : 0 <= cp mod 64 < 64) by (apply Z.mod_pos_bound; lia).
  destruct (continuation_byte (Z.land cp 0x3F) ltac:(lia)) as [_ Hc0].
  destruct (Z.ltb_spec cp 0x800) as [H2|H2].
  { assert (Ha : Z.shiftr cp 6 = cp / 64) by (rewrite Z.shiftr_div_pow2 by lia; reflexivity).
    destruct (lead_byte_2 (Z.shiftr cp 6)) as (Hnz & Hlen & Hland).
    { rewrite Ha. split; [apply Z.div_le_lower_bound | apply Z.div_lt_upper_bound]; lia. }
    unfold strada_ord. cbn [app lookup list_lookup].
    replace (byte (Z.lor 192 (Z.shiftr cp 6)) =? 0) with false
      by (symmetry; apply Z.eqb_neq; exact Hnz).
    unfold utf8_decode. cbn [lookup list_lookup]. rewrite Hlen. cbn [Z.eqb Pos.eqb].
    rewrite Hland, Hc0. cbn [bind fst]. f_equal. apply Hint.
    rewrite lor_shiftl_add by lia. rewrite Ha, Hlow.
    pose proof (Z.div_mod cp 64 ltac:(lia)). change (2 ^ 6) with 64. lia. }
  assert (Hmid : Z.land (Z.shiftr cp 6) 0x3F = (cp / 64) mod 64)
    by (rewrite land_63, Z.shiftr_div_pow2 by lia; reflexivity).
  assert (Hmid_range : 0 <= (cp / 64) mod 64 < 64) by (apply Z.mod_pos_bound; lia).
  destruct (continuation_byte (Z.land (Z.shiftr cp 6) 0x3F) ltac:(lia)) as [_ Hc1].
  destruct (Z.ltb_spec cp 0x10000) as [H3|H3].
  { assert (Ha : Z.shiftr cp 12 = cp / 4096)
      by (rewrite Z.shiftr_div_pow2 by lia; reflexivity).
    destruct (lead_byte_3 (Z.shiftr cp 12)) as (Hnz & Hlen & Hland).
    { rewrite Ha. split; [apply Z.div_le_lower_bound | apply Z.div_lt_upper_bound]; lia. }
    unfold strada_ord. cbn [app lookup list_lookup].
    replace (byte (Z.lor 224 (Z.shiftr cp 12)) =? 0) with false
      by (symmetry; apply Z.eqb_neq; exact Hnz).
    unfold utf8_decode. cbn [lookup list_lookup]. rewrite Hlen. cbn [Z.eqb Pos.eqb].
    rewrite Hland, Hc0, Hc1. cbn [bind fst]. f_equal. apply Hint.
    rewrite Hmid, Hlow, Ha.
    rewrite (Z.shiftl_mul_pow2 ((cp / 64) mod 64) 6) by lia.
    rewrite (lor_shiftl_add (cp / 4096) (_ * 2 ^ 6) 12) by (change (2 ^ 6) with 64;
      change (2 ^ 12) with 4096; lia).
    replace (cp / 4096 * 2 ^ 12 + (cp / 64) mod 64 * 2 ^ 6)
      with (Z.shiftl (cp / 64) 6).
    2:{ rewrite Z.shiftl_mul_pow2 by lia. change (2 ^ 6) with 64. change (2 ^ 12) with 4096.
        pose proof (Z.div_mod (cp / 64) 64 ltac:(lia)).
        replace (cp / 4096) with (cp / 64 / 64) by (rewrite Z.div_div by lia; reflexivity).
        lia. }
    rewrite lor_shiftl_add by lia.
    pose proof (Z.div_mod cp 64 ltac:(lia)). change (2 ^ 6) with 64. lia. }
  assert (Hhi : Z.land (Z.shiftr cp 12) 0x3F = (cp / 4096) mod 64)
    by (rewrite land_63, Z.shiftr_div_pow2 by lia; reflexivity).
  assert (Hhi_range : 0 <= (cp / 4096) mod 64 < 64) by (apply Z.mod_pos_bound; lia).
  destruct (continuation_byte (Z.land (Z.shiftr cp 12) 0x3F) ltac:(lia)) as [_ Hc2].
  replace (cp <? 1114112) with true by (symmetry; apply Z.ltb_lt; lia).
  assert (Ha : Z.shiftr cp 18 = cp / 262144)
    by (rewrite Z.shiftr_div_pow2 by lia; reflexivity).
  destruct (lead_byte_4 (Z.shiftr cp 18)) as (Hnz & Hlen & Hland).
  { rewrite Ha. split; [apply Z.div_le_lower_bound | apply Z.div_lt_upper_bound]; lia. }
  unfold strada_ord. cbn [app lookup list_lookup].
  replace (byte (Z.lor 240 (Z.shiftr cp 18)) =? 0) with false
    by (symmetry; apply Z.eqb_neq; exact Hnz).
  unfold utf8_decode. cbn [lookup list_lookup]. rewrite Hlen. cbn [Z.eqb Pos.eqb].
  rewrite Hland, Hc0, Hc1, Hc2. cbn [bind fst]. f_equal. apply Hint.
  rewrite Hhi, Hmid, Hlow, Ha.
  rewrite (Z.shiftl_mul_pow2 ((cp / 4096) mod 64) 12) by lia.
  rewrite (Z.shiftl_mul_pow2 ((cp / 64) mod 64) 6) by lia.
  rewrite (lor_shiftl_add (cp / 262144) (_ * 2 ^ 12) 18)
    by (change (2 ^ 12) with 4096; change (2 ^ 18) with 262144; lia).
  replace (cp / 262144 * 2 ^ 18 + (cp / 4096) mod 64 * 2 ^ 12)
    with (Z.shiftl (cp / 4096) 12).
  2:{ rewrite Z.shiftl_mul_pow2 by lia. change (2 ^ 12) with 4096.
      change (2 ^ 18) with 262144.
      pose proof (Z.div_mod (cp / 4096) 64 ltac:(lia)).
      replace (cp / 262144) with (cp / 4096 / 64) by (rewrite Z.div_div by lia; reflexivity).
      lia. }
  rewrite (lor_shiftl_add (cp / 4096) (_ * 2 ^ 6) 12)
    by (change (2 ^ 6) with 64; change (2 ^ 12) with 4096; lia).
  replace (cp / 4096 * 2 ^ 12 + (cp / 64) mod 64 * 2 ^ 6) with (Z.shiftl (cp / 64) 6).
  2:{ rewrite Z.shiftl_mul_pow2 by lia. change (2 ^ 6) with 64. change (2 ^ 12) with 4096.
      pose proof (Z.div_mod (cp / 64) 64 ltac:(lia)).
      replace (cp / 4096) with (cp / 64 / 64) by (rewrite Z.div_div by lia; reflexivity).
      lia. }
  rewrite lor_shiftl_add by lia.
  pose proof (Z.div_mod cp 64 ltac:(lia)). change (2 ^ 6) with 64. lia.
Qed.

Lemma encode_lead_byte (cp : Z) :
  0 <= cp ->
  exists b rest,
    utf8_encode cp = b :: rest /\ utf8_char_len b = Z.of_nat (length rest) + 1.
Proof.
  intros Hcp. unfold utf8_encode.
  destruct (Z.ltb_spec cp 0x80) as [H1|H1].
  { destruct (ascii_byte cp ltac:(lia)) as [Hb Hlen]. rewrite Hb.
    eexists _, _. split; [reflexivity | exact Hlen]. }
  destruct (Z.ltb_spec cp 0x800) as [H2|H2].
  { destruct (lead_byte_2 (Z.shiftr cp 6)) as (_ & Hlen & _).
    { rewrite Z.shiftr_div_pow2 by lia.
      split; [apply Z.div_le_lower_bound | apply Z.div_lt_upper_bound]; lia. }
    eexists _, _. split; [reflexivity | exact Hlen]. }
  destruct (Z.ltb_spec cp 0x10000) as [H3|H3].
  { destruct (lead_byte_3 (Z.shiftr cp 12)) as (_ & Hlen & _).
    { rewrite Z.shiftr_div_pow2 by lia.
      split; [apply Z.div_le_lower_bound | apply Z.div_lt_upper_bound]; lia. }
    eexists _, _. split; [reflexivity | exact Hlen]. }
  destruct (Z.ltb_spec cp 0x110000) as [H4|H4].
  { destruct (lead_byte_4 (Z.shiftr cp 18)) as (_ & Hlen & _).
    { rewrite Z.shiftr_div_pow2 by lia.
      split; [apply Z.div_le_lower_bound | apply Z.div_lt_upper_bound]; lia. }
    eexists _, _. split; [reflexivity | exact Hlen]. }
  eexists _, _. split; [reflexivity | reflexivity].
Qed.

(** X24.  [strada_ord] undoes [strada_chr]: for every code point from 0 to
    0x10FFFF the UTF-8 bytes that [strada_chr] writes decode to the same
    code point, and for every other [int] the result is 63, the ['?'] that
    [strada_chr] writes instead.  The first byte that is written announces,
    by [utf8_char_len], exactly the number of bytes written. *)
Theorem chr_then_ord (code : Z) :
  INT_MIN <= code <= INT_MAX ->
  strada_ord (Some (strada_chr code))
    = Done (if (0 <=? code) && (code <? 0x110000) then code else 63) /\
  exists b rest,
    strada_chr code = b :: rest /\ utf8_char_len b = Z.of_nat (length rest).
Proof.
  unfold INT_MIN, INT_MAX. intros Hcode. split.
  - unfold strada_chr.
    destruct (Z.leb_spec 0 code) as [Hpos|Hneg]; cbn [andb].
    + assert (Hu : uint32 code = code) by (unfold uint32; apply Z.mod_small; lia).
      rewrite Hu. destruct (Z.ltb_spec code 0x110000) as [Hin|Hout].
      * apply ord_of_encoded. lia.
      * unfold utf8_encode.
        replace (code <? 128) with false by (symmetry; apply Z.ltb_ge; lia).
        replace (code <? 2048) with false by (symmetry; apply Z.ltb_ge; lia).
        replace (code <? 65536) with false by (symmetry; apply Z.ltb_ge; lia).
        replace (code <? 1114112) with false by (symmetry; apply Z.ltb_ge; lia).
        reflexivity.
    + assert (Hu : uint32 code = code + 4294967296).
      { unfold uint32. symmetry. apply (Z.mod_unique_pos _ _ (-1)); lia. }
      rewrite Hu. unfold utf8_encode.
      replace (code + 4294967296 <? 128) with false by (symmetry; apply Z.ltb_ge; lia).
      replace (code + 4294967296 <? 2048) with false by (symmetry; apply Z.ltb_ge; lia).
      replace (code + 4294967296 <? 65536) with false by (symmetry; apply Z.ltb_ge; lia).
      replace (code + 4294967296 <? 1114112) with false by (symmetry; apply Z.ltb_ge; lia).
      reflexivity.
  - unfold strada_chr.
    destruct (encode_lead_byte (uint32 code)) as (b & rest & Henc & Hlen).
    { unfold uint32. apply Z.mod_pos_bound. lia. }
    exists b, (rest ++ [0]). rewrite Henc. split; [reflexivity|].
    rewrite Hlen, length_app. cbn [length]. lia.
Qed.

Lemma chr_then_ord_witness :
  INT_MIN <= 8364 <= INT_MAX /\
  strada_chr 8364 = [226; 130; 172; 0] /\
  strada_ord (Some (strada_chr 8364)) = Done 8364.
Proof.
  assert (Hrange : INT_MIN <= 8364 <= INT_MAX) by (unfold INT_MIN, INT_MAX; lia).
  destruct (chr_then_ord 8364 Hrange) as [Hord _].
  split; [exact Hrange|]. split; [reflexivity | exact Hord].
Defined.

(** ** Method calls *)

(** X25.  In a hierarchy without cycles a method call on a blessed object
    has two outcomes only (given fuel above the rank of its package): the
    call is dispatched, with the object as receiver, to a method of that
    name that the object's package or one reached from it defines, and
    [strada_can] says yes; or no such package defines the method,
    [strada_can] says no and the call ends the process with status 1. *)
Theorem method_call_dispatches_or_exits (fuel : nat) (s : State) (rank : string -> nat)
    (a : addr) (v : StradaValue) (bp m : string) :
  values s !! a = Some v ->
  blessed_package v = Some bp ->
  oop_initialized s = true ->
  acyclic (oop_packages s) rank ->
  (rank bp < fuel)%nat ->
  (exists f q,
     strada_method_call fuel (Some a) (Some m) s = Done (Invoke f a, s) /\
     strada_can fuel (Some a) (Some m) s = Done true /\
     reaches (oop_packages s) bp q /\ defines (oop_packages s) q m f) \/
  (strada_method_call fuel (Some a) (Some m) s = Exit 1 /\
   strada_can fuel (Some a) (Some m) s = Done false /\
   no_method_above (oop_packages s) m bp).
Proof.
  intros Hv Hbp Hinit Hacyc Hfuel.
  destruct (lookup_in_complete (oop_packages s) m rank Hacyc fuel bp [] Hfuel)
    as (r & vis' & Hin & Hpost).
  { intros x Hx. inversion Hx. }
  assert (Hrun : oop_lookup_method fuel s (Some bp) (Some m) = Done r)
    by (unfold oop_lookup_method; rewrite Hinit, Hin; reflexivity).
  unfold strada_method_call, strada_can.
  rewrite Hv, Hbp, Hinit, (oop_init_idem s Hinit), Hrun. cbn [bind].
  destruct r as [f|].
  - left. destruct (lookup_in_sound _ _ _ _ _ _ _ Hin) as (q & Hreach & Hdef).
    exists f, q. auto.
  - right. destruct (Hpost eq_refl) as [Hnone _]. auto.
Qed.

Lemma method_call_witness :
  (exists f q,
     strada_method_call 3 (Some 1%nat) (Some "hello"%string) (object_state diamond "D")
       = Done (Invoke f 1%nat, object_state diamond "D") /\
     strada_can 3 (Some 1%nat) (Some "hello"%string) (object_state diamond "D") = Done true /\
     reaches diamond "D" q /\ defines diamond q "hello" f) \/
  (strada_method_call 3 (Some 1%nat) (Some "hello"%string) (object_state diamond "D") = Exit 1 /\
   strada_can 3 (Some 1%nat) (Some "hello"%string) (object_state diamond "D") = Done false /\
   no_method_above diamond "hello" "D").
Proof.
  apply (method_call_dispatches_or_exits 3 (object_state diamond "D") diamond_rank 1%nat
           (mkValue 1 (PRef (Some 0%nat)) (Some "D"%string)) "D" "hello").
  - reflexivity.
  - reflexivity.
  - reflexivity.
  - exact diamond_acyclic.
  - vm_compute. lia.
Defined.

(** ** UTF-8 text *)

Lemma continuation_shape (x : Z) :
  0 <= x < 64 ->
  byte (Z.lor 0x80 x) <> 0 /\ utf8_is_continuation (byte (Z.lor 0x80 x)) = true.
Proof.
  intros Hx.
  pose proof (holds_below_spec 64
                (fun x => negb (byte (Z.lor 0x80 x) =? 0)
                          && utf8_is_continuation (byte (Z.lor 0x80 x)))
                ltac:(vm_compute; reflexivity) x ltac:(lia)) as H.
  apply andb_true_iff in H as [H1 H2]. apply negb_true_iff, Z.eqb_neq in H1. auto.
Qed.

Lemma lead_shape (base n x : Z) :
  (base = 0xC0 /\ n = 32) \/ (base = 0xE0 /\ n = 16) \/ (base = 0xF0 /\ n = 8) ->
  0 <= x < n ->
  utf8_is_continuation (byte (Z.lor base x)) = false.
Proof.
  intros Hcase Hx.
  assert (H : negb (utf8_is_continuation (byte (Z.lor base x))) = true).
  { destruct Hcase as [[-> ->]|[[-> ->]|[-> ->]]].
    - apply (holds_below_spec 32
               (fun x => negb (utf8_is_continuation (byte (Z.lor 0xC0 x))))
               ltac:(vm_compute; reflexivity) x ltac:(lia)).
    - apply (holds_below_spec 16
               (fun x => negb (utf8_is_continuation (byte (Z.lor 0xE0 x))))
               ltac:(vm_compute; reflexivity) x ltac:(lia)).
    - apply (holds_below_spec 8
               (fun x => negb (utf8_is_continuation (byte (Z.lor 0xF0 x))))
               ltac:(vm_compute; reflexivity) x ltac:(lia)). }
  apply negb_true_iff in H. exact H.
Qed.

Lemma ascii_shape (x : Z) : 0 <= x < 128 -> utf8_is_continuation x = false.
Proof.
  intros Hx.
  pose proof (holds_below_spec 128 (fun x => negb (utf8_is_continuation x))
                ltac:(vm_compute; reflexivity) x ltac:(lia)) as H.
  apply negb_true_iff in H. exact H.
Qed.

Lemma encode_shape (cp : Z) :
  0 < cp < 0x110000 ->
  exists b rest,
    utf8_encode cp = b :: rest /\ b <> 0 /\ utf8_is_continuation b = false /\
    utf8_char_len b = Z.of_nat (S (length rest)) /\
    Forall (fun x => x <> 0 /\ utf8_is_continuation x = true) rest.
Proof.
  intros Hcp. unfold utf8_encode.
  assert (Hcont : forall x, 0 <= x < 64 ->
            byte (Z.lor 0x80 x) <> 0 /\ utf8_is_continuation (byte (Z.lor 0x80 x)) = true)
    by apply continuation_shape.
  assert (Hm : forall y, 0 <= Z.land y 0x3F < 64)
    by (intros y; rewrite land_63; apply Z.mod_pos_bound; lia).
  destruct (Z.ltb_spec cp 0x80) as [H1|H1].
  { destruct (ascii_byte cp ltac:(lia)) as [Hb Hlen]. rewrite Hb.
    eexists _, _. split; [reflexivity|]. split; [lia|].
    split; [apply ascii_shape; lia|]. split; [exact Hlen | constructor]. }
  destruct (Z.ltb_spec cp 0x800) as [H2|H2].
  { assert (Hr : 2 <= Z.shiftr cp 6 < 32).
    { rewrite Z.shiftr_div_pow2 by lia.
      split; [apply Z.div_le_lower_bound | apply Z.div_lt_upper_bound]; lia. }
    destruct (lead_byte_2 _ Hr) as (Hnz & Hlen & _).
    eexists _, _. split; [reflexivity|]. split; [exact Hnz|].
    split; [apply (lead_shape 0xC0 32); [auto | lia]|]. split; [exact Hlen|].
    repeat constructor; apply Hcont, Hm. }
  destruct (Z.ltb_spec cp 0x10000) as [H3|H3].
  { assert (Hr : 0 <= Z.shiftr cp 12 < 16).
    { rewrite Z.shiftr_div_pow2 by lia.
      split; [apply Z.div_le_lower_bound | apply Z.div_lt_upper_bound]; lia. }
    destruct (lead_byte_3 _ Hr) as (Hnz & Hlen & _).
    eexists _, _. split; [reflexivity|]. split; [exact Hnz|].
    split; [apply (lead_shape 0xE0 16); [auto | lia]|]. split; [exact Hlen|].
    repeat constructor; apply Hcont, Hm. }
  replace (cp <? 1114112) with true by (symmetry; apply Z.ltb_lt; lia).
  assert (Hr : 0 <= Z.shiftr cp 18 < 8).
  { rewrite Z.shiftr_div_pow2 by lia.
    split; [apply Z.div_le_lower_bound | apply Z.div_lt_upper_bound]; lia. }
  destruct (lead_byte_4 _ Hr) as (Hnz & Hlen & _).
  eexists _, _. split; [reflexivity|]. split; [exact Hnz|].
  split; [apply (lead_shape 0xF0 8); [auto | lia]|]. split; [exact Hlen|].
  repeat constructor; apply Hcont, Hm.
Qed.

Lemma strlen_skip (rest more : list Z) (count : Z) :
  Forall (fun x => x <> 0 /\ utf8_is_continuation x = true) rest ->
  strlen_loop (rest ++ more) count = strlen_loop more count.
Proof.
  intros H. induction H as [|x rest [Hnz Hc] _ IH]; [reflexivity|].
  cbn [app strlen_loop]. replace (x =? 0) with false by (symmetry; apply Z.eqb_neq; exact Hnz).
  rewrite Hc. exact IH.
Qed.

Lemma strlen_text (cps : list Z) : forall count,
  Forall (fun cp => 0 < cp < 0x110000) cps ->
  strlen_loop (utf8_text cps) count = Done (count + Z.of_nat (length cps)).
Proof.
  unfold utf8_text. induction cps as [|cp cps IH]; intros count Hall.
  - cbn. f_equal. lia.
  - inversion Hall as [|? ? Hcp Hrest]; subst.
    destruct (encode_shape cp Hcp) as (b & rest & Henc & Hnz & Hlead & _ & Hcont).
    cbn [fmap list_fmap concat]. rewrite Henc. cbn [app strlen_loop].
    replace (b =? 0) with false by (symmetry; apply Z.eqb_neq; exact Hnz).
    rewrite Hlead, <- app_assoc, strlen_skip by exact Hcont.
    rewrite IH by exact Hrest. f_equal. cbn [length]. lia.
Qed.

Lemma offset_text (cps : list Z) : forall (fuel i : nat) (chars bytes : Z),
  Forall (fun cp => 0 < cp < 0x110000) cps ->
  (i <= length cps)%nat -> (i <= fuel)%nat ->
  offset_loop fuel (utf8_text cps) (chars + Z.of_nat i) chars bytes
    = Done (bytes + Z.of_nat (length (concat (utf8_encode <$> take i cps)))).
Proof.
  unfold utf8_text. induction cps as [|cp cps IH]; intros fuel i chars bytes Hall Hi Hfuel.
  - cbn [length] in Hi. replace i with 0%nat by lia. destruct fuel; cbn; f_equal; lia.
  - inversion Hall as [|? ? Hcp Hrest]; subst.
    destruct (encode_shape cp Hcp) as (b & rest & Henc & Hnz & _ & Hlen & _).
    cbn [fmap list_fmap concat]. rewrite Henc.
    destruct i as [|i].
    + destruct fuel; cbn [app offset_loop take fmap list_fmap concat length];
        replace (chars + Z.of_nat 0 <=? chars) with true by (symmetry; apply Z.leb_le; lia);
        rewrite orb_true_r; f_equal; lia.
    + destruct fuel as [|fuel]; [lia|]. cbn [app offset_loop].
      replace (b =? 0) with false by (symmetry; apply Z.eqb_neq; exact Hnz).
      replace (chars + Z.of_nat (S i) <=? chars) with false
        by (symmetry; apply Z.leb_gt; lia).
      cbn [orb]. cbv zeta. rewrite Hlen, Nat2Z.id.
      cbn [drop]. rewrite <- app_assoc, drop_app_length.
      replace (chars + Z.of_nat (S i)) with ((chars + 1) + Z.of_nat i) by lia.
      rewrite IH by (try exact Hrest; cbn [length] in Hi; lia).
      f_equal. cbn [take fmap list_fmap concat]. rewrite Henc, length_app.
      cbn [length]. lia.
Qed.

(** X26.  On the UTF-8 text of code points from 1 to 0x10FFFF, as
    [utf8_encode] writes them, [utf8_strlen] is the number of code points,
    not of bytes, and [utf8_offset] of a character index is the number of
    bytes that the characters before it take. *)
Theorem utf8_strlen_counts_code_points (cps : list Z) (i : nat) :
  Forall (fun cp => 0 < cp < 0x110000) cps ->
  (i <= length cps)%nat ->
  utf8_strlen (Some (utf8_text cps)) = Done (Z.of_nat (length cps)) /\
  utf8_offset i (Some (utf8_text cps)) (Z.of_nat i)
    = Done (Z.of_nat (length (concat (utf8_encode <$> take i cps)))).
Proof.
  intros Hall Hi. split.
  - unfold utf8_strlen. rewrite strlen_text by exact Hall. reflexivity.
  - unfold utf8_offset.
    pose proof (offset_text cps i i 0 0 Hall Hi (le_n _)) as H.
    cbn [Z.add] in H. exact H.
Qed.

Lemma utf8_strlen_witness :
  Forall (fun cp => 0 < cp < 0x110000) [104; 233; 8364] /\
  utf8_text [104; 233; 8364] = [104; 195; 169; 226; 130; 172; 0] /\
  utf8_strlen (Some (utf8_text [104; 233; 8364])) = Done 3 /\
  utf8_offset 2 (Some (utf8_text [104; 233; 8364])) 2 = Done 3.
Proof.
  assert (Hall : Forall (fun cp => 0 < cp < 0x110000) [104; 233; 8364])
    by (repeat constructor; lia).
  destruct (utf8_strlen_counts_code_points [104; 233; 8364] 2 Hall ltac:(cbn; lia))
    as [Hlen Hoff].
  split; [exact Hall|]. split; [reflexivity|]. split; [exact Hlen | exact Hoff].
Defined.

(** ** Storing a value over itself *)

Lemma release_owns_nothing (native : Native) (fuel : nat) (a : addr) (s : State)
    (v : StradaValue) :
  values s !! a = Some v ->
  refcount v = 1 ->
  blessed_package v = None ->
  owns_nothing (value v) = true ->
  strada_decref native (S fuel) (Some a) s
    = Done (with_values (delete a (values s)) (log (EvFree a) s)).
Proof.
  intros Hv Hrc Hbp Hplain.
  unfold strada_decref, decref_body. rewrite Hv, Hrc.
  change (int32 (1 - 1)) with 0. change (0 <=? 0) with true. cbv iota.
  pose proof (set_refcount_lookup s a v 0 Hv) as Hv0.
  cbn [strada_free_value]. rewrite Hv0. cbn [blessed_package value bind].
  rewrite Hbp. cbn [bind]. rewrite values_log, Hv0. cbn [value].
  assert (Hrel : forall t, release_payload
            (decref_body (strada_free_value native fuel)) (value v) t = Done t)
    by (intros t; destruct (value v); try discriminate Hplain; reflexivity).
  rewrite Hrel. cbn [bind]. rewrite values_log, Hv0. f_equal.
  unfold set_refcount. rewrite Hv. cbn [values with_values log].
  rewrite delete_insert_eq. destruct s; reflexivity.
Qed.

(** X27.  [strada_hash_set] releases the old value of the key before it
    takes its share of the new one.  So when the pointer stored is the one
    the key already holds, and the table is the only owner of that value,
    the value is freed by the call and the share is then taken of freed
    memory: the call faults. *)
Theorem hash_set_same_value_faults (native : Native) (fuel : nat) (s : State) (a : addr)
    (h : StradaHash) (k : string) (t : addr) (v : StradaValue) :
  hashes s !! a = Some h ->
  hash_wf h ->
  hash_map h !! k = Some (Some t) ->
  values s !! t = Some v ->
  refcount v = 1 ->
  blessed_package v = None ->
  owns_nothing (value v) = true ->
  strada_hash_set native (S fuel) (Some a) (Some k) (Some t) s = Fault.
Proof.
  intros Hh Hwf Hk Hv Hrc Hbp Hplain. pose proof Hwf as (Hn & _).
  pose proof (chain_find_map h k Hwf) as Hf.
  rewrite (hash_map_keys h k Hwf) in Hf by eauto. rewrite Hk in Hf.
  unfold strada_hash_set. rewrite Hh.
  replace (num_buckets h =? 0) with false by (symmetry; apply Z.eqb_neq; lia).
  destruct (chain_find (chain_at h k) k) as [old|]; [|discriminate Hf].
  cbn in Hf. injection Hf as Hold. rewrite Hold.
  rewrite (release_owns_nothing native fuel t s v Hv Hrc Hbp Hplain). cbn [bind].
  cbn [hashes with_values log]. rewrite Hh.
  unfold strada_incref. cbn [values with_hashes with_values]. rewrite lookup_delete_eq.
  reflexivity.
Qed.

Lemma hash_set_same_value_witness :
  hashes one_entry_state !! 1%nat = Some one_entry_table /\
  hash_wf one_entry_table /\
  hash_map one_entry_table !! "k"%string = Some (Some 7%nat) /\
  values one_entry_state !! 7%nat = Some (mkValue 1 (PInt 5) None) /\
  strada_hash_set no_native 1 (Some 1%nat) (Some "k"%string) (Some 7%nat) one_entry_state
    = Fault.
Proof.
  destruct one_entry_table_wf as [Hwf Hmap].
  assert (Hh : hashes one_entry_state !! 1%nat = Some one_entry_table) by reflexivity.
  assert (Hk : hash_map one_entry_table !! "k"%string = Some (Some 7%nat))
    by (rewrite Hmap; reflexivity).
  assert (Hv : values one_entry_state !! 7%nat = Some (mkValue 1 (PInt 5) None))
    by reflexivity.
  split; [exact Hh|]. split; [exact Hwf|]. split; [exact Hk|]. split; [exact Hv|].
  apply (hash_set_same_value_faults no_native 0 one_entry_state 1%nat one_entry_table "k"
           7%nat _ Hh Hwf Hk Hv eq_refl eq_refl eq_refl).
Defined.

(** ** Closures: creation and release *)

Lemma foldr_delete_commute {A : Type} (m : gmap addr A) (c : addr) (cs : list addr) :
  foldr delete (delete c m) cs = delete c (foldr delete m cs).
Proof.
  induction cs as [|x cs IH]; [reflexivity|]. cbn [foldr]. rewrite IH.
  apply delete_delete.
Qed.

Lemma frame_overwrite (s : State) (vs vs' : gmap addr StradaValue)
    (cs cs' : gmap addr ptr) :
  with_cells cs (with_values vs (with_cells cs' (with_values vs' s)))
    = with_cells cs (with_values vs s).
Proof. reflexivity. Qed.

Lemma copy_captures_frame : forall (vars : list addr) (s : State),
  variables_ok s vars ->
  exists caps s1,
    copy_captures (length vars) (map Some vars) s = Done (map Some caps, s1) /\
    NoDup caps /\
    (forall c, c ∈ caps -> cells s !! c = None) /\
    foldr delete (cells s1) caps = cells s /\
    with_cells (cells s) (with_values (values s) s1) = s.
Proof.
  induction vars as [|x rest IH]; intros s Hok.
  - exists [], s. split; [reflexivity|]. split; [constructor|].
    split; [intros c Hc; inversion Hc|]. split; [reflexivity|]. destruct s; reflexivity.
  - destruct (Hok x) as (held & Hx & Hlive); [left|].
    set (c := fresh (dom (cells s))).
    assert (Hc : cells s !! c = None) by apply fresh_cell_unused.
    set (s1 := with_cells (<[c := held]> (cells s)) s).
    assert (Hinc : exists s2,
               match held with Some _ => strada_incref held s1 | None => Done s1 end = Done s2 /\
               cells s2 = <[c := held]> (cells s) /\
               with_cells (cells s) (with_values (values s) s2) = s /\
               (forall t, is_Some (values s !! t) -> is_Some (values s2 !! t))).
    { destruct held as [t0|].
      - destruct (Hlive t0 eq_refl) as [v0 Hv0].
        unfold strada_incref. change (values s1) with (values s). rewrite Hv0.
        eexists. split; [reflexivity|].
        unfold set_refcount. change (values s1) with (values s). rewrite Hv0.
        split; [reflexivity|]. split; [destruct s; reflexivity|].
        intros t Ht. cbn [values with_values]. destruct (decide (t0 = t)) as [->|Hne].
        + rewrite lookup_insert_eq. eauto.
        + rewrite lookup_insert_ne by exact Hne. exact Ht.
      - exists s1. split; [reflexivity|]. split; [reflexivity|].
        split; [destruct s; reflexivity | auto]. }
    destruct Hinc as (s2 & Hs2 & Hcells2 & Hframe2 & Hlive2).
    destruct (IH s2) as (caps & s3 & Hrun & Hnd & Hfresh & Hdel & Hframe).
    { intros y Hy. destruct (Hok y) as (h & Hyc & Hyl); [right; exact Hy|].
      exists h. split.
      - rewrite Hcells2, lookup_insert_ne by congruence. exact Hyc.
      - intros t Ht. apply Hlive2, (Hyl t Ht). }
    exists (c :: caps), s3. split.
    { cbn [length map copy_captures]. rewrite Hx. fold c. fold s1.
      rewrite Hs2. cbn [bind]. rewrite Hrun. reflexivity. }
    split.
    { constructor; [|exact Hnd]. intros Hin. specialize (Hfresh c Hin).
      rewrite Hcells2, lookup_insert_eq in Hfresh. discriminate Hfresh. }
    split.
    { intros c' Hc'. apply elem_of_cons in Hc' as [->|Hc']; [exact Hc|].
      specialize (Hfresh c' Hc'). rewrite Hcells2 in Hfresh.
      apply lookup_insert_None in Hfresh as [Hfresh _]. exact Hfresh. }
    split.
    { cbn [foldr]. rewrite Hdel, Hcells2, delete_insert_eq. apply delete_id. exact Hc. }
    rewrite <- (frame_overwrite s3 (values s) (values s2) (cells s) (cells s2)).
    rewrite Hframe. exact Hframe2.
Qed.

Lemma captures_of_cons (s : State) (x : addr) (vars : list addr) (t : addr) :
  captures_of s (x :: vars) t
    = (if bool_decide (cells s !! x = Some (Some t)) then S (captures_of s vars t)
       else captures_of s vars t).
Proof.
  unfold captures_of. cbn [List.filter].
  destruct (bool_decide (cells s !! x = Some (Some t))); reflexivity.
Qed.

Lemma captures_of_le (s : State) (vars : list addr) (t : addr) :
  (captures_of s vars t <= length vars)%nat.
Proof.
  induction vars as [|x vars IH]; [unfold captures_of; cbn; lia|].
  rewrite captures_of_cons. cbn [length].
  destruct (bool_decide (cells s !! x = Some (Some t))); lia.
Qed.

Lemma captures_of_pos (s : State) (vars : list addr) (t : addr) :
  (0 < captures_of s vars t)%nat -> exists x, x ∈ vars /\ cells s !! x = Some (Some t).
Proof.
  induction vars as [|x vars IH]; [unfold captures_of; cbn; lia|].
  rewrite captures_of_cons.
  destruct (bool_decide (cells s !! x = Some (Some t))) eqn:Hx.
  - intros _. exists x. split; [apply list_elem_of_here|].
    apply bool_decide_eq_true in Hx. exact Hx.
  - intros H. destruct (IH H) as (y & Hy & Hc). exists y.
    split; [apply list_elem_of_further; exact Hy | exact Hc].
Qed.

Lemma free_captures_release (native : Native) (fuel : nat) (s : State) :
  forall (vars caps : list addr) (u : State) (base : gmap addr StradaValue),
    length caps = length vars ->
    NoDup caps ->
    (forall i c x, caps !! i = Some c -> vars !! i = Some x ->
       exists held, cells s !! x = Some held /\ cells u !! c = Some held) ->
    (forall t, values u !! t
               = (fun v => mkValue (refcount v + Z.of_nat (captures_of s vars t))
                             (value v) (blessed_package v)) <$> base !! t) ->
    (forall x t, x ∈ vars -> cells s !! x = Some (Some t) ->
       exists v, base !! t = Some v /\
         1 <= refcount v /\ refcount v + Z.of_nat (length vars) <= INT_MAX) ->
    free_captures (decref_body (strada_free_value native fuel)) (length caps)
      (map Some caps) u
    = Done (with_cells (foldr delete (cells u) caps) (with_values base u)).
Proof.
  induction vars as [|x vars IH]; intros caps u base Hlen Hnd Hcells Hvals Hroom.
  - destruct caps; [|discriminate Hlen]. cbn [length map free_captures foldr]. f_equal.
    assert (Hbase : values u = base).
    { apply map_eq. intros t. rewrite Hvals. destruct (base !! t) as [[rc p b]|]; [|reflexivity].
      cbn. unfold captures_of. cbn. rewrite Z.add_0_r. reflexivity. }
    rewrite <- Hbase. destruct u; reflexivity.
  - destruct caps as [|c caps]; [discriminate Hlen|].
    cbn [length] in Hlen. injection Hlen as Hlen.
    apply NoDup_cons in Hnd as [Hc Hnd].
    destruct (Hcells 0%nat c x eq_refl eq_refl) as (held & Hx & Hcu).
    cbn [length map free_captures]. rewrite Hcu.
    assert (Hstep : exists u1,
      match held with
      | Some _ => decref_body (strada_free_value native fuel) held u
      | None => Done u
      end = Done u1 /\
      cells u1 = cells u /\
      with_cells (cells u) (with_values (values u) u1) = u /\
      forall t, values u1 !! t
                = (fun v => mkValue (refcount v + Z.of_nat (captures_of s vars t))
                              (value v) (blessed_package v)) <$> base !! t).
    { destruct held as [t0|].
      - destruct (Hroom x t0 (list_elem_of_here _ _) Hx) as (v0 & Hv0 & Hone & Hmax).
        pose proof (Hvals t0) as Hu0. rewrite Hv0 in Hu0. cbn [fmap option_fmap option_map] in Hu0.
        rewrite captures_of_cons, bool_decide_eq_true_2 in Hu0 by exact Hx.
        pose proof (captures_of_le s vars t0) as Hle. cbn [length] in Hmax.
        unfold decref_body. rewrite Hu0. cbn [refcount].
        rewrite int32_small by (unfold INT_MIN, INT_MAX in *; lia).
        replace (refcount v0 + Z.of_nat (S (captures_of s vars t0)) - 1 <=? 0) with false
          by (symmetry; apply Z.leb_gt; lia).
        eexists. split; [reflexivity|].
        unfold set_refcount. rewrite Hu0. cbn [cells values with_values].
        split; [reflexivity|]. split; [destruct u; reflexivity|].
        intros t. destruct (decide (t0 = t)) as [<-|Hne].
        + rewrite lookup_insert_eq, Hv0. cbn. f_equal. f_equal. lia.
        + rewrite lookup_insert_ne by exact Hne. rewrite Hvals.
          rewrite captures_of_cons, bool_decide_eq_false_2 by congruence. reflexivity.
      - exists u. split; [reflexivity|]. split; [reflexivity|].
        split; [destruct u; reflexivity|].
        intros t. rewrite Hvals, captures_of_cons, bool_decide_eq_false_2 by congruence.
        reflexivity. }
    destruct Hstep as (u1 & Hrun & Hcells1 & Hframe1 & Hvals1).
    rewrite Hrun. cbn [bind].
    set (u2 := with_cells (delete c (cells u1)) u1).
    rewrite (IH caps u2 base Hlen Hnd).
    + assert (Hdel : foldr delete (cells u2) caps = foldr delete (cells u) (c :: caps)).
      { unfold u2. cbn [cells with_cells foldr]. rewrite Hcells1.
        apply foldr_delete_commute. }
      rewrite Hdel. set (rest := foldr delete (cells u) (c :: caps)).
      unfold u2. rewrite <- Hframe1. destruct u1; reflexivity.
    + intros i ci xi Hci Hxi.
      destruct (Hcells (S i) ci xi Hci Hxi) as (h & Hxs & Hcs).
      exists h. split; [exact Hxs|]. unfold u2. cbn [cells with_cells].
      rewrite Hcells1, lookup_delete_ne; [exact Hcs|].
      intros ->. apply Hc. eapply list_elem_of_lookup_2. exact Hci.
    + intros t. apply Hvals1.
    + intros y t Hy Hyt.
      destruct (Hroom y t (list_elem_of_further _ _ _ Hy) Hyt) as (v & Hv & Hone & Hmax).
      exists v. split; [exact Hv|]. split; [exact Hone|]. cbn [length] in Hmax. lia.
Qed.

Lemma iter_incremented (k : nat) (rc : Z) :
  INT_MIN <= rc -> rc + Z.of_nat k <= INT_MAX ->
  Nat.iter k incremented rc = rc + Z.of_nat k.
Proof.
  induction k as [|k IH]; intros Hmin Hmax; [cbn; lia|].
  rewrite Nat.iter_succ, IH by lia. unfold incremented.
  rewrite int32_small by (unfold INT_MIN, INT_MAX in *; lia). lia.
Qed.

Lemma map_Some_inj {A : Type} (l l' : list A) : map Some l = map Some l' -> l = l'.
Proof.
  revert l'. induction l as [|x l IH]; intros [|y l'] H; try discriminate H; [reflexivity|].
  cbn [map] in H. injection H as -> H. f_equal. apply IH. exact H.
Qed.

Lemma closure_new_runs (f : StradaMethod) (params : Z) (vars caps : list addr)
    (s s1 : State) :
  vars <> [] ->
  copy_captures (length vars) (map Some vars) s = Done (map Some caps, s1) ->
  let c := fresh (dom (closures s1)) in
  let clo := mkClosure f params (Z.of_nat (length vars)) (Some (map Some caps)) in
  let s2 := with_closures (<[c := clo]> (closures s1)) s1 in
  strada_closure_new f params (Z.of_nat (length vars)) (Some (map Some vars)) s
    = Done (alloc_value (mkValue 1 (PClosure (Some c)) None) s2).
Proof.
  intros Hne Hrun c clo s2. unfold strada_closure_new.
  replace (0 <? Z.of_nat (length vars)) with true
    by (symmetry; apply Z.ltb_lt; destruct vars; [congruence | cbn [length]; lia]).
  rewrite Nat2Z.id, Hrun. reflexivity.
Qed.

(** X28.  Creating a closure and releasing it leaves no trace in the heap.
    [strada_closure_new] gives every captured variable a cell of its own
    and every captured value one more owner per capture; the last
    [strada_decref] of the closure gives each of these shares back, frees
    the cells, the closure record and the closure value, and frees nothing
    else: the state is again the one before the closure was created, the
    profiling hook having seen one release.  Each captured value needs an
    owner of its own and room in its count for the captures. *)
Theorem closure_new_then_release (native : Native) (fuel : nat) (f : StradaMethod)
    (params : Z) (vars : list addr) (s : State) :
  vars <> [] ->
  variables_ok s vars ->
  capture_room s vars ->
  exists cl s',
    strada_closure_new f params (Z.of_nat (length vars)) (Some (map Some vars)) s
      = Done (cl, s') /\
    values s !! cl = None /\
    strada_decref native (S fuel) (Some cl) s' = Done (log (EvFree cl) s).
Proof.
  intros Hne Hok Hroom.
  destruct (copy_captures_spec vars s Hok)
    as (caps & s1 & Hrun & Hlen & Hidx & Hold & Hval & Hnone & Hclo).
  destruct (copy_captures_frame vars s Hok)
    as (caps' & s1' & Hrun' & Hnd & Hfresh & Hdel & Hframe).
  rewrite Hrun in Hrun'. injection Hrun' as Hcaps <-.
  apply map_Some_inj in Hcaps. subst caps'.
  pose proof (closure_new_runs f params vars caps s s1 Hne Hrun) as Hnew.
  cbv zeta in Hnew.
  set (c := fresh (dom (closures s1))) in *.
  set (clo := mkClosure f params (Z.of_nat (length vars)) (Some (map Some caps))) in *.
  set (s2 := with_closures (<[c := clo]> (closures s1)) s1) in *.
  set (cl := fresh (dom (values s1))).
  assert (Hcl1 : values s1 !! cl = None) by apply fresh_value_unused.
  assert (Hcl : values s !! cl = None).
  { destruct (values s !! cl) as [v|] eqn:Hv; [|reflexivity].
    rewrite (Hval cl v Hv) in Hcl1. discriminate Hcl1. }
  assert (Hc : closures s1 !! c = None) by (apply not_elem_of_dom, is_fresh).
  set (s3 := with_values (<[cl := mkValue 1 (PClosure (Some c)) None]> (values s1)) s2).
  exists cl, s3. split; [exact Hnew|]. split; [exact Hcl|].
  assert (Hv3 : values s3 !! cl = Some (mkValue 1 (PClosure (Some c)) None))
    by apply lookup_insert_eq.
  unfold strada_decref, decref_body. rewrite Hv3. cbn [refcount].
  change (int32 (1 - 1)) with 0. change (0 <=? 0) with true. cbv iota.
  set (v0 := mkValue 0 (PClosure (Some c)) None).
  set (u := log (EvFree cl) (set_refcount cl 0 s3)).
  assert (Hvu : values u = <[cl := v0]> (values s1)).
  { unfold u, set_refcount. rewrite Hv3. cbn [values with_values log s3].
    apply insert_insert_eq. }
  assert (Hcu : cells u = cells s1)
    by (unfold u, set_refcount; rewrite Hv3; reflexivity).
  assert (Hclu : closures u !! c = Some clo)
    by (unfold u, set_refcount; rewrite Hv3; cbn [closures with_values log s3 s2 with_closures];
        apply lookup_insert_eq).
  cbn [strada_free_value].
  rewrite (set_refcount_lookup s3 cl _ 0 Hv3). cbn [blessed_package value bind].
  fold u. rewrite Hvu, lookup_insert_eq. change (value v0) with (PClosure (Some c)).
  cbn [release_payload free_closure_body]. rewrite Hclu. cbn [captures capture_count clo]. rewrite Nat2Z.id, <- Hlen.
  rewrite (free_captures_release native fuel s vars caps u (<[cl := v0]> (values s)) Hlen Hnd).
  - cbn [bind closures with_cells with_values values].
    change (values (with_closures (delete c (closures u))
                      (with_cells (foldr delete (cells u) caps)
                         (with_values (<[cl:=v0]> (values s)) u))))
      with (<[cl:=v0]> (values s)).
    rewrite lookup_insert_eq.
    f_equal. rewrite delete_insert_eq, (delete_id _ _ Hcl), Hcu, Hdel.
    assert (Hclos : delete c (closures u) = closures s1).
    { unfold u, set_refcount. rewrite Hv3.
      cbn [closures with_values log s3 s2 with_closures].
      rewrite delete_insert_eq. apply delete_id. exact Hc. }
    rewrite Hclos.
    assert (Hrest : forall X,
      with_values (values s)
        (with_closures (closures s1) (with_cells (cells s) (with_values X u)))
      = log (EvFree cl) (with_cells (cells s) (with_values (values s) s1))).
    { intros X. unfold u, set_refcount. rewrite Hv3. unfold s3, s2.
      destruct s1; reflexivity. }
    rewrite Hrest, Hframe. reflexivity.
  - intros i ci x Hci Hx.
    destruct (Hok x) as (held & Hxc & _); [eapply list_elem_of_lookup_2; exact Hx|].
    exists held. split; [exact Hxc|].
    destruct (Hidx i x ci Hx Hci) as [_ Heq]. rewrite Hcu, Heq. exact Hxc.
  - intros t. rewrite Hvu. destruct (decide (cl = t)) as [<-|Hnt].
    + rewrite !lookup_insert_eq. cbn [fmap option_fmap option_map].
      replace (captures_of s vars cl) with 0%nat; [cbn; reflexivity|].
      destruct (captures_of s vars cl) as [|k] eqn:Hk; [reflexivity|].
      destruct (captures_of_pos s vars cl) as (x & Hx & Hxc); [lia|].
      destruct (Hok x Hx) as (held & Hh & Hlive). rewrite Hxc in Hh. injection Hh as <-.
      destruct (Hlive cl eq_refl) as [v Hv]. congruence.
    + rewrite !lookup_insert_ne by exact Hnt.
      destruct (values s !! t) as [v|] eqn:Hv.
      * rewrite (Hval t v Hv). cbn [fmap option_fmap option_map]. f_equal. f_equal.
        destruct (captures_of s vars t) as [|k] eqn:Hk; [cbn; lia|].
        destruct (captures_of_pos s vars t) as (x & Hx & Hxc); [lia|].
        destruct (Hroom x t v Hx Hxc Hv) as [Hone Hmax].
        pose proof (captures_of_le s vars t) as Hle.
        apply iter_incremented; unfold INT_MIN; lia.
      * rewrite (Hnone t Hv). reflexivity.
  - intros x t Hx Hxc.
    destruct (Hok x Hx) as (held & Hh & Hlive). rewrite Hxc in Hh. injection Hh as <-.
    destruct (Hlive t eq_refl) as [v Hv].
    exists v. split; [|apply (Hroom x t v Hx Hxc Hv)].
    rewrite lookup_insert_ne by congruence. exact Hv.
Qed.

Lemma closure_release_witness :
  variables_ok scope_x_is_1 [0%nat] /\
  capture_room scope_x_is_1 [0%nat] /\
  exists cl s',
    strada_closure_new 7%nat 0 1 (Some [Some 0%nat]) scope_x_is_1 = Done (cl, s') /\
    strada_decref no_native 1 (Some cl) s' = Done (log (EvFree cl) scope_x_is_1).
Proof.
  assert (Hok : variables_ok scope_x_is_1 [0%nat]).
  { intros x Hx. apply list_elem_of_singleton in Hx as ->.
    exists (Some 0%nat). split; [reflexivity|]. intros t [= <-]. eexists. reflexivity. }
  assert (Hroom : capture_room scope_x_is_1 [0%nat]).
  { intros x t v Hx Hc Hv. apply list_elem_of_singleton in Hx as ->.
    assert (Ht : t = 0%nat) by (vm_compute in Hc; congruence). subst t.
    assert (Hv0 : v = mkValue 1 (PInt 1) None) by (vm_compute in Hv; congruence). subst v.
    unfold INT_MAX. cbn. lia. }
  destruct (closure_new_then_release no_native 0 7%nat 0 [0%nat] scope_x_is_1
              ltac:(discriminate) Hok Hroom) as (cl & s' & Hnew & _ & Hrel).
  split; [exact Hok|]. split; [exact Hroom|]. exists cl, s'. split; [exact Hnew | exact Hrel].
Defined.
